(* ===== verification/_CoqProject ===== *)
-Q . S2P
Prelude.v
GoStrings.v
Errors.v
Code.v
Paths.v
GoTime.v
GoHttp.v
Flags.v
GoBase64.v
Manifest.v
Wire.v
Admission.v
Prog.v
Schema.v
Tree.v
Integrity.v
GoUrl.v
Materialize.v
Archive.v
Store.v
Config.v
World.v
Service.v
Upload.v
Commit.v
Simple.v
Janitor.v
Api.v
Safety.v
ServiceProofs.v
UploadProofs.v
CommitProofs.v
SimpleProofs.v
JanitorProofs.v
ReconcileProofs.v
ApiProofs.v
System.v
Durability.v
Resume.v
Demo.v
Guarantees.v
HttpGuarantees.v
Host.v
Net.v
Auth.v
AuthProofs.v
Daemon.v
DaemonProofs.v
DaemonHazards.v
Middleware.v
Client.v
Recv.v
RecvProofs.v
FetchProofs.v
Handoff.v
Pack.v
Copy.v
Send.v
Cli.v
CliProofs.v
PackProofs.v
CopyProofs.v
SendProofs.v
Availability.v
Delivery.v
CliDelivery.v
Hazards.v
ClientHazards.v
