(* ===== verification/Prelude.v ===== *)
(** * sss: a verified model of the file handoff server

    sss (Go, src/) lets a sender hand files to a receiver through a short code: a daemon
    keeps transfers in a SQLite database and a directory per transfer, serves them over
    HTTP and over a local socket until they expire, and a command-line client sends and
    receives.  This development models the program's logic in Rocq, as executable
    definitions translated from the Go source, and proves what the program promises.

    ** How the program is put together

    A request passes the authentication wrapper (internal/api/middleware, internal/auth)
    and reaches a handler (internal/api/public, internal/api/local), which calls the service
    (internal/transfer).  The service keeps rows in the repository (internal/store/sqlite),
    directories in the layout (internal/store/files: a transfer is staged, then renamed into
    the live area, then into the trash), asks admission control (internal/admission) for
    room, verifies digests (internal/integrity) and unpacks segments
    (internal/materialize).  The janitor (internal/janitor) expires and deletes; startup
    reconciliation (internal/reconcile) finishes or undoes what a crash interrupted.  Shared
    rules (codes, manifests, paths, errors, the wire format) are in internal/protocol.

    ** Files of the development

    - Foundations: [Prelude] (machine integers, list lemmas), [GoStrings] (byte strings,
      UTF-8, strings, path, strconv), [GoTime] (time, ParseDuration on float64), [GoHttp]
      (net/url, mime), [Prog] (effectful programs, schedules of faults and crashes, the [wp]
      calculus and its automation), [Tree] (directory trees, package os, platform/fs.go).
    - Protocol: [Errors] (protocol/errors.go, the client's parser), [Code] (code.go),
      [Paths] (ValidateComponent, SafeJoin, layout names), [Manifest] (manifest.go), [Wire]
      (wire.go), [Config] (config/server.go), [Admission] (admission.go).
    - Components: [Integrity], [Materialize], [Archive], [Store] (the SQL tables as finite
      maps, one definition per query or transaction), [World] (the state all handlers
      share: database, areas, cache, clock, disk, randomness), [Service] (service.go),
      [Upload] and [Commit] (advanced.go, publish.go), [Simple] (simple.go), [Janitor]
      (janitor.go, reconcile.go), [Api] (public/api.go, errors.go, local.go).
    - Proofs: [Safety] (the invariant and what keeps it), [ServiceProofs], [UploadProofs],
      [CommitProofs], [SimpleProofs], [JanitorProofs], [ReconcileProofs], [ApiProofs] (each
      operation keeps the invariant and does what it says), [System] (the server as a
      transition system: requests, time, kills, restarts), [Durability] (what operations
      may do to published transfers), [Resume] (interrupted uploads).
    - The client: [Host] (the files of its machine, platform/fs.go), [Net] (the route
      tables of public/api.go and local.go, and how bodies arrive), [Client] (client.go),
      [Recv] (recv.go), [Pack] (pack/plan.go, build.go), [Send] (send.go); proofs about them
      in [RecvProofs], [FetchProofs] (segment downloads against any peer), [PackProofs] and
      [SendProofs] (plans and the manifests made of them).
    - The command line: [Flags] (package flag and parseArgs), [GoUrl] (net/url, net.ParseIP),
      [Copy] (CopyTree of platform/fs.go), [Cli] (cli.go, commands.go, server.go, config/client.go);
      proofs in [CopyProofs], [CliProofs] and [CliDelivery] (two command lines and a server).
    - The daemon: [Schema] (schema.go, Open and migrate of store.go), [Daemon] (app/serve.go,
      LoadServer, runServe), [DaemonProofs] (it refines [System]), [DaemonHazards], [Middleware]
      (observability/log.go, the wrappers of middleware.go around both listeners).
    - The password: [GoBase64] (encoding/base64, fmt.Sscanf), [Auth] (auth.go, the password
      wrapper of middleware.go and the public listener), [AuthProofs].
    - Results: [Demo] (a concrete server on which theorems are exercised), [Guarantees] and
      [HttpGuarantees] (the server's theorems), [Handoff] (the receiver against the server),
      [Delivery] (the sender against the server, and both ends together), [Availability] (runs
      in which no call fails), [Hazards] and
      [ClientHazards] (what the code does not guarantee, as concrete runs).

    ** How state and effects are modelled

    A Go function with effects is a value of [prog world A]: a tree of single calls.  Each
    call has its normal effect and the alternatives the operating system, the disk, the
    database, the clock or a cancelled context can produce: an I/O error before or after the
    effect, a short write, rows in another order, a clock that moved.  [run] executes a
    program under a schedule of events, which may also stop the process between any two
    calls; [wp] is what holds for every schedule.  A theorem about [run p es w] for all [es]
    therefore covers every failure and every crash point of [p].  A client is a program over
    its own files and a peer that answers messages ([host]); run against the server's route
    table, a schedule interrupts both.  Machine integers are [Z]
    with their wrap-around written out; Go maps and SQL tables are [gmap]s; errors are values
    of sum types.

    ** What is proved

    - Safety of published data: [committed_is_complete], [published_survives],
      [crash_and_restart_safe], [sweep_spares], [download_is_complete],
      [segment_is_authentic], [download_is_authentic], [code_resolves_only_unexpired].
    - Nothing is refused without a reason: [healthy_server_delivers] (an upload whose calls
      succeed is answered with a code that gives the bytes back until it expires).
    - Functional correctness of publication: [commit_publishes], [simple_upload_publishes],
      [materialize_correct], [upload_resumes], [retry_never_duplicates].
    - The daemon's life: [daemon_refines_server] (everything proved of reachable states holds of
      real daemons, started, killed and shut down in any way), [daemon_comes_back],
      [migrations_resumable].
    - From command line to command line: [sssend_then_ssrecv]; what a command prints,
      [one_result_on_stdout]; its options, [parseArgs_documented]; copies on the server's own
      machine, [local_copy_exact].
    - Both ends: [send_then_receive] (what was sent is what arrives), [send_publishes],
      [receive_delivers]; on the way [scan_describes], [scanned_manifest_valid],
      [fetched_exactly], [verified_fetch_resumable].
    - The repository: [store_invariant], [Publish_correct], [ExpireDue_exact].
    - Names, codes and manifests: [SafeJoin_contained], [SafeJoin_portable],
      [layout_injective], [disposition_safe], [Validate_manifest_ok],
      [SortedEntries_parents_first], [NormalizeCode_iff], [FormatCode_NormalizeCode],
      [code_char_uniform].
    - Wire rules: [parseError_PlainLine], [ParseTTL_range], [HumanBytes_total],
      [admissions_respect_watermark], [Admit_overflow].
    - The password: [stranger_changes_nothing], [password_holder_is_served],
      [Verify_cache_transparent], [HashPassword_verifies], [limiter_counts].  What wraps the
      handlers: [wrappers_only_observe].
    - Limits of the guarantees: [forwarded_for_evades_limit],
      [parallel_guesses_are_checked], [shutdown_unlinks_successor] and the theorems of [Hazards]
      and [ClientHazards].

    ** Bounds and fuel

    Programs are finite trees, so every handler terminates.  Fuel appears in [human_loop]
    (six divisions by 1024 bring an int64 below 1024: [HumanBytes_total]), [decimal] (an
    int64 has at most 19 digits: [Atoi_FormatInt]), [duration_groups] and [media_params] (the
    length of the string: every turn consumes a byte), [parse_loop] (the number of arguments:
    every turn consumes one, [parseArgs_pass]) and [v6_fields] (an address has eight).  [Publish] draws at most 16 codes, as
    the code does.  The limiter's count is proved for up to 120 failures a minute, by
    evaluating its floating-point arithmetic.  A request's file parts are below 2^63 bytes ([bounded_part]).

    ** Parameters

    The code of other projects is a parameter: BLAKE3 and bao, SHA-256, the zstd and tar
    readers ([Externals], laws in [ExternalsLaws]), encoding/json on manifests
    ([ManifestCodec]: what it wrote for UTF-8 strings and int64 numbers it reads back), the
    Unicode lower-case table ([Unicode]), the tar and zstd writers ([Packer]),
    encoding/json on sessions ([SessionCodec]) and on the saved configuration ([ConfigCodec]),
    the TOML decoder ([Toml]) and argon2 ([Argon2]).  [Demo], [Delivery] and [AuthProofs]
    instantiate them.  A request gets
    identifiers that are in use with the probability of a 128-bit collision; [fresh_next]
    excludes it.

    ** Not modelled, and why

    Handlers are proved one at a time; [Hazards] shows two interleavings that break the
    guarantees.  The client's upload and download workers take their segments one after the
    other: they work on files and uploads of their own.  Data written but not synced survives
    a crash of the process (not a loss of power).  A daemon's listeners, its socket path and
    its start and stop are modelled, its goroutines as requests and cleanup passes one at a
    time.  net/http (parsing, ranges), the SQLite engine beyond what [Store] and [Schema] say,
    signals and progress reports are I/O or library code.  The lines about requests are modelled
    ([Middleware]); the log of the service, the janitor and the daemon, which no code reads, is
    not.  The command line's texts are kept as
    their parts ([cell]); their layout is not. *)
From Stdlib Require Export ZArith Lia Ascii String Bool.
From stdpp Require Export base tactics option list strings gmap sets.

#[export] Set Default Goal Selector "!".
#[global] Open Scope Z_scope.
#[global] Arguments String.append !_ _ / : simpl nomatch.

(** ** Machine integers *)

(** Go's [int64] (and [int] on the 64-bit targets): conversion of a mathematical
    integer with two's-complement wrap-around. *)
Definition int64 (z : Z) : Z := (z + 2^63) mod 2^64 - 2^63.

Definition min_int64 : Z := - 2^63.
Definition max_int64 : Z := 2^63 - 1.
Definition in_int64 (z : Z) : Prop := min_int64 <= z <= max_int64.

(** ** Optional values *)

(** Did an optional-error call succeed (Go's [err == nil])? *)
Definition ok {E} (o : option E) : bool := match o with None => true | Some _ => false end.

(** ** Lists *)

(** The first element of a list that makes [f] answer, with that answer: the shape
    of every [for ... { if bad { return err } }] validation loop. *)
Fixpoint first_some {A B} (f : A -> option B) (l : list A) : option B :=
  match l with
  | [] => None
  | x :: l => match f x with Some b => Some b | None => first_some f l end
  end.

(** ** Proof automation *)

(** Split the [match]es of a hypothesis or goal and clear the contradictory cases. *)
Ltac split_match :=
  repeat (case_match; simplify_eq/=; try done).

Ltac boolprop :=
  rewrite ?andb_true_iff, ?orb_true_iff, ?negb_true_iff, ?andb_false_iff, ?orb_false_iff,
    ?negb_false_iff, ?Z.leb_le, ?Z.ltb_lt, ?Z.eqb_eq, ?Z.leb_gt, ?Z.ltb_ge, ?Z.eqb_neq,
    ?String.eqb_eq, ?String.eqb_neq in *.

(** Splits the conjunctions one sees, without unfolding definitions. *)
Ltac conjs := repeat match goal with |- _ /\ _ => split end.

Create HintDb sss discriminated.

(** ** Lemmas *)

Lemma int64_range z : in_int64 (int64 z).
Proof.
  unfold in_int64, min_int64, max_int64, int64.
  pose proof (Z.mod_pos_bound (z + 2^63) (2^64) ltac:(lia)). lia.
Qed.

Lemma int64_small z : in_int64 z -> int64 z = z.
Proof.
  unfold in_int64, min_int64, max_int64, int64. intros ?.
  rewrite Z.mod_small; lia.
Qed.

Lemma int64_add_l a b : int64 (int64 a + b) = int64 (a + b).
Proof.
  unfold int64.
  replace ((a + 2^63) mod 2^64 - 2^63 + b + 2^63)
    with ((a + 2^63) mod 2^64 + b) by lia.
  rewrite Zplus_mod_idemp_l. f_equal. f_equal. lia.
Qed.

Lemma int64_add_l_sub a b : int64 (int64 a - b) = int64 (a - b).
Proof. apply (int64_add_l a (- b)). Qed.

Lemma first_some_None {A B} (f : A -> option B) l :
  first_some f l = None <-> Forall (fun x => f x = None) l.
Proof.
  induction l as [|x l IH]; simpl.
  - split; [constructor | done].
  - destruct (f x) eqn:E.
    + split; [done|]. inversion 1; congruence.
    + rewrite IH, Forall_cons. tauto.
Qed.

Lemma first_some_Some {A B} (f : A -> option B) l b :
  first_some f l = Some b -> exists x, x ∈ l /\ f x = Some b.
Proof.
  induction l as [|x l IH]; simpl; [done|].
  destruct (f x) eqn:E; intros ?; simplify_eq.
  - exists x. split; [left|done].
  - destruct IH as (y & ? & ?); [done|]. exists y. split; [by right|done].
Qed.

#[export] Hint Resolve int64_range : sss.
