(* ===== verification/GoStrings.v ===== *)
(** * The part of Go's [strings], [unicode/utf8], [path] and [strconv] that sss uses

    Go strings are byte strings, so they are modelled by [String.string].  A [range]
    loop over a string decodes UTF-8; [segs] gives the decoded runes together with the
    bytes each one came from, exactly as Go's decoder segments valid and invalid
    input.  [strings.ToLower] consults the Unicode tables beyond ASCII: that part is
    the parameter [ulower]. *)
From S2P Require Import Prelude.

Definition byte_val (a : ascii) : Z := Z.of_N (N_of_ascii a).
Definition byte_of (z : Z) : ascii := ascii_of_N (Z.to_N z).
Definition slen (s : string) : Z := Z.of_nat (String.length s).

(** ** Runes *)

(** utf8.RuneError *)
Definition RuneError : Z := 65533.

(** One decoding step of a [range] loop: the rune and the bytes it was decoded from. *)
Record seg := Seg { s_rune : Z; s_bytes : string }.

Definition cont (lo hi : Z) (a : ascii) : bool := (lo <=? byte_val a) && (byte_val a <=? hi).

(** The accepted range of the second byte after a given first byte (utf8's
    [acceptRanges]). *)
Definition accept2 (b0 : Z) : Z * Z :=
  if b0 =? 224 then (160, 191) else
  if b0 =? 237 then (128, 159) else
  if b0 =? 240 then (144, 191) else
  if b0 =? 244 then (128, 143) else (128, 191).

(** The number of bytes a first byte announces; 0 when it cannot start a rune. *)
Definition announce (b0 : Z) : nat :=
  if b0 <? 128 then 1%nat else
  if (194 <=? b0) && (b0 <=? 223) then 2%nat else
  if (224 <=? b0) && (b0 <=? 239) then 3%nat else
  if (240 <=? b0) && (b0 <=? 244) then 4%nat else 0%nat.

Fixpoint segs (s : string) : list seg :=
  match s with
  | EmptyString => []
  | String a t =>
    let b0 := byte_val a in
    let bad (_ : unit) := Seg RuneError (String a EmptyString) :: segs t in
    let '(lo, hi) := accept2 b0 in
    match announce b0 with
    | 1%nat => Seg b0 (String a EmptyString) :: segs t
    | 2%nat =>
      match t with
      | String b u =>
        if cont lo hi b then
          Seg (Z.lor (Z.shiftl (Z.land b0 31) 6) (Z.land (byte_val b) 63))
              (String a (String b EmptyString)) :: segs u
        else bad tt
      | _ => bad tt
      end
    | 3%nat =>
      match t with
      | String b (String c u) =>
        if cont lo hi b && cont 128 191 c then
          Seg (Z.lor (Z.lor (Z.shiftl (Z.land b0 15) 12) (Z.shiftl (Z.land (byte_val b) 63) 6))
                     (Z.land (byte_val c) 63))
              (String a (String b (String c EmptyString))) :: segs u
        else bad tt
      | _ => bad tt
      end
    | 4%nat =>
      match t with
      | String b (String c (String d u)) =>
        if cont lo hi b && cont 128 191 c && cont 128 191 d then
          Seg (Z.lor (Z.lor (Z.lor (Z.shiftl (Z.land b0 7) 18) (Z.shiftl (Z.land (byte_val b) 63) 12))
                            (Z.shiftl (Z.land (byte_val c) 63) 6)) (Z.land (byte_val d) 63))
              (String a (String b (String c (String d EmptyString)))) :: segs u
        else bad tt
      | _ => bad tt
      end
    | _ => bad tt
    end
  end.

Definition runes (s : string) : list Z := map s_rune (segs s).

(** utf8.ValidString: no step of the decoder fell back to a one-byte RuneError. *)
Definition valid_utf8 (s : string) : bool :=
  forallb (fun g => negb ((s_rune g =? RuneError) && (slen (s_bytes g) =? 1))) (segs s).

(** utf8.AppendRune *)
Definition encode_rune (r0 : Z) : string :=
  let r := if (r0 <? 0) || (1114111 <? r0) || ((55296 <=? r0) && (r0 <=? 57343)) then RuneError else r0 in
  let b z := String (byte_of z) EmptyString in
  if r <? 128 then b r else
  if r <? 2048 then (b (192 + Z.shiftr r 6) ++ b (128 + Z.land r 63))%string else
  if r <? 65536 then
    (b (224 + Z.shiftr r 12) ++ b (128 + Z.land (Z.shiftr r 6) 63) ++ b (128 + Z.land r 63))%string
  else
    (b (240 + Z.shiftr r 18) ++ b (128 + Z.land (Z.shiftr r 12) 63)
     ++ b (128 + Z.land (Z.shiftr r 6) 63) ++ b (128 + Z.land r 63))%string.

(** unicode.Is(unicode.Cf, r): the format-control category of the Unicode tables. *)
Definition cf_table : list (Z * Z) :=
  [(173,173); (1536,1541); (1564,1564); (1757,1757); (1807,1807); (2192,2193); (2274,2274);
   (6158,6158); (8203,8207); (8234,8238); (8288,8292); (8294,8303); (65279,65279);
   (65529,65531); (69821,69821); (69837,69837); (78896,78911); (113824,113827);
   (119155,119162); (917505,917505); (917536,917631)].
Definition is_Cf (r : Z) : bool := existsb (fun '(lo, hi) => (lo <=? r) && (r <=? hi)) cf_table.

(** unicode.IsSpace *)
Definition is_space (r : Z) : bool :=
  ((9 <=? r) && (r <=? 13)) || (r =? 32) || (r =? 133) || (r =? 160) || (r =? 5760)
  || ((8192 <=? r) && (r <=? 8202)) || (r =? 8232) || (r =? 8233) || (r =? 8239)
  || (r =? 8287) || (r =? 12288).

(** ** strings *)

Fixpoint smap (f : ascii -> ascii) (s : string) : string :=
  match s with EmptyString => EmptyString | String a t => String (f a) (smap f t) end.

Fixpoint sforall (f : ascii -> bool) (s : string) : bool :=
  match s with EmptyString => true | String a t => f a && sforall f t end.

Fixpoint has_byte (c : ascii) (s : string) : bool :=
  match s with EmptyString => false | String a t => (a =? c)%char || has_byte c t end.

(** strings.HasPrefix(s, p) *)
Fixpoint has_prefix (p s : string) : bool :=
  match p, s with
  | EmptyString, _ => true
  | String a p, String b s => (a =? b)%char && has_prefix p s
  | String _ _, EmptyString => false
  end.

(** strings.Split(s, sep) for a one-byte separator: never empty. *)
Fixpoint split (sep : ascii) (s : string) : list string :=
  match s with
  | EmptyString => [EmptyString]
  | String a t =>
    if (a =? sep)%char then EmptyString :: split sep t
    else match split sep t with
         | [] => [String a EmptyString]
         | w :: ws => String a w :: ws
         end
  end.

(** strings.Join *)
Definition join (sep : string) (l : list string) : string := String.concat sep l.

(** The bytes before the first [c] (the whole string when there is none). *)
Fixpoint before (c : ascii) (s : string) : string :=
  match s with
  | EmptyString => EmptyString
  | String a t => if (a =? c)%char then EmptyString else String a (before c t)
  end.

Fixpoint last_byte (s : string) : option ascii :=
  match s with
  | EmptyString => None
  | String a EmptyString => Some a
  | String _ t => last_byte t
  end.

Definition ends_with (c : ascii) (s : string) : bool :=
  match last_byte s with Some a => (a =? c)%char | None => false end.

Definition is_ascii_byte (a : ascii) : bool := byte_val a <? 128.

Definition lower_byte (a : ascii) : ascii :=
  if (65 <=? byte_val a) && (byte_val a <=? 90) then byte_of (byte_val a + 32) else a.
Definition upper_byte (a : ascii) : ascii :=
  if (97 <=? byte_val a) && (byte_val a <=? 122) then byte_of (byte_val a - 32) else a.

(** unicode.ToLower beyond ASCII comes from the Unicode tables. *)
Class Unicode := { ulower : Z -> Z }.

Definition lower_rune `{Unicode} (r : Z) : Z :=
  if r <? 128 then (if (65 <=? r) && (r <=? 90) then r + 32 else r) else ulower r.

(** strings.ToLower: a byte map on ASCII input, a rune map otherwise. *)
Definition ToLower `{Unicode} (s : string) : string :=
  if sforall is_ascii_byte s then smap lower_byte s
  else join "" (map (fun g => encode_rune (lower_rune (s_rune g))) (segs s)).

Fixpoint drop_while {A} (f : A -> bool) (l : list A) : list A :=
  match l with [] => [] | x :: t => if f x then drop_while f t else l end.

(** Go's [<] on strings: byte order. *)
Fixpoint slt (a b : string) : bool :=
  match a, b with
  | EmptyString, EmptyString => false
  | EmptyString, String _ _ => true
  | String _ _, EmptyString => false
  | String x a, String y b => if (x =? y)%char then slt a b else byte_val x <? byte_val y
  end.

(** strings.TrimSpace *)
Definition TrimSpace (s : string) : string :=
  let sp g := is_space (s_rune g) in
  join "" (map s_bytes (rev (drop_while sp (rev (drop_while sp (segs s)))))).

(** strings.TrimPrefix *)
Definition TrimPrefix (p s : string) : string :=
  if has_prefix p s then String.substring (String.length p) (String.length s - String.length p) s
  else s.

(** strings.TrimRight(s, "/") *)
Fixpoint trim_right_slash (s : string) : string :=
  match s with
  | EmptyString => EmptyString
  | String a t =>
    match trim_right_slash t with
    | EmptyString => if (a =? "/")%char then EmptyString else String a EmptyString
    | u => String a u
    end
  end.

(** strings.ContainsRune over an ASCII set of characters *)
Definition ContainsRune (set : string) (r : Z) : bool :=
  existsb (fun x => x =? r) (map byte_val (String.list_ascii_of_string set)).

Definition nl : string := String (ascii_of_nat 10) EmptyString.
Definition nul : string := String (ascii_of_nat 0) EmptyString.

(** ** path and path/filepath (the Unix ones) *)

(** One component of lexical cleaning: [out] is the reversed list of kept components. *)
Definition clean_step (rooted : bool) (out : list string) (c : string) : list string :=
  if (c =? "")%string || (c =? ".")%string then out
  else if (c =? "..")%string then
    match out with
    | [] => if rooted then [] else [".."%string]
    | d :: out' => if (d =? "..")%string then c :: out else out'
    end
  else c :: out.

Definition clean_comps (rooted : bool) (cs : list string) : list string :=
  rev (foldl (clean_step rooted) [] cs).

(** path.Clean / filepath.Clean *)
Definition Clean (p : string) : string :=
  if (p =? "")%string then "."%string else
  let rooted := has_prefix "/" p in
  let body := join "/" (clean_comps rooted (split "/" p)) in
  if rooted then ("/" ++ body)%string
  else if (body =? "")%string then "."%string else body.

(** filepath.Join *)
Definition Join (elems : list string) : string :=
  match List.filter (fun e => negb (e =? "")%string) elems with
  | [] => EmptyString
  | l => Clean (join "/" l)
  end.

(** path.Base *)
Definition Base (p : string) : string :=
  if (p =? "")%string then "."%string else
  match trim_right_slash p with
  | EmptyString => "/"%string
  | q => default q (last (split "/" q))
  end.

(** filepath.Dir of a relative or rooted clean path *)
Definition Dir (p : string) : string :=
  Clean (match split "/" p with
         | [] => EmptyString
         | l => let body := join "/" (removelast l) in
                if has_prefix "/" p && (body =? "")%string then "/"%string else body
         end).

(** ** strconv *)

Definition digit_val (a : ascii) : option Z :=
  if (48 <=? byte_val a) && (byte_val a <=? 57) then Some (byte_val a - 48) else None.

Fixpoint digits (acc : Z) (s : string) : option Z :=
  match s with
  | EmptyString => Some acc
  | String a t => match digit_val a with Some d => digits (acc * 10 + d) t | None => None end
  end.

(** strconv.Atoi / ParseInt(s, 10, 64): an optional sign, at least one digit, and a
    value in range. *)
Definition Atoi (s : string) : option Z :=
  let value := match s with
    | String "-" (String _ _ as t) => option_map Z.opp (digits 0 t)
    | String "+" (String _ _ as t) => digits 0 t
    | String _ _ => digits 0 s
    | EmptyString => None
    end in
  match value with
  | Some z => if (min_int64 <=? z) && (z <=? max_int64) then Some z else None
  | None => None
  end.

(** strconv.FormatInt(z, 10) and strconv.Itoa: an int64 has at most 19 digits. *)
Fixpoint decimal (fuel : nat) (n : Z) (acc : string) : string :=
  match fuel with
  | O => acc
  | S fuel =>
    let acc := String (byte_of (48 + n mod 10)) acc in
    if n <? 10 then acc else decimal fuel (n / 10) acc
  end.
Definition FormatInt (z : Z) : string :=
  if z <? 0 then String "-" (decimal 20 (- z) "") else decimal 20 z "".

(** hex.EncodeToString *)
Definition hex_digit (z : Z) : ascii :=
  if z <? 10 then byte_of (48 + z) else byte_of (87 + z).
Definition hex_byte (z : Z) : string :=
  String (hex_digit (z / 16)) (String (hex_digit (z mod 16)) EmptyString).
Definition EncodeToString (l : list Z) : string := join "" (map hex_byte l).

(** ** Lemmas on the string layer *)

Definition ascii_start (s : string) : bool :=
  match s with EmptyString => true | String a _ => byte_val a <? 128 end.

Lemma byte_val_range a : 0 <= byte_val a < 256.
Proof. unfold byte_val. pose proof (N_ascii_bounded a). lia. Qed.

Lemma byte_val_of z : (0 <= z < 256)%Z -> byte_val (byte_of z) = z.
Proof.
  intros Hz. unfold byte_val, byte_of. rewrite N_ascii_embedding by lia. by rewrite Z2N.id by lia.
Qed.
Lemma byte_of_val a : byte_of (byte_val a) = a.
Proof. unfold byte_val, byte_of. by rewrite N2Z.id, ascii_N_embedding. Qed.

Lemma string_app_nil_r s : (s ++ "")%string = s.
Proof. induction s; simpl; congruence. Qed.

Lemma string_app_assoc a b c : ((a ++ b) ++ c)%string = (a ++ (b ++ c))%string.
Proof. induction a; simpl; congruence. Qed.

Lemma string_length_app a b : String.length (a ++ b) = (String.length a + String.length b)%nat.
Proof. induction a; simpl; congruence. Qed.

Lemma cont_not_ascii lo hi a : 128 <= lo -> byte_val a < 128 -> cont lo hi a = false.
Proof. intros. unfold cont. boolprop. left. lia. Qed.

Lemma accept2_lo b0 : 128 <= fst (accept2 b0).
Proof. unfold accept2. repeat case_match; simpl; lia. Qed.

Lemma string_strong_ind (P : string -> Prop) :
  (forall s, (forall t, (String.length t < String.length s)%nat -> P t) -> P s) -> forall s, P s.
Proof.
  intros IH s. remember (String.length s) as n eqn:Hn. revert s Hn.
  induction n as [n IHn] using lt_wf_ind. intros s ->. apply IH.
  intros t Ht. exact (IHn _ Ht _ eq_refl).
Qed.

(** The decoder is local: an ASCII byte always starts a new segment. *)
Lemma segs_app s t : ascii_start t = true -> segs (s ++ t) = segs s ++ segs t.
Proof.
  intros Ht. induction s as [s IH] using string_strong_ind.
  assert (Hc : forall lo hi a u, t = String a u -> 128 <= lo -> cont lo hi a = false).
  { intros lo hi a u -> ?. simpl in Ht. apply cont_not_ascii; [done|]. boolprop. lia. }
  destruct s as [|a s]; [done|]. simpl.
  pose proof (accept2_lo (byte_val a)) as Hlo.
  destruct (accept2 (byte_val a)) as [lo hi]. simpl in Hlo.
  assert (IH1 := IH s ltac:(simpl; lia)).
  destruct (announce (byte_val a)) as [|[|[|[|[|n]]]]]; simpl; rewrite ?IH1; try done.
  - destruct s as [|b s]; simpl.
    + destruct t as [|b u]; simpl; [done|]. by rewrite (Hc lo hi b u).
    + destruct (cont lo hi b); [|done]. by rewrite (IH s) by (simpl; lia).
  - destruct s as [|b [|c s]]; simpl.
    + destruct t as [|b [|c u]]; simpl; try done.
      by rewrite (Hc lo hi b _ eq_refl Hlo).
    + destruct t as [|c u]; simpl; [done|].
      by rewrite (Hc 128 191 c _ eq_refl) by lia; rewrite andb_false_r.
    + destruct (_ && _); [|done]. by rewrite (IH s) by (simpl; lia).
  - destruct s as [|b [|c [|d s]]]; simpl.
    + destruct t as [|b [|c [|d u]]]; simpl; try done.
      by rewrite (Hc lo hi b _ eq_refl Hlo).
    + destruct t as [|c [|d u]]; simpl; try done.
      by rewrite (Hc 128 191 c _ eq_refl) by lia; rewrite andb_false_r.
    + destruct t as [|d u]; simpl; [done|].
      by rewrite (Hc 128 191 d _ eq_refl) by lia; rewrite andb_false_r.
    + destruct (_ && _ && _); [|done]. by rewrite (IH s) by (simpl; lia).
Qed.

Lemma segs_ascii a s : byte_val a < 128 ->
  segs (String a s) = Seg (byte_val a) (String a EmptyString) :: segs s.
Proof.
  intros H. simpl. unfold announce. replace (byte_val a <? 128) with true by (symmetry; boolprop; lia).
  by destruct (accept2 _).
Qed.

Lemma join_nil_cons x l : join "" (x :: l) = (x ++ join "" l)%string.
Proof. destruct l; simpl; [by rewrite string_app_nil_r|done]. Qed.

(** Nothing is lost by decoding: the segments' bytes are the string. *)
Lemma join_segs s : join "" (map s_bytes (segs s)) = s.
Proof.
  induction s as [s IH] using string_strong_ind. destruct s as [|a s]; [done|]. simpl.
  assert (IH1 := IH s ltac:(simpl; lia)).
  assert (Hbad : forall r, join "" (s_bytes (Seg r (String a EmptyString)) :: map s_bytes (segs s))
                 = String a s).
  { intros. rewrite join_nil_cons. simpl. by rewrite IH1. }
  destruct (accept2 _) as [lo hi].
  destruct (announce _) as [|[|[|[|[|n]]]]]; try apply Hbad.
  - destruct s as [|b s]; [apply Hbad|]. destruct (cont lo hi b); [|apply Hbad].
    cbn [map s_bytes]. rewrite join_nil_cons, (IH s) by (simpl; lia). done.
  - destruct s as [|b [|c s]]; try apply Hbad. destruct (_ && _); [|apply Hbad].
    cbn [map s_bytes]. rewrite join_nil_cons, (IH s) by (simpl; lia). done.
  - destruct s as [|b [|c [|d s]]]; try apply Hbad. destruct (_ && _ && _); [|apply Hbad].
    cbn [map s_bytes]. rewrite join_nil_cons, (IH s) by (simpl; lia). done.
Qed.

Lemma segs_all_ascii s : sforall is_ascii_byte s = true ->
  segs s = map (fun a => Seg (byte_val a) (String a EmptyString)) (String.list_ascii_of_string s).
Proof.
  induction s as [|a s IH]; [done|]. cbn [sforall]. intros [Ha Hs]%andb_true_iff.
  unfold is_ascii_byte in Ha. apply Z.ltb_lt in Ha. rewrite segs_ascii by done.
  cbn. f_equal. by apply IH.
Qed.

Lemma drop_while_hd {A} (f : A -> bool) x l : f x = false -> drop_while f (x :: l) = x :: l.
Proof. intros H. cbn. by rewrite H. Qed.

(** Trimming removes a trailing newline when the text around it has no outer space. *)
Lemma TrimSpace_line s r r' l l' :
  runes s = r :: l -> runes s = l' ++ [r'] -> is_space r = false -> is_space r' = false ->
  TrimSpace (s ++ nl) = s.
Proof.
  intros Hh Hl Hr Hr'. unfold TrimSpace. rewrite segs_app by done.
  change (segs nl) with [Seg 10 nl].
  unfold runes in Hh, Hl. destruct (segs s) as [|g gs] eqn:Hs; [done|]. cbn in Hh. simplify_eq.
  cbn [app]. rewrite drop_while_hd by done.
  change (g :: gs ++ [Seg 10 nl]) with ((g :: gs) ++ [Seg 10 nl]).
  rewrite rev_app_distr. cbn [rev app]. cbn [drop_while s_rune].
  change (is_space 10) with true. cbn iota.
  destruct (exists_last (l := g :: gs) ltac:(done)) as (l1 & g' & E).
  change (rev gs ++ [g]) with (rev (g :: gs)). rewrite E in Hl |- *.
  rewrite map_app in Hl. cbn in Hl. apply app_inj_tail in Hl as [? <-].
  rewrite rev_app_distr. cbn [rev app]. rewrite drop_while_hd by done.
  cbn [rev]. rewrite rev_involutive, <- E, <- Hs. apply join_segs.
Qed.

Lemma byte_val_inj a b : byte_val a = byte_val b -> a = b.
Proof.
  unfold byte_val. intros E. apply N2Z.inj in E. rewrite <- (ascii_N_embedding a), E.
  apply ascii_N_embedding.
Qed.

Lemma slt_irrefl a : slt a a = false.
Proof. induction a as [|x a IH]; cbn; [done|]. by rewrite Ascii.eqb_refl. Qed.

Lemma slt_trans a b c : slt a b = true -> slt b c = true -> slt a c = true.
Proof.
  revert b c. induction a as [|x a IH]; intros [|y b] [|z c]; cbn; try done.
  destruct (Ascii.eqb_spec x y) as [->|Hxy], (Ascii.eqb_spec y z) as [->|Hyz]; try (by eauto).
  - by destruct (Ascii.eqb_spec x z) as [->|].
  - destruct (Ascii.eqb_spec x z) as [->|]; rewrite !Z.ltb_lt; lia.
Qed.

Lemma slt_total a b : slt a b = false -> slt b a = false -> a = b.
Proof.
  revert b. induction a as [|x a IH]; intros [|y b]; cbn; try done.
  rewrite (Ascii.eqb_sym y x). destruct (Ascii.eqb_spec x y) as [->|Hxy]; [intros; f_equal; auto|].
  rewrite !Z.ltb_ge. intros. destruct Hxy. apply byte_val_inj. lia.
Qed.

Lemma slt_app a c b : slt a (a ++ String c b) = true.
Proof. induction a as [|x a IH]; cbn; [done|]. by rewrite Ascii.eqb_refl. Qed.

Lemma substring_all n s : (String.length s <= n)%nat -> String.substring 0 n s = s.
Proof.
  revert n. induction s as [|a s IH]; intros [|n] H; cbn in *; try done; [lia|].
  f_equal. apply IH. lia.
Qed.

Lemma digit_val_byte d : 0 <= d < 10 -> digit_val (byte_of (48 + d)) = Some d.
Proof.
  intros Hd. assert (d = 0 \/ d = 1 \/ d = 2 \/ d = 3 \/ d = 4 \/ d = 5 \/ d = 6 \/ d = 7 \/ d = 8 \/ d = 9) as H by lia.
  repeat (destruct H as [->|H]; [done|]). by subst.
Qed.

Lemma digits_decimal fuel n acc : 0 <= n < 10 ^ Z.of_nat fuel -> (0 < fuel)%nat ->
  digits 0 (decimal fuel n acc) = digits n acc.
Proof.
  revert n acc. induction fuel as [|fuel IH]; intros n acc Hn Hf; [lia|]. cbn [decimal].
  pose proof (Z.mod_pos_bound n 10 ltac:(lia)) as Hm.
  destruct (Z.ltb_spec n 10) as [Hlt|Hge].
  - cbn [digits]. rewrite digit_val_byte by done. by rewrite Z.mod_small by lia.
  - rewrite Nat2Z.inj_succ, Z.pow_succ_r in Hn by lia.
    assert (Hfuel : (0 < fuel)%nat). { destruct fuel; [cbn in Hn; lia|lia]. }
    rewrite IH; [|split; [by apply Z.div_pos; lia|apply Z.div_lt_upper_bound; lia]|done].
    cbn [digits]. rewrite digit_val_byte by done. f_equal. pose proof (Z.div_mod n 10 ltac:(lia)). lia.
Qed.

Lemma decimal_head fuel n acc : 0 <= n -> (0 < fuel)%nat -> exists a s,
  decimal fuel n acc = String a s /\ 48 <= byte_val a <= 57.
Proof.
  revert n acc. induction fuel as [|fuel IH]; intros n acc Hn Hf; [lia|]. cbn [decimal].
  pose proof (Z.mod_pos_bound n 10 ltac:(lia)) as Hm.
  assert (Hd : 48 <= byte_val (byte_of (48 + n mod 10)) <= 57).
  { pose proof (digit_val_byte _ Hm) as E. unfold digit_val in E. destruct (_ && _) eqn:Eb; [|done].
    apply andb_true_iff in Eb as [?%Z.leb_le ?%Z.leb_le]. done. }
  destruct (n <? 10); [by eauto|]. destruct fuel as [|fuel]; [by cbn; eauto|].
  apply IH; [by apply Z.div_pos; lia|lia].
Qed.

(** A printed integer is read back. *)
Lemma Atoi_FormatInt z : in_int64 z -> Atoi (FormatInt z) = Some z.
Proof.
  intros Hz. assert (Hr : (min_int64 <=? z) && (z <=? max_int64) = true).
  { unfold in_int64 in Hz. apply andb_true_iff. rewrite !Z.leb_le. lia. }
  unfold in_int64, min_int64, max_int64 in Hz. unfold Atoi, FormatInt. destruct (Z.ltb_spec z 0) as [Hneg|Hpos].
  - pose proof (digits_decimal 20 (- z) "" ltac:(lia) ltac:(lia)) as E.
    destruct (decimal_head 20 (- z) "" ltac:(lia) ltac:(lia)) as (a & s & Es & _). rewrite Es in E |- *.
    cbn [option_map]. rewrite E. cbn [digits option_map]. rewrite Z.opp_involutive. by rewrite Hr.
  - pose proof (digits_decimal 20 z "" ltac:(lia) ltac:(lia)) as E.
    destruct (decimal_head 20 z "" ltac:(lia) ltac:(lia)) as (a & s & Es & Ha). rewrite Es in E |- *.
    assert (Hm : a <> "-"%char /\ a <> "+"%char) by (split; intros ->; destruct Ha as [Ha _]; by apply Ha).
    cbn [digits] in E.
    assert (G : match String a s with
      | String "-" (String _ _ as t) => option_map Z.opp (digits 0 t)
      | String "+" (String _ _ as t) => digits 0 t
      | String _ _ => digits 0 (String a s)
      | EmptyString => None
      end = digits 0 (String a s)).
    { destruct Hm as [H1 H2]. clear -H1 H2. destruct a as [[] [] [] [] [] [] [] []]; try done. }
    rewrite G. cbn [digits]. rewrite E. by rewrite Hr.
Qed.

Lemma has_byte_app c s t : has_byte c (s ++ t) = has_byte c s || has_byte c t.
Proof. induction s as [|x s IH]; [done|]. cbn. by rewrite IH, orb_assoc. Qed.
Lemma before_app_no c a b : has_byte c a = false -> before c (a ++ String c b) = a.
Proof. induction a as [|x a IH]; cbn; [by rewrite Ascii.eqb_refl|]. destruct (x =? c)%char; [done|]. intros H. by rewrite IH. Qed.
Lemma before_no c a : has_byte c a = false -> before c a = a.
Proof. induction a as [|x a IH]; cbn; [done|]. destruct (x =? c)%char; [done|]. intros H. by rewrite IH. Qed.
Lemma substring_app a b n : (String.length b <= n)%nat -> String.substring (String.length a) n (a ++ b) = b.
Proof. intros Hn. induction a as [|x a IH]; [by apply substring_all|exact IH]. Qed.
