(* ===== verification/Errors.v ===== *)
(** * Stable errors: internal/protocol/errors.go and the client's reading of them
      (internal/client/client.go, parseError and its helpers) *)
From S2P Require Import Prelude GoStrings.
Local Open Scope string_scope.

(** The stable codes.  Everywhere else in the development an error is its code: the
    messages are free text that "may improve". *)
Inductive ecode :=
| AuthRequired | AuthInvalid | RateLimited | InvalidRequest | InvalidCode
| TransferNotFound | TransferExpired | TTLOutOfRange | NoFiles | UnsupportedEntry
| InvalidPath | DuplicatePath | SourceChanged | OffsetMismatch | StateConflict
| IdempotencyConflict | PayloadTooLarge | TooManyFiles | InsufficientStorage
| HashMismatch | ClaimExpired | DestinationExists | Network | ProtocolMismatch | Internal.

#[export] Instance ecode_eq_dec : EqDecision ecode.
Proof. solve_decision. Defined.

Definition all_codes : list ecode :=
  [AuthRequired; AuthInvalid; RateLimited; InvalidRequest; InvalidCode; TransferNotFound;
   TransferExpired; TTLOutOfRange; NoFiles; UnsupportedEntry; InvalidPath; DuplicatePath;
   SourceChanged; OffsetMismatch; StateConflict; IdempotencyConflict; PayloadTooLarge;
   TooManyFiles; InsufficientStorage; HashMismatch; ClaimExpired; DestinationExists;
   Network; ProtocolMismatch; Internal].

Definition code_string (c : ecode) : string :=
  match c with
  | AuthRequired => "AUTH_REQUIRED" | AuthInvalid => "AUTH_INVALID"
  | RateLimited => "RATE_LIMITED" | InvalidRequest => "INVALID_REQUEST"
  | InvalidCode => "INVALID_CODE" | TransferNotFound => "TRANSFER_NOT_FOUND"
  | TransferExpired => "TRANSFER_EXPIRED" | TTLOutOfRange => "TTL_OUT_OF_RANGE"
  | NoFiles => "NO_FILES" | UnsupportedEntry => "UNSUPPORTED_ENTRY"
  | InvalidPath => "INVALID_PATH" | DuplicatePath => "DUPLICATE_PATH"
  | SourceChanged => "SOURCE_CHANGED" | OffsetMismatch => "OFFSET_MISMATCH"
  | StateConflict => "STATE_CONFLICT" | IdempotencyConflict => "IDEMPOTENCY_CONFLICT"
  | PayloadTooLarge => "PAYLOAD_TOO_LARGE" | TooManyFiles => "TOO_MANY_FILES"
  | InsufficientStorage => "INSUFFICIENT_STORAGE" | HashMismatch => "HASH_MISMATCH"
  | ClaimExpired => "CLAIM_EXPIRED" | DestinationExists => "DESTINATION_EXISTS"
  | Network => "NETWORK_ERROR" | ProtocolMismatch => "PROTOCOL_MISMATCH"
  | Internal => "INTERNAL"
  end.

(** The [httpStatus] table; [None] for the codes it does not list. *)
Definition httpStatus (c : ecode) : option Z :=
  match c with
  | AuthRequired | AuthInvalid => Some 401
  | RateLimited => Some 429
  | InvalidRequest | InvalidCode => Some 400
  | TransferNotFound => Some 404
  | TransferExpired | ClaimExpired => Some 410
  | TTLOutOfRange | NoFiles | UnsupportedEntry | InvalidPath | DuplicatePath
  | HashMismatch => Some 422
  | SourceChanged | OffsetMismatch | StateConflict | IdempotencyConflict => Some 409
  | PayloadTooLarge | TooManyFiles => Some 413
  | InsufficientStorage => Some 507
  | ProtocolMismatch => Some 426
  | Internal => Some 500
  | DestinationExists | Network => None
  end.

(** The [exitCode] table: every stable code is listed. *)
Definition exitCode (c : ecode) : option Z :=
  match c with
  | AuthRequired | AuthInvalid => Some 3
  | RateLimited | Network | ProtocolMismatch => Some 5
  | InvalidRequest | InvalidCode | TTLOutOfRange | NoFiles => Some 2
  | TransferNotFound | TransferExpired | ClaimExpired => Some 4
  | UnsupportedEntry | InvalidPath | DuplicatePath | PayloadTooLarge | TooManyFiles
  | InsufficientStorage | DestinationExists => Some 7
  | SourceChanged | OffsetMismatch | StateConflict | IdempotencyConflict | HashMismatch => Some 6
  | Internal => Some 8
  end.

(** A stable code arriving as text, e.g. inside a client that talks to a newer server. *)
Definition code_of_string (s : string) : option ecode :=
  list_find (fun c => code_string c = s) all_codes ≫= (fun p => Some (snd p)).

Definition HTTPStatus (code : string) : Z :=
  match code_of_string code ≫= httpStatus with Some s => s | None => 500 end.

Definition ExitCode (code : string) : Z :=
  match code_of_string code ≫= exitCode with Some c => c | None => 8 end.

(** protocol.Error *)
Record Error := mkError { Code : string; Message : string; RequestID : string }.

(** A Go error chain: a stable error, another error, or a [%w] wrapping. *)
Inductive gerror := GStable (e : Error) | GOther (msg : string) | GWrap (msg : string) (inner : gerror).

Fixpoint errors_As (g : gerror) : option Error :=
  match g with GStable e => Some e | GOther _ => None | GWrap _ i => errors_As i end.

(** The [Error()] text of a chain. *)
Definition Error_text (e : Error) : string := Code e ++ ": " ++ Message e.
Fixpoint gerror_text (g : gerror) : string :=
  match g with
  | GStable e => Error_text e
  | GOther m => m
  | GWrap m i => m ++ ": " ++ gerror_text i
  end.

Definition AsError (err : option gerror) : option Error :=
  match err ≫= errors_As with
  | Some e => Some e
  | None => match err with
            | None => None
            | Some g => Some (mkError (code_string Internal) (gerror_text g) "")
            end
  end.

Definition PlainLine (e : Error) : string := Code e ++ ": " ++ Message e.

(** ** The client's side *)

Definition looksLikeCode (s : string) : bool :=
  negb (s =? "") && forallb (fun r => negb (((r <? 65) || (90 <? r)) && negb (r =? 95))%Z) (runes s).

Definition statusToCode (status : Z) : ecode :=
  (if status =? 401 then AuthInvalid else
   if status =? 404 then TransferNotFound else
   if status =? 410 then TransferExpired else
   if status =? 429 then RateLimited else
   if status =? 409 then StateConflict else
   if status =? 413 then PayloadTooLarge else
   if status =? 507 then InsufficientStorage else
   if status =? 426 then ProtocolMismatch else
   if status =? 422 then InvalidRequest else
   if status =? 400 then InvalidRequest else
   if 500 <=? status then Internal else Network)%Z.

(** strings.Cut(s, ": ") *)
Fixpoint cut_colon (s : string) : option (string * string) :=
  match s with
  | EmptyString => None
  | String a t =>
    if has_prefix ": " s then Some ("", String.substring 2 (String.length s - 2) s)
    else match cut_colon t with Some (l, r) => Some (String a l, r) | None => None end
  end.

(** The parts of an [http.Response] that parseError reads. *)
Record Response := mkResponse { r_body : string; r_status : Z; r_status_text : string; r_request_id : string }.

Section parse.
(** encoding/json's reading of an error envelope. *)
Context (json_envelope : string -> option Error).

Definition parseError (resp : Response) : Error :=
  let body := String.substring 0 (N.to_nat 65536) (r_body resp) in
  let trimmed := TrimSpace body in
  let fallback :=
    mkError (code_string (statusToCode (r_status resp)))
            (if trimmed =? "" then r_status_text resp else trimmed) (r_request_id resp) in
  let plain :=
    match cut_colon trimmed with
    | Some (code, message) =>
      if looksLikeCode code then mkError code message (r_request_id resp) else fallback
    | None => fallback
    end in
  match json_envelope body with
  | Some e => if negb (Code e =? "") then e else plain
  | None => plain
  end.
End parse.

(** ** Lemmas *)

Lemma code_of_string_code c : code_of_string (code_string c) = Some c.
Proof. destruct c; vm_compute; reflexivity. Qed.

Lemma code_of_string_Some s c : code_of_string s = Some c -> s = code_string c.
Proof.
  unfold code_of_string. destruct (list_find _ _) as [[i d]|] eqn:E0; [|done].
  cbn. intros Hd. inversion Hd; subst d. apply list_find_Some in E0 as (_ & ? & _). done.
Qed.

Lemma looksLikeCode_stable c : looksLikeCode (code_string c) = true.
Proof. destruct c; vm_compute; reflexivity. Qed.

Lemma cut_colon_cons a t :
  cut_colon (String a t) =
  if has_prefix ": " (String a t)
  then Some ("", String.substring 2 (String.length (String a t) - 2) (String a t))
  else match cut_colon t with Some (l, r) => Some (String a l, r) | None => None end.
Proof. reflexivity. Qed.

(** A stable code never contains a colon. *)
Lemma cut_colon_app code m :
  sforall (fun a => negb (a =? ":")%char) code = true ->
  cut_colon (code ++ ": " ++ m) = Some (code, m).
Proof.
  induction code as [|a code IH]; intros H.
  - cbn. rewrite Nat.sub_0_r, substring_all by lia. by destruct m.
  - cbn in H. apply andb_true_iff in H as [Ha Hc].
    change (String a code ++ ": " ++ m) with (String a (code ++ ": " ++ m)).
    rewrite cut_colon_cons, IH by done.
    apply negb_true_iff, Ascii.eqb_neq in Ha. cbn [has_prefix].
    destruct (Ascii.eqb_spec ":" a) as [<-|]; [done|]. cbn [andb]. done.
Qed.

Lemma code_string_no_colon c : sforall (fun a => negb (a =? ":")%char) (code_string c) = true.
Proof. destruct c; vm_compute; reflexivity. Qed.

Lemma runes_ascii_app s t : sforall is_ascii_byte s = true -> runes (s ++ t)%string =
  (map byte_val (String.list_ascii_of_string s) ++ runes t)%list.
Proof.
  induction s as [|a s IH]; [done|]. cbn [sforall]. intros [Ha Hs]%andb_true_iff.
  unfold is_ascii_byte in Ha. apply Z.ltb_lt in Ha. unfold runes in *. cbn [append].
  rewrite segs_ascii by done. cbn. f_equal. by apply IH.
Qed.

Lemma code_string_runes c : exists a s, code_string c = String a s
  /\ is_space (byte_val a) = false /\ sforall is_ascii_byte (code_string c) = true.
Proof. destruct c; cbn; do 2 eexists; (split; [reflexivity|]); split; reflexivity. Qed.

(** Plain-text errors survive the wire: the single line the simple endpoints write
    for a stable error is read back by the client's parseError as the same stable code
    and message, whatever the HTTP status, so the CLI exit code is that of the server's
    error. *)
Theorem parseError_PlainLine json c m rid status text l r :
  runes m = (l ++ [r])%list -> is_space r = false ->
  slen (PlainLine (mkError (code_string c) m rid)) < 65536 ->
  (forall body, json body = None) ->
  parseError json (mkResponse (PlainLine (mkError (code_string c) m rid) ++ nl) status text rid)
  = mkError (code_string c) m rid.
Proof.
  intros Hm Hr Hlen Hj. unfold parseError. cbn [r_body r_status r_status_text r_request_id].
  rewrite substring_all.
  2:{ rewrite string_length_app. unfold slen in Hlen. cbn [nl String.length]. lia. }
  destruct (code_string_runes c) as (a & s & Hs & Ha & Hascii).
  assert (Hrunes : runes (PlainLine (mkError (code_string c) m rid)) =
    (map byte_val (String.list_ascii_of_string (code_string c ++ ": ")) ++ runes m)%list).
  { unfold PlainLine. cbn [Code Message]. rewrite <- string_app_assoc. apply runes_ascii_app.
    clear -Hascii. induction (code_string c); [done|]. cbn in *. boolprop. tauto. }
  rewrite (TrimSpace_line _ (byte_val a) r
    (map byte_val (String.list_ascii_of_string (s ++ ": ")) ++ runes m)%list
    (map byte_val (String.list_ascii_of_string (code_string c ++ ": ")) ++ l)%list); try done.
  2:{ rewrite Hrunes, Hs. done. }
  2:{ rewrite Hrunes, Hm. by rewrite app_assoc. }
  rewrite Hj. unfold PlainLine. cbn [Code Message].
  rewrite cut_colon_app by apply code_string_no_colon.
  rewrite looksLikeCode_stable. done.
Qed.

Lemma parseError_PlainLine_witness :
  parseError (fun _ => None)
    (mkResponse (PlainLine (mkError (code_string TransferExpired) "transfer has expired" "r1") ++ nl)
       410 "410 Gone" "r1")
  = mkError "TRANSFER_EXPIRED" "transfer has expired" "r1".
Proof.
  apply (parseError_PlainLine (fun _ => None) TransferExpired "transfer has expired" "r1" 410 "410 Gone"
    (runes "transfer has expire") 100); [reflexivity|reflexivity| |reflexivity].
  vm_compute. reflexivity.
Defined.
