(* ===== verification/Code.v ===== *)
(** * Handoff codes: internal/protocol/code.go *)
From S2P Require Import Prelude GoStrings.
Local Open Scope string_scope.

Definition Alphabet : string := "0123456789ABCDEFGHJKMNPQRSTVWXYZ".
Definition CodeLength : Z := 8.

(** [Alphabet[i]] *)
Definition alphabet_at (i : Z) : ascii := default "0"%char (String.get (Z.to_nat i) Alphabet).

(** FormatCode: eight characters as XXXX-XXXX, anything else unchanged. *)
Definition FormatCode (canonical : string) : string :=
  if negb (slen canonical =? CodeLength)%Z then canonical
  else String.substring 0 4 canonical ++ "-" ++ String.substring 4 (String.length canonical - 4) canonical.

(** NewCode, given the bytes [crypto/rand] put in the buffer. *)
Definition NewCode (buf : list Z) : string :=
  FormatCode (String.string_of_list_ascii (map (fun b => alphabet_at (Z.land b 31)) buf)).

(** The separators NormalizeCode skips: hyphen and ASCII white space. *)
Definition is_separator (r : Z) : bool := ((r =? 45) || (r =? 32) || ((9 <=? r) && (r <=? 13)))%Z.

(** The rewritten rune, or [None] when the loop returns false. *)
Definition normalize_rune (r0 : Z) : option (option string) :=
  if is_separator r0 then Some None else
  let r := if ((97 <=? r0) && (r0 <=? 122))%Z then (r0 - 32)%Z else r0 in
  if ((127 <? r) || negb (ContainsRune Alphabet r))%Z then None
  else Some (Some (encode_rune r)).

Fixpoint normalize_loop (rs : list Z) (b : string) : option string :=
  match rs with
  | [] => Some b
  | r :: rs =>
    match normalize_rune r with
    | None => None
    | Some None => normalize_loop rs b
    | Some (Some c) => normalize_loop rs (b ++ c)
    end
  end.

Definition NormalizeCode (input : string) : option string :=
  match normalize_loop (runes input) "" with
  | None => None
  | Some s => if negb (slen s =? CodeLength)%Z then None else Some s
  end.

(** ** Specification *)

Definition in_alphabet (a : ascii) : bool := has_byte a Alphabet.

(** A canonical code: eight characters of the alphabet. *)
Definition canonical (c : string) : bool := (slen c =? CodeLength)%Z && sforall in_alphabet c.

(** [retyped c t]: the text [t] spells the code [c], with separators anywhere and
    letters in either case. *)
Inductive retyped : string -> string -> Prop :=
| rt_nil : retyped "" ""
| rt_sep a c t : is_separator (byte_val a) = true -> retyped c t -> retyped c (String a t)
| rt_chr a x c t : in_alphabet x = true -> is_separator (byte_val a) = false ->
    a = x \/ a = lower_byte x -> retyped c t -> retyped (String x c) (String a t).

(** ** Lemmas *)

Lemma lor_ge_l a b : (0 <= a)%Z -> (0 <= b)%Z -> (a <= Z.lor a b)%Z.
Proof.
  intros Ha Hb. enough (0 <= Z.lor a b - a)%Z by lia.
  rewrite Z.sub_nocarry_ldiff.
  - apply Z.ldiff_nonneg. left. apply Z.lor_nonneg. lia.
  - apply Z.bits_inj'. intros n Hn. rewrite Z.ldiff_spec, Z.lor_spec, Z.bits_0.
    by destruct (Z.testbit a n), (Z.testbit b n).
Qed.

(** Table lookups over all bytes, used to discharge the bit manipulations of the decoder. *)
Definition all_bytes : list Z := map Z.of_nat (seq 0 256).
Lemma all_bytes_spec (f : Z -> bool) : forallb f all_bytes = true ->
  forall z, (0 <= z < 256)%Z -> f z = true.
Proof.
  intros H z Hz. rewrite forallb_forall in H. apply H. unfold all_bytes.
  apply in_map_iff. exists (Z.to_nat z). split; [lia|]. apply in_seq. lia.
Qed.

Lemma shift_or_ge k x y : (0 <= k)%Z -> (0 <= x)%Z -> (0 <= y)%Z ->
  (x * 2^k <= Z.lor (Z.shiftl x k) y)%Z.
Proof.
  intros. rewrite <- Z.shiftl_mul_pow2 by done. apply lor_ge_l; [|done].
  by apply Z.shiftl_nonneg.
Qed.

Lemma land_byte_nonneg b m : (0 <= m)%Z -> (0 <= Z.land b m)%Z.
Proof. intros. apply Z.land_nonneg. by right. Qed.

(** The rune of a segment starting with a non-ASCII byte is not ASCII. *)
Lemma segs_non_ascii a s : (128 <= byte_val a)%Z ->
  exists g gs, segs (String a s) = g :: gs /\ (127 < s_rune g)%Z.
Proof.
  intros Ha. pose proof (byte_val_range a) as Hb. cbn [segs].
  assert (H2 : announce (byte_val a) = 2%nat -> (2 <= Z.land (byte_val a) 31)%Z).
  { revert Hb. generalize (byte_val a). intros z Hz E.
    pose proof (all_bytes_spec (fun z => negb (Nat.eqb (announce z) 2) || (2 <=? Z.land z 31)%Z)
      ltac:(vm_compute; reflexivity) z Hz) as H. cbn beta in H. rewrite E in H. cbn in H. boolprop. lia. }
  assert (H3 : announce (byte_val a) = 3%nat -> (1 <= Z.land (byte_val a) 15)%Z \/ byte_val a = 224%Z).
  { revert Hb. generalize (byte_val a). intros z Hz E.
    pose proof (all_bytes_spec (fun z => negb (Nat.eqb (announce z) 3) || (1 <=? Z.land z 15)%Z || (z =? 224)%Z)
      ltac:(vm_compute; reflexivity) z Hz) as H. cbn beta in H. rewrite E in H. cbn in H. boolprop. lia. }
  assert (H4 : announce (byte_val a) = 4%nat -> (1 <= Z.land (byte_val a) 7)%Z \/ byte_val a = 240%Z).
  { revert Hb. generalize (byte_val a). intros z Hz E.
    pose proof (all_bytes_spec (fun z => negb (Nat.eqb (announce z) 4) || (1 <=? Z.land z 7)%Z || (z =? 240)%Z)
      ltac:(vm_compute; reflexivity) z Hz) as H. cbn beta in H. rewrite E in H. cbn in H. boolprop. lia. }
  assert (Hc : forall lo b, (144 <= lo)%Z -> cont lo 191 b = true -> (16 <= Z.land (byte_val b) 63)%Z).
  { intros lo b Hlo H. pose proof (byte_val_range b) as Hr. unfold cont in H. revert Hr H.
    generalize (byte_val b). intros z Hz H. apply andb_true_iff in H as [G1%Z.leb_le G2%Z.leb_le].
    pose proof (all_bytes_spec (fun z => (z <? 144)%Z || (191 <? z)%Z || (16 <=? Z.land z 63)%Z)
      ltac:(vm_compute; reflexivity) z Hz) as H'. cbn beta in H'. boolprop. lia. }
  destruct (accept2 (byte_val a)) as [lo hi] eqn:Eacc.
  assert (Hbad : exists g gs, Seg RuneError (String a "") :: segs s = g :: gs /\ (127 < s_rune g)%Z).
  { do 2 eexists. split; [done|]. cbn. unfold RuneError. lia. }
  destruct (announce (byte_val a)) as [|[|[|[|[|n]]]]] eqn:En; try exact Hbad.
  - exfalso. unfold announce in En. repeat case_match; try done. boolprop. lia.
  - destruct s as [|b u]; [exact Hbad|]. destruct (cont lo hi b); [|exact Hbad].
    do 2 eexists. split; [done|]. cbn [s_rune].
    pose proof (shift_or_ge 6 (Z.land (byte_val a) 31) (Z.land (byte_val b) 63)
      ltac:(lia) ltac:(apply land_byte_nonneg; lia) ltac:(apply land_byte_nonneg; lia)). specialize (H2 eq_refl). lia.
  - destruct s as [|b [|c u]]; [exact Hbad|exact Hbad|]. destruct (cont lo hi b) eqn:Eb; [|exact Hbad].
    destruct (cont 128 191 c); [|exact Hbad]. cbn [andb].
    do 2 eexists. split; [done|]. cbn [s_rune]. rewrite <- Z.lor_assoc.
    pose proof (shift_or_ge 6 (Z.land (byte_val b) 63) (Z.land (byte_val c) 63)
      ltac:(lia) ltac:(apply land_byte_nonneg; lia) ltac:(apply land_byte_nonneg; lia)) as Hl.
    destruct (H3 eq_refl) as [H|H].
    + pose proof (shift_or_ge 12 (Z.land (byte_val a) 15)
        (Z.lor (Z.shiftl (Z.land (byte_val b) 63) 6) (Z.land (byte_val c) 63)) ltac:(lia)
        ltac:(apply land_byte_nonneg; lia) ltac:(pose proof (land_byte_nonneg (byte_val b) 63 ltac:(lia)); lia)). lia.
    + rewrite H in Eacc |- *. change (Z.land 224 15) with 0%Z. rewrite Z.shiftl_0_l, Z.lor_0_l.
      cbn in Eacc. simplify_eq. pose proof (Hc 160%Z b ltac:(lia) Eb). lia.
  - destruct s as [|b [|c [|d u]]]; try exact Hbad. destruct (cont lo hi b) eqn:Eb; [|exact Hbad].
    destruct (cont 128 191 c); [|exact Hbad]. destruct (cont 128 191 d); [|exact Hbad]. cbn [andb].
    do 2 eexists. split; [done|]. cbn [s_rune]. rewrite <- !Z.lor_assoc.
    set (tail := Z.lor (Z.shiftl (Z.land (byte_val c) 63) 6) (Z.land (byte_val d) 63)).
    assert (0 <= tail)%Z.
    { apply Z.lor_nonneg. split; [apply Z.shiftl_nonneg|]; apply land_byte_nonneg; lia. }
    pose proof (shift_or_ge 12 (Z.land (byte_val b) 63) tail ltac:(lia) ltac:(apply land_byte_nonneg; lia) ltac:(lia)) as Hl.
    destruct (H4 eq_refl) as [H5|H5].
    + pose proof (shift_or_ge 18 (Z.land (byte_val a) 7)
        (Z.lor (Z.shiftl (Z.land (byte_val b) 63) 12) tail) ltac:(lia)
        ltac:(apply land_byte_nonneg; lia) ltac:(pose proof (land_byte_nonneg (byte_val b) 63 ltac:(lia)); lia)). lia.
    + rewrite H5 in Eacc |- *. change (Z.land 240 7) with 0%Z. rewrite Z.shiftl_0_l, Z.lor_0_l.
      cbn in Eacc. simplify_eq. pose proof (Hc 144%Z b ltac:(lia) Eb). lia.
Qed.

Definition norm_check (a : ascii) : bool :=
  match normalize_rune (byte_val a) with
  | None => negb (is_separator (byte_val a))
  | Some None => is_separator (byte_val a)
  | Some (Some (String x EmptyString)) =>
    negb (is_separator (byte_val a)) && in_alphabet x && ((a =? x)%char || (a =? lower_byte x)%char)
  | _ => false
  end.

Lemma norm_check_all a : norm_check a = true.
Proof. destruct a as [[] [] [] [] [] [] [] []]; vm_compute; reflexivity. Qed.

Lemma alphabet_ascii x : in_alphabet x = true ->
  (byte_val x <? 128)%Z && (byte_val (lower_byte x) <? 128)%Z
  && (bool_decide (normalize_rune (byte_val x) = Some (Some (String x "")))
      && bool_decide (normalize_rune (byte_val (lower_byte x)) = Some (Some (String x "")))) = true.
Proof. destruct x as [[] [] [] [] [] [] [] []]; vm_compute; congruence. Qed.

Lemma separator_ascii a : is_separator (byte_val a) = true -> (byte_val a < 128)%Z.
Proof. unfold is_separator. boolprop. lia. Qed.

Lemma normalize_loop_app rs b :
  normalize_loop rs b = option_map (append b) (normalize_loop rs "").
Proof.
  revert b. induction rs as [|r rs IH]; intros b; cbn.
  - by rewrite string_app_nil_r.
  - destruct (normalize_rune r) as [[c|]|]; [|apply IH|done].
    rewrite IH, (IH c). cbn. destruct (normalize_loop rs ""); cbn; [|done].
    by rewrite string_app_assoc.
Qed.

Lemma normalize_loop_cons r rs : normalize_loop (r :: rs) "" =
  match normalize_rune r with
  | None => None
  | Some None => normalize_loop rs ""
  | Some (Some c) => option_map (append c) (normalize_loop rs "")
  end.
Proof. cbn. destruct (normalize_rune r) as [[c|]|]; [apply normalize_loop_app|done|done]. Qed.

Lemma normalize_non_ascii r rs : (127 < r)%Z -> normalize_loop (r :: rs) "" = None.
Proof.
  intros H. rewrite normalize_loop_cons. unfold normalize_rune.
  replace (is_separator r) with false by (symmetry; unfold is_separator; boolprop; lia).
  replace ((97 <=? r)%Z && (r <=? 122)%Z) with false by (symmetry; boolprop; lia).
  by replace (127 <? r)%Z with true by (symmetry; boolprop; lia).
Qed.

Lemma normalize_retyped t c : normalize_loop (runes t) "" = Some c -> retyped c t.
Proof.
  revert c. induction t as [|a t IH]; intros c.
  - cbn. intros [= <-]. constructor.
  - destruct (decide (128 <= byte_val a)%Z) as [Ha|Ha].
    { destruct (segs_non_ascii a t Ha) as (g & gs & E & Hg). unfold runes. rewrite E. cbn [map].
      by rewrite normalize_non_ascii. }
    unfold runes. rewrite segs_ascii by lia. cbn [map s_rune]. rewrite normalize_loop_cons.
    pose proof (norm_check_all a) as Hc. unfold norm_check in Hc.
    destruct (normalize_rune (byte_val a)) as [[s|]|]; [|by intros; constructor; [|apply IH]|done].
    destruct s as [|x [|]]; try done. fold (runes t).
    destruct (normalize_loop (runes t) "") as [c'|]; [|done]. intros [= <-].
    boolprop. destruct Hc as [[Hs Hx] Heq]. constructor; [done|done| |by apply IH].
    destruct Heq as [H|H]; apply Ascii.eqb_eq in H; tauto.
Qed.

Lemma retyped_normalize t c : retyped c t -> normalize_loop (runes t) "" = Some c.
Proof.
  induction 1 as [|a c t Ha _ IH|a x c t Hx Hs Ha _ IH]; [done| |].
  - unfold runes. rewrite segs_ascii by (by apply separator_ascii). cbn [map s_rune].
    rewrite normalize_loop_cons. unfold normalize_rune. by rewrite Ha.
  - pose proof (alphabet_ascii x Hx) as H. rewrite !andb_true_iff, !bool_decide_eq_true, !Z.ltb_lt in H.
    destruct H as [[Hb1 Hb2] [Hn1 Hn2]]. unfold runes.
    rewrite segs_ascii by (destruct Ha; congruence). cbn [map s_rune]. rewrite normalize_loop_cons.
    replace (normalize_rune (byte_val a)) with (Some (Some (String x "")))
      by (destruct Ha; congruence). fold (runes t). by rewrite IH.
Qed.

Lemma retyped_alphabet c t : retyped c t -> sforall in_alphabet c = true.
Proof. induction 1; cbn [sforall]; [done|done|]. apply andb_true_iff. done. Qed.

Lemma retyped_refl c : sforall in_alphabet c = true -> retyped c c.
Proof.
  induction c as [|a c IH]; cbn [sforall]; [constructor|]. intros [Ha Hc]%andb_true_iff.
  constructor; [done| |by left|by apply IH].
  destruct a as [[] [] [] [] [] [] [] []]; vm_compute in Ha |- *; congruence.
Qed.

(** Codes survive being read aloud: NormalizeCode accepts exactly the texts that
    spell a canonical code - eight alphabet characters, letters in either case, with
    hyphens and ASCII white space anywhere - and returns that code. *)
Theorem NormalizeCode_iff t c :
  NormalizeCode t = Some c <-> canonical c = true /\ retyped c t.
Proof.
  unfold NormalizeCode, canonical. rewrite andb_true_iff. split.
  - destruct (normalize_loop (runes t) "") as [s|] eqn:E; [|done].
    apply normalize_retyped in E. destruct (slen s =? CodeLength)%Z eqn:El; [|done].
    cbn. intros [= <-]. pose proof (retyped_alphabet _ _ E). tauto.
  - intros [[Hl Ha] Hr]. rewrite (retyped_normalize _ _ Hr), Hl. done.
Qed.

Lemma NormalizeCode_canonical t c : NormalizeCode t = Some c -> canonical c = true.
Proof.
  unfold NormalizeCode, canonical. destruct (normalize_loop (runes t) "") as [s|] eqn:E; [|done].
  apply normalize_retyped, retyped_alphabet in E. destruct (slen s =? CodeLength)%Z eqn:El; [|done].
  cbn. intros [= <-]. by rewrite El, E.
Qed.

Lemma canonical_NormalizeCode c : canonical c = true -> NormalizeCode c = Some c.
Proof.
  unfold NormalizeCode, canonical. intros [Hl Ha]%andb_true_iff.
  rewrite (retyped_normalize c c) by (by apply retyped_refl). by rewrite Hl.
Qed.

Lemma canonical_shape c : canonical c = true ->
  exists a0 a1 a2 a3 a4 a5 a6 a7,
    c = String a0 (String a1 (String a2 (String a3 (String a4 (String a5 (String a6 (String a7 ""))))))).
Proof.
  unfold canonical, slen, CodeLength. intros [Hl _]%andb_true_iff. apply Z.eqb_eq in Hl.
  do 9 (destruct c as [|? c]; cbn [String.length] in Hl; try lia). by repeat eexists.
Qed.

Lemma retyped_app c d t u : retyped c t -> retyped d u -> retyped (c ++ d) (t ++ u).
Proof.
  induction 1; intros Hd; cbn [append]; [done|apply rt_sep; auto|apply rt_chr; auto].
Qed.

Lemma NormalizeCode_FormatCode c : canonical c = true ->
  NormalizeCode (FormatCode c) = Some c /\ slen (FormatCode c) = 9%Z.
Proof.
  intros Hc. pose proof Hc as Hc'. apply canonical_shape in Hc as (?&?&?&?&?&?&?&?&->).
  unfold canonical in Hc'. apply andb_true_iff in Hc' as [_ Ha]. cbn [sforall] in Ha. rewrite !andb_true_iff in Ha. destruct_and!.
  split; [|done]. unfold NormalizeCode.
  assert (Hr : retyped (String x (String x0 (String x1 (String x2 "")))
                        ++ String x3 (String x4 (String x5 (String x6 ""))))
                       (String x (String x0 (String x1 (String x2 "")))
                        ++ String "-" (String x3 (String x4 (String x5 (String x6 "")))))).
  { apply retyped_app; [|apply rt_sep; [reflexivity|]]; apply retyped_refl; cbn [sforall];
      rewrite !andb_true_iff; auto 10. }
  pose proof (retyped_normalize _ _ Hr) as E. cbn [append] in E.
  change (FormatCode _) with (String x (String x0 (String x1 (String x2
    (String "-" (String x3 (String x4 (String x5 (String x6 ""))))))))).
  rewrite E. done.
Qed.

Lemma alphabet_at_in b : in_alphabet (alphabet_at (Z.land b 31)) = true.
Proof.
  assert (H : forallb (fun z => in_alphabet (alphabet_at z)) (map Z.of_nat (seq 0 32)) = true)
    by (vm_compute; reflexivity).
  rewrite forallb_forall in H. apply H, in_map_iff. exists (Z.to_nat (Z.land b 31)).
  assert (0 <= Z.land b 31 < 32)%Z.
  { change 31%Z with (Z.ones 5). rewrite Z.land_ones by lia. apply Z.mod_pos_bound. lia. }
  split; [lia|]. apply in_seq. lia.
Qed.

Lemma NewCode_canonical buf : length buf = 8%nat ->
  exists c, canonical c = true /\ NewCode buf = FormatCode c.
Proof.
  intros H. exists (String.string_of_list_ascii (map (fun b => alphabet_at (Z.land b 31)) buf)).
  split; [|done].
  do 9 (destruct buf as [|? buf]; cbn [length] in H; try lia).
  unfold canonical. cbn -[alphabet_at in_alphabet]. by rewrite !alphabet_at_in.
Qed.

(** Display round trip: the XXXX-XXXX rendering of a canonical code normalizes back
    to it, and whatever eight random bytes NewCode draws, its result is the rendering of a
    canonical code, which is what NormalizeCode makes of it. *)
Theorem FormatCode_NormalizeCode :
  (forall c, canonical c = true -> NormalizeCode (FormatCode c) = Some c /\ slen (FormatCode c) = 9%Z) /\
  (forall buf, length buf = 8%nat ->
     exists c, canonical c = true /\ NewCode buf = FormatCode c /\ NormalizeCode (NewCode buf) = Some c).
Proof.
  split; [apply NormalizeCode_FormatCode|].
  intros buf Hb. destruct (NewCode_canonical buf Hb) as (c & Hc & E). exists c.
  rewrite E. split_and!; [done|done|]. by apply NormalizeCode_FormatCode.
Qed.

Lemma FormatCode_NormalizeCode_witness :
  NormalizeCode (FormatCode "K7M4Q2PX") = Some "K7M4Q2PX" /\ slen (FormatCode "K7M4Q2PX") = 9%Z.
Proof. apply FormatCode_NormalizeCode. reflexivity. Defined.

(** Codes are uniform: masking a byte to five bits gives every alphabet character
    from exactly eight of the 256 byte values, so a uniform byte draws a uniform
    character. *)
Theorem code_char_uniform i : (0 <= i < 32)%Z ->
  length (List.filter (fun b => alphabet_at (Z.land b 31) =? alphabet_at i)%char all_bytes) = 8%nat.
Proof.
  intros Hi.
  assert (H : forallb (fun i => Nat.eqb 8 (length (List.filter
     (fun b => alphabet_at (Z.land b 31) =? alphabet_at i)%char all_bytes)))
     (map Z.of_nat (seq 0 32)) = true) by (vm_compute; reflexivity).
  rewrite forallb_forall in H. symmetry. apply Nat.eqb_eq, H, in_map_iff.
  exists (Z.to_nat i). split; [lia|]. apply in_seq. lia.
Qed.

Lemma code_char_uniform_witness :
  (0 <= 20 < 32)%Z /\
  length (List.filter (fun b => alphabet_at (Z.land b 31) =? alphabet_at 20)%char all_bytes) = 8%nat.
Proof. split; [lia|]. apply (code_char_uniform 20). lia. Defined.
