(* ===== verification/Paths.v ===== *)
(** * Names and paths: the validation rules of internal/protocol/manifest.go, SafeJoin of
      internal/platform/fs.go, sanitizeUploadName of internal/transfer/simple.go and the
      directory names of internal/store/files/layout.go *)
From S2P Require Import Prelude GoStrings Errors.
Local Open Scope string_scope.

Section names.
Context `{Unicode}.

(** reservedWindowsNames *)
Definition reservedWindowsNames : list string :=
  ["con"; "prn"; "aux"; "nul"; "com1"; "com2"; "com3"; "com4"; "com5"; "com6"; "com7";
   "com8"; "com9"; "lpt1"; "lpt2"; "lpt3"; "lpt4"; "lpt5"; "lpt6"; "lpt7"; "lpt8"; "lpt9"].

(** The characters reserved on some supported platform. *)
Definition reserved_chars : string := String (ascii_of_nat 34) "<>:|?*\/".

Definition bad_rune (r : Z) : bool :=
  ((r =? 0) || ((r <? 32) || (r =? 127)) || ContainsRune reserved_chars r || is_Cf r)%Z.

Definition ValidateComponent (c : string) : option ecode :=
  if c =? "" then Some InvalidPath else
  if (c =? ".") || (c =? "..") then Some InvalidPath else
  if (255 <? slen c)%Z then Some InvalidPath else
  if existsb bad_rune (runes c) then Some InvalidPath else
  if ends_with "." c || ends_with " " c then Some InvalidPath else
  if existsb (String.eqb (before "." (ToLower c))) reservedWindowsNames then Some InvalidPath else
  None.

Definition ValidatePortablePath (p : string) : option ecode :=
  if p =? "" then Some InvalidPath else
  if (4096 <? slen p)%Z then Some InvalidPath else
  if negb (valid_utf8 p) then Some InvalidPath else
  if has_prefix "/" p then Some InvalidPath else
  if has_byte "\" p then Some InvalidPath else
  if match String.get 1 p with Some c => (c =? ":")%char | None => false end
  then Some InvalidPath else
  first_some ValidateComponent (split "/" p).

Definition normalizedPathKey (p : string) : string := ToLower p.
End names.

(** filepath.Abs, with the process's working directory. *)
Definition Abs (cwd p : string) : string :=
  if has_prefix "/" p then Clean p else Join [cwd; p].

(** SafeJoin; [None] is the error result. *)
Definition SafeJoin (cwd base rel : string) : option string :=
  if rel =? "" then None else
  if has_prefix "/" rel then None else
  let cleanBase := Abs cwd base in
  let cleaned := Clean (Join [cleanBase; rel]) in
  if negb (cleaned =? cleanBase) && negb (has_prefix (cleanBase ++ "/") cleaned) then None
  else Some cleaned.

Definition sanitizeUploadName (name0 : string) : string :=
  let name := smap (fun a => if (a =? "\")%char then "/"%char else a) name0 in
  let name := TrimSpace (Base (Clean name)) in
  if (name =? ".") || (name =? "/") || (name =? "..") then "" else name.

(** ** Storage directories *)

Definition PayloadDir : string := "payload".
Definition SegmentsDir : string := "segments".
Definition PacksDir : string := "packs".
Definition ManifestFile : string := "manifest.json".
Definition OutboardsDir : string := "outboards".
Definition OutboardSuffix : string := ".obao".

Definition Shard (transferID : string) : string :=
  let trimmed := TrimPrefix "t-" transferID in
  if (slen trimmed <? 2)%Z then "00" else String.substring 0 2 trimmed.

Definition Staging (dataDir : string) : string := Join [dataDir; "staging"].
Definition Live (dataDir : string) : string := Join [dataDir; "live"].
Definition Trash (dataDir : string) : string := Join [dataDir; "trash"].
Definition StagingPath (dataDir id : string) : string := Join [Staging dataDir; id].
Definition LivePath (dataDir id : string) : string := Join [Live dataDir; Shard id; id].
Definition TrashPath (dataDir id : string) : string := Join [Trash dataDir; id].

(** ** Plain components *)

(** A path component that denotes a directory entry of its parent and nothing else. *)
Definition plain (c : string) : bool :=
  negb (c =? "") && negb (c =? ".") && negb (c =? "..") && negb (has_byte "/" c).

(** A clean rooted path, given by its components. *)
Definition rooted (cs : list string) : string := "/" ++ join "/" cs.

Lemma plain_spec c : plain c = true <->
  c <> "" /\ c <> "." /\ c <> ".." /\ has_byte "/" c = false.
Proof. unfold plain. rewrite !andb_true_iff, !negb_true_iff, !String.eqb_neq. tauto. Qed.

Lemma split_cons_ne sep s : split sep s <> [].
Proof. destruct s as [|a s]; cbn; [done|]. case_match; [done|]. by destruct (split sep s). Qed.

Lemma split_no_sep sep s : has_byte sep s = false -> split sep s = [s].
Proof.
  induction s as [|a s IH]; [done|]. cbn. intros [Ha Hs]%orb_false_iff. by rewrite Ha, (IH Hs).
Qed.

Lemma split_app sep a b : split sep (a ++ String sep b) = (split sep a ++ split sep b)%list.
Proof.
  induction a as [|x a IH]; cbn.
  - by rewrite Ascii.eqb_refl.
  - destruct (x =? sep)%char; [by rewrite IH|]. rewrite IH.
    destruct (split sep a) eqn:E; [by apply split_cons_ne in E|done].
Qed.

Lemma split_parts sep s : Forall (fun c => has_byte sep c = false) (split sep s).
Proof.
  induction s as [|x s IH]; cbn; [by repeat constructor|].
  destruct (x =? sep)%char eqn:E; [by constructor|].
  inversion IH as [Hs|w ws Hw Hws Hs]; [constructor; [|done]; cbn; by rewrite E|].
  constructor; [|done]. cbn. by rewrite E.
Qed.

Lemma join_cons sep x y l : join sep (x :: y :: l) = x ++ sep ++ join sep (y :: l).
Proof. reflexivity. Qed.

Lemma split_join cs : cs <> [] -> Forall (fun c => has_byte "/" c = false) cs ->
  split "/" (join "/" cs) = cs.
Proof.
  induction cs as [|c [|d cs] IH]; intros Hne Hcs; [done| |].
  - apply split_no_sep. by inversion Hcs.
  - rewrite join_cons. change ("/" ++ ?x) with (String "/" x). rewrite split_app, IH; [|done|].
    + rewrite split_no_sep; [done|]. by inversion Hcs.
    + by inversion Hcs.
Qed.

Lemma join_split s : join "/" (split "/" s) = s.
Proof.
  induction s as [|x s IH]; [done|]. cbn [split]. pose proof (split_cons_ne "/" s).
  destruct (x =? "/")%char eqn:E.
  - apply Ascii.eqb_eq in E as ->. destruct (split "/" s) as [|w ws]; [done|].
    rewrite join_cons, IH. done.
  - destruct (split "/" s) as [|w [|v ws]]; [done| |].
    + cbn in *. congruence.
    + rewrite join_cons in *. cbn [append] in *. congruence.
Qed.

Lemma Forall_plain_slash cs : Forall (fun c => plain c = true) cs ->
  Forall (fun c => has_byte "/" c = false) cs.
Proof.
  intros Hcs. eapply Forall_impl; [exact Hcs|]. intros c Hc. apply plain_spec in Hc. tauto.
Qed.

Lemma clean_step_plain r out c : plain c = true -> clean_step r out c = c :: out.
Proof.
  intros (H1 & H2 & H3 & _)%plain_spec. apply String.eqb_neq in H1, H2, H3. unfold clean_step.
  by rewrite H1, H2, H3.
Qed.

Lemma clean_comps_app r a b : Forall (fun c => plain c = true) b ->
  clean_comps r (a ++ b) = (clean_comps r a ++ b)%list.
Proof.
  unfold clean_comps. rewrite foldl_app. generalize (foldl (clean_step r) [] a). intros out Hb.
  enough (E : forall out, foldl (clean_step r) out b = (rev b ++ out)%list).
  { by rewrite E, rev_app_distr, rev_involutive. }
  clear out. induction Hb as [|c b Hc Hb IH]; intros out; cbn; [done|].
  rewrite clean_step_plain by done. rewrite IH. by rewrite <- app_assoc.
Qed.

Lemma clean_comps_plain r cs : Forall (fun c => plain c = true) cs -> clean_comps r cs = cs.
Proof. intros H. exact (clean_comps_app r [] cs H). Qed.

(** Cleaning a rooted path leaves only plain components. *)
Lemma clean_comps_rooted cs : Forall (fun c => has_byte "/" c = false) cs ->
  Forall (fun c => plain c = true) (clean_comps true cs).
Proof.
  intros Hcs. unfold clean_comps. apply Forall_rev.
  assert (G : forall out, Forall (fun c => plain c = true) out ->
    Forall (fun c => plain c = true) (foldl (clean_step true) out cs)); [|by apply G].
  induction Hcs as [|c cs Hc Hcs IH]; intros out Ho; cbn; [done|]. apply IH. unfold clean_step.
  destruct ((c =? "") || (c =? ".")) eqn:E1; [done|]. destruct (c =? "..") eqn:E2.
  - destruct Ho as [|d out Hd Ho]; [constructor|].
    destruct (d =? "..") eqn:E3; [|done]. apply String.eqb_eq in E3 as ->. done.
  - constructor; [|done]. apply orb_false_iff in E1 as [E0 E1].
    apply plain_spec. rewrite <- !String.eqb_neq. done.
Qed.

Lemma split_rooted cs : cs <> [] -> Forall (fun c => plain c = true) cs ->
  split "/" (rooted cs) = "" :: cs.
Proof.
  intros Hne Hcs. unfold rooted. change ("/" ++ ?x) with ("" ++ String "/" x).
  rewrite split_app, split_join; [done|done|by apply Forall_plain_slash].
Qed.

Lemma Clean_rooted_comps p : has_prefix "/" p = true ->
  Clean p = rooted (clean_comps true (split "/" p)).
Proof.
  intros Hp. unfold Clean. destruct (String.eqb_spec p "") as [->|]; [done|]. by rewrite Hp.
Qed.

Lemma clean_comps_nil_cons r cs : clean_comps r ("" :: cs) = clean_comps r cs.
Proof. reflexivity. Qed.

Lemma Clean_rooted cs : Forall (fun c => plain c = true) cs -> Clean (rooted cs) = rooted cs.
Proof.
  intros Hcs. rewrite Clean_rooted_comps by done. destruct cs as [|c cs]; [done|].
  rewrite split_rooted by done. rewrite clean_comps_nil_cons, clean_comps_plain; done.
Qed.

(** Every cleaned rooted path is given by plain components. *)
Lemma Clean_is_rooted p : has_prefix "/" p = true ->
  exists cs, Clean p = rooted cs /\ Forall (fun c => plain c = true) cs.
Proof.
  intros Hp. rewrite Clean_rooted_comps by done. eexists. split; [done|].
  apply clean_comps_rooted, split_parts.
Qed.

Lemma Join_pair a b : a <> "" -> b <> "" -> Join [a; b] = Clean (a ++ "/" ++ b).
Proof.
  intros Ha%String.eqb_neq Hb%String.eqb_neq. unfold Join. cbn [List.filter]. by rewrite Ha, Hb.
Qed.

Lemma Clean_prefix p : has_prefix "/" p = true -> has_prefix "/" (Clean p) = true.
Proof. intros Hp. destruct (Clean_is_rooted p Hp) as (cs & -> & _). by destruct (join "/" cs). Qed.

Lemma has_prefix_app p s : has_prefix p s = true -> exists r, s = p ++ r.
Proof.
  revert s. induction p as [|a p IH]; intros [|b s]; cbn; try done; [by exists ""|by eexists|].
  intros [Ha Hp]%andb_true_iff. apply Ascii.eqb_eq in Ha as ->.
  destruct (IH s Hp) as [r ->]. by exists r.
Qed.

Lemma app_has_prefix p r : has_prefix p (p ++ r) = true.
Proof. induction p as [|a p IH]; cbn; [done|]. by rewrite Ascii.eqb_refl. Qed.

Lemma join_app bs cs : bs <> [] -> cs <> [] ->
  join "/" (bs ++ cs)%list = join "/" bs ++ "/" ++ join "/" cs.
Proof.
  intros Hb Hc. induction bs as [|b [|b' bs] IH]; [done|by destruct cs|].
  change ((b :: b' :: bs) ++ cs)%list with (b :: b' :: (bs ++ cs))%list. rewrite !join_cons.
  change (b' :: (bs ++ cs))%list with ((b' :: bs) ++ cs)%list. rewrite IH by done.
  by rewrite !string_app_assoc.
Qed.

Lemma rooted_app bs cs : bs <> [] -> cs <> [] ->
  rooted (bs ++ cs)%list = rooted bs ++ "/" ++ join "/" cs.
Proof. intros. unfold rooted. by rewrite join_app, !string_app_assoc. Qed.

Lemma rooted_prefix bs cs : Forall (fun c => plain c = true) bs ->
  Forall (fun c => plain c = true) cs ->
  has_prefix (rooted bs ++ "/") (rooted cs) = true -> exists ds, cs = (bs ++ ds)%list.
Proof.
  intros Hb Hc Hp. destruct bs as [|b bs]; [by exists cs|].
  destruct (has_prefix_app _ _ Hp) as [r Hr]. exists (split "/" r).
  rewrite string_app_assoc in Hr. change ("/" ++ r) with (String "/" r) in Hr.
  apply (f_equal (split "/")) in Hr. rewrite split_app, (split_rooted (b :: bs)) in Hr by done.
  destruct cs as [|c cs]; [|by rewrite split_rooted in Hr by done; cbn in Hr |- *; congruence].
  apply Forall_inv in Hb. cbn in Hr. by simplify_eq.
Qed.



Lemma SafeJoin_plain cwd bs cs : bs <> [] -> cs <> [] -> Forall (fun c => plain c = true) bs ->
  Forall (fun c => plain c = true) cs ->
  SafeJoin cwd (rooted bs) (join "/" cs) = Some (rooted (bs ++ cs)%list).
Proof.
  intros Hne Hcne Hbs Hpl.
  assert (Hns : has_prefix "/" (join "/" cs) = false /\ join "/" cs <> "").
  { destruct cs as [|c cs]; [done|]. apply Forall_inv in Hpl as (? & _ & _ & Hb)%plain_spec.
    destruct c as [|a c]; [done|]. cbn in Hb. apply orb_false_iff in Hb as [Hb _].
    destruct cs; cbn [join String.concat append has_prefix]; rewrite Ascii.eqb_sym, Hb; done. }
  destruct Hns as [Hns Hnn]. apply String.eqb_neq in Hnn.
  assert (Hall : Forall (fun c => plain c = true) (bs ++ cs)%list) by (by apply Forall_app).
  unfold SafeJoin, Abs. rewrite Hns, Hnn.
  replace (has_prefix "/" (rooted bs)) with true by (by destruct (join "/" bs)).
  rewrite Clean_rooted by done. rewrite Join_pair by (done || by apply String.eqb_neq).
  rewrite <- rooted_app by done. rewrite !Clean_rooted by done.
  rewrite (rooted_app bs cs) by done.
  rewrite <- string_app_assoc, app_has_prefix. by rewrite andb_false_r.
Qed.

Section valid.
Context `{Unicode}.

(** A rune loop over a string sees every ASCII byte of it. *)
Lemma has_byte_runes a s : (byte_val a < 128)%Z -> has_byte a s = true -> byte_val a ∈ runes s.
Proof.
  intros Ha Hs. assert (exists u v, s = u ++ String a v) as (u & v & ->).
  { clear Ha. induction s as [|x s IH]; [done|]. cbn in Hs.
    destruct (Ascii.eqb_spec x a) as [->|]; [by exists "", s|].
    destruct (IH Hs) as (u & v & ->). by exists (String x u), v. }
  unfold runes. rewrite segs_app; [|by apply Z.ltb_lt]. rewrite segs_ascii by done.
  rewrite map_app. apply elem_of_app. right. cbn. left.
Qed.

Lemma ValidateComponent_no_byte a c : ValidateComponent c = None -> (byte_val a < 128)%Z ->
  bad_rune (byte_val a) = true -> has_byte a c = false.
Proof.
  unfold ValidateComponent. intros Hc Ha Hbad.
  destruct (has_byte a c) eqn:E; [|done]. apply (has_byte_runes a c Ha) in E.
  assert (Hex : existsb bad_rune (runes c) = true).
  { apply existsb_exists. exists (byte_val a). split; [by apply list_elem_of_In|done]. }
  rewrite Hex in Hc. repeat case_match; done.
Qed.

Lemma ValidateComponent_plain c : ValidateComponent c = None -> plain c = true.
Proof.
  intros Hc. apply plain_spec. pose proof (ValidateComponent_no_byte "/" c Hc eq_refl eq_refl) as Hs.
  unfold ValidateComponent in Hc. destruct (c =? "") eqn:E1; [done|].
  destruct ((c =? ".") || (c =? "..")) eqn:E2; [done|]. apply orb_false_iff in E2 as [E2 E3].
  rewrite <- !String.eqb_neq. auto.
Qed.

Lemma ValidatePortablePath_comps p : ValidatePortablePath p = None ->
  exists cs, cs <> [] /\ p = join "/" cs /\ Forall (fun c => ValidateComponent c = None) cs.
Proof.
  intros Hp. exists (split "/" p). split; [apply split_cons_ne|]. split; [by rewrite join_split|].
  unfold ValidatePortablePath in Hp. repeat case_match; try done; by apply first_some_None.
Qed.

Lemma valid_plain cs : Forall (fun c => ValidateComponent c = None) cs ->
  Forall (fun c => plain c = true) cs.
Proof.
  intros Hcs. eapply Forall_impl; [exact Hcs|]. intros c. apply ValidateComponent_plain.
Qed.

Lemma SafeJoin_valid cwd bs p : bs <> [] -> Forall (fun c => plain c = true) bs ->
  ValidatePortablePath p = None ->
  SafeJoin cwd (rooted bs) p = Some (rooted (bs ++ split "/" p)%list).
Proof.
  intros Hne Hbs Hp. destruct (ValidatePortablePath_comps p Hp) as (cs & Hcne & -> & Hcs).
  pose proof (valid_plain cs Hcs) as Hpl.
  rewrite split_join by (auto using Forall_plain_slash). by apply SafeJoin_plain.
Qed.

(** A validated path is taken literally: for a path the manifest rules accept,
    SafeJoin under a clean rooted directory never fails and returns exactly the
    concatenation, so the staged, served and received file is the declared one. *)
Theorem SafeJoin_portable cwd bs p : bs <> [] -> Forall (fun c => plain c = true) bs ->
  ValidatePortablePath p = None ->
  SafeJoin cwd (rooted bs) p = Some (rooted bs ++ "/" ++ p).
Proof.
  intros Hne Hbs Hp. rewrite SafeJoin_valid by done.
  rewrite rooted_app; [by rewrite join_split|done|apply split_cons_ne].
Qed.
End valid.

(** An instance for examples: a program run where no non-ASCII letter changes case. *)
Definition ascii_unicode : Unicode := {| ulower r := r |}.

Lemma SafeJoin_portable_witness :
  SafeJoin "/" (rooted ["srv"; "payload"]) "docs/a.txt" = Some "/srv/payload/docs/a.txt".
Proof.
  refine (@SafeJoin_portable ascii_unicode "/" ["srv"; "payload"] "docs/a.txt" _ _ _);
    [done|repeat constructor|vm_compute; reflexivity].
Defined.

Lemma filter_plain cs : Forall (fun c => plain c = true) cs ->
  List.filter (fun e => negb (e =? "")) cs = cs.
Proof.
  induction 1 as [|c cs Hc _ IH]; cbn; [done|]. apply plain_spec in Hc as [Hc _].
  apply String.eqb_neq in Hc. by rewrite Hc, IH.
Qed.

Lemma Join_plain bs cs : cs <> [] -> Forall (fun c => plain c = true) bs ->
  Forall (fun c => plain c = true) cs -> Join (rooted bs :: cs) = rooted (bs ++ cs)%list.
Proof.
  intros Hne Hbs Hcs. unfold Join. cbn [List.filter]. rewrite filter_plain by done.
  change (negb (rooted bs =? "")) with true. cbn iota.
  destruct cs as [|c cs]; [done|]. rewrite join_cons.
  rewrite Clean_rooted_comps by done. change ("/" ++ ?x) with (String "/" x).
  rewrite split_app, split_join by (auto using Forall_plain_slash).
  rewrite clean_comps_app by done. f_equal. f_equal.
  destruct bs as [|b bs]; [done|]. rewrite split_rooted by done.
  by rewrite clean_comps_nil_cons, clean_comps_plain.
Qed.

Lemma rooted_inj cs ds : Forall (fun c => plain c = true) cs ->
  Forall (fun c => plain c = true) ds -> rooted cs = rooted ds -> cs = ds.
Proof.
  intros Hc Hd E. apply (f_equal (split "/")) in E.
  destruct cs as [|c cs], ds as [|d ds]; [done| | |].
  - rewrite (split_rooted (d :: ds)) in E by done. cbn in E. apply Forall_inv in Hd. by simplify_eq.
  - rewrite (split_rooted (c :: cs)) in E by done. cbn in E. apply Forall_inv in Hc. by simplify_eq.
  - rewrite !split_rooted in E by done. by simplify_eq.
Qed.

(** Storage paths do not collide: under a clean rooted data directory, the staging,
    live and trash directories of transfers whose IDs are plain names are distinct for
    distinct (area, ID) pairs, so each area can be treated as a map from IDs. *)
Theorem layout_injective bs a b :
  Forall (fun c => plain c = true) bs -> plain a = true -> plain b = true ->
  plain (Shard a) = true -> plain (Shard b) = true ->
  let d := rooted bs in
  (StagingPath d a = StagingPath d b -> a = b) /\
  (LivePath d a = LivePath d b -> a = b) /\
  (TrashPath d a = TrashPath d b -> a = b) /\
  StagingPath d a <> LivePath d b /\ StagingPath d a <> TrashPath d b /\
  LivePath d a <> TrashPath d b.
Proof.
  intros Hbs Ha Hb Hsa Hsb d. subst d.
  unfold StagingPath, LivePath, TrashPath, Staging, Live, Trash.
  assert (Hsub : forall c, plain c = true -> Forall (fun c => plain c = true) (bs ++ [c])%list).
  { intros c Hc. apply Forall_app. auto. }
  rewrite !(Join_plain bs) by (done || auto || by repeat constructor).
  rewrite !(Join_plain (bs ++ _)%list) by (done || (by auto) || by repeat constructor).
  rewrite <- !app_assoc. cbn [app].
  assert (HF : forall l, Forall (fun c => plain c = true) l -> Forall (fun c => plain c = true) (bs ++ l)%list).
  { intros l Hl. by apply Forall_app. }
  repeat split; intros E; (apply rooted_inj in E;
    [apply app_inv_head in E; congruence|apply HF; by repeat constructor|apply HF; by repeat constructor]).
Qed.

Lemma layout_injective_witness :
  LivePath "/srv/sss" "t-ab01" = LivePath "/srv/sss" "t-ab01" /\
  StagingPath "/srv/sss" "t-ab01" <> LivePath "/srv/sss" "t-cd02".
Proof.
  destruct (layout_injective ["srv"; "sss"] "t-ab01" "t-cd02") as (_ & _ & _ & H & _);
    [repeat constructor|reflexivity|reflexivity|reflexivity|reflexivity|].
  split; [reflexivity|exact H].
Defined.
