(* ===== verification/GoTime.v ===== *)
(** * Instants and durations of Go's [time] package

    A [time.Time] is its count of nanoseconds since the Unix epoch; the zero Time is the
    first instant of year 1.  A [time.Duration] is an int64 count of nanoseconds.  The
    float64 arithmetic of [time.ParseDuration] is the Standard Library's [SpecFloat]. *)
From Stdlib Require Import SpecFloat.
From S2P Require Import Prelude GoStrings.

Definition second : Z := 1000000000.
Definition minute : Z := 60 * second.

Definition zero_time : Z := -62135596800 * second.
Definition IsZero (t : Z) : bool := t =? zero_time.

(** t.Unix() and time.Unix(sec, 0).UTC() *)
Definition Unix (t : Z) : Z := t / second.
Definition from_unix (s : Z) : Z := s * second.

(** t.Truncate(time.Second): whole seconds since the zero Time, which is itself whole. *)
Definition truncate_second (t : Z) : Z := t - (t - zero_time) mod second.

(** time.Duration(m) * time.Minute *)
Definition minutes (m : Z) : Z := int64 (m * minute).

Definition Before (a b : Z) : bool := a <? b.

(** ** float64 *)

Definition float64 : Type := spec_float.
Definition float64_of (z : Z) : float64 := binary_normalize 53 1024 z 0 false.
Definition fmul : float64 -> float64 -> float64 := SFmul 53 1024.
Definition fdiv : float64 -> float64 -> float64 := SFdiv 53 1024.
(** uint64(f) of a float that is not negative and in range: truncation *)
Definition truncate (f : float64) : Z :=
  match f with
  | S754_finite false m e => if 0 <=? e then Z.pos m * 2 ^ e else Z.pos m / 2 ^ (- e)
  | _ => 0
  end.

(** ** time.ParseDuration *)

Definition is_digit (a : ascii) : bool := (48 <=? byte_val a) && (byte_val a <=? 57).

(** leadingInt: the value and the rest, or an overflow. *)
Fixpoint leadingInt (x : Z) (s : string) : option (Z * string) :=
  match s with
  | String a t =>
    if is_digit a then
      if 2^63 / 10 <? x then None else
      let x := x * 10 + (byte_val a - 48) in
      if 2^63 <? x then None else leadingInt x t
    else Some (x, s)
  | EmptyString => Some (x, s)
  end.

(** leadingFraction: the digits as far as they fit, the scale as a float, the rest. *)
Fixpoint leadingFraction (x : Z) (scale : float64) (overflow : bool) (s : string) : Z * float64 * string :=
  match s with
  | String a t =>
    if is_digit a then
      if overflow || ((2^63 - 1) / 10 <? x) then leadingFraction x scale true t else
      let y := x * 10 + (byte_val a - 48) in
      if 2^63 <? y then leadingFraction x scale true t
      else leadingFraction y (fmul scale (float64_of 10)) false t
    else (x, scale, s)
  | EmptyString => (x, scale, s)
  end.

(** The unit's bytes run to the next dot or digit. *)
Fixpoint cut_unit (s : string) : string * string :=
  match s with
  | String a t =>
    if (a =? ".")%char || is_digit a then (EmptyString, s)
    else let '(u, r) := cut_unit t in (String a u, r)
  | EmptyString => (EmptyString, EmptyString)
  end.

(** unitMap; the two spellings of microseconds are the micro sign and the Greek letter. *)
Definition micro (b0 b1 : Z) : string := String (byte_of b0) (String (byte_of b1) "s").
Definition unitMap : list (string * Z) :=
  [("ns", 1); ("us", 1000); (micro 194 181, 1000); (micro 206 188, 1000); ("ms", 1000000);
   ("s", second); ("m", minute); ("h", 60 * minute)]%string.
Definition unit_of (u : string) : option Z :=
  option_map snd (List.find (fun e => (fst e =? u)%string) unitMap).

(** One [number unit] group: its nanoseconds and the rest of the string. *)
Definition duration_group (s : string) : option (Z * string) :=
  match s with
  | EmptyString => None
  | String a _ =>
    if negb ((a =? ".")%char || is_digit a) then None else
    match leadingInt 0 s with
    | None => None
    | Some (v, s1) =>
      let pre := negb (slen s1 =? slen s) in
      let '(f, scale, s2, post) :=
        match s1 with
        | String "." t => let '(f, scale, s2) := leadingFraction 0 (float64_of 1) false t in
                          (f, scale, s2, negb (slen s2 =? slen t))
        | _ => (0, float64_of 1, s1, false)
        end in
      if negb pre && negb post then None else
      let '(u, s3) := cut_unit s2 in
      if (u =? "")%string then None else
      match unit_of u with
      | None => None
      | Some unit =>
        if 2^63 / unit <? v then None else
        let v := v * unit in
        if 0 <? f then
          let v := v + truncate (fmul (float64_of f) (fdiv (float64_of unit) scale)) in
          if 2^63 <? v then None else Some (v, s3)
        else Some (v, s3)
      end
    end
  end.

(** The loop over the groups; each consumes at least one byte. *)
Fixpoint duration_groups (fuel : nat) (d : Z) (s : string) : option Z :=
  match s, fuel with
  | EmptyString, _ => Some d
  | _, O => None
  | _, S fuel =>
    match duration_group s with
    | None => None
    | Some (v, rest) =>
      let d := (d + v) mod 2^64 in
      if 2^63 <? d then None else duration_groups fuel d rest
    end
  end.

Definition ParseDuration (s : string) : option Z :=
  let '(neg, s) := match s with
    | String "-" t => (true, t)
    | String "+" t => (false, t)
    | _ => (false, s)
    end in
  if (s =? "0")%string then Some 0 else
  if (s =? "")%string then None else
  match duration_groups (String.length s) 0 s with
  | None => None
  | Some d => if neg : bool then Some (- d) else if 2^63 - 1 <? d then None else Some d
  end.

Example duration_hours : ParseDuration "1h30m" = Some (90 * minute).
Proof. vm_compute. reflexivity. Qed.
Example duration_fraction : ParseDuration "-1.5h0.25s" = Some (- (90 * minute + 250000000)).
Proof. vm_compute. reflexivity. Qed.
Example duration_units : map ParseDuration ["90"; "1d"; "."; ""; "+0"]%string = [None; None; None; None; Some 0].
Proof. vm_compute. reflexivity. Qed.

(** ** Lemmas *)

Lemma truncate_second_unix t : truncate_second t = from_unix (Unix t).
Proof.
  unfold truncate_second, from_unix, Unix, zero_time.
  replace (t - -62135596800 * second) with (t + 62135596800 * second) by lia.
  rewrite Z_mod_plus_full. pose proof (Z.div_mod t second ltac:(done)). lia.
Qed.

Lemma Unix_from_unix s : Unix (from_unix s) = s.
Proof. unfold Unix, from_unix. by rewrite Z.div_mul. Qed.

Lemma minutes_small m : 0 <= m <= 3000 -> minutes m = m * minute.
Proof.
  intros H. unfold minutes. apply int64_small. unfold in_int64, min_int64, max_int64, minute, second. lia.
Qed.

Lemma from_unix_add a d : from_unix a + d * second = from_unix (a + d).
Proof. unfold from_unix. lia. Qed.
