(* ===== verification/GoHttp.v ===== *)
(** * The parts of Go's [net/url] and [mime] packages that the handlers use *)
From S2P Require Import Prelude GoStrings.

Definition dquote : ascii := ascii_of_nat 34.
Definition quote : string := String dquote EmptyString.
Definition backslash : ascii := ascii_of_nat 92.

(** ** url.PathEscape *)

Definition path_safe (a : ascii) : bool :=
  let b := byte_val a in
  (48 <=? b) && (b <=? 57) || (65 <=? b) && (b <=? 90) || (97 <=? b) && (b <=? 122) ||
  existsb (Z.eqb b) [45; 95; 46; 126; 36; 38; 43; 58; 61; 64].
Definition upper_hex_digit (z : Z) : ascii := if z <? 10 then byte_of (48 + z) else byte_of (55 + z).
Fixpoint PathEscape (s : string) : string :=
  match s with
  | EmptyString => EmptyString
  | String a s =>
    if path_safe a then String a (PathEscape s)
    else String "%" (String (upper_hex_digit (byte_val a / 16))
                       (String (upper_hex_digit (byte_val a mod 16)) (PathEscape s)))
  end.

(** ** mime.ParseMediaType *)

Definition isTSpecial (a : ascii) : bool :=
  existsb (Z.eqb (byte_val a)) [40; 41; 60; 62; 64; 44; 59; 58; 92; 34; 47; 91; 93; 63; 61].
Definition isTokenChar (a : ascii) : bool :=
  (32 <? byte_val a) && (byte_val a <? 127) && negb (isTSpecial a).
Fixpoint consumeToken (v : string) : string * string :=
  match v with
  | String a t => if isTokenChar a then let '(x, r) := consumeToken t in (String a x, r) else (EmptyString, v)
  | EmptyString => (EmptyString, EmptyString)
  end.

(** strings.TrimLeftFunc(v, unicode.IsSpace) *)
Definition trim_left_space (v : string) : string :=
  join "" (map s_bytes (drop_while (fun g => is_space (s_rune g)) (segs v))).

(** A quoted string after its opening quote; [None] without a closing one. *)
Fixpoint quoted (v : string) : option (string * string) :=
  match v with
  | EmptyString => None
  | String a t =>
    if (a =? dquote)%char then Some (EmptyString, t) else
    let add (x : ascii) (r : option (string * string)) :=
      match r with Some (s, rest) => Some (String x s, rest) | None => None end in
    match t with
    | String b u =>
      if (a =? backslash)%char && isTSpecial b then add b (quoted u) else
      if (a =? ascii_of_nat 13)%char || (a =? ascii_of_nat 10)%char then None else add a (quoted t)
    | EmptyString => None
    end
  end.
(** consumeValue: [None] when no value can be read. *)
Definition consumeValue (v : string) : option (string * string) :=
  match v with
  | String a t =>
    if (a =? dquote)%char then quoted t
    else match consumeToken v with (EmptyString, _) => None | r => Some r end
  | EmptyString => None
  end.

Definition consumeMediaParam `{Unicode} (v : string) : option (string * string * string) :=
  match trim_left_space v with
  | String ";" r =>
    match consumeToken (trim_left_space r) with
    | (EmptyString, _) => None
    | (param, r) =>
      match trim_left_space r with
      | String "=" r =>
        match consumeValue (trim_left_space r) with
        | Some (value, r) => Some (ToLower param, value, r)
        | None => None
        end
      | _ => None
      end
    end
  | _ => None
  end.

(** checkMediaTypeDisposition *)
Definition media_type_ok (s : string) : bool :=
  match consumeToken s with
  | (EmptyString, _) => false
  | (_, EmptyString) => true
  | (_, String "/" r) => match consumeToken r with (EmptyString, _) => false | (_, rest) => (rest =? "")%string end
  | _ => false
  end.

(** The loop over the parameters; [false] is an error.  Every parameter consumes a byte. *)
Fixpoint media_params `{Unicode} (fuel : nat) (seen : list (string * string)) (v : string) : bool :=
  let v := trim_left_space v in
  if (v =? "")%string then true else
  match consumeMediaParam v, fuel with
  | None, _ => (TrimSpace v =? ";")%string
  | _, O => false
  | Some (key, value, rest), S fuel =>
    match List.find (fun e => (fst e =? key)%string) seen with
    | Some (_, old) => (old =? value)%string && media_params fuel seen rest
    | None => media_params fuel ((key, value) :: seen) rest
    end
  end.

(** The media type, or [None] on an error. *)
Definition ParseMediaType `{Unicode} (v : string) : option string :=
  let base := before ";" v in
  let mediatype := TrimSpace (ToLower base) in
  if negb (media_type_ok mediatype) then None else
  let params := String.substring (String.length base) (String.length v - String.length base) v in
  if media_params (String.length v) [] params then Some mediatype else None.

Section examples.
#[local] Instance ascii_unicode : Unicode := {| ulower := id |}.
Example media_plain : ParseMediaType "application/offset+octet-stream" = Some "application/offset+octet-stream"%string.
Proof. vm_compute. reflexivity. Qed.
Example media_params_ok : ParseMediaType "Text/Plain; charset=utf-8;  a=b;" = Some "text/plain"%string.
Proof. vm_compute. reflexivity. Qed.
Example media_bad : map ParseMediaType ["text/plain/x"; "/x"; "text/plain; a"; "text/plain; a=b; a=c"]%string = [None; None; None; None].
Proof. vm_compute. reflexivity. Qed.
End examples.
