(* ===== verification/Flags.v ===== *)
(** * Command lines: the package flag and parseArgs of internal/cli/cli.go

    A flag set is its definitions; parsing sets values and stops at the first argument that
    is no flag.  [parseArgs] resumes after it, so that options may stand anywhere. *)
From S2P Require Import Prelude GoStrings.

Inductive fkind := KString | KBool.
Inductive fvalue := VString (s : string) | VBool (b : bool).
Notation settings := (gmap string fvalue).
Definition flag_set := list (string * fkind).

(** fs.String and fs.Bool: all options of the client are empty or false by default. *)
Definition initial (defs : flag_set) : settings :=
  list_to_map (map (fun d => (fst d, match snd d with KString => VString "" | KBool => VBool false end)) defs).
Definition kind_of (defs : flag_set) (name : string) : option fkind :=
  snd <$> List.find (fun d => (fst d =? name)%string) defs.
Definition flag_string (st : settings) (name : string) : string := match st !! name with Some (VString s) => s | _ => "" end.
Definition flag_bool (st : settings) (name : string) : bool := match st !! name with Some (VBool b) => b | _ => false end.

(** What Parse refuses; [Help] is -h or -help where no such flag is defined. *)
Inductive flag_error := Help | BadSyntax (arg : string) | Undefined (name : string) | BadBool (name value : string) | NeedsArgument (name : string).

(** strconv.ParseBool *)
Definition ParseBool (s : string) : option bool :=
  if existsb (String.eqb s) ["1"; "t"; "T"; "TRUE"; "true"; "True"]%string then Some true else
  if existsb (String.eqb s) ["0"; "f"; "F"; "FALSE"; "false"; "False"]%string then Some false else None.

(** One argument: a name with the value after an equals sign, if any. *)
Inductive shape := Word | Dashes | Malformed | Named (name : string) (value : option string).
Definition named (s : string) : shape :=
  match s with
  | EmptyString => Malformed
  | String c _ =>
    if (c =? "-")%char || (c =? "=")%char then Malformed else
    let name := before "=" s in
    Named name (if has_byte "=" s then Some (String.substring (String.length name + 1) (String.length s) s) else None)
  end.
Definition shape_of (s : string) : shape :=
  match s with
  | String "-" (String "-" EmptyString) => Dashes
  | String "-" (String "-" t) => named t
  | String "-" (String _ _ as t) => named t
  | _ => Word
  end.

Section flags.
Context (defs : flag_set).

(** FlagSet.Parse: the settings and the arguments that are left. *)
Fixpoint Parse (st : settings) (args : list string) : flag_error + settings * list string :=
  match args with
  | [] => inr (st, [])
  | s :: rest =>
    match shape_of s with
    | Word => inr (st, args)
    | Dashes => inr (st, rest)
    | Malformed => inl (BadSyntax s)
    | Named name value =>
      match kind_of defs name with
      | None => inl (if (name =? "help")%string || (name =? "h")%string then Help else Undefined name)
      | Some KBool =>
        match value with
        | None => Parse (<[name := VBool true]> st) rest
        | Some v => match ParseBool v with Some b => Parse (<[name := VBool b]> st) rest | None => inl (BadBool name v) end
        end
      | Some KString =>
        match value, rest with
        | Some v, _ => Parse (<[name := VString v]> st) rest
        | None, v :: rest => Parse (<[name := VString v]> st) rest
        | None, [] => inl (NeedsArgument name)
        end
      end
    end
  end.

(** *** parseArgs *)

(** Everything after the first bare "--". *)
Fixpoint cut_dashes (args : list string) : list string * list string :=
  match args with
  | [] => ([], [])
  | a :: args => if (a =? "--")%string then ([], args) else let '(x, y) := cut_dashes args in (a :: x, y)
  end.
(** The loop: an argument goes with every turn. *)
Fixpoint parse_loop (fuel : nat) (st : settings) (args positional : list string) : flag_error + settings * list string :=
  match fuel with
  | O => inl Help
  | S fuel =>
    match Parse st args with
    | inl e => inl e
    | inr (st, []) => inr (st, positional)
    | inr (st, a :: rest) => parse_loop fuel st rest (positional ++ [a])
    end
  end.
Definition parseArgs (args : list string) : flag_error + settings * list string :=
  let '(args, tail) := cut_dashes args in
  match parse_loop (S (length args)) (initial defs) args [] with
  | inl e => inl e
  | inr (st, positional) => inr (st, positional ++ tail)
  end.

(** ** One pass from left to right *)

Definition with_word (w : string) (r : flag_error + settings * list string) : flag_error + settings * list string :=
  match r with inl e => inl e | inr (st, ws) => inr (st, w :: ws) end.
Fixpoint pass (st : settings) (args : list string) : flag_error + settings * list string :=
  match args with
  | [] => inr (st, [])
  | s :: rest =>
    match shape_of s with
    | Word => with_word s (pass st rest)
    | Dashes => match rest with [] => inr (st, []) | w :: rest => with_word w (pass st rest) end
    | Malformed => inl (BadSyntax s)
    | Named name value =>
      match kind_of defs name with
      | None => inl (if (name =? "help")%string || (name =? "h")%string then Help else Undefined name)
      | Some KBool =>
        match value with
        | None => pass (<[name := VBool true]> st) rest
        | Some v => match ParseBool v with Some b => pass (<[name := VBool b]> st) rest | None => inl (BadBool name v) end
        end
      | Some KString =>
        match value, rest with
        | Some v, _ => pass (<[name := VString v]> st) rest
        | None, v :: rest => pass (<[name := VString v]> st) rest
        | None, [] => inl (NeedsArgument name)
        end
      end
    end
  end.

(** Parse does the beginning of the pass. *)
Lemma Parse_pass n args st : (length args <= n)%nat ->
  match Parse st args with
  | inl e => pass st args = inl e
  | inr (st', []) => pass st args = inr (st', [])
  | inr (st', a :: rest) => pass st args = with_word a (pass st' rest) /\ (length rest < length args)%nat
  end.
Proof.
  revert args st. induction n as [|n IH]; intros [|s rest] st Hn; cbn in Hn; [done|lia|done|].
  assert (Hrest : forall st r k, (length r <= n)%nat -> (length r + k = length (s :: rest))%nat ->
    match Parse st r with
    | inl e => pass st r = inl e
    | inr (st', []) => pass st r = inr (st', [])
    | inr (st', a :: rest') => pass st r = with_word a (pass st' rest') /\ (length rest' < length (s :: rest))%nat
    end).
  { intros st0 r k Hr Hk. specialize (IH r st0 Hr). destruct (Parse st0 r) as [e|[st' [|a r']]]; [done..|]. destruct IH. split; [done|lia]. }
  cbn [Parse pass]. destruct (shape_of s) as [| | |name value].
  - split; [done|cbn; lia].
  - destruct rest as [|w rest]; [done|]. split; [done|cbn; lia].
  - done.
  - destruct (kind_of defs name) as [[|]|]; [| |done].
    + destruct value as [v|]; [by apply (Hrest _ _ 1%nat); cbn; lia|]. destruct rest as [|v rest]; [done|].
      apply (Hrest _ _ 2%nat); cbn in *; lia.
    + destruct value as [v|]; [|by apply (Hrest _ _ 1%nat); cbn; lia]. destruct (ParseBool v) as [b|]; [|done].
      by apply (Hrest _ _ 1%nat); cbn; lia.
Qed.

Lemma parse_loop_pass fuel st args positional : (length args < fuel)%nat ->
  parse_loop fuel st args positional = match pass st args with inl e => inl e | inr (st, ws) => inr (st, positional ++ ws) end.
Proof.
  revert st args positional. induction fuel as [|fuel IH]; intros st args positional Hf; [lia|]. cbn [parse_loop].
  pose proof (Parse_pass (length args) args st (le_n _)) as H. destruct (Parse st args) as [e|[st' [|a rest]]].
  - by rewrite H.
  - by rewrite H, app_nil_r.
  - destruct H as [-> Hl]. rewrite IH by lia. destruct (pass st' rest) as [e|[st2 ws]]; cbn; [done|]. by rewrite <- app_assoc.
Qed.

(** The loop of parseArgs always ends, and is one pass over the arguments before "--". *)
Lemma parseArgs_pass args : parseArgs args =
  let '(args, tail) := cut_dashes args in
  match pass (initial defs) args with inl e => inl e | inr (st, ws) => inr (st, ws ++ tail) end.
Proof.
  unfold parseArgs. destruct (cut_dashes args) as [x y]. rewrite parse_loop_pass by lia.
  by destruct (pass (initial defs) x) as [e|[st ws]].
Qed.

(** ** Documented command lines *)

(** What a user may write, with one dash or two. *)
Inductive item :=
| Positional (s : string)
| Valued (two : bool) (name value : string)
| Assigned (two : bool) (name value : string)
| Switch (two : bool) (name : string).

Definition dashed (two : bool) (s : string) : string := ((if two then "--" else "-") ++ s)%string.
Definition render (i : item) : list string :=
  match i with
  | Positional s => [s]
  | Valued two name value => [dashed two name; value]
  | Assigned two name value => [dashed two (name ++ "=" ++ value)%string]
  | Switch two name => [dashed two name]
  end.
Definition name_ok (name : string) : bool :=
  match name with EmptyString => false | String c _ => negb (c =? "-")%char && negb (has_byte "=" name) end.
Definition item_ok (i : item) : Prop :=
  match i with
  | Positional s => shape_of s = Word
  | Valued _ name value => name_ok name = true /\ kind_of defs name = Some KString /\ value <> "--"%string
  | Assigned _ name value => name_ok name = true /\ kind_of defs name = Some KString
  | Switch _ name => name_ok name = true /\ kind_of defs name = Some KBool
  end.
Definition settle (st : settings) (i : item) : settings :=
  match i with
  | Positional _ => st
  | Valued _ name value | Assigned _ name value => <[name := VString value]> st
  | Switch _ name => <[name := VBool true]> st
  end.
Definition word_of (i : item) : list string := match i with Positional s => [s] | _ => [] end.

Lemma shape_dashed two s : match s with String c _ => (c =? "-")%char = false | EmptyString => False end -> shape_of (dashed two s) = named s.
Proof. destruct s as [|c s]; [done|]. intros Hc. unfold dashed. destruct two; cbn; [done|]. destruct c as [[] [] [] [] [] [] [] []]; done. Qed.

Lemma shape_name two name : name_ok name = true -> shape_of (dashed two name) = Named name None.
Proof.
  intros Hn. rewrite shape_dashed.
  - destruct name as [|c name]; [done|]. cbn [name_ok] in Hn. apply andb_true_iff in Hn as [Hc He]. apply negb_true_iff in Hc, He.
    unfold named. rewrite Hc. cbn [orb]. rewrite (before_no _ _ He), He. cbn in He. by destruct (c =? "=")%char.
  - destruct name as [|c name]; [done|]. cbn [name_ok] in Hn. apply andb_true_iff in Hn as [Hc _]. by apply negb_true_iff.
Qed.
Lemma shape_assigned two name value : name_ok name = true -> shape_of (dashed two (name ++ String "=" value)) = Named name (Some value).
Proof.
  intros Hn. rewrite shape_dashed.
  - destruct name as [|c name]; [done|]. cbn [name_ok] in Hn. apply andb_true_iff in Hn as [Hc He]. apply negb_true_iff in Hc, He.
    cbn [append named]. rewrite Hc. cbn [orb].
    change (String c (name ++ String "=" value)) with (String c name ++ String "=" value)%string. rewrite before_app_no by done.
    assert (Hh : has_byte "=" (String c name ++ String "=" value) = true) by (rewrite has_byte_app; cbn; apply orb_true_r).
    rewrite Hh. replace (c =? "=")%char with false by (cbn in He; by destruct (c =? "=")%char). f_equal. f_equal.
    assert (E : (String c name ++ String "=" value)%string = ((String c name ++ "=") ++ value)%string) by (by rewrite string_app_assoc).
    rewrite E. replace (String.length (String c name) + 1)%nat with (String.length (String c name ++ "=")) by (rewrite string_length_app; cbn; lia).
    apply substring_app. rewrite string_length_app. lia.
  - destruct name as [|c name]; [done|]. cbn [name_ok] in Hn. apply andb_true_iff in Hn as [Hc _]. by apply negb_true_iff.
Qed.

Lemma dashed_not_bare two s : s <> ""%string -> match s with String c _ => (c =? "-")%char = false | _ => True end -> (dashed two s =? "--")%string = false.
Proof.
  intros Hs Hc. apply String.eqb_neq. destruct s as [|c s]; [done|]. unfold dashed. destruct two; cbn; [done|]. intros [= -> ->]. done.
Qed.

Lemma item_not_bare i : item_ok i -> Forall (fun a => (a =? "--")%string = false) (render i).
Proof.
  assert (Hd : forall two name s, name_ok name = true -> (dashed two (name ++ s) =? "--")%string = false).
  { intros two [|c name] s Hn; [done|]. cbn [name_ok] in Hn. apply andb_true_iff in Hn as [Hc%negb_true_iff _].
    by apply dashed_not_bare. }
  assert (Hd0 : forall two name, name_ok name = true -> (dashed two name =? "--")%string = false).
  { intros two name Hn. rewrite <- (string_app_nil_r name). by apply Hd. }
  destruct i as [s|two name value|two name value|two name]; cbn.
  - intros Hs. apply Forall_singleton. apply String.eqb_neq. by intros ->.
  - intros (Hn & _ & Hv). apply Forall_cons. split; [by apply Hd0|]. apply Forall_singleton. by apply String.eqb_neq.
  - intros (Hn & _). apply Forall_singleton. by apply Hd.
  - intros (Hn & _). apply Forall_singleton. by apply Hd0.
Qed.

Lemma cut_dashes_app l r : Forall (fun a => (a =? "--")%string = false) l ->
  cut_dashes (l ++ r) = (l ++ fst (cut_dashes r), snd (cut_dashes r)).
Proof. induction 1 as [|a l Ha _ IH]; cbn; [by destruct (cut_dashes r)|]. by rewrite Ha, IH. Qed.

Lemma pass_items items st : Forall item_ok items ->
  pass st (flat_map render items) = inr (fold_left settle items st, flat_map word_of items).
Proof.
  intros Hi. revert st. induction Hi as [|i items Hi _ IH]; intros st; [done|].
  destruct i as [s|two name value|two name value|two name]; cbn in Hi |- *.
  - rewrite Hi. by rewrite IH.
  - destruct Hi as (Hn & Hk & _). by rewrite (shape_name two name Hn), Hk, IH.
  - destruct Hi as (Hn & Hk). by rewrite (shape_assigned two name value Hn), Hk, IH.
  - destruct Hi as (Hn & Hk). by rewrite (shape_name two name Hn), Hk, IH.
Qed.

(** C27: options may stand before, between and after the arguments.  However positional
    arguments and options, written with one dash or two, with the value after a space or an
    equals sign, are mixed on a command line, and whatever follows a bare "--": parsing ends,
    the last setting of each option counts, and the positional arguments come out in order,
    those after "--" untouched. *)
Theorem parseArgs_documented items tail : Forall item_ok items ->
  parseArgs (flat_map render items ++ match tail with Some t => "--"%string :: t | None => [] end) =
  inr (fold_left settle items (initial defs), flat_map word_of items ++ default [] tail).
Proof.
  intros Hi. rewrite parseArgs_pass.
  assert (Hb : Forall (fun a => (a =? "--")%string = false) (flat_map render items)).
  { induction Hi as [|i items Hi' _ IH]; cbn; [constructor|]. apply Forall_app. split; [by apply item_not_bare|done]. }
  rewrite cut_dashes_app by done. destruct tail as [t|]; cbn [cut_dashes fst snd default]; cbn; rewrite app_nil_r, pass_items by done; done.
Qed.
End flags.
Definition demo_flags : flag_set := [("note", KString); ("json", KBool)]%string.
Lemma parseArgs_documented_witness : parseArgs demo_flags ["a"; "--note"; "hi"; "-json"; "-"; "--note=x=y"; "--"; "--odd"]%string =
  inr (<["note" := VString "x=y"]> (<["json" := VBool true]> (<["note" := VString "hi"]> (initial demo_flags))), ["a"; "-"; "--odd"])%string.
Proof.
  apply (parseArgs_documented demo_flags [Positional "a"; Valued true "note" "hi"; Switch false "json"; Positional "-"; Assigned true "note" "x=y"] (Some ["--odd"%string])).
  repeat (apply Forall_cons_2; [cbn; repeat split; discriminate|]). apply Forall_nil_2.
Defined.
