(* ===== verification/GoBase64.v ===== *)
(** * encoding/base64, and the integers fmt.Sscanf reads

    The two alphabets-with-padding the program uses, StdEncoding and RawStdEncoding. *)
From S2P Require Import Prelude GoStrings.

Definition alphabet64 : string := "ABCDEFGHIJKLMNOPQRSTUVWXYZabcdefghijklmnopqrstuvwxyz0123456789+/".
Definition char64 (n : Z) : ascii := match String.get (Z.to_nat n) alphabet64 with Some a => a | None => "="%char end.
Definition sextet (a : ascii) : option Z :=
  let b := byte_val a in
  if (65 <=? b) && (b <=? 90) then Some (b - 65) else
  if (97 <=? b) && (b <=? 122) then Some (b - 71) else
  if (48 <=? b) && (b <=? 57) then Some (b + 4) else
  if b =? 43 then Some 62 else if b =? 47 then Some 63 else None.

Fixpoint encode64 (padded : bool) (l : list Z) : string :=
  let pad s := if padded then s else ""%string in
  match l with
  | [] => ""
  | [a] => String (char64 (a / 4)) (String (char64 (a mod 4 * 16)) (pad "=="))
  | [a; b] => String (char64 (a / 4)) (String (char64 (a mod 4 * 16 + b / 16)) (String (char64 (b mod 16 * 4)) (pad "=")))
  | a :: b :: c :: l =>
    String (char64 (a / 4)) (String (char64 (a mod 4 * 16 + b / 16)) (String (char64 (b mod 16 * 4 + c / 64))
      (String (char64 (c mod 64)) (encode64 padded l))))
  end.

(** Newlines are skipped wherever they stand. *)
Fixpoint no_newlines (s : string) : string :=
  match s with
  | EmptyString => EmptyString
  | String a s => if (byte_val a =? 10) || (byte_val a =? 13) then no_newlines s else String a (no_newlines s)
  end.
Definition is_pad (padded : bool) (a : ascii) : bool := padded && (a =? "=")%char.

(** Four digits at a time; a last group of two or three, padded or not. *)
Fixpoint quanta (padded : bool) (s : string) : option (list Z) :=
  match s with
  | EmptyString => Some []
  | String a EmptyString => None
  | String a (String b s) =>
    x ← sextet a; y ← sextet b;
    let first := (x * 4 + y / 16)%Z in
    match s with
    | EmptyString => if padded then None else Some [first]
    | String c s =>
      if is_pad padded c then if (s =? "=")%string then Some [first] else None else
      z ← sextet c;
      let second := (y mod 16 * 16 + z / 4)%Z in
      match s with
      | EmptyString => if padded then None else Some [first; second]
      | String d s =>
        if is_pad padded d then if (s =? "")%string then Some [first; second] else None else
        w ← sextet d; l ← quanta padded s; Some (first :: second :: (z mod 4 * 64 + w)%Z :: l)
      end
    end
  end.
Definition decode64 (padded : bool) (s : string) : option (list Z) := quanta padded (no_newlines s).

(** ** Round trip *)

Lemma sextet_char64 n : (0 <= n < 64)%Z -> sextet (char64 n) = Some n /\ is_pad true (char64 n) = false /\
  (byte_val (char64 n) =? 10) || (byte_val (char64 n) =? 13) = false /\ (char64 n =? "$")%char = false.
Proof.
  intros Hn. assert (Hin : n ∈ seqZ 0 64) by (apply elem_of_seqZ; lia). clear Hn. revert n Hin. apply Forall_forall.
  repeat (apply Forall_cons_2; [by vm_compute|]). apply Forall_nil_2.
Qed.
Lemma is_pad_char64 padded n : (0 <= n < 64)%Z -> is_pad padded (char64 n) = false.
Proof. intros Hn. destruct padded; [by apply sextet_char64|done]. Qed.

Lemma triples_ind (P : list Z -> Prop) : P [] -> (forall a, P [a]) -> (forall a b, P [a; b]) ->
  (forall a b c l, P l -> P (a :: b :: c :: l)) -> forall l, P l.
Proof.
  intros H0 H1 H2 H3. fix IH 1. intros [|a [|b [|c l]]]; [exact H0|apply H1|apply H2|]. apply H3, IH.
Qed.

Lemma no_newlines_char n s : (0 <= n < 64)%Z -> no_newlines (String (char64 n) s) = String (char64 n) (no_newlines s).
Proof. intros Hn. cbn [no_newlines]. by destruct (sextet_char64 n Hn) as (_ & _ & -> & _). Qed.

Lemma byte_groups a : (0 <= a < 256)%Z -> (0 <= a / 4 < 64)%Z /\ (0 <= a mod 4 * 16 < 64)%Z /\ (0 <= a / 16 < 16)%Z /\
  (0 <= a mod 16 * 4 < 64)%Z /\ (0 <= a / 64 < 4)%Z /\ (0 <= a mod 64 < 64)%Z.
Proof.
  intros Ha. pose proof (Z.mod_pos_bound a 4). pose proof (Z.mod_pos_bound a 16). pose proof (Z.mod_pos_bound a 64).
  split_and!; try lia; try (apply Z.div_pos; lia); apply Z.div_lt_upper_bound; lia.
Qed.

Lemma group_back m x y : (0 <= y < m)%Z -> ((x * m + y) / m = x /\ (x * m + y) mod m = y)%Z.
Proof.
  intros Hy. split; [rewrite Z.div_add_l, Z.div_small by lia; lia|]. rewrite Z.add_comm, Z.mod_add, Z.mod_small by lia. done.
Qed.

Lemma no_newlines_encode64 padded l : Forall (fun b => 0 <= b < 256)%Z l -> no_newlines (encode64 padded l) = encode64 padded l.
Proof.
  revert l. refine (triples_ind _ _ _ _ _); [done|..].
  - intros a Ha%Forall_inv. destruct (byte_groups a Ha) as (A1 & A2 & _).
    cbn [encode64]. rewrite !no_newlines_char by lia. by destruct padded.
  - intros a b [Ha Hb%Forall_inv]%Forall_cons. destruct (byte_groups a Ha) as (A1 & A2 & _), (byte_groups b Hb) as (_ & _ & B3 & B4 & _).
    cbn [encode64]. rewrite !no_newlines_char by lia. by destruct padded.
  - intros a b c l IH [Ha [Hb [Hc Hl]%Forall_cons]%Forall_cons]%Forall_cons.
    destruct (byte_groups a Ha) as (A1 & A2 & _), (byte_groups b Hb) as (_ & _ & B3 & B4 & _), (byte_groups c Hc) as (_ & _ & _ & _ & C5 & C6).
    cbn [encode64]. rewrite !no_newlines_char by lia. by rewrite IH.
Qed.

(** The bytes two neighbouring digits carry. *)
Lemma first_byte a y : (0 <= a < 256)%Z -> (0 <= y < 16)%Z -> (a / 4 * 4 + (a mod 4 * 16 + y) / 16)%Z = a /\ ((a mod 4 * 16 + y) mod 16)%Z = y.
Proof. intros Ha Hy. destruct (group_back 16 (a mod 4) y Hy) as [-> ->]. pose proof (Z.div_mod a 4). lia. Qed.
Lemma second_byte b z : (0 <= b < 256)%Z -> (0 <= z < 4)%Z -> (b / 16 * 16 + (b mod 16 * 4 + z) / 4)%Z = b /\ ((b mod 16 * 4 + z) mod 4)%Z = z.
Proof. intros Hb Hz. destruct (group_back 4 (b mod 16) z Hz) as [-> ->]. pose proof (Z.div_mod b 16). lia. Qed.
Lemma third_byte c : (c / 64 * 64 + c mod 64)%Z = c.
Proof. pose proof (Z.div_mod c 64). lia. Qed.

Lemma quanta_encode64 padded l : Forall (fun b => 0 <= b < 256)%Z l -> quanta padded (encode64 padded l) = Some l.
Proof.
  revert l. refine (triples_ind _ _ _ _ _); [done|..].
  - intros a Ha%Forall_inv. destruct (byte_groups a Ha) as (A1 & A2 & _).
    destruct (first_byte a 0 Ha ltac:(lia)) as [E _]. rewrite Z.add_0_r in E. destruct (sextet_char64 _ A1) as [S1 _], (sextet_char64 _ A2) as [S2 _].
    cbn [encode64 quanta]. rewrite S1, S2. cbn [mbind option_bind]. rewrite E. by destruct padded.
  - intros a b [Ha Hb%Forall_inv]%Forall_cons. destruct (byte_groups a Ha) as (A1 & A2 & _), (byte_groups b Hb) as (_ & _ & B3 & B4 & _).
    destruct (first_byte a (b / 16) Ha B3) as [E1 E2]. destruct (second_byte b 0 Hb ltac:(lia)) as [E3 _]. rewrite Z.add_0_r in E3.
    destruct (sextet_char64 (a / 4) ltac:(lia)) as [S1 _], (sextet_char64 (a mod 4 * 16 + b / 16) ltac:(lia)) as [S2 _], (sextet_char64 (b mod 16 * 4) ltac:(lia)) as [S3 _].
    cbn [encode64 quanta]. rewrite S1, S2. cbn [mbind option_bind]. rewrite is_pad_char64 by lia. rewrite S3. cbn [mbind option_bind]. rewrite E1, E2, E3. by destruct padded.
  - intros a b c l IH [Ha [Hb [Hc Hl]%Forall_cons]%Forall_cons]%Forall_cons.
    destruct (byte_groups a Ha) as (A1 & A2 & _), (byte_groups b Hb) as (_ & _ & B3 & B4 & _), (byte_groups c Hc) as (_ & _ & _ & _ & C5 & C6).
    destruct (first_byte a (b / 16) Ha B3) as [E1 E2]. destruct (second_byte b (c / 64) Hb C5) as [E3 E4].
    destruct (sextet_char64 (a / 4) ltac:(lia)) as [S1 _], (sextet_char64 (a mod 4 * 16 + b / 16) ltac:(lia)) as [S2 _].
    destruct (sextet_char64 (b mod 16 * 4 + c / 64) ltac:(lia)) as [S3 _], (sextet_char64 (c mod 64) ltac:(lia)) as [S4 _].
    cbn [encode64 quanta]. rewrite S1, S2. cbn [mbind option_bind]. rewrite is_pad_char64 by lia. rewrite S3. cbn [mbind option_bind].
    rewrite is_pad_char64 by lia. rewrite S4. cbn [mbind option_bind]. rewrite (IH Hl). cbn [mbind option_bind]. by rewrite E1, E2, E3, E4, third_byte.
Qed.

Lemma decode64_encode64 padded l : Forall (fun b => 0 <= b < 256)%Z l -> decode64 padded (encode64 padded l) = Some l.
Proof. intros Hl. unfold decode64. by rewrite no_newlines_encode64, quanta_encode64. Qed.

(** The text has no byte that is no digit and no padding. *)
Lemma encode64_no_dollar l : Forall (fun b => 0 <= b < 256)%Z l -> has_byte "$" (encode64 false l) = false.
Proof.
  assert (Hc : forall n s, (0 <= n < 64)%Z -> has_byte "$" (String (char64 n) s) = has_byte "$" s).
  { intros n s Hn. cbn [has_byte]. by destruct (sextet_char64 n Hn) as (_ & _ & _ & ->). }
  revert l. refine (triples_ind _ _ _ _ _); [done|..].
  - intros a Ha%Forall_inv. destruct (byte_groups a Ha) as (A1 & A2 & _). cbn [encode64]. by rewrite !Hc by lia.
  - intros a b [Ha Hb%Forall_inv]%Forall_cons. destruct (byte_groups a Ha) as (A1 & A2 & _), (byte_groups b Hb) as (_ & _ & B3 & B4 & _).
    cbn [encode64]. by rewrite !Hc by lia.
  - intros a b c l IH [Ha [Hb [Hc' Hl]%Forall_cons]%Forall_cons]%Forall_cons.
    destruct (byte_groups a Ha) as (A1 & A2 & _), (byte_groups b Hb) as (_ & _ & B3 & B4 & _), (byte_groups c Hc') as (_ & _ & _ & _ & C5 & C6).
    cbn [encode64]. rewrite !Hc by lia. by apply IH.
Qed.

(** ** fmt.Sscanf: a %d verb

    Spaces before the number are skipped, and a newline is an error. *)
Fixpoint skip_space (s : string) : option string :=
  match s with
  | String a t =>
    let b := byte_val a in
    if (b =? 10)%Z then None else
    if (b =? 13)%Z then match t with String c _ => if (byte_val c =? 10)%Z then None else skip_space t | _ => skip_space t end else
    if (b =? 32)%Z || (b =? 9)%Z || (b =? 11)%Z || (b =? 12)%Z then skip_space t else Some s
  | EmptyString => Some s
  end.
Fixpoint take_digits (s : string) : string * string :=
  match s with
  | String a t => match digit_val a with Some _ => let '(d, r) := take_digits t in (String a d, r) | None => ("", s) end
  | EmptyString => ("", "")
  end%string.
(** An unsigned number below [limit], and the rest. *)
Definition scan_uint (limit : Z) (s : string) : option (Z * string) :=
  s ← skip_space s;
  let '(d, r) := take_digits s in
  n ← (if (d =? "")%string then None else digits 0 d);
  if (n <? limit)%Z then Some (n, r) else None.
(** A number of type int: with an optional sign. *)
Definition scan_int (s : string) : option (Z * string) :=
  s ← skip_space s;
  let '(neg, s) := match s with String "-" t => (true, t) | String "+" t => (false, t) | _ => (false, s) end in
  let '(d, r) := take_digits s in
  n ← (if (d =? "")%string then None else digits 0 d);
  let n := if neg : bool then (- n)%Z else n in
  if (min_int64 <=? n)%Z && (n <=? max_int64)%Z then Some (n, r) else None.
(** Literal text of the format. *)
Fixpoint scan_text (lit s : string) : option string :=
  match lit, s with
  | EmptyString, _ => Some s
  | String a lit, String b s => if (a =? b)%char then scan_text lit s else None
  | String _ _, EmptyString => None
  end.
