(* ===== verification/Manifest.v ===== *)
(** * Manifests: internal/protocol/manifest.go *)
From Stdlib Require Import Sorted.
From S2P Require Import Prelude GoStrings GoTime Errors Paths.
Local Open Scope string_scope.

Definition SegmentRaw : string := "raw".
Definition SegmentTarZstd : string := "tar_zstd".
Definition DigestAlgorithm : string := "blake3".
Definition EntryFile : string := "file".
Definition EntryDirectory : string := "directory".
Definition MaxNoteBytesHard : Z := 16384.

Record Segment := mkSegment {
  seg_ID : string; seg_Kind : string; seg_WireSize : Z; seg_Digest : string;
  seg_StoragePath : string }.

Record Entry := mkEntry {
  e_Path : string; e_Type : string; e_Size : Z; e_MTimeUnixNS : Z; e_Mode : Z;
  e_Digest : string; e_SegmentID : string; e_SegmentOffset : Z }.

Record Manifest := mkManifest {
  SchemaVersion : Z; TransferID : string; CreatedAt : Z; Note : string;
  Roots : list string; m_DigestAlgorithm : string;
  Segments : list Segment; Entries : list Entry }.

#[export] Instance Segment_eq_dec : EqDecision Segment.
Proof. solve_decision. Defined.
#[export] Instance Entry_eq_dec : EqDecision Entry.
Proof. solve_decision. Defined.
#[export] Instance Manifest_eq_dec : EqDecision Manifest.
Proof. solve_decision. Defined.

Definition is_file (e : Entry) : bool := e_Type e =? EntryFile.
Definition is_dir (e : Entry) : bool := e_Type e =? EntryDirectory.

(** digestPattern and hexDigest: 64 lowercase hex digits. *)
Definition lower_hex (a : ascii) : bool :=
  (((48 <=? byte_val a) && (byte_val a <=? 57)) || ((97 <=? byte_val a) && (byte_val a <=? 102)))%Z.
Definition digestPattern (s : string) : bool := (slen s =? 64)%Z && sforall lower_hex s.

Definition FileCount (m : Manifest) : Z :=
  Z.of_nat (length (List.filter is_file (Entries m))).

(** The [n += e.Size] loop, in int64. *)
Definition TotalBytes (m : Manifest) : Z :=
  foldl (fun n e => if is_file e then int64 (n + e_Size e) else n) 0%Z (Entries m).

Definition zero_entry : Entry := mkEntry "" "" 0 0 0 "" "" 0.

(** The SingleRootFile loop: [found] is the last entry seen and [count] how many. *)
Fixpoint single_root_loop (es : list Entry) (found : Entry) (count : Z) : Entry * bool :=
  match es with
  | [] => (found, (count =? 1)%Z)
  | e :: es =>
    if is_dir e then (zero_entry, false)
    else if has_byte "/" (e_Path e) then (zero_entry, false)
    else single_root_loop es e (count + 1)%Z
  end.
Definition SingleRootFile (m : Manifest) : Entry * bool :=
  single_root_loop (Entries m) zero_entry 0%Z.

Definition SegmentByID (m : Manifest) (id : string) : option Segment :=
  List.find (fun s => seg_ID s =? id) (Segments m).

(** SortedEntries: a stable sort on the byte order of paths (insertion after equals). *)
Fixpoint insert_entry (e : Entry) (l : list Entry) : list Entry :=
  match l with
  | [] => [e]
  | x :: l' => if slt (e_Path e) (e_Path x) then e :: l else x :: insert_entry e l'
  end.
Definition sort_entries (es : list Entry) : list Entry :=
  foldl (fun acc e => insert_entry e acc) [] es.
Definition SortedEntries (m : Manifest) : list Entry := sort_entries (Entries m).

Section validate.
Context `{Unicode}.

(** The loop over the roots; [seen] is seenRoot. *)
Fixpoint check_roots (rs : list string) (seen : gset string) : ecode + gset string :=
  match rs with
  | [] => inr seen
  | r :: rs =>
    if (r =? "") || (255 <? slen r)%Z then inl InvalidPath else
    match ValidateComponent r with
    | Some err => inl err
    | None =>
      if bool_decide (ToLower r ∈ seen) then inl DuplicatePath
      else check_roots rs ({[ToLower r]} ∪ seen)
    end
  end.

(** The loop over the segments; [segIDs] the identifiers so far. *)
Fixpoint check_segments (ss : list Segment) (segIDs : gset string) : ecode + gset string :=
  match ss with
  | [] => inr segIDs
  | s :: ss =>
    if (seg_ID s =? "") || (128 <? slen (seg_ID s))%Z then inl InvalidRequest else
    if bool_decide (seg_ID s ∈ segIDs) then inl InvalidRequest else
    if negb (seg_Kind s =? SegmentRaw) && negb (seg_Kind s =? SegmentTarZstd)
    then inl InvalidRequest else
    if (seg_WireSize s <? 0)%Z then inl InvalidRequest else
    if negb (digestPattern (seg_Digest s)) then inl InvalidRequest else
    check_segments ss ({[seg_ID s]} ∪ segIDs)
  end.

(** The file case of an entry: an error, or the new rawSegmentUsed. *)
Definition check_file (m : Manifest) (segIDs rawUsed : gset string) (e : Entry)
    : ecode + gset string :=
  if (e_Size e <? 0)%Z then inl InvalidRequest else
  if negb (digestPattern (e_Digest e)) then inl InvalidRequest else
  if negb (bool_decide (e_SegmentID e ∈ segIDs)) then inl InvalidRequest else
  let seg := default (mkSegment "" "" 0 "" "") (SegmentByID m (e_SegmentID e)) in
  let raw :=
    if seg_Kind seg =? SegmentRaw then
      if bool_decide (e_SegmentID e ∈ rawUsed) then inl InvalidRequest else
      if negb (seg_WireSize seg =? e_Size e)%Z then inl InvalidRequest else
      if negb (seg_Digest seg =? e_Digest e) then inl InvalidRequest else
      inr ({[e_SegmentID e]} ∪ rawUsed)
    else inr rawUsed in
  match raw with
  | inl err => inl err
  | inr rawUsed' => if (e_SegmentOffset e <? 0)%Z then inl InvalidRequest else inr rawUsed'
  end.

Fixpoint check_entries (m : Manifest) (seenRoot segIDs : gset string) (es : list Entry)
    (seenPath rawUsed : gset string) : option ecode :=
  match es with
  | [] => None
  | e :: es =>
    match ValidatePortablePath (e_Path e) with
    | Some err => Some err
    | None =>
      let key := normalizedPathKey (e_Path e) in
      if bool_decide (key ∈ seenPath) then Some DuplicatePath else
      if negb (bool_decide (ToLower (before "/" (e_Path e)) ∈ seenRoot)) then Some InvalidPath else
      if (511 <? e_Mode e)%Z then Some InvalidRequest else
      if (e_MTimeUnixNS e <? 0)%Z then Some InvalidRequest else
      if is_dir e then
        if negb (e_Size e =? 0)%Z || negb (e_Digest e =? "") || negb (e_SegmentID e =? "")
        then Some InvalidRequest
        else check_entries m seenRoot segIDs es ({[key]} ∪ seenPath) rawUsed
      else if is_file e then
        match check_file m segIDs rawUsed e with
        | inl err => Some err
        | inr rawUsed' => check_entries m seenRoot segIDs es ({[key]} ∪ seenPath) rawUsed'
        end
      else Some UnsupportedEntry
    end
  end.

(** The [referenced] set and the final loop. *)
Definition referenced (m : Manifest) : gset string :=
  list_to_set (List.filter (fun i => negb (i =? "")) (map e_SegmentID (Entries m))).

Definition Validate (m : Manifest) : option ecode :=
  if negb (SchemaVersion m =? 1)%Z then Some InvalidRequest else
  if (slen (TransferID m) <? 16)%Z || (128 <? slen (TransferID m))%Z then Some InvalidRequest else
  if IsZero (CreatedAt m) then Some InvalidRequest else
  if negb (m_DigestAlgorithm m =? "") && negb (m_DigestAlgorithm m =? DigestAlgorithm)
  then Some InvalidRequest else
  if (MaxNoteBytesHard <? slen (Note m))%Z then Some InvalidRequest else
  if negb (valid_utf8 (Note m)) then Some InvalidRequest else
  if (length (Roots m) =? 0)%nat then Some NoFiles else
  match check_roots (Roots m) ∅ with
  | inl err => Some err
  | inr seenRoot =>
    if (length (Segments m) =? 0)%nat then Some InvalidRequest else
    match check_segments (Segments m) ∅ with
    | inl err => Some err
    | inr segIDs =>
      if (length (Entries m) =? 0)%nat then Some NoFiles else
      match check_entries m seenRoot segIDs (Entries m) ∅ ∅ with
      | Some err => Some err
      | None =>
        if existsb (fun s => negb (bool_decide (seg_ID s ∈ referenced m))) (Segments m)
        then Some InvalidRequest else None
      end
    end
  end.

(** ** What a valid manifest is *)

Definition segment_ok (s : Segment) : Prop :=
  seg_ID s <> "" /\ (slen (seg_ID s) <= 128)%Z /\
  (seg_Kind s = SegmentRaw \/ seg_Kind s = SegmentTarZstd) /\
  (0 <= seg_WireSize s)%Z /\ digestPattern (seg_Digest s) = true.

(** Does a file entry occupy a raw segment of its own? *)
Definition raw_backed (m : Manifest) (e : Entry) : bool :=
  is_file e && match SegmentByID m (e_SegmentID e) with
               | Some s => seg_Kind s =? SegmentRaw
               | None => false
               end.

Definition entry_ok (m : Manifest) (e : Entry) : Prop :=
  ValidatePortablePath (e_Path e) = None /\
  ToLower (before "/" (e_Path e)) ∈ map ToLower (Roots m) /\
  (e_Mode e <= 511)%Z /\ (0 <= e_MTimeUnixNS e)%Z /\
  ((is_dir e = true /\ e_Size e = 0%Z /\ e_Digest e = "" /\ e_SegmentID e = "")
   \/ (is_file e = true /\ (0 <= e_Size e)%Z /\ (0 <= e_SegmentOffset e)%Z /\
       digestPattern (e_Digest e) = true /\
       exists s, SegmentByID m (e_SegmentID e) = Some s /\
         (seg_Kind s = SegmentRaw -> seg_WireSize s = e_Size e /\ seg_Digest s = e_Digest e))).

Definition manifest_ok (m : Manifest) : Prop :=
  SchemaVersion m = 1%Z /\ (16 <= slen (TransferID m) <= 128)%Z /\ CreatedAt m <> zero_time /\
  (m_DigestAlgorithm m = "" \/ m_DigestAlgorithm m = DigestAlgorithm) /\
  (slen (Note m) <= MaxNoteBytesHard)%Z /\ valid_utf8 (Note m) = true /\
  Roots m <> [] /\ Forall (fun r => ValidateComponent r = None) (Roots m) /\
  NoDup (map ToLower (Roots m)) /\
  Segments m <> [] /\ Forall segment_ok (Segments m) /\ NoDup (map seg_ID (Segments m)) /\
  Entries m <> [] /\ Forall (entry_ok m) (Entries m) /\
  NoDup (map (fun e => normalizedPathKey (e_Path e)) (Entries m)) /\
  NoDup (map e_SegmentID (List.filter (raw_backed m) (Entries m))) /\
  Forall (fun s => seg_ID s ∈ map e_SegmentID (Entries m)) (Segments m).
End validate.

(** ** The validator decides the specification *)

Section validate_proofs.
Context `{Unicode}.

Lemma ValidateComponent_len r : ValidateComponent r = None ->
  (r =? "") || (255 <? slen r)%Z = false.
Proof.
  unfold ValidateComponent. destruct (r =? ""); [done|]. destruct (_ || _); [done|].
  by destruct (255 <? slen r)%Z.
Qed.

Lemma check_roots_inr rs seen seen' :
  check_roots rs seen = inr seen' <->
  Forall (fun r => ValidateComponent r = None) rs /\ NoDup (map ToLower rs) /\
  Forall (fun r => ToLower r ∉ seen) rs /\ seen' = list_to_set (map ToLower rs) ∪ seen.
Proof.
  revert seen. induction rs as [|r rs IH]; intros seen; cbn [check_roots].
  - cbn. rewrite union_empty_l_L. split.
    + intros [= <-]. repeat constructor.
    + by intros (_ & _ & _ & ->).
  - rewrite !Forall_cons. cbn [map]. rewrite NoDup_cons.
    destruct (ValidateComponent r) as [err|] eqn:Er.
    { destruct (_ || _); (split; [done|naive_solver]). }
    rewrite (ValidateComponent_len r Er).
    destruct (bool_decide_reflect (ToLower r ∈ seen)) as [Hin|Hin]; [split; [done|naive_solver]|].
    rewrite IH. cbn [list_to_set]. setoid_rewrite list_elem_of_In. split.
    + intros (H1 & H2 & H3 & ->). split_and!; try done.
      * intros Hx. rewrite <- list_elem_of_In in Hx. rewrite Forall_forall in H3.
        apply list_elem_of_fmap in Hx as (y & E & Hy). specialize (H3 y Hy). set_solver.
      * eapply Forall_impl; [exact H3|]. set_solver.
      * set_solver.
    + intros ((_ & H1) & (H2a & H2) & (_ & H3) & ->). split_and!; try done.
      * rewrite <- list_elem_of_In in H2a. rewrite Forall_forall in H3 |- *. intros y Hy.
        apply not_elem_of_union. split; [|by apply H3].
        rewrite elem_of_singleton. intros E. apply H2a. rewrite <- E. by apply list_elem_of_fmap_2.
      * set_solver.
Qed.

Lemma check_segments_inr ss ids ids' :
  check_segments ss ids = inr ids' <->
  Forall segment_ok ss /\ NoDup (map seg_ID ss) /\
  Forall (fun s => seg_ID s ∉ ids) ss /\ ids' = list_to_set (map seg_ID ss) ∪ ids.
Proof.
  revert ids. induction ss as [|s ss IH]; intros ids; cbn [check_segments].
  - cbn. rewrite union_empty_l_L. split.
    + intros [= <-]. repeat constructor.
    + by intros (_ & _ & _ & ->).
  - rewrite !Forall_cons. cbn [map]. rewrite NoDup_cons.
    assert (Hs : segment_ok s <->
      ((seg_ID s =? "") || (128 <? slen (seg_ID s))%Z) = false /\
      (negb (seg_Kind s =? SegmentRaw) && negb (seg_Kind s =? SegmentTarZstd)) = false /\
      (seg_WireSize s <? 0)%Z = false /\ negb (digestPattern (seg_Digest s)) = false).
    { unfold segment_ok. rewrite orb_false_iff, andb_false_iff, !negb_false_iff, !String.eqb_eq,
        String.eqb_neq, !Z.ltb_ge. tauto. }
    rewrite Hs. clear Hs.
    destruct (_ || _); [naive_solver|].
    destruct (bool_decide_reflect (seg_ID s ∈ ids)) as [Hin|Hin]; [split; [done|naive_solver]|].
    destruct (_ && _); [naive_solver|]. destruct (_ <? 0)%Z; [naive_solver|].
    destruct (negb _); [naive_solver|].
    rewrite IH. cbn [list_to_set]. split.
    + intros (H1 & H2 & H3 & ->). split_and!; try done.
      * intros Hx. rewrite Forall_forall in H3.
        apply list_elem_of_fmap in Hx as (y & E & Hy). specialize (H3 y Hy). set_solver.
      * eapply Forall_impl; [exact H3|]. set_solver.
      * set_solver.
    + intros ((_ & H1) & (H2a & H2) & (_ & H3) & ->). split_and!; try done.
      * rewrite Forall_forall in H3 |- *. intros y Hy.
        apply not_elem_of_union. split; [|by apply H3].
        rewrite elem_of_singleton. intros E. apply H2a. rewrite <- E. by apply list_elem_of_fmap_2.
      * set_solver.
Qed.

Definition seg_id_set (m : Manifest) : gset string := list_to_set (map seg_ID (Segments m)).
Definition root_set (m : Manifest) : gset string := list_to_set (map ToLower (Roots m)).

Lemma SegmentByID_is_Some m id : id ∈ seg_id_set m <-> is_Some (SegmentByID m id).
Proof.
  unfold seg_id_set, SegmentByID. rewrite elem_of_list_to_set.
  induction (Segments m) as [|s ss IH]; cbn.
  - rewrite elem_of_nil. split; [done|]. intros [? [=]].
  - rewrite elem_of_cons, IH. destruct (String.eqb_spec (seg_ID s) id) as [->|Hne].
    + split; [eauto|by left].
    + split; [intros [->|?]; done|by right].
Qed.

Definition file_ok (m : Manifest) (e : Entry) : Prop :=
  (0 <= e_Size e)%Z /\ (0 <= e_SegmentOffset e)%Z /\ digestPattern (e_Digest e) = true /\
  exists s, SegmentByID m (e_SegmentID e) = Some s /\
    (seg_Kind s = SegmentRaw -> seg_WireSize s = e_Size e /\ seg_Digest s = e_Digest e).

Lemma check_file_inr m raw e raw' : is_file e = true ->
  check_file m (seg_id_set m) raw e = inr raw' <->
  file_ok m e /\ (raw_backed m e = true -> e_SegmentID e ∉ raw) /\
  raw' = (if raw_backed m e then {[e_SegmentID e]} ∪ raw else raw).
Proof.
  intros Hf. unfold check_file, file_ok, raw_backed. rewrite Hf. cbn [andb].
  destruct (Z.ltb_spec (e_Size e) 0); [split; [done|lia]|].
  destruct (digestPattern (e_Digest e)); cbn [negb]; [|split; [done|naive_solver]].
  destruct (bool_decide_reflect (e_SegmentID e ∈ seg_id_set m)) as [Hin|Hin]; cbn [negb].
  2:{ split; [done|]. intros [(_ & _ & _ & s & Hs & _) _]. destruct Hin.
      apply SegmentByID_is_Some. eauto. }
  apply SegmentByID_is_Some in Hin as [s Hs]. rewrite Hs.
  cbn [default from_option id]. cbn beta iota.
  destruct (String.eqb_spec (seg_Kind s) SegmentRaw) as [Hk|Hk].
  - destruct (bool_decide_reflect (e_SegmentID e ∈ raw)) as [Hr|Hr];
      [split; [done|intros (_ & Hn & _); by specialize (Hn eq_refl)]|].
    destruct (Z.eqb_spec (seg_WireSize s) (e_Size e)); cbn [negb]; [|split; [done|naive_solver]].
    destruct (String.eqb_spec (seg_Digest s) (e_Digest e)); cbn [negb]; [|split; [done|naive_solver]].
    destruct (Z.ltb_spec (e_SegmentOffset e) 0); [split; [done|lia]|].
    split; [intros [= <-]|intros (_ & _ & ->); done]. split_and!; try done. eauto.
  - destruct (Z.ltb_spec (e_SegmentOffset e) 0); [split; [done|lia]|].
    split; [intros [= <-]|intros (_ & _ & ->); done]. split_and!; try done.
    exists s. split; [done|]. congruence.
Qed.

Definition entry_head_ok (m : Manifest) (e : Entry) : Prop :=
  ValidatePortablePath (e_Path e) = None /\
  ToLower (before "/" (e_Path e)) ∈ root_set m /\ (e_Mode e <= 511)%Z /\ (0 <= e_MTimeUnixNS e)%Z.

Definition dir_fields_ok (e : Entry) : Prop :=
  e_Size e = 0%Z /\ e_Digest e = "" /\ e_SegmentID e = "".

Lemma entry_ok_split m e : entry_ok m e <->
  entry_head_ok m e /\
  ((is_dir e = true /\ dir_fields_ok e) \/ (is_file e = true /\ file_ok m e)).
Proof.
  unfold entry_ok, entry_head_ok, dir_fields_ok, file_ok, root_set.
  rewrite elem_of_list_to_set. tauto.
Qed.

Lemma dir_not_file e : is_dir e = true -> is_file e = false.
Proof. unfold is_dir, is_file. intros ->%String.eqb_eq. done. Qed.

Lemma check_entries_None m es seen raw :
  check_entries m (root_set m) (seg_id_set m) es seen raw = None <->
  Forall (entry_ok m) es /\ NoDup (map (fun e => normalizedPathKey (e_Path e)) es) /\
  Forall (fun e => normalizedPathKey (e_Path e) ∉ seen) es /\
  NoDup (map e_SegmentID (List.filter (raw_backed m) es)) /\
  Forall (fun i => i ∉ raw) (map e_SegmentID (List.filter (raw_backed m) es)).
Proof.
  revert seen raw. induction es as [|e es IH]; intros seen raw; cbn [check_entries].
  { cbn. split; [repeat constructor|done]. }
  cbn [map List.filter]. rewrite NoDup_cons, !Forall_cons, entry_ok_split.
  unfold entry_head_ok at 1.
  destruct (ValidatePortablePath (e_Path e)) as [err|] eqn:Ep; [split; [done|naive_solver]|].
  destruct (bool_decide_reflect (normalizedPathKey (e_Path e) ∈ seen)) as [Hs|Hs]; [split; [done|naive_solver]|].
  destruct (bool_decide_reflect (ToLower (before "/" (e_Path e)) ∈ root_set m)); cbn [negb];
    [|split; [done|naive_solver]].
  destruct (Z.ltb_spec 511 (e_Mode e)); [split; [done|lia]|].
  destruct (Z.ltb_spec (e_MTimeUnixNS e) 0); [split; [done|lia]|].
  assert (Hkey : forall l : list Entry,
    Forall (fun y => normalizedPathKey (e_Path y) ∉ {[normalizedPathKey (e_Path e)]} ∪ seen) l <->
    normalizedPathKey (e_Path e) ∉ map (fun e => normalizedPathKey (e_Path e)) l /\
    Forall (fun y => normalizedPathKey (e_Path y) ∉ seen) l).
  { intros l. rewrite !Forall_forall. split.
    - intros HF. split; [|intros y Hy; specialize (HF y Hy); set_solver].
      intros (y & E & Hy)%list_elem_of_fmap. specialize (HF y Hy). set_solver.
    - intros [Hn HF] y Hy. specialize (HF y Hy). rewrite not_elem_of_union, elem_of_singleton.
      split; [|done]. intros E. apply Hn. rewrite <- E. by apply (list_elem_of_fmap_2 (fun e => normalizedPathKey (e_Path e))). }
  destruct (is_dir e) eqn:Ed.
  - pose proof (dir_not_file e Ed) as Ef. assert (raw_backed m e = false) as -> by (unfold raw_backed; by rewrite Ef).
    assert (Hd : dir_fields_ok e <-> (negb (e_Size e =? 0)%Z || negb (e_Digest e =? "") || negb (e_SegmentID e =? "")) = false).
    { unfold dir_fields_ok. rewrite !orb_false_iff, !negb_false_iff, Z.eqb_eq, !String.eqb_eq. tauto. }
    destruct (_ || _ || _).
    { split; [done|]. intros [[[_ [[_ Hx]|[? _]]] _] _]; [by apply Hd in Hx|congruence]. }
    assert (Hdo : dir_fields_ok e) by (by apply Hd). clear Hd. rewrite IH, Hkey.
    clear IH Hkey. split; intros; destruct_and?; split_and?; tauto.
  - destruct (is_file e) eqn:Ef; [|split; [done|naive_solver]].
    pose proof (check_file_inr m raw e) as Hcf. specialize (fun r => Hcf r Ef).
    destruct (check_file m (seg_id_set m) raw e) as [err|raw1].
    { split; [done|]. intros (((_ & Hor) & _) & _ & _ & Hnd & Hraw).
      destruct Hor as [[? _]|[_ Hok]]; [done|]. exfalso.
      assert (inl err = inr (if raw_backed m e then {[e_SegmentID e]} ∪ raw else raw)); [|done].
      apply Hcf. split; [done|]. split; [|done]. intros Hb. rewrite Hb in Hraw. by apply Forall_inv in Hraw. }
    destruct (proj1 (Hcf raw1) eq_refl) as (Hok & Hnot & ->).
    clear Hcf. rewrite IH, Hkey. clear IH Hkey.
    destruct (raw_backed m e) eqn:Eb; [|split; intros; destruct_and?; split_and?; tauto].
    cbn [map]. rewrite NoDup_cons, !Forall_cons.
    assert (Hr : forall l : list string, Forall (fun i => i ∉ {[e_SegmentID e]} ∪ raw) l <->
      e_SegmentID e ∉ l /\ Forall (fun i => i ∉ raw) l).
    { intros l. rewrite !Forall_forall. set_solver. }
    rewrite Hr. clear Hr. split; intros; destruct_and?; split_and?; tauto.
Qed.

Lemma length_eqb_nil {A} (l : list A) : (length l =? 0)%nat = false <-> l <> [].
Proof. by destruct l. Qed.

Lemma referenced_spec m : Forall segment_ok (Segments m) ->
  existsb (fun s => negb (bool_decide (seg_ID s ∈ referenced m))) (Segments m) = false <->
  Forall (fun s => seg_ID s ∈ map e_SegmentID (Entries m)) (Segments m).
Proof.
  intros Hok. rewrite <- not_true_iff_false, existsb_exists, Forall_forall.
  setoid_rewrite <- list_elem_of_In. rewrite Forall_forall in Hok. unfold referenced.
  split.
  - intros Hn s Hs. destruct (decide (seg_ID s ∈ map e_SegmentID (Entries m))) as [|Hx]; [done|].
    destruct Hn. exists s. split; [done|]. rewrite negb_true_iff, bool_decide_eq_false.
    rewrite elem_of_list_to_set, list_elem_of_In, filter_In, <- list_elem_of_In. tauto.
  - intros HF (s & Hs & E). rewrite negb_true_iff, bool_decide_eq_false in E. destruct E.
    rewrite elem_of_list_to_set, list_elem_of_In, filter_In, <- list_elem_of_In.
    split; [by apply HF|]. rewrite negb_true_iff, String.eqb_neq. by destruct (Hok s Hs).
Qed.

Lemma Validate_spec m : Validate m = None <-> manifest_ok m.
Proof.
  unfold Validate, manifest_ok.
  destruct (Z.eqb_spec (SchemaVersion m) 1); cbn [negb]; [|split; [done|tauto]].
  destruct (Z.ltb_spec (slen (TransferID m)) 16); cbn [orb]; [split; [done|lia]|].
  destruct (Z.ltb_spec 128 (slen (TransferID m))); [split; [done|lia]|].
  unfold IsZero. destruct (Z.eqb_spec (CreatedAt m) zero_time); [split; [done|tauto]|].
  assert (Hda : (negb (m_DigestAlgorithm m =? "") && negb (m_DigestAlgorithm m =? DigestAlgorithm)) = false
    <-> (m_DigestAlgorithm m = "" \/ m_DigestAlgorithm m = DigestAlgorithm)).
  { by rewrite andb_false_iff, !negb_false_iff, !String.eqb_eq. }
  rewrite <- Hda. destruct (_ && _); [split; [done|naive_solver]|].
  destruct (Z.ltb_spec MaxNoteBytesHard (slen (Note m))); [split; [done|lia]|].
  destruct (valid_utf8 (Note m)); cbn [negb]; [|split; [done|naive_solver]].
  pose proof (length_eqb_nil (Roots m)) as Er.
  destruct (length (Roots m) =? 0)%nat; [split; [done|naive_solver]|].
  pose proof (check_roots_inr (Roots m) ∅) as Hr.
  assert (HFe : forall l : list string, Forall (fun r => ToLower r ∉ (∅ : gset string)) l).
  { intros l. apply Forall_forall. set_solver. }
  destruct (check_roots (Roots m) ∅) as [err|R].
  { split; [done|]. intros (_ & _ & _ & _ & _ & _ & _ & G1 & G2 & _). exfalso.
    assert (inl err = inr (root_set m ∪ ∅)); [|done]. apply Hr. auto. }
  destruct (proj1 (Hr R) eq_refl) as (G1 & G2 & _ & ->). clear Hr. rewrite union_empty_r_L.
  pose proof (length_eqb_nil (Segments m)) as Es.
  destruct (length (Segments m) =? 0)%nat; [split; [done|naive_solver]|].
  pose proof (check_segments_inr (Segments m) ∅) as Hs.
  destruct (check_segments (Segments m) ∅) as [err|S].
  { split; [done|]. intros (_ & _ & _ & _ & _ & _ & _ & _ & _ & _ & G3 & G4 & _). exfalso.
    assert (inl err = inr (seg_id_set m ∪ ∅)); [|done]. apply Hs. split_and!; try done.
    apply Forall_forall. set_solver. }
  destruct (proj1 (Hs S) eq_refl) as (G3 & G4 & _ & ->). clear Hs. rewrite union_empty_r_L.
  pose proof (length_eqb_nil (Entries m)) as Ee.
  destruct (length (Entries m) =? 0)%nat; [split; [done|naive_solver]|].
  fold (root_set m) (seg_id_set m).
  pose proof (check_entries_None m (Entries m) ∅ ∅) as He.
  assert (HE1 : Forall (fun e => normalizedPathKey (e_Path e) ∉ (∅ : gset string)) (Entries m))
    by (apply Forall_forall; set_solver).
  assert (HE2 : Forall (fun i => i ∉ (∅ : gset string)) (map e_SegmentID (List.filter (raw_backed m) (Entries m))))
    by (apply Forall_forall; set_solver).
  destruct (check_entries _ _ _ _ _ _); [split; [done|naive_solver]|].
  destruct (proj1 He eq_refl) as (G5 & G6 & _ & G7 & _).
  pose proof (referenced_spec m G3) as Href.
  destruct (existsb _ _); [split; [done|naive_solver]|].
  split; [intros _|done]. split_and!; try done; tauto.
Qed.

(** C26 (the manifest validator is exact): Validate accepts a manifest if and only if it
    satisfies the declarative rules - paths portable and distinct up to case and under a
    declared root, segments well formed with distinct identifiers, every file backed by a
    declared segment, a raw segment backing exactly one file of the same size and digest,
    and no segment left unreferenced. *)
Theorem Validate_manifest_ok m : Validate m = None <-> manifest_ok m.
Proof. apply Validate_spec. Qed.
End validate_proofs.

(** ** Sorted entries *)

(** [a] may stand before [b] in path order. *)
Definition path_le (a b : Entry) : Prop := slt (e_Path b) (e_Path a) = false.

Lemma path_le_trans a b c : path_le a b -> path_le b c -> path_le a c.
Proof.
  unfold path_le. intros Hab Hbc. destruct (slt (e_Path c) (e_Path a)) eqn:E; [|done].
  destruct (slt (e_Path a) (e_Path b)) eqn:E1.
  - by rewrite (slt_trans _ _ _ E E1) in Hbc.
  - by rewrite (slt_total _ _ E1 Hab), Hbc in E.
Qed.

Lemma insert_entry_perm e l : insert_entry e l ≡ₚ e :: l.
Proof.
  induction l as [|x l IH]; cbn; [done|]. destruct (slt _ _); [done|]. rewrite IH. constructor.
Qed.

Lemma insert_entry_sorted e l : StronglySorted path_le l -> StronglySorted path_le (insert_entry e l).
Proof.
  induction 1 as [|x l Hl IH Hx]; cbn; [repeat constructor|].
  destruct (slt (e_Path e) (e_Path x)) eqn:E.
  - constructor; [by constructor|]. assert (path_le e x).
    { unfold path_le. destruct (slt (e_Path x) (e_Path e)) eqn:E2; [|done].
      by rewrite <- (slt_irrefl (e_Path e)), (slt_trans _ _ _ E E2). }
    constructor; [done|]. eapply Forall_impl; [exact Hx|]. intros y Hy. by eapply path_le_trans.
  - constructor; [done|]. rewrite insert_entry_perm. by constructor.
Qed.

Lemma sort_entries_acc es acc : StronglySorted path_le acc ->
  let r := foldl (fun acc e => insert_entry e acc) acc es in
  r ≡ₚ acc ++ es /\ StronglySorted path_le r.
Proof.
  revert acc. induction es as [|e es IH]; intros acc Hacc; cbn.
  - by rewrite app_nil_r.
  - destruct (IH (insert_entry e acc)) as [Hp Hs]; [by apply insert_entry_sorted|].
    split; [|done]. rewrite Hp, insert_entry_perm. cbn. apply Permutation_middle.
Qed.

Lemma SortedEntries_perm m : SortedEntries m ≡ₚ Entries m.
Proof. by destruct (sort_entries_acc (Entries m) [] ltac:(constructor)). Qed.

Lemma SortedEntries_sorted m : StronglySorted path_le (SortedEntries m).
Proof. by destruct (sort_entries_acc (Entries m) [] ltac:(constructor)). Qed.

Lemma StronglySorted_lookup {A} (R : A -> A -> Prop) (l : list A) i j x y :
  StronglySorted R l -> l !! i = Some x -> l !! j = Some y -> (i < j)%nat -> R x y.
Proof.
  intros Hs. revert i j. induction Hs as [|z l Hl IH Hz]; intros i j Hi Hj Hij; [done|].
  destruct j as [|j]; [lia|]. destruct i as [|i]; cbn in *.
  - simplify_eq. rewrite Forall_forall in Hz. apply Hz. by eapply list_elem_of_lookup_2.
  - eapply IH; [done|done|lia].
Qed.

(** Directories before their contents: the order materialization and the archive
    streams use lists every entry exactly once, and whatever lies under a path comes
    after the entry of that path. *)
Theorem SortedEntries_parents_first m :
  SortedEntries m ≡ₚ Entries m /\
  forall i j d e rest, SortedEntries m !! i = Some d -> SortedEntries m !! j = Some e ->
    e_Path e = e_Path d ++ "/" ++ rest -> (i < j)%nat.
Proof.
  split; [apply SortedEntries_perm|]. intros i j d e rest Hi Hj E.
  assert (Hlt : slt (e_Path d) (e_Path e) = true).
  { rewrite E. change ("/" ++ rest) with (String "/" rest). apply slt_app. }
  destruct (decide (i = j)) as [->|Hne].
  { rewrite Hi in Hj. injection Hj as <-. by rewrite slt_irrefl in Hlt. }
  destruct (decide (j < i)%nat); [|lia].
  pose proof (StronglySorted_lookup path_le _ j i e d (SortedEntries_sorted m) Hj Hi ltac:(lia)) as H.
  unfold path_le in H. congruence.
Qed.
