(* ===== verification/Wire.v ===== *)
(** * Wire rules: internal/protocol/wire.go *)
From S2P Require Import Prelude GoStrings GoTime Errors.
Local Open Scope string_scope.

Definition DefaultTTLMinutes : Z := 30.
Definition MinTTLMinutes : Z := 1.
Definition MaxTTLMinutes : Z := 3000.

Definition ValidateTTL (minutes : Z) : option ecode :=
  if ((minutes <? MinTTLMinutes) || (MaxTTLMinutes <? minutes))%Z then Some TTLOutOfRange else None.

Definition ParseTTL (s0 : string) : ecode + Z :=
  let s := TrimSpace s0 in
  if s =? "" then inr DefaultTTLMinutes else
  match Atoi s with
  | Some n => match ValidateTTL n with Some e => inl e | None => inr n end
  | None =>
    match ParseDuration s with
    | None => inl InvalidRequest
    | Some d =>
      if (d <=? 0)%Z then inl TTLOutOfRange else
      if negb (Z.rem d minute =? 0)%Z then inl InvalidRequest else
      let n := Z.quot d minute in
      match ValidateTTL n with Some e => inl e | None => inr n end
    end
  end.

(** Advanced transfer requests *)
Record SegmentPlan := mkSegmentPlan {
  sp_ID : string; sp_Kind : string; sp_ExpectedLength : Z; sp_DigestAlgorithm : string;
  sp_ExpectedDigest : option string }.

Record CreateTransferRequest := mkCreateTransferRequest {
  cr_TTLMinutes : Z; cr_Note : string; cr_ExpectedMaterializedBytes : Z;
  cr_ExpectedFileCount : Z; cr_Segments : list SegmentPlan }.

Record UploadResource := mkUploadResource { ur_SegmentID : string; ur_UploadID : string; ur_UploadPath : string }.
Record CreateTransferResponse := mkCreateTransferResponse { cx_TransferID : string; cx_Uploads : list UploadResource }.
Record CommitResponse := mkCommitResponse { co_Code : string; co_CommittedAt : Z; co_ExpiresAt : Z }.
Record EntrySummary := mkEntrySummary { es_Path : string; es_Type : string; es_Size : Z }.
Record TransferMetadata := mkTransferMetadata {
  md_Code : string; md_Note : string; md_CommittedAt : Z; md_ExpiresAt : Z;
  md_FileCount : Z; md_TotalBytes : Z; md_Entries : list EntrySummary }.

(** version.Protocol *)
Definition Protocol : string := "1.0".

(** CheckCompatible: the major component must be the integer 1. *)
Definition CheckCompatible (serverProtocol : string) : option ecode :=
  match Atoi (before "." serverProtocol) with
  | None => Some ProtocolMismatch
  | Some n => if negb (n =? 1)%Z then Some ProtocolMismatch else None
  end.

(** The loop of HumanBytes: [m], [div] and [exp]; [None] when the fuel runs out. *)
Fixpoint human_loop (fuel : nat) (m div exp : Z) : option (Z * Z) :=
  if (m <? 1024)%Z then Some (div, exp) else
  match fuel with
  | O => None
  | S fuel => human_loop fuel (Z.quot m 1024) (int64 (div * 1024)) (exp + 1)%Z
  end.

(** HumanBytes up to the rendering of the number: plain bytes, or the divisor and the
    unit letter; [None] for an index outside "KMGTPE" (a panic) or a divergent loop. *)
Definition HumanBytes (n : Z) : option (Z + Z * ascii) :=
  if (n <? 1024)%Z then Some (inl n) else
  match human_loop 6 (Z.quot n 1024) 1024 0 with
  | None => None
  | Some (div, exp) =>
    match String.get (Z.to_nat exp) "KMGTPE" with
    | Some c => Some (inr (div, c))
    | None => None
    end
  end.

(** ** Properties *)

Lemma ValidateTTL_None n : ValidateTTL n = None <-> (1 <= n <= 3000)%Z.
Proof.
  unfold ValidateTTL, MinTTLMinutes, MaxTTLMinutes.
  destruct (Z.ltb_spec n 1), (Z.ltb_spec 3000 n); cbn; split; try done; lia.
Qed.

(** Expiry bounds: whatever the duration syntax accepts, an accepted TTL lies
    between 1 and 3000 minutes, and a duration that is accepted is exactly that many
    minutes. *)
Theorem ParseTTL_range s n :
  ParseTTL s = inr n ->
  (1 <= n <= 3000)%Z /\
  (TrimSpace s = "" /\ n = 30%Z \/ Atoi (TrimSpace s) = Some n \/ ParseDuration (TrimSpace s) = Some (n * minute)%Z).
Proof.
  unfold ParseTTL. destruct (String.eqb_spec (TrimSpace s) "") as [->|_].
  { intros [= <-]. unfold DefaultTTLMinutes. split; [lia|by left]. }
  destruct (Atoi (TrimSpace s)) as [k|].
  { destruct (ValidateTTL k) eqn:E; [done|]. intros [= <-]. apply ValidateTTL_None in E. auto. }
  destruct (ParseDuration (TrimSpace s)) as [d|]; [|done].
  destruct (Z.leb_spec d 0); [done|]. destruct (Z.eqb_spec (Z.rem d minute) 0) as [Hr|]; [|done].
  cbn [negb]. destruct (ValidateTTL _) eqn:E; [done|]. intros [= <-]. apply ValidateTTL_None in E.
  split; [done|]. right. right. f_equal. rewrite (Z.quot_rem' d minute) at 1. lia.
Qed.

Lemma ParseTTL_range_witness :
  ParseTTL "2h" = inr 120%Z /\ (1 <= 120 <= 3000)%Z.
Proof.
  split; [vm_compute; reflexivity|].
  apply (ParseTTL_range "2h" 120). vm_compute. reflexivity.
Defined.

Lemma human_loop_spec fuel m div exp :
  (0 <= m < 1024 ^ (Z.of_nat fuel + 1))%Z -> (0 <= exp)%Z -> div = (1024 ^ (exp + 1))%Z ->
  (m * div < 2 ^ 63)%Z ->
  exists d x, human_loop fuel m div exp = Some (d, x) /\ d = (1024 ^ (x + 1))%Z /\
    (exp <= x)%Z /\ (x = exp \/ d <= m * div)%Z /\ ((m + 1) * div <= 1024 * d)%Z.
Proof.
  revert m div exp. induction fuel as [|fuel IH]; intros m div exp Hm He Hd Hb;
    assert (Hpos : (0 < div)%Z) by (subst; apply Z.pow_pos_nonneg; lia); cbn [human_loop].
  - change (1024 ^ (Z.of_nat 0 + 1))%Z with 1024%Z in Hm.
    destruct (Z.ltb_spec m 1024); [|lia]. exists div, exp. split_and!; try done; nia.
  - destruct (Z.ltb_spec m 1024) as [Hlt|Hge].
    { exists div, exp. split_and!; try done; nia. }
    rewrite Z.quot_div_nonneg by lia.
    pose proof (Z.div_mod m 1024 ltac:(lia)) as Hdm.
    pose proof (Z.mod_pos_bound m 1024 ltac:(lia)) as Hmb.
    set (q := (m / 1024)%Z) in *.
    assert (Hin : int64 (div * 1024) = (div * 1024)%Z).
    { apply int64_small. unfold in_int64, min_int64, max_int64. nia. }
    rewrite Hin.
    destruct (IH q (div * 1024)%Z (exp + 1)%Z) as (d & x & Hl & Hdx & Hex & Hlo & Hhi).
    + split; [lia|]. rewrite Nat2Z.inj_succ in Hm.
      replace (Z.succ (Z.of_nat fuel) + 1)%Z with (Z.succ (Z.of_nat fuel + 1)) in Hm by lia.
      rewrite Z.pow_succ_r in Hm by lia. lia.
    + lia.
    + subst div. replace (exp + 1 + 1)%Z with (Z.succ (exp + 1)) by lia. rewrite Z.pow_succ_r by lia. lia.
    + nia.
    + exists d, x. split_and!; try done; [lia| |nia]. right.
      destruct Hlo as [->|Hlo]; [|nia]. subst d div. rewrite Z.pow_add_r by lia. nia.
Qed.

(** C28 (HumanBytes never panics): for every int64 the unit loop ends, the divisor is a
    power of 1024 that did not overflow, and the unit index stays inside "KMGTPE". *)
Theorem HumanBytes_total n : in_int64 n ->
  exists r, HumanBytes n = Some r /\
  match r with
  | inl b => b = n /\ (n < 1024)%Z
  | inr (div, _) => exists k, (1 <= k <= 6)%Z /\ div = (1024 ^ k)%Z /\ (n < 1024 * div)%Z
  end.
Proof.
  intros Hn. unfold in_int64, min_int64, max_int64 in Hn. unfold HumanBytes.
  destruct (Z.ltb_spec n 1024) as [Hlt|Hge]; [by eexists|].
  rewrite Z.quot_div_nonneg by lia.
  pose proof (Z.div_mod n 1024 ltac:(lia)) as Hdm. pose proof (Z.mod_pos_bound n 1024 ltac:(lia)) as Hmb.
  set (q := (n / 1024)%Z) in *.
  assert (1024 ^ 7 = 1180591620717411303424)%Z as H7 by reflexivity.
  destruct (human_loop_spec 6 q 1024 0) as (d & x & Hl & Hd & Hx & Hlo & Hhi); [change (Z.of_nat 6 + 1)%Z with 7%Z; lia|lia|reflexivity|lia|].
  rewrite Hl.
  assert (Hx5 : (x <= 5)%Z).
  { destruct (decide (x <= 5)%Z); [done|]. exfalso.
    assert (1024 ^ 7 <= d)%Z by (subst d; apply Z.pow_le_mono_r; lia).
    destruct Hlo; lia. }
  assert (x = 0 \/ x = 1 \/ x = 2 \/ x = 3 \/ x = 4 \/ x = 5)%Z as Hcase by lia.
  assert (Hget : exists c, String.get (Z.to_nat x) "KMGTPE" = Some c).
  { destruct Hcase as [->|[->|[->|[->|[->| ->]]]]]; cbn; eauto. }
  destruct Hget as [c ->]. eexists. split; [reflexivity|]. cbn.
  exists (x + 1)%Z. split_and!; [lia|lia|done|lia].
Qed.

Lemma HumanBytes_total_witness : exists r, HumanBytes max_int64 = Some r /\
  match r with
  | inl b => b = max_int64 /\ (max_int64 < 1024)%Z
  | inr (div, _) => exists k, (1 <= k <= 6)%Z /\ div = (1024 ^ k)%Z /\ (max_int64 < 1024 * div)%Z
  end.
Proof. apply (HumanBytes_total max_int64). unfold in_int64, min_int64, max_int64. lia. Defined.
