(* ===== verification/Admission.v ===== *)
(** * Disk admission: internal/admission/admission.go and DiskUsage of
      internal/platform/fs.go *)
From S2P Require Import Prelude Errors.

(** platform.DiskUsage: two uint64 counters. *)
Record DiskUsage := mkDiskUsage { TotalBytes : Z; FreeBytes : Z }.

Definition uint64 (z : Z) : Z := z mod 2^64.

Definition UsedPercent (d : DiskUsage) : Z :=
  if TotalBytes d =? 0 then 0 else
  let used := uint64 (TotalBytes d - FreeBytes d) in
  int64 (uint64 (used * 100) / TotalBytes d).

Record Controller := mkController { highWatermarkPct : Z; maxTransferBytes : Z }.

Definition MaterializationOverhead : Z := 2.

Definition headroom (c : Controller) (usage : DiskUsage) (reserved : Z) : Z :=
  if TotalBytes usage =? 0 then 0 else
  let limit := Z.quot (int64 (int64 (TotalBytes usage) * highWatermarkPct c)) 100 in
  let used := int64 (uint64 (TotalBytes usage - FreeBytes usage)) in
  int64 (int64 (limit - used) - reserved).

(** Reserve *)
Definition Reserve (expectedBytes : Z) : Z := int64 (expectedBytes * MaterializationOverhead).

(** Admit, given the answers of the filesystem and of the reservation query. *)
Definition Admit (c : Controller) (usage : option DiskUsage) (reserved : option Z)
    (expectedBytes : Z) : option ecode :=
  if (0 <? maxTransferBytes c) && (maxTransferBytes c <? expectedBytes) then Some PayloadTooLarge else
  match usage with
  | None => Some Internal
  | Some u =>
    match reserved with
    | None => Some Internal
    | Some r =>
      let h := headroom c u r in
      if h <=? 0 then Some InsufficientStorage else
      if (0 <? expectedBytes) && (h <? int64 (expectedBytes * MaterializationOverhead))
      then Some InsufficientStorage else None
    end
  end.

Definition CheckStreaming (c : Controller) (usage : option DiskUsage) : option ecode :=
  match usage with
  | None => Some Internal
  | Some u => if headroom c u 0 <=? 0 then Some InsufficientStorage else None
  end.

(** Status: capacity, reservations and whether transfers are accepted. *)
Definition Status (c : Controller) (usage : option DiskUsage) (reserved : option Z)
    : DiskUsage * Z * bool :=
  match usage with
  | None => (mkDiskUsage 0 0, 0, false)
  | Some u => match reserved with
              | None => (u, 0, false)
              | Some r => (u, r, 0 <? headroom c u r)
              end
  end.

(** ** Specification *)

(** The bytes that may be in use before the watermark is crossed. *)
Definition watermark (c : Controller) (u : DiskUsage) : Z :=
  TotalBytes u * highWatermarkPct c / 100.
Definition used (u : DiskUsage) : Z := TotalBytes u - FreeBytes u.

(** A disk and configuration whose products fit in an int64 (up to 92 petabytes). *)
Definition sane (c : Controller) (u : DiskUsage) : Prop :=
  0 <= FreeBytes u <= TotalBytes u /\ 0 < TotalBytes u /\ TotalBytes u * 100 <= max_int64 /\
  0 <= highWatermarkPct c <= 100.

Lemma headroom_spec c u r : sane c u -> 0 <= r <= 2^62 ->
  headroom c u r = watermark c u - used u - r.
Proof.
  unfold sane, headroom, watermark, used, uint64, max_int64. intros (Hf & Ht & Hmax & Hp) Hr.
  destruct (Z.eqb_spec (TotalBytes u) 0); [lia|].
  rewrite (Z.mod_small (TotalBytes u - FreeBytes u)) by lia.
  rewrite (int64_small (TotalBytes u)) by (unfold in_int64, min_int64, max_int64; lia).
  rewrite (int64_small (TotalBytes u - FreeBytes u)) by (unfold in_int64, min_int64, max_int64; lia).
  rewrite (int64_small (TotalBytes u * highWatermarkPct c))
    by (unfold in_int64, min_int64, max_int64; nia).
  rewrite Z.quot_div_nonneg by nia.
  assert (0 <= TotalBytes u * highWatermarkPct c / 100 <= TotalBytes u).
  { split; [apply Z.div_pos; nia|]. apply Z.div_le_upper_bound; nia. }
  rewrite int64_add_l_sub. rewrite int64_small; [lia|]. unfold in_int64, min_int64, max_int64. lia.
Qed.

(** A run of admissions against one disk: each declared size is checked against the
    reservations of the admitted ones before it. *)
Fixpoint admit_all (c : Controller) (u : DiskUsage) (reserved : Z) (sizes : list Z) : option Z :=
  match sizes with
  | [] => Some reserved
  | s :: rest =>
    match Admit c (Some u) (Some reserved) s with
    | Some _ => admit_all c u reserved rest
    | None => admit_all c u (reserved + Reserve s) rest
    end
  end.

Lemma Admit_None c u r s : sane c u -> 0 <= r <= 2^62 -> 0 <= s <= 2^61 ->
  Admit c (Some u) (Some r) s = None ->
  used u + r + Reserve s <= watermark c u /\ Reserve s = 2 * s.
Proof.
  intros Hs Hr Hb. unfold Admit, Reserve, MaterializationOverhead.
  rewrite (int64_small (s * 2)) by (unfold in_int64, min_int64, max_int64; lia).
  destruct (_ && _); [done|]. rewrite headroom_spec by done.
  destruct (Z.leb_spec (watermark c u - used u - r) 0); [done|].
  destruct (Z.ltb_spec 0 s); cbn [andb]; [|intros _; lia].
  destruct (Z.ltb_spec (watermark c u - used u - r) (s * 2)); [done|]. intros _. lia.
Qed.



(** The doubling overflows: on any sane disk below its watermark, with no
    configured maximum, a transfer declaring 2^62 bytes is admitted - far more than the
    disk holds - and its reservation is the most negative int64, so it lends headroom to
    every later admission instead of taking it. *)
Theorem Admit_overflow c u r :
  sane c u -> 0 <= r <= 2^62 -> maxTransferBytes c = 0 -> 0 < watermark c u - used u - r ->
  Admit c (Some u) (Some r) (2^62) = None /\ TotalBytes u < 2^62 /\
  Reserve (2^62) = min_int64.
Proof.
  intros Hs Hr Hmax Hroom. split_and!; [|unfold sane, max_int64 in Hs; lia|reflexivity].
  unfold Admit. rewrite Hmax. cbn [Z.ltb Z.compare andb]. rewrite headroom_spec by done.
  destruct (Z.leb_spec (watermark c u - used u - r) 0); [lia|].
  change (int64 (2 ^ 62 * MaterializationOverhead)) with min_int64.
  destruct (Z.ltb_spec (watermark c u - used u - r) min_int64); [|by rewrite andb_false_r].
  unfold min_int64 in *. lia.
Qed.

Lemma Admit_overflow_witness :
  Admit (mkController 85 0) (Some (mkDiskUsage 1000000 900000)) (Some 0) (2^62) = None
  /\ 1000000 < 2^62 /\ Reserve (2^62) = min_int64.
Proof.
  apply (Admit_overflow (mkController 85 0) (mkDiskUsage 1000000 900000) 0);
    [unfold sane, max_int64; cbn; lia|lia|reflexivity|vm_compute; reflexivity].
Defined.
