(* ===== verification/Prog.v ===== *)
(** * Effectful programs that can fail and crash

    The handlers of the server are sequences of calls that change a world (database,
    directories, cache, clock).  [prog W A] is the type of such a sequence: a tree whose
    nodes are single calls.  Every call has its normal outcome and, when the operating
    system, the disk, the database or the clock can answer otherwise, its alternative
    outcomes, indexed by a number: an I/O error with or without the effect, a short write,
    a cancelled context, a clock that moved.  A schedule of events picks the outcomes and
    may stop the process between any two calls. *)
From S2P Require Import Prelude.

Inductive event := Fine | Alt (n : nat) | Crash.

Inductive prog (W A : Type) : Type :=
| Ret (a : A)
| Act {R : Type} (step : W -> R * W) (alts : option (nat -> W -> R * W)) (k : R -> prog W A).
Arguments Ret {W A} _.
Arguments Act {W A R} _ _ _.

Declare Scope prog_scope.
Delimit Scope prog_scope with prog.

Section prog.
Context {W : Type}.

Fixpoint bind {A B} (p : prog W A) (f : A -> prog W B) : prog W B :=
  match p with
  | Ret a => f a
  | Act step alts k => Act step alts (fun r => bind (k r) f)
  end.

Definition act {R} (step : W -> R * W) (alts : option (nat -> W -> R * W)) : prog W R :=
  Act step alts Ret.

(** A call that cannot go wrong: memory only. *)
Definition act_ {R} (step : W -> R * W) : prog W R := act step None.

(** The alternative outcome [n]; a call without alternatives behaves normally. *)
Definition outcome {R} (step : W -> R * W) (alts : option (nat -> W -> R * W)) (e : event) (w : W)
    : R * W :=
  match e, alts with Alt n, Some f => f n w | _, _ => step w end.

(** Running under a schedule: [None] when the process stopped. A schedule that is used up
    continues normally. *)
Fixpoint run {A} (p : prog W A) (es : list event) (w : W) : option A * W :=
  match p with
  | Ret a => (Some a, w)
  | Act step alts k =>
    match es with
    | [] => let '(r, w') := step w in run (k r) [] w'
    | Crash :: _ => (None, w)
    | e :: es => let '(r, w') := outcome step alts e w in run (k r) es w'
    end
  end.

(** The run where every call has its normal outcome. *)
Fixpoint exec {A} (p : prog W A) (w : W) : A * W :=
  match p with
  | Ret a => (a, w)
  | Act step _ k => let '(r, w') := step w in exec (k r) w'
  end.

(** Two programs interleaved call by call; [true] lets the first one move.  When the
    schedule is used up the first program finishes, then the second. *)
Fixpoint run2 {A B} (sched : list bool) (p : prog W A) (q : prog W B) (w : W) : A * B * W :=
  match sched with
  | [] => let '(a, w) := exec p w in let '(b, w) := exec q w in (a, b, w)
  | true :: sched =>
    match p with
    | Ret _ => run2 sched p q w
    | Act step _ k => let '(r, w') := step w in run2 sched (k r) q w'
    end
  | false :: sched =>
    match q with
    | Ret _ => run2 sched p q w
    | Act step _ k => let '(r, w') := step w in run2 sched p (k r) w'
    end
  end.

(** Calls that return a Go error. *)
Definition bindE {E A B} (p : prog W (E + A)) (f : A -> prog W (E + B)) : prog W (E + B) :=
  bind p (fun r => match r with inl e => Ret (inl e) | inr a => f a end).

(** [if err != nil { return ..., e }] *)
Definition orE {E E' A B} (p : prog W (E + A)) (e : E') (f : A -> prog W (E' + B)) : prog W (E' + B) :=
  bind p (fun r => match r with inl _ => Ret (inl e) | inr a => f a end).

(** A Go loop over a slice whose body may return early. *)
Fixpoint loop {X S E} (body : S -> X -> prog W (E + S)) (s : S) (l : list X) : prog W (E + S) :=
  match l with
  | [] => Ret (inr s)
  | x :: l => bindE (body s x) (fun s => loop body s l)
  end.

(** A loop whose body never returns early. *)
Fixpoint each {X S} (body : S -> X -> prog W S) (s : S) (l : list X) : prog W S :=
  match l with
  | [] => Ret s
  | x :: l => bind (body s x) (fun s => each body s l)
  end.
End prog.

Notation "x <- p ;; q" := (bind p (fun x => q))
  (at level 100, p at next level, right associativity) : prog_scope.
Notation "' pat <- p ;; q" := (bind p (fun x => match x with pat => q end))
  (at level 100, pat pattern, p at next level, right associativity) : prog_scope.
Notation "p ;;; q" := (bind p (fun _ => q)) (at level 100, right associativity) : prog_scope.
Notation "x <-? p ;; q" := (bindE p (fun x => q))
  (at level 100, p at next level, right associativity) : prog_scope.
Notation "x <-? p 'orelse' e ;; q" := (orE p e (fun x => q))
  (at level 100, p at next level, e at next level, right associativity) : prog_scope.
Notation "'ensure' b 'orelse' e ;; q" := (if b then q else Ret (inl e))
  (at level 100, b at next level, e at next level, right associativity) : prog_scope.

(** Running a program of a part of the world. *)
Section lift.
Context {W V : Type} (get : W -> V) (set : V -> W -> W).

Definition lift_step {R} (step : V -> R * V) (w : W) : R * W :=
  let '(r, v) := step (get w) in (r, set v w).

Fixpoint lift {A} (p : prog V A) : prog W A :=
  match p with
  | Ret a => Ret a
  | Act step alts k =>
    Act (lift_step step)
        (match alts with Some f => Some (fun n => lift_step (f n)) | None => None end)
        (fun r => lift (k r))
  end.
End lift.

(** ** Reasoning *)

Section wp.
Context {W : Type}.

(** [wp I p Q w]: started in [w], whatever the outcomes of its calls, [p] keeps the
    invariant [I] after every call and ends with [Q]. *)
Fixpoint wp {A} (I : W -> Prop) (p : prog W A) (Q : A -> W -> Prop) (w : W) : Prop :=
  match p with
  | Ret a => Q a w
  | Act step alts k =>
    (let '(r, w') := step w in I w' /\ wp I (k r) Q w') /\
    match alts with
    | Some f => forall n, let '(r, w') := f n w in I w' /\ wp I (k r) Q w'
    | None => True
    end
  end.

Lemma wp_sound {A} I (p : prog W A) Q es w : I w -> wp I p Q w ->
  I (snd (run p es w)) /\
  (forall a, fst (run p es w) = Some a -> Q a (snd (run p es w))).
Proof.
  revert es w. induction p as [a|R step alts k IH]; intros es w HI Hwp; cbn in *.
  - split; [done|]. by intros ? [= <-].
  - destruct Hwp as [Hs Ha]. destruct es as [|[|n|] es]; cbn.
    + destruct (step w) as [r w']. destruct Hs. by apply IH.
    + destruct (step w) as [r w']. destruct Hs. by apply IH.
    + destruct alts as [f|].
      * specialize (Ha n). destruct (f n w) as [r w']. destruct Ha. by apply IH.
      * destruct (step w) as [r w']. destruct Hs. by apply IH.
    + done.
Qed.

Lemma wp_mono {A} (I J : W -> Prop) (p : prog W A) (Q Q' : A -> W -> Prop) w :
  (forall w, I w -> J w) -> (forall a w, Q a w -> Q' a w) -> wp I p Q w -> wp J p Q' w.
Proof.
  intros HIJ HQ. revert w. induction p as [a|R step alts k IH]; intros w; cbn; [apply HQ|].
  intros [Hs Ha]. split.
  - destruct (step w). destruct Hs; split; auto.
  - destruct alts as [f|]; [|done]. intros n. specialize (Ha n). destruct (f n w). destruct Ha; auto.
Qed.

Lemma wp_wand {A} (I : W -> Prop) (p : prog W A) (Q Q' : A -> W -> Prop) w :
  wp I p Q w -> (forall a w, Q a w -> Q' a w) -> wp I p Q' w.
Proof. intros. by apply (wp_mono I I p Q Q'). Qed.

Lemma wp_bind {A B} I (p : prog W A) (f : A -> prog W B) Q w :
  wp I p (fun a => wp I (f a) Q) w -> wp I (bind p f) Q w.
Proof.
  revert w. induction p as [a|R step alts k IH]; intros w; cbn; [done|].
  intros [Hs Ha]. split.
  - destruct (step w). destruct Hs; auto.
  - destruct alts as [g|]; [|done]. intros n. specialize (Ha n). destruct (g n w). destruct Ha; auto.
Qed.

Lemma wp_bindE {E A B} I (p : prog W (E + A)) (f : A -> prog W (E + B)) Q w :
  wp I p (fun r w => match r with inl e => Q (inl e) w | inr a => wp I (f a) Q w end) w ->
  wp I (bindE p f) Q w.
Proof. intros H. apply wp_bind. eapply wp_wand; [exact H|]. by intros [] ?. Qed.

Lemma wp_orE {E E' A B} I (p : prog W (E + A)) (e : E') (f : A -> prog W (E' + B)) Q w :
  wp I p (fun r w => match r with inl _ => Q (inl e) w | inr a => wp I (f a) Q w end) w ->
  wp I (orE p e f) Q w.
Proof. intros H. apply wp_bind. eapply wp_wand; [exact H|]. by intros [] ?. Qed.

Lemma wp_trivial {A} (p : prog W A) w : wp (fun _ => True) p (fun _ _ => True) w.
Proof.
  revert w. induction p as [a|R step alts k IH]; intros w; cbn; [done|].
  split; [destruct (step w); auto|]. destruct alts as [f|]; [|done]. intros n. destruct (f n w). auto.
Qed.

(** The invariant is available at the end. *)
Lemma wp_inv {A} (I : W -> Prop) (p : prog W A) (Q : A -> W -> Prop) w :
  I w -> wp I p Q w -> wp I p (fun a w => I w /\ Q a w) w.
Proof.
  revert w. induction p as [a|R step alts k IH]; intros w Hw; cbn; [done|].
  intros [Hs Ha]. split.
  - destruct (step w). destruct Hs; auto.
  - destruct alts as [f|]; [|done]. intros n. specialize (Ha n). destruct (f n w). destruct Ha; auto.
Qed.

(** Sequencing under an invariant. *)
Lemma wp_then {A B} (I : W -> Prop) (p : prog W A) (f : A -> prog W B) (Q : A -> W -> Prop) R w :
  I w -> wp I p Q w -> (forall a w, I w -> Q a w -> wp I (f a) R w) -> wp I (bind p f) R w.
Proof.
  intros Hw Hp Hf. apply wp_bind. eapply wp_wand; [by apply wp_inv|]. intros a w' [? ?]. by apply Hf.
Qed.

(** A call whose effects all keep the invariant. *)
Lemma wp_act {R} (I : W -> Prop) (step : W -> R * W) alts (Q : R -> W -> Prop) w :
  (forall r w', step w = (r, w') \/ (exists f n, alts = Some f /\ f n w = (r, w')) ->
    I w' /\ Q r w') ->
  wp I (act step alts) Q w.
Proof.
  intros H. cbn. split.
  - destruct (step w) eqn:E. apply H. auto.
  - destruct alts as [f|]; [|done]. intros n. destruct (f n w) eqn:E. apply H. right; eauto.
Qed.

Lemma wp_loop {X S E} (I : W -> Prop) (body : S -> X -> prog W (E + S)) (P : list X -> S -> W -> Prop)
    (Q : E + S -> W -> Prop) s l w :
  P l s w ->
  (forall s w, P [] s w -> Q (inr s) w) ->
  (forall x l s w, P (x :: l) s w ->
    wp I (body s x) (fun r w => match r with inl e => Q (inl e) w | inr s => P l s w end) w) ->
  wp I (loop body s l) Q w.
Proof.
  intros HP Hnil Hcons. revert s w HP. induction l as [|x l IH]; intros s w HP; cbn; [by apply Hnil|].
  apply wp_bindE. eapply wp_wand; [by apply Hcons|]. intros [e|s'] w'; cbn; auto.
Qed.

Lemma wp_each {X S} (I : W -> Prop) (body : S -> X -> prog W S) (P : list X -> S -> W -> Prop) s l w :
  P l s w ->
  (forall x l s w, P (x :: l) s w -> wp I (body s x) (fun s w => P l s w) w) ->
  wp I (each body s l) (fun s w => P [] s w) w.
Proof.
  intros HP Hcons. revert s w HP. induction l as [|x l IH]; intros s w HP; cbn; [done|].
  apply wp_bind. eapply wp_wand; [by apply Hcons|]. cbn. intros s' w'. apply IH.
Qed.

End wp.

Lemma wp_lift {W V A} (get : W -> V) (set : V -> W -> W) (I : W -> Prop) (J : V -> Prop)
    (F : W -> Prop) (p : prog V A) (Q : A -> V -> Prop) w :
  (forall v w, F w -> J v -> I (set v w) /\ F (set v w)) ->
  (forall v w, get (set v w) = v) ->
  F w -> wp J p Q (get w) -> wp I (lift get set p) (fun a w => F w /\ Q a (get w)) w.
Proof.
  intros HF Hgs. revert w. induction p as [a|R step alts k IH]; intros w Hw; cbn; [done|].
  intros [Hs Ha]. split.
  - unfold lift_step. destruct (step (get w)) as [r v]. destruct Hs as [HJ Hk].
    destruct (HF v w Hw HJ). split; [done|]. apply IH; [done|]. by rewrite Hgs.
  - destruct alts as [f|]; [|done]. intros n. specialize (Ha n). unfold lift_step.
    destruct (f n (get w)) as [r v]. destruct Ha as [HJ Hk].
    destruct (HF v w Hw HJ). split; [done|]. apply IH; [done|]. by rewrite Hgs.
Qed.

(** *** Programs that stay within a preorder

    [within R p]: after every call of [p], however it ended, the world is [R]-related to
    the one [p] started in. *)
Section within.
Context {W : Type} (R : W -> W -> Prop) `{!PreOrder R}.

Definition within {A : Type} (p : prog W A) : Prop :=
  forall (I : W -> Prop) w, (forall w', R w w' -> I w') -> wp I p (fun _ w' => R w w') w.

Lemma wp_within {A} (p : prog W A) (I : W -> Prop) (Q : A -> W -> Prop) w :
  within p -> (forall w', R w w' -> I w') -> (forall a w', R w w' -> Q a w') -> wp I p Q w.
Proof. intros Hp HI HQ. eapply wp_wand; [by apply Hp|]. cbn. auto. Qed.

Lemma within_ret {A} (a : A) : within (Ret a).
Proof. intros I w HI. cbn. done. Qed.

Lemma within_act {B} (step : W -> B * W) alts :
  (forall w, R w (snd (step w))) -> (forall f n w, alts = Some f -> R w (snd (f n w))) ->
  within (act step alts).
Proof.
  intros Hs Ha I w HI. apply wp_act. intros r w' [E|(f & n & Ef & E)].
  - pose proof (Hs w) as HR. rewrite E in HR. auto.
  - pose proof (Ha f n w Ef) as HR. rewrite E in HR. auto.
Qed.

Lemma within_bind {A B} (p : prog W A) (f : A -> prog W B) :
  within p -> (forall a, within (f a)) -> within (bind p f).
Proof.
  intros Hp Hf I w HI. apply wp_bind. apply wp_within; [done|done|].
  intros a w1 H1. apply wp_within; [done| |].
  - intros w2 H2. apply HI. by etrans.
  - intros b w2 H2. by etrans.
Qed.

Lemma within_bindE {E A B} (p : prog W (E + A)) (f : A -> prog W (E + B)) :
  within p -> (forall a, within (f a)) -> within (bindE p f).
Proof. intros Hp Hf. apply within_bind; [done|]. intros []; [apply within_ret|done]. Qed.

Lemma within_orE {E E' A B} (p : prog W (E + A)) (e : E') (f : A -> prog W (E' + B)) :
  within p -> (forall a, within (f a)) -> within (orE p e f).
Proof. intros Hp Hf. apply within_bind; [done|]. intros []; [apply within_ret|done]. Qed.

Lemma within_loop {X S E} (body : S -> X -> prog W (E + S)) l s :
  (forall s x, x ∈ l -> within (body s x)) -> within (loop body s l).
Proof.
  revert s. induction l as [|x l IH]; intros s Hb; cbn; [apply within_ret|].
  apply within_bindE; [apply Hb; by left|]. intros s'. apply IH. intros s2 y Hy. apply Hb. by right.
Qed.

Lemma within_each {X S} (body : S -> X -> prog W S) l s :
  (forall s x, x ∈ l -> within (body s x)) -> within (each body s l).
Proof.
  revert s. induction l as [|x l IH]; intros s Hb; cbn; [apply within_ret|].
  apply within_bind; [apply Hb; by left|]. intros s'. apply IH. intros s2 y Hy. apply Hb. by right.
Qed.

(** One fallible call of which only its frame matters, inside a proof about the result. *)
Lemma wp_bindE_within {E A B} (p : prog W (E + A)) (f : A -> prog W (E + B)) (Q : E + B -> W -> Prop) w0 w :
  within p -> R w0 w -> (forall e w', R w0 w' -> Q (inl e) w') ->
  (forall a w', R w0 w' -> wp (R w0) (f a) Q w') -> wp (R w0) (bindE p f) Q w.
Proof.
  intros Hp Hw He Hf. apply wp_bindE. apply wp_within; [done| |].
  - intros w' H'. by etrans.
  - intros [e|a] w' H'; [apply He|apply Hf]; by etrans.
Qed.
End within.

Lemma within_mono {W A} (R R' : W -> W -> Prop) (p : prog W A) :
  (forall w w', R w w' -> R' w w') -> within R p -> within R' p.
Proof.
  intros HRR Hp I w HI. eapply wp_wand; [apply Hp; auto|]. cbn. auto.
Qed.

Lemma wp_and {W A} (I J : W -> Prop) (p : prog W A) (Q Q' : A -> W -> Prop) w :
  wp I p Q w -> wp J p Q' w -> wp (fun w => I w /\ J w) p (fun a w => Q a w /\ Q' a w) w.
Proof.
  revert w. induction p as [a|R step alts k IH]; intros w; cbn; [done|].
  intros [Hs Ha] [Hs' Ha']. split.
  - destruct (step w). destruct Hs, Hs'; auto.
  - destruct alts as [f|]; [|done]. intros n. specialize (Ha n). specialize (Ha' n).
    destruct (f n w). destruct Ha, Ha'; auto.
Qed.

Lemma within_lift {W V A} (R : W -> W -> Prop) (get : W -> V) (set : V -> W -> W) (p : prog V A) :
  PreOrder R -> (forall v w, R w (set v w)) -> within R (lift get set p).
Proof.
  intros HR Hset I w HI. assert (G : forall w1, R w w1 -> wp I (lift get set p) (fun _ w' => R w w') w1).
  { induction p as [a|X step alts k IH]; intros w1 H1; cbn; [done|].
    assert (Hs : forall v, R w (set v w1)) by (intros v; by etrans).
    unfold lift_step. split.
    - destruct (step (get w1)) as [r v]. split; [apply HI, Hs|apply IH, Hs].
    - destruct alts as [f|]; [|done]. intros n. destruct (f n (get w1)) as [r v]. split; [apply HI, Hs|apply IH, Hs]. }
  apply G. done.
Qed.

Lemma wp_forall {W A X} (I : X -> W -> Prop) (p : prog W A) (Q : X -> A -> W -> Prop) w :
  (forall x, wp (I x) p (Q x) w) -> wp (fun w => forall x, I x w) p (fun a w => forall x, Q x a w) w.
Proof.
  revert w. induction p as [a|R step alts k IH]; intros w; cbn; [done|]. intros H. split.
  - assert (H1 := fun x => proj1 (H x)). destruct (step w) as [r w']. split; [intros x; apply H1|].
    apply IH. intros x. apply H1.
  - destruct alts as [f|]; [|done]. intros n. assert (H2 := fun x => proj2 (H x) n). cbn in H2.
    destruct (f n w) as [r w']. split; [intros x; apply H2|]. apply IH. intros x. apply H2.
Qed.

(** *** Runs without faults

    A schedule of normal outcomes and crashes only.  [wp0] is [wp] for such schedules. *)
Definition faultless (es : list event) : Prop := Forall (fun e => match e with Alt _ => False | _ => True end) es.

Fixpoint wp0 {W A} (I : W -> Prop) (p : prog W A) (Q : A -> W -> Prop) (w : W) : Prop :=
  match p with
  | Ret a => Q a w
  | Act step _ k => let '(r, w') := step w in I w' /\ wp0 I (k r) Q w'
  end.

Section wp0.
Context {W : Type} (I : W -> Prop).

Lemma wp0_sound {A} (p : prog W A) Q es w : faultless es -> I w -> wp0 I p Q w ->
  I (snd (run p es w)) /\ (forall a, fst (run p es w) = Some a -> Q a (snd (run p es w))).
Proof.
  intros He. revert w p. induction He as [|e es Hev _ IH]; intros w p Hw; revert w Hw.
  - induction p as [a|R step alts k IH]; intros w Hw Hp; cbn in *; [split; [done|by intros ? [= <-]]|].
    destruct (step w) as [r w']. destruct Hp. by apply IH.
  - destruct p as [a|R step alts k]; intros w Hw Hp; cbn in *; [split; [done|by intros ? [= <-]]|].
    destruct e as [|n|]; [|done|done]. cbn. destruct (step w) as [r w']. destruct Hp. by apply IH.
Qed.

Lemma wp_wp0 {A} (p : prog W A) Q w : wp I p Q w -> wp0 I p Q w.
Proof.
  revert w. induction p as [a|R step alts k IH]; intros w; cbn; [done|]. intros [Hs _].
  destruct (step w). destruct Hs. split; auto.
Qed.

Lemma wp0_wand {A} (p : prog W A) (Q Q' : A -> W -> Prop) w :
  wp0 I p Q w -> (forall a w, Q a w -> Q' a w) -> wp0 I p Q' w.
Proof.
  intros Hp HQ. revert w Hp. induction p as [a|R step alts k IH]; intros w; cbn; [apply HQ|].
  destruct (step w). intros [? ?]. split; auto.
Qed.

Lemma wp0_bind {A B} (p : prog W A) (f : A -> prog W B) Q w :
  wp0 I p (fun a => wp0 I (f a) Q) w -> wp0 I (bind p f) Q w.
Proof.
  revert w. induction p as [a|R step alts k IH]; intros w; cbn; [done|]. destruct (step w). intros [? ?]. split; auto.
Qed.

Lemma wp0_and {A} (J : W -> Prop) (p : prog W A) (Q Q' : A -> W -> Prop) w :
  wp0 I p Q w -> wp0 J p Q' w -> wp0 (fun w => I w /\ J w) p (fun a w => Q a w /\ Q' a w) w.
Proof.
  revert w. induction p as [a|R step alts k IH]; intros w; cbn; [done|].
  destruct (step w). intros [? ?] [? ?]. split; auto.
Qed.

Lemma wp0_mono {A} (J : W -> Prop) (p : prog W A) (Q Q' : A -> W -> Prop) w :
  (forall w, I w -> J w) -> (forall a w, Q a w -> Q' a w) -> wp0 I p Q w -> wp0 J p Q' w.
Proof.
  intros HIJ HQ. revert w. induction p as [a|R step alts k IH]; intros w; cbn; [apply HQ|].
  destruct (step w). intros [? ?]. split; auto.
Qed.

Definition stable0 {A : Type} (p : prog W A) : Prop := forall w, I w -> wp0 I p (fun _ w' => I w') w.

Lemma stable0_ret {A} (a : A) : stable0 (Ret a).
Proof. intros w Hw. done. Qed.
Lemma stable0_bind {A B} (p : prog W A) (f : A -> prog W B) :
  stable0 p -> (forall a, stable0 (f a)) -> stable0 (bind p f).
Proof. intros Hp Hf w Hw. apply wp0_bind. eapply wp0_wand; [by apply Hp|]. intros a w' Hw'. by apply Hf. Qed.
Lemma stable0_each {X S} (body : S -> X -> prog W S) l s :
  (forall s x, x ∈ l -> stable0 (body s x)) -> stable0 (each body s l).
Proof.
  revert s. induction l as [|x l IH]; intros s Hb; cbn; [apply stable0_ret|].
  apply stable0_bind; [apply Hb; by left|]. intros s'. apply IH. intros s2 y Hy. apply Hb. by right.
Qed.
End wp0.

Lemma wp0_lift {W V A} (get : W -> V) (set : V -> W -> W) (I : W -> Prop) (J : V -> Prop)
    (F : W -> Prop) (p : prog V A) (Q : A -> V -> Prop) w :
  (forall v w, F w -> J v -> I (set v w) /\ F (set v w)) ->
  (forall v w, get (set v w) = v) ->
  F w -> wp0 J p Q (get w) -> wp0 I (lift get set p) (fun a w => F w /\ Q a (get w)) w.
Proof.
  intros HF Hgs. revert w. induction p as [a|R step alts k IH]; intros w Hw; cbn; [done|].
  unfold lift_step. destruct (step (get w)) as [r v]. intros [HJ Hk].
  destruct (HF v w Hw HJ). split; [done|]. apply IH; [done|]. by rewrite Hgs.
Qed.

(** *** Programs that keep an invariant *)
Section stable.
Context {W : Type} (I : W -> Prop).

Definition stable {A : Type} (p : prog W A) : Prop := forall w, I w -> wp I p (fun _ w' => I w') w.

Lemma stable_ret {A} (a : A) : stable (Ret a).
Proof. intros w Hw. done. Qed.
Lemma stable_bind {A B} (p : prog W A) (f : A -> prog W B) :
  stable p -> (forall a, stable (f a)) -> stable (bind p f).
Proof. intros Hp Hf w Hw. apply wp_bind. eapply wp_wand; [by apply Hp|]. intros a w' Hw'. by apply Hf. Qed.
Lemma stable_bindE {E A B} (p : prog W (E + A)) (f : A -> prog W (E + B)) :
  stable p -> (forall a, stable (f a)) -> stable (bindE p f).
Proof. intros Hp Hf. apply stable_bind; [done|]. intros []; [apply stable_ret|done]. Qed.
Lemma stable_orE {E E' A B} (p : prog W (E + A)) (e : E') (f : A -> prog W (E' + B)) :
  stable p -> (forall a, stable (f a)) -> stable (orE p e f).
Proof. intros Hp Hf. apply stable_bind; [done|]. intros []; [apply stable_ret|done]. Qed.
Lemma stable_loop {X S E} (body : S -> X -> prog W (E + S)) l s :
  (forall s x, stable (body s x)) -> stable (loop body s l).
Proof.
  intros Hb. revert s. induction l as [|x l IH]; intros s; cbn; [apply stable_ret|].
  apply stable_bindE; [apply Hb|done].
Qed.
Lemma stable_loop_in {X S E} (body : S -> X -> prog W (E + S)) l s :
  (forall s x, x ∈ l -> stable (body s x)) -> stable (loop body s l).
Proof.
  revert s. induction l as [|x l IH]; intros s Hb; cbn; [apply stable_ret|].
  apply stable_bindE; [apply Hb; by left|]. intros s'. apply IH. intros s2 y Hy. apply Hb. by right.
Qed.
Lemma stable_each {X S} (body : S -> X -> prog W S) l s :
  (forall s x, stable (body s x)) -> stable (each body s l).
Proof.
  intros Hb. revert s. induction l as [|x l IH]; intros s; cbn; [apply stable_ret|].
  apply stable_bind; [apply Hb|done].
Qed.
Lemma stable_stable0 {A} (p : prog W A) : stable p -> stable0 I p.
Proof. intros Hp w Hw. by apply wp_wp0, Hp. Qed.
Lemma stable_wp {A} (p : prog W A) Q : (forall w, I w -> wp I p Q w) -> stable p.
Proof. intros Hp w Hw. eapply wp_wand; [apply wp_inv; [done|by apply Hp]|]. by intros a w' [? _]. Qed.
End stable.

Create HintDb within discriminated.
Create HintDb stable discriminated.

(** Decomposes a [stable] goal along the program. *)
Ltac stable_solve :=
  repeat first
    [ apply stable_ret
    | solve [auto with stable within]
    | apply stable_bindE; [|intros ?]
    | apply stable_orE; [|intros ?]
    | apply stable_loop; intros ? ?
    | apply stable_each; intros ? ?
    | apply stable_bind; [|intros ?]
    | case_match ].

(** Decomposes a [within] goal along the program; calls are left to the hint database. *)
Ltac within_solve :=
  repeat first
    [ apply within_ret; apply _
    | solve [auto with within]
    | apply within_bindE; [apply _| |intros ?]
    | apply within_orE; [apply _| |intros ?]
    | apply within_loop; [apply _|intros ? ? ?]
    | apply within_each; [apply _|intros ? ? ?]
    | apply within_bind; [apply _| |intros ?]
    | case_match ].

Lemma exec_bind {W A B} (p : prog W A) (f : A -> prog W B) w :
  exec (bind p f) w = let '(a, w') := exec p w in exec (f a) w'.
Proof.
  revert w. induction p as [a|R step alts k IH]; intros w; cbn; [done|].
  destruct (step w). apply IH.
Qed.

Lemma exec_bindE {W E A B : Type} (p : prog W (E + A)) (f : A -> prog W (E + B)) w :
  exec (bindE p f) w = match exec p w with (inl e, w') => (inl e, w') | (inr a, w') => exec (f a) w' end.
Proof. unfold bindE. rewrite exec_bind. by destruct (exec p w) as [[e|a] w']. Qed.

Lemma run_nil {W A} (p : prog W A) w : run p [] w = (Some (fst (exec p w)), snd (exec p w)).
Proof.
  revert w. induction p as [a|R step alts k IH]; intros w; cbn; [done|].
  destruct (step w). apply IH.
Qed.

Lemma exec_lift {W V A} (get : W -> V) (set : V -> W -> W) (p : prog V A) w :
  (forall v w, get (set v w) = v) -> (forall v v' w, set v (set v' w) = set v w) ->
  (forall w, set (get w) w = w) ->
  exec (lift get set p) w = let '(a, v) := exec p (get w) in (a, set v w).
Proof.
  intros Hgs Hss Hsg. revert w. induction p as [a|R step alts k IH]; intros w; cbn; [by rewrite Hsg|].
  unfold lift_step. destruct (step (get w)) as [r v]. rewrite IH, Hgs.
  destruct (exec (k r) v). by rewrite Hss.
Qed.

Lemma run_step {W A R} step alts (k : R -> prog W A) e es w : e <> Crash ->
  run (Act step alts k) (e :: es) w = let '(r, w') := outcome step alts e w in run (k r) es w'.
Proof. by destruct e. Qed.

(** A run of a sequence is a run of its first part and one of the rest. *)
Lemma run_bind {W A B} (p : prog W A) (f : A -> prog W B) es w o w' : run (bind p f) es w = (o, w') ->
  (run p es w = (None, w') /\ o = None) \/
  exists a w1 es1 es2, run p es1 w = (Some a, w1) /\ run (f a) es2 w1 = (o, w').
Proof.
  revert es w. induction p as [a|R step alts k IH]; intros es w; [intros E; right; by exists a, w, [], es|].
  assert (Hgo : forall e es, e <> Crash -> run (bind (Act step alts k) f) (e :: es) w = (o, w') ->
    (run (Act step alts k) (e :: es) w = (None, w') /\ o = None) \/
    exists a w1 es1 es2, run (Act step alts k) es1 w = (Some a, w1) /\ run (f a) es2 w1 = (o, w')).
  { intros e es' He. cbn [bind]. rewrite !run_step by done. destruct (outcome step alts e w) as [r w1] eqn:Es.
    intros [[E Ho]|(a & w2 & es1 & es2 & E1 & E2)]%IH; [by left|].
    right. exists a, w2, (e :: es1), es2. by rewrite run_step, Es by done. }
  destruct es as [|[|n|] es]; [|by apply Hgo..|intros [= <- <-]; by left].
  intros E. destruct (Hgo Fine [] ltac:(done)) as [[E1 Ho]|H]; [|left|by right].
  - cbn [bind] in *. rewrite run_step by done. exact E.
  - split; [|done]. rewrite run_step in E1 by done. exact E1.
Qed.
(** A run of a sequence: the second part goes on where the first left the schedule. *)
Lemma run_bind_drop {W A B : Type} (p : prog W A) (f : A -> prog W B) es w o w' : run (bind p f) es w = (o, w') ->
  (run p es w = (None, w') /\ o = None) \/
  exists a w1 k, run p es w = (Some a, w1) /\ run (f a) (drop k es) w1 = (o, w').
Proof.
  revert es w. induction p as [a|R step alts k IH]; intros es w; [intros E; right; by exists a, w, O|].
  cbn. destruct es as [|[|n|] es]; [..|by intros [= <- <-]; left].
  - destruct (step w) as [r w1]. intros [[E Ho]|(a & w2 & j & E1 & E2)]%IH; [by left|]. rewrite drop_nil in E2. right. by exists a, w2, O.
  - cbn. destruct (step w) as [r w1]. intros [[E Ho]|(a & w2 & j & E1 & E2)]%IH; [by left|]. right. by exists a, w2, (S j).
  - destruct (outcome step alts (Alt n) w) as [r w1].
    intros [[E Ho]|(a & w2 & j & E1 & E2)]%IH; [by left|]. right. by exists a, w2, (S j).
Qed.

(** A part without effect on the schedule. *)
Lemma run_act {W R} (step : W -> R * W) alts es w o w' : run (act step alts) es w = (o, w') ->
  (o = None /\ w' = w) \/ exists r, o = Some r /\ (step w = (r, w') \/ exists f n, alts = Some f /\ f n w = (r, w')).
Proof.
  cbn. destruct es as [|[|n|] es]; cbn.
  - destruct (step w) as [r w1] eqn:E. intros [= <- <-]. right. exists r. by split; [|left].
  - destruct (step w) as [r w1] eqn:E. intros [= <- <-]. right. exists r. by split; [|left].
  - destruct alts as [f|].
    + destruct (f n w) as [r w1] eqn:E. intros [= <- <-]. right. exists r. split; [done|]. right. by exists f, n.
    + destruct (step w) as [r w1] eqn:E. intros [= <- <-]. right. exists r. by split; [|left].
  - intros [= <- <-]. by left.
Qed.

(** A run on a part of the world is a run. *)
Lemma run_lift {W V A} (get : W -> V) (set : V -> W -> W) (p : prog V A) es w :
  (forall v w, get (set v w) = v) -> (forall v v' w, set v (set v' w) = set v w) -> (forall w, set (get w) w = w) ->
  run (lift get set p) es w = let '(o, v) := run p es (get w) in (o, set v w).
Proof.
  intros Hgs Hss Hsg. revert es w. induction p as [a|R step alts k IH]; intros es w; cbn; [by rewrite Hsg|].
  unfold lift_step. destruct es as [|[|n|] es]; [..|by rewrite Hsg].
  - destruct (step (get w)) as [r v]. rewrite IH, Hgs. destruct (run (k r) [] v). by rewrite Hss.
  - cbn. destruct (step (get w)) as [r v]. rewrite IH, Hgs. destruct (run (k r) es v). by rewrite Hss.
  - destruct alts as [f|]; cbn.
    + destruct (f n (get w)) as [r v]. rewrite IH, Hgs. destruct (run (k r) es v). by rewrite Hss.
    + destruct (step (get w)) as [r v]. rewrite IH, Hgs. destruct (run (k r) es v). by rewrite Hss.
Qed.
Lemma run_map {W A B} (p : prog W A) (f : A -> B) es w :
  run (bind p (fun a => Ret (f a))) es w = let '(o, w') := run p es w in (f <$> o, w').
Proof.
  revert es w. induction p as [a|R step alts k IH]; intros es w; cbn; [done|].
  destruct es as [|[|n|] es]; cbn; [..|done]; case_match; apply IH.
Qed.

(** What holds after every run holds of the program. *)
Lemma wp_of_runs {W A} (p : prog W A) (Q : A -> W -> Prop) w :
  (forall es a w', run p es w = (Some a, w') -> Q a w') -> wp (fun _ => True) p Q w.
Proof.
  revert w. induction p as [a|R step alts k IH]; intros w H; cbn; [by apply (H [] a w)|]. split.
  - destruct (step w) as [r w'] eqn:E. split; [done|]. apply IH. intros es a w2 Hr. apply (H (Fine :: es) a w2). cbn. by rewrite E.
  - destruct alts as [f|]; [|done]. intros n. destruct (f n w) as [r w'] eqn:E. split; [done|].
    apply IH. intros es a w2 Hr. apply (H (Alt n :: es) a w2). cbn. by rewrite E.
Qed.
