(* ===== verification/Schema.v ===== *)
(** * Opening the database: internal/store/sqlite/schema.go and migrate of store.go

    The engine as far as these calls use it: a file has tables and indexes, known by name,
    and the rows of schema_migrations.  CREATE fails when the name is taken, a version can be
    inserted once, and a transaction takes effect when its commit does or not at all. *)
From Stdlib Require Import Sorting.Sorted.
From S2P Require Import Prelude GoStrings Prog.
Local Open Scope prog_scope.

Record migration := mkMigration { m_Version : Z; m_SQL : string }.
Definition migrations : list migration := [mkMigration 1 "
CREATE TABLE transfers (
    id                    TEXT PRIMARY KEY,
    code                  TEXT UNIQUE,
    state                 TEXT NOT NULL,
    sender_label          TEXT,
    created_at            INTEGER NOT NULL,
    committed_at          INTEGER,
    expires_at            INTEGER,
    requested_ttl_minutes INTEGER NOT NULL,
    note                  TEXT,
    manifest_digest       TEXT,
    wire_bytes            INTEGER NOT NULL DEFAULT 0,
    materialized_bytes    INTEGER NOT NULL DEFAULT 0,
    reserved_bytes        INTEGER NOT NULL DEFAULT 0,
    root_path             TEXT NOT NULL,
    last_error_code       TEXT
);
CREATE INDEX idx_transfers_state ON transfers(state);
CREATE INDEX idx_transfers_expires ON transfers(expires_at);

CREATE TABLE segments (
    -- Segment identifiers are chosen by the client and are only unique inside
    -- one transfer, so the primary key is the pair.
    id                    TEXT NOT NULL,
    transfer_id           TEXT NOT NULL REFERENCES transfers(id) ON DELETE CASCADE,
    upload_id             TEXT UNIQUE,
    kind                  TEXT NOT NULL,
    expected_length       INTEGER NOT NULL,
    received_length       INTEGER NOT NULL DEFAULT 0,
    digest_algorithm      TEXT NOT NULL,
    expected_digest       TEXT,
    state                 TEXT NOT NULL,
    relative_storage_path TEXT NOT NULL,
    PRIMARY KEY (transfer_id, id)
);
CREATE INDEX idx_segments_transfer ON segments(transfer_id);

CREATE TABLE claims (
    id           TEXT PRIMARY KEY,
    transfer_id  TEXT NOT NULL REFERENCES transfers(id) ON DELETE CASCADE,
    kind         TEXT NOT NULL,
    created_at   INTEGER NOT NULL,
    lease_until  INTEGER NOT NULL,
    completed_at INTEGER,
    token_hash   TEXT
);
CREATE INDEX idx_claims_transfer ON claims(transfer_id);
CREATE INDEX idx_claims_lease ON claims(lease_until);

CREATE TABLE idempotency_keys (
    key_hash            TEXT PRIMARY KEY,
    operation           TEXT NOT NULL,
    transfer_id         TEXT,
    response_code       TEXT,
    created_at          INTEGER NOT NULL,
    expires_at          INTEGER NOT NULL,
    request_fingerprint TEXT
);
CREATE INDEX idx_idempotency_expires ON idempotency_keys(expires_at);
"].

(** [versions] is [None] while schema_migrations is missing. *)
Record dbfile := mkFile { versions : option (list Z); objects : list string }.
Definition no_file : dbfile := mkFile None [].

(** ** Statements *)

Definition sql_space (a : ascii) : bool := is_space (byte_val a).
Fixpoint skip_space (s : string) : string :=
  match s with String a t => if sql_space a then skip_space t else s | EmptyString => EmptyString end.
(** The word at the beginning of a text, and what follows. *)
Fixpoint cut_word (s : string) : string * string :=
  match s with
  | String a t => if sql_space a || (a =? "(")%char then (EmptyString, s) else let '(w, r) := cut_word t in (String a w, r)
  | EmptyString => (EmptyString, EmptyString)
  end.
Definition next_word (s : string) : string * string := cut_word (skip_space s).
(** The name that CREATE TABLE or CREATE INDEX introduces; nothing else is executed here. *)
Definition created_name (stmt : string) : option string :=
  let '(verb, s) := next_word stmt in
  let '(kind, s) := next_word s in
  let '(name, _) := next_word s in
  if (verb =? "CREATE")%string && ((kind =? "TABLE")%string || (kind =? "INDEX")%string) && negb (name =? "")%string then Some name else None.
Definition exec_stmt (tx : dbfile) (stmt : string) : option dbfile :=
  name ← created_name stmt; if bool_decide (name ∈ objects tx) then None else Some (mkFile (versions tx) (objects tx ++ [name])).
Definition splitStatements (script : string) : list string :=
  List.filter (fun p => negb (TrimSpace p =? "")%string) (split ";" script).

(** ** Calls of database/sql *)

Definition sql_query {A : Type} (q : dbfile -> A) : prog dbfile (unit + A) :=
  act (fun f => (inr (q f), f)) (Some (fun _ f => (inl tt, f))).
(** A call that writes; an error may be reported whether or not it was applied. *)
Definition sql_write (g : dbfile -> dbfile) : prog dbfile (unit + unit) :=
  act (fun f => (inr tt, g f)) (Some (fun n f => (inl tt, match n with O => f | _ => g f end))).
(** A statement in a transaction, which only the transaction sees. *)
Definition ExecContext (tx : dbfile) (stmt : string) : prog dbfile (unit + dbfile) :=
  act (fun f => (match exec_stmt tx stmt with Some tx => inr tx | None => inl tt end, f)) (Some (fun _ f => (inl tt, f))).
Definition insert_version (v : Z) (tx : dbfile) : prog dbfile (unit + dbfile) :=
  act (fun f => (match versions tx with
                 | Some vs => if bool_decide (v ∈ vs) then inl tt else inr (mkFile (Some (vs ++ [v])) (objects tx))
                 | None => inl tt
                 end, f)) (Some (fun _ f => (inl tt, f))).

(** SELECT COALESCE(MAX(version), 0) *)
Definition current_version (f : dbfile) : Z :=
  match default [] (versions f) with [] => 0 | v :: vs => fold_left Z.max vs v end.
Definition with_versions (f : dbfile) : dbfile := mkFile (Some (default [] (versions f))) (objects f).

Definition migrate_one (m : migration) : prog dbfile (unit + unit) :=
  tx <-? sql_query id ;;
  tx <-? loop ExecContext tx (splitStatements (m_SQL m)) ;;
  tx <-? insert_version (m_Version m) tx ;;
  sql_write (fun _ => tx).
Definition migrate (ms : list migration) : prog dbfile (unit + unit) :=
  _ <-? sql_write with_versions ;;
  current <-? sql_query current_version ;;
  loop (fun _ m => if (m_Version m <=? current)%Z then Ret (inr tt) else migrate_one m) tt ms.

(** Open: the directory, the handle, the migrations.  Nothing stays when a step fails. *)
Definition store_Open (ms : list migration) : prog dbfile (unit + unit) :=
  _ <-? sql_query (fun _ => tt) ;;
  _ <-? sql_query (fun _ => tt) ;;
  migrate ms.

(** ** Every release can be reached from every earlier one *)

Section opening.
Context (ms : list migration).

Definition names_of (m : migration) : list string := omap created_name (splitStatements (m_SQL m)).
(** Versions ascend from 1 on; every statement creates something, and nothing twice. *)
Definition migrations_ok : Prop :=
  StronglySorted Z.lt (0%Z :: map m_Version ms) /\
  Forall (fun m => Forall (fun s => is_Some (created_name s)) (splitStatements (m_SQL m))) ms /\
  NoDup (concat (map names_of ms)).

(** The first [k] migrations are in the file, wholly, and nothing else. *)
Definition stands (k : nat) (f : dbfile) : Prop :=
  versions f = Some (map m_Version (take k ms)) /\ objects f = concat (map names_of (take k ms)).
Definition at_release (f : dbfile) : Prop :=
  f = no_file \/ exists k, (k <= length ms)%nat /\ stands k f.
Definition complete (f : dbfile) : Prop := stands (length ms) f.

Context (Hok : migrations_ok).

Lemma sorted_lookup (l : list Z) i j a b : StronglySorted Z.lt l -> l !! i = Some a -> l !! j = Some b -> (i < j)%nat -> (a < b)%Z.
Proof.
  intros Hs. revert i j. induction Hs as [|x l Hs IH Hx]; intros i j Hi Hj Hij; [done|].
  destruct j as [|j]; [lia|]. destruct i as [|i]; cbn in *; [|eapply (IH i j); [done..|lia]].
  injection Hi as <-. rewrite Forall_forall in Hx. apply Hx. by eapply list_elem_of_lookup_2.
Qed.
Lemma versions_sorted i j m m' : ms !! i = Some m -> ms !! j = Some m' -> (i < j)%nat -> (m_Version m < m_Version m')%Z.
Proof.
  destruct Hok as (Hs & _). apply StronglySorted_inv in Hs as [Hs _]. intros Hi Hj.
  apply (sorted_lookup _ _ _ _ _ Hs); by rewrite list_lookup_fmap, ?Hi, ?Hj.
Qed.
Lemma versions_positive i m : ms !! i = Some m -> (0 < m_Version m)%Z.
Proof.
  destruct Hok as (Hs & _). apply StronglySorted_inv in Hs as [_ Hs]. intros Hi.
  rewrite Forall_forall in Hs. apply Hs, list_elem_of_fmap. exists m. split; [done|]. by eapply list_elem_of_lookup_2.
Qed.

Lemma fold_max_spec (vs : list Z) v : fold_left Z.max vs v ∈ v :: vs /\ Forall (fun x => (x <= fold_left Z.max vs v)%Z) (v :: vs).
Proof.
  revert v. induction vs as [|x vs IH]; intros v; cbn; [split; [by left|by repeat constructor]|].
  destruct (IH (v `max` x)%Z) as [H1 H2]. apply Forall_cons in H2 as [H2 H3]. split.
  - apply elem_of_cons in H1 as [->|H1]; [|by do 2 right]. destruct (Z.max_spec v x) as [[_ ->]|[_ ->]]; [right|]; by left.
  - by repeat constructor; [lia..|].
Qed.
(** The current version tells the migrations that were applied from those that were not. *)
Lemma current_applied k f i m : stands k f -> (k <= length ms)%nat -> ms !! i = Some m ->
  (m_Version m <=? current_version f)%Z = bool_decide (i < k)%nat.
Proof.
  intros [Hv _] Hk Hi. unfold current_version. rewrite Hv. cbn [default].
  destruct (map m_Version (take k ms)) as [|v vs] eqn:E.
  - apply (f_equal length) in E. rewrite length_map, length_take in E. cbn in E. assert (k = O) as -> by lia.
    pose proof (versions_positive i m Hi). rewrite bool_decide_eq_false_2 by lia. by apply Z.leb_gt.
  - destruct (fold_max_spec vs v) as [H1 H2]. rewrite <- E in H1, H2. case_bool_decide as Hik.
    + apply Z.leb_le. rewrite Forall_forall in H2. change (m_Version m <= fold_left Z.max vs v)%Z. apply H2, list_elem_of_fmap. exists m. split; [done|].
      apply (list_elem_of_lookup_2 _ i), lookup_take_Some. by split.
    + apply Z.leb_gt. change (fold_left Z.max vs v < m_Version m)%Z. apply list_elem_of_fmap in H1 as (m' & -> & (j & Hj)%list_elem_of_lookup_1).
      apply lookup_take_Some in Hj as [Hj Hjk]. apply (versions_sorted j i); [done..|lia].
Qed.

Lemma exec_loop_wp (I : dbfile -> Prop) stmts tx (Q : unit + dbfile -> dbfile -> Prop) f : I f -> Q (inl tt) f ->
  (forall tx', versions tx' = versions tx -> objects tx' = (objects tx ++ omap created_name stmts)%list -> Q (inr tx') f) ->
  wp I (loop ExecContext tx stmts) Q f.
Proof.
  intros Hf He. revert tx. induction stmts as [|s stmts IH]; intros tx Hq; cbn [loop]; [apply Hq; [done|by rewrite app_nil_r]|].
  apply wp_bindE, wp_act. intros r f' Hr. assert (f' = f /\ (r = inl tt \/ exists tx', r = inr tx' /\ exec_stmt tx s = Some tx')) as [-> Hr'].
  { destruct Hr as [E|(g & n & [= <-] & E)]; injection E as <- <-; (split; [done|]); [|by left].
    destruct (exec_stmt tx s) as [tx'|]; [right; by exists tx'|by left]. }
  split; [done|]. destruct Hr' as [->|(tx' & -> & E)]; [done|]. apply IH. unfold exec_stmt in E.
  destruct (created_name s) as [name|] eqn:En; [|done]. cbn in E. case_bool_decide; [done|]. injection E as <-.
  intros tx' Hv Ho. apply Hq; [done|]. cbn in Ho |- *. by rewrite Ho, En, <- app_assoc.
Qed.
Lemma exec_query {A : Type} (q : dbfile -> A) f : exec (sql_query q) f = (inr (q f), f).
Proof. done. Qed.
Lemma exec_loop_done stmts tx f : Forall (fun s => is_Some (created_name s)) stmts -> NoDup (objects tx ++ omap created_name stmts)%list ->
  exec (loop ExecContext tx stmts) f = (inr (mkFile (versions tx) (objects tx ++ omap created_name stmts)), f).
Proof.
  intros Hs. revert tx. induction Hs as [|s stmts [name Hn] _ IH]; intros tx Hd; cbn [loop].
  - destruct tx as [vs os]. cbn. by rewrite app_nil_r.
  - rewrite exec_bindE. cbn. unfold exec_stmt. rewrite Hn. cbn. cbn in Hd. rewrite Hn in Hd.
    rewrite bool_decide_eq_false_2; [|intros Hin; apply NoDup_app in Hd as (_ & Hd & _); apply (Hd name Hin); by left].
    rewrite IH; cbn; rewrite <- app_assoc; [done|exact Hd].
Qed.

Lemma names_take k m : ms !! k = Some m -> concat (map names_of (take (S k) ms)) = (concat (map names_of (take k ms)) ++ names_of m)%list.
Proof. intros Hm. rewrite (take_S_r _ _ _ Hm), map_app, concat_app. cbn. by rewrite app_nil_r. Qed.
Lemma stands_next k m f tx : stands k f -> ms !! k = Some m -> versions tx = Some (default [] (versions f) ++ [m_Version m])%list ->
  objects tx = (objects f ++ names_of m)%list -> stands (S k) tx.
Proof.
  intros [Hv Ho] Hm Hv' Ho'. split.
  - by rewrite Hv', Hv, (take_S_r _ _ _ Hm), map_app.
  - by rewrite Ho', Ho, (names_take k m Hm).
Qed.
Lemma at_release_stands k f : (k <= length ms)%nat -> stands k f -> at_release f.
Proof. intros Hk Hf. right. by exists k. Qed.

Lemma sql_query_wp {A : Type} (q : dbfile -> A) (I : dbfile -> Prop) (Q : unit + A -> dbfile -> Prop) f :
  I f -> Q (inl tt) f -> Q (inr (q f)) f -> wp I (sql_query q) Q f.
Proof. intros. by cbn. Qed.
Lemma insert_wp v tx (I : dbfile -> Prop) (Q : unit + dbfile -> dbfile -> Prop) f : I f -> Q (inl tt) f ->
  (forall tx', versions tx' = Some (default [] (versions tx) ++ [v])%list -> objects tx' = objects tx -> Q (inr tx') f) ->
  wp I (insert_version v tx) Q f.
Proof. intros HI He Hq. cbn. split; [|done]. split; [done|]. destruct (versions tx) as [vs|]; [|done]. case_bool_decide; [done|]. by apply Hq. Qed.

Lemma migrate_one_wp k m f : stands k f -> ms !! k = Some m ->
  wp at_release (migrate_one m) (fun r f' => match r with inl _ => at_release f' | inr _ => stands (S k) f' end) f.
Proof.
  intros Hf Hm. pose proof (lookup_lt_Some _ _ _ Hm) as Hk. assert (Hr : at_release f) by (apply (at_release_stands k); [lia|done]).
  apply wp_bindE, sql_query_wp; [done..|]. change (id f) with f.
  apply wp_bindE, exec_loop_wp; [done..|]. intros tx Hv Ho.
  apply wp_bindE, insert_wp; [done..|]. intros tx2 Hv2 Ho2.
  assert (Htx : stands (S k) tx2) by (apply (stands_next k m f); [done|done|by rewrite Hv2, Hv, (proj1 Hf)|by rewrite Ho2]).
  apply wp_act. intros r f1 [E2|(g & n & [= <-] & E2)]; injection E2 as <- <-.
  - split; [by apply (at_release_stands (S k)); [lia|]|done].
  - assert (at_release tx2) by by apply (at_release_stands (S k)); [lia|]. by destruct n.
Qed.
Lemma migrate_one_done k m f : stands k f -> ms !! k = Some m -> fst (exec (migrate_one m) f) = inr tt.
Proof.
  intros [Hv Ho] Hm. destruct Hok as (_ & Hc & Hd). unfold migrate_one. rewrite exec_bindE, exec_query, exec_bindE. change (id f) with f.
  rewrite exec_loop_done.
  - rewrite exec_bindE. cbn [exec act insert_version versions]. rewrite Hv. rewrite bool_decide_eq_false_2; [done|].
    intros (m' & E & (j & Hj)%list_elem_of_lookup_1)%list_elem_of_fmap. apply lookup_take_Some in Hj as [Hj Hjk].
    pose proof (versions_sorted j k m' m Hj Hm Hjk). lia.
  - rewrite Forall_forall in Hc. apply Hc. by eapply list_elem_of_lookup_2.
  - rewrite Ho. fold (names_of m). rewrite <- (names_take k m Hm).
    rewrite <- (take_drop (S k) ms), map_app, concat_app in Hd. by apply NoDup_app in Hd as [Hd _].
Qed.

Lemma migrate_all_wp current k0 : (k0 <= length ms)%nat -> (forall i m, ms !! i = Some m -> (m_Version m <=? current)%Z = bool_decide (i < k0)%nat) ->
  forall rest i f, rest = drop i ms -> (i <= length ms)%nat -> stands (i `max` k0) f ->
  wp at_release (loop (fun _ m => if (m_Version m <=? current)%Z then Ret (inr tt) else migrate_one m) tt rest)
    (fun r f' => match r with inl _ => at_release f' | inr _ => complete f' end) f /\
  fst (exec (loop (fun _ m => if (m_Version m <=? current)%Z then Ret (inr tt) else migrate_one m) tt rest) f) = inr tt.
Proof.
  intros Hk0 Hcur rest. induction rest as [|m rest IH]; intros i f Hrest Hi Hf.
  - cbn. split; [|done]. apply (f_equal length) in Hrest. rewrite length_drop in Hrest. cbn in Hrest.
    unfold complete. by replace (length ms) with (i `max` k0)%nat by lia.
  - assert (Hm : ms !! i = Some m) by (rewrite <- (Nat.add_0_r i), <- lookup_drop, <- Hrest; done).
    pose proof (lookup_lt_Some _ _ _ Hm) as Hlt.
    assert (Hrest' : rest = drop (S i) ms) by (rewrite <- Nat.add_1_r, <- drop_drop, <- Hrest; done).
    cbn [loop]. rewrite (Hcur i m Hm). case_bool_decide as Hik.
    + cbn [bindE bind]. apply (IH (S i)); [done|lia|]. by replace (S i `max` k0)%nat with (i `max` k0)%nat by lia.
    + replace (i `max` k0)%nat with i in Hf by lia. split.
      * apply wp_bindE. eapply wp_wand; [by apply (migrate_one_wp i)|]. intros [[]|[]] f' Hf'; [done|].
        apply (IH (S i)); [done|lia|]. by replace (S i `max` k0)%nat with (S i) by lia.
      * rewrite exec_bindE. pose proof (migrate_one_done i m f Hf Hm) as Hdone.
        pose proof (wp_sound at_release _ _ [] f (at_release_stands i f ltac:(lia) Hf) (migrate_one_wp i m f Hf Hm)) as [_ Hn].
        rewrite run_nil in Hn. cbn [fst snd] in Hn. destruct (exec (migrate_one m) f) as [r f']. cbn in Hdone, Hn. subst r.
        apply (IH (S i)); [done|lia|]. specialize (Hn _ eq_refl). cbn in Hn. by replace (S i `max` k0)%nat with (S i) by lia.
Qed.

Lemma with_versions_stands f : at_release f -> exists k, (k <= length ms)%nat /\ stands k (with_versions f).
Proof.
  intros [->|(k & Hk & Hf)]; [exists O; split; [lia|done]|]. exists k. split; [done|]. destruct Hf as [Hv Ho]. split; cbn; by rewrite ?Hv.
Qed.

Lemma store_Open_wp f : at_release f ->
  wp at_release (store_Open ms) (fun r f' => match r with inl _ => at_release f' | inr _ => complete f' end) f /\
  fst (exec (store_Open ms) f) = inr tt.
Proof.
  intros Hf. destruct (with_versions_stands f Hf) as (k & Hk & Hs). pose proof (at_release_stands k _ Hk Hs) as Hr.
  destruct (migrate_all_wp (current_version (with_versions f)) k Hk (fun i m => current_applied k _ i m Hs Hk) ms 0 (with_versions f)
    eq_refl ltac:(lia) Hs) as [H1 H2]. split.
  - do 2 (apply wp_bindE, sql_query_wp; [done..|]). apply wp_bindE, wp_act. intros r f1 [E|(g & n & [= <-] & E)]; injection E as <- <-.
    + split; [done|]. apply wp_bindE, sql_query_wp; [done..|exact H1].
    + by destruct n.
  - unfold store_Open, migrate. do 2 rewrite exec_bindE, exec_query. rewrite exec_bindE. change (exec (sql_write with_versions) f) with (inr (A := unit) tt, with_versions f). cbv iota beta. by rewrite exec_bindE, exec_query.
Qed.

(** C23: the database can always be opened, and the schema is never half there.  Take any
    list of migrations with ascending versions whose statements create different things
    (the released list is one), and a file at any earlier release or a missing one; open
    it, with any error at any call, and stop anywhere.  Then the file is at some release:
    the first of the migrations applied wholly, each once, and recorded.  When Open answered
    a store, all were; and opening the file again without an error answers one. *)
Theorem migrations_resumable es f : at_release f ->
  let '(r, f') := run (store_Open ms) es f in
  at_release f' /\ (r = Some (inr tt) -> complete f') /\
  exists f2, run (store_Open ms) [] f' = (Some (inr tt), f2) /\ complete f2.
Proof.
  intros Hf. destruct (wp_sound _ _ _ es f Hf (proj1 (store_Open_wp f Hf))) as [H1 H2].
  destruct (run (store_Open ms) es f) as [r f']. cbn [fst snd] in *. split; [done|]. split; [intros ->; exact (H2 _ eq_refl)|].
  destruct (store_Open_wp f' H1) as [H3 H4]. exists (snd (exec (store_Open ms) f')).
  pose proof (wp_sound _ _ _ [] f' H1 H3) as [_ H5]. rewrite run_nil, H4 in *. split; [done|]. exact (H5 _ eq_refl).
Qed.
End opening.

Lemma released_ok : migrations_ok migrations.
Proof.
  unfold migrations_ok. split; [repeat constructor|]. split.
  - apply Forall_cons_2; [|apply Forall_nil_2]. apply Forall_forall. intros s Hs.
    assert (H : forallb (fun s => match created_name s with Some _ => true | None => false end)
      (splitStatements (m_SQL (nth 0 migrations (mkMigration 0 "")))) = true) by (vm_compute; reflexivity).
    rewrite forallb_forall in H. specialize (H s). cbn [nth migrations] in H. apply list_elem_of_In in Hs. specialize (H Hs).
    by destruct (created_name s).
  - apply (bool_decide_unpack _). vm_compute. exact I.
Qed.
(** The first opening is stopped in the middle of its transaction. *)
Lemma migrations_resumable_witness : exists f2, run (store_Open migrations) [] (mkFile (Some []) []) = (Some (inr tt), f2) /\ complete migrations f2.
Proof.
  assert (H0 : at_release migrations no_file) by (left; reflexivity).
  pose proof (migrations_resumable migrations released_ok (repeat Fine 8 ++ [Crash]) no_file H0) as H.
  assert (E : run (store_Open migrations) (repeat Fine 8 ++ [Crash]) no_file = (None, mkFile (Some []) [])) by (vm_compute; reflexivity).
  rewrite E in H. destruct H as (_ & _ & H). exact H.
Defined.
