(* ===== verification/Tree.v ===== *)
(** * Directory trees and the file operations of internal/platform/fs.go

    One transfer directory is a finite map from paths relative to it to nodes; the
    directory itself is the path [[]].  No operation of the program creates a symbolic
    link, so there is none.  The calls of package os are [prog]s over one tree: their
    normal outcome is POSIX's, the alternative ones an error, possibly after part of the
    effect. *)
From S2P Require Import Prelude GoStrings Prog.
Local Open Scope prog_scope.

Definition path := list string.
#[export] Instance path_eq_dec : EqDecision path := _.
#[export] Instance path_countable : Countable path := _.

(** A modification time is known once Chtimes set it and nothing touched the node after. *)
Inductive node :=
| NDir (mode : Z) (mtime : option Z)
| NFile (data : string) (mode : Z) (mtime : option Z).

#[export] Instance node_eq_dec : EqDecision node.
Proof. solve_decision. Defined.

Notation tree := (@gmap path path_eq_dec path_countable node).

Inductive oserr := ErrNotExist | ErrExist | ErrOther.

Definition parent (p : path) : path := removelast p.
Fixpoint prefixes (p : path) : list path :=
  [] :: match p with [] => [] | x :: p => map (cons x) (prefixes p) end.

Definition is_ndir (n : node) : bool := match n with NDir _ _ => true | _ => false end.
Definition is_dir_at (t : tree) (p : path) : bool :=
  match t !! p with Some n => is_ndir n | None => false end.

(** A directory whose entries change gets a new modification time. *)
Definition touch (q : path) (t : tree) : tree :=
  alter (fun n => match n with NDir m _ => NDir m None | f => f end) q t.
Definition add_node (p : path) (n : node) (t : tree) : tree := touch (parent p) (<[p := n]> t).
Definition del_node (p : path) (t : tree) : tree := touch (parent p) (delete p t).

(** Byte strings *)
Definition stake (n : Z) (s : string) : string := String.substring 0 (Z.to_nat n) s.
Definition sdrop (n : Z) (s : string) : string :=
  String.substring (Z.to_nat n) (String.length s - Z.to_nat n) s.
Fixpoint zeros (n : nat) : string :=
  match n with O => EmptyString | S n => String (ascii_of_nat 0) (zeros n) end.
Definition truncate (n : Z) (s : string) : string :=
  String.append (stake n s) (zeros (Z.to_nat (n - slen s))).
Definition write_at (off : Z) (d s : string) : string :=
  String.append (truncate off s) (String.append d (sdrop (off + slen d) s)).

(** The names in a directory. *)
Definition child_of (p q : path) : option string :=
  match rev q with
  | x :: r => if decide (rev r = p) then Some x else None
  | [] => None
  end.
Definition children (t : tree) (p : path) : list string :=
  omap (fun '(q, _) => child_of p q) (map_to_list t).

(** ** Package os *)

Definition failing {R : Type} (f : tree -> tree) : option (nat -> tree -> (oserr + R) * tree) :=
  Some (fun _ t => (inl ErrOther, f t)).

(** The error may come before or after the effect. *)
Definition maybe_done {R S : Type} (step : tree -> S * tree) : option (nat -> tree -> (oserr + R) * tree) :=
  Some (fun n t => (inl ErrOther, match n with O => t | _ => snd (step t) end)).

Fixpoint mkdirs (mode : Z) (qs : list path) (t : tree) : (oserr + unit) * tree :=
  match qs with
  | [] => (inr tt, t)
  | q :: qs =>
    match t !! q with
    | None => mkdirs mode qs (add_node q (NDir mode None) t)
    | Some (NDir _ _) => mkdirs mode qs t
    | Some (NFile _ _ _) => (inl ErrOther, t)
    end
  end.

Definition MkdirAll (p : path) (mode : Z) : prog tree (oserr + unit) :=
  act (mkdirs mode (prefixes p))
      (Some (fun n t => (inl ErrOther, snd (mkdirs mode (take n (prefixes p)) t)))).

Definition Stat (p : path) : prog tree (oserr + node) :=
  act (fun t => (match t !! p with Some n => inr n | None => inl ErrNotExist end, t)) (failing (fun t => t)).

Definition create (excl : bool) (p : path) (mode : Z) (t : tree) : (oserr + unit) * tree :=
  match t !! p with
  | Some (NFile _ _ _) => if excl then (inl ErrExist, t) else (inr tt, t)
  | Some (NDir _ _) => (inl (if excl then ErrExist else ErrOther), t)
  | None => if is_dir_at t (parent p) then (inr tt, add_node p (NFile "" mode None) t)
            else (inl ErrNotExist, t)
  end.

(** os.OpenFile with O_CREATE|O_WRONLY and, when [excl], O_EXCL *)
Definition OpenFile (excl : bool) (p : path) (mode : Z) : prog tree (oserr + unit) :=
  act (create excl p mode) (failing (fun t => t)).

Definition edit (p : path) (f : string -> string) (t : tree) : tree :=
  alter (fun n => match n with NFile d m _ => NFile (f d) m None | n => n end) p t.

Definition Truncate (p : path) (n : Z) : prog tree (oserr + unit) :=
  act (fun t => (inr tt, edit p (truncate n) t)) (failing (fun t => t)).

(** f.Write at file offset [off]: an error may follow a short write. *)
Definition WriteAt (p : path) (off : Z) (d : string) : prog tree (oserr + unit) :=
  act (fun t => (inr tt, edit p (write_at off d) t))
      (Some (fun n t => (inl ErrOther, edit p (write_at off (stake (Z.of_nat n) d)) t))).

(** f.Sync, f.Close, f.Seek and platform.SyncDir: only their error matters here. *)
Definition Sync : prog tree (oserr + unit) := act (fun t => (inr tt, t)) (failing (fun t => t)).

Definition rename (src dst : path) (t : tree) : (oserr + unit) * tree :=
  match t !! src with
  | None => (inl ErrNotExist, t)
  | Some (NDir _ _) => (inl ErrOther, t)
  | Some f =>
    if negb (is_dir_at t (parent dst)) then (inl ErrNotExist, t)
    else if is_dir_at t dst then (inl ErrExist, t)
    else (inr tt, add_node dst f (del_node src t))
  end.

(** os.Rename of a regular file (the only renames inside a transfer directory). *)
Definition Rename (src dst : path) : prog tree (oserr + unit) :=
  act (rename src dst) (failing (fun t => t)).

Definition set_mode (mode : Z) (n : node) : node :=
  match n with NDir _ mt => NDir mode mt | NFile d _ mt => NFile d mode mt end.
Definition set_mtime (ns : Z) (n : node) : node :=
  match n with NDir m _ => NDir m (Some ns) | NFile d m _ => NFile d m (Some ns) end.

Definition Chmod (p : path) (mode : Z) : prog tree (oserr + unit) :=
  act (fun t => match t !! p with
                | Some n => (inr tt, <[p := set_mode mode n]> t)
                | None => (inl ErrNotExist, t)
                end) (failing (fun t => t)).

Definition Chtimes (p : path) (ns : Z) : prog tree (oserr + unit) :=
  act (fun t => match t !! p with
                | Some n => (inr tt, <[p := set_mtime ns n]> t)
                | None => (inl ErrNotExist, t)
                end) (failing (fun t => t)).

Definition remove (p : path) (t : tree) : (oserr + unit) * tree :=
  match t !! p with
  | None => (inl ErrNotExist, t)
  | Some (NFile _ _ _) => (inr tt, del_node p t)
  | Some (NDir _ _) => match children t p with [] => (inr tt, del_node p t) | _ => (inl ErrOther, t) end
  end.

Definition Remove (p : path) : prog tree (oserr + unit) := act (remove p) (failing (fun t => t)).

Definition ReadFile (p : path) : prog tree (oserr + string) :=
  act (fun t => (match t !! p with
                 | Some (NFile d _ _) => inr d
                 | Some (NDir _ _) => inl ErrOther
                 | None => inl ErrNotExist
                 end, t)) (failing (fun t => t)).

(** ** internal/platform/fs.go *)

(** WriteFileSync: temporary file, fsync, rename, fsync of the directory.  [tmp] is the
    name os.CreateTemp found free. *)
Definition WriteFileSync (dir : path) (name tmp : string) (data : string) (perm : Z)
    : prog tree (oserr + unit) :=
  let t := (dir ++ [tmp])%list in
  _ <-? OpenFile true t 384 ;;
  r <- (_ <-? WriteAt t 0 data ;;
        _ <-? Sync ;;
        _ <-? Sync ;;
        _ <-? Chmod t perm ;;
        _ <-? Rename t (dir ++ [name])%list ;;
        Sync) ;;
  Remove t ;;;
  Ret r.

Definition ro (mode : Z) : Z := Z.land mode (Z.lnot 146).
Definition rw (mode : Z) : Z := Z.lor mode 128.

Definition in_tree (root p : path) : bool := bool_decide (root `prefix_of` p).

(** MakeTreeReadOnly: files lose their write bits, directories become 0555. *)
Definition read_only (n : node) : node :=
  match n with NDir _ mt => NDir 365 mt | NFile d m mt => NFile d (ro m) mt end.
Definition MakeTreeReadOnly (root : path) (t : tree) : tree :=
  map_imap (fun p n => Some (if in_tree root p then read_only n else n)) t.

(** MakeTreeWritable *)
Definition writable (n : node) : node :=
  match n with NDir _ mt => NDir 493 mt | NFile d m mt => NFile d (rw m) mt end.
Definition MakeTreeWritable (t : tree) : tree := fmap writable t.

(** SealPayload: every entry of the transfer directory, but not the directory itself. *)
Definition seal_entry (name : string) (t : tree) : tree :=
  match t !! [name] with
  | Some (NDir _ _) => MakeTreeReadOnly [name] t
  | Some (NFile d m mt) => <[[name] := NFile d (ro m) mt]> t
  | None => t
  end.
Definition SealPayload : prog tree (oserr + unit) :=
  names <-? act (fun t => (inr (children t []), t)) (failing (fun t => t)) ;;
  loop (fun _ name => act (fun t => (inr tt, seal_entry name t))
                          (maybe_done (fun t => (tt, seal_entry name t)))) tt names.

(** ** What a tree holds: directories and file contents, without modes and times *)

Inductive content := CDir | CFile (data : string).
Definition content_of (n : node) : content :=
  match n with NDir _ _ => CDir | NFile d _ _ => CFile d end.
Definition look (t : tree) (p : path) : option content := content_of <$> t !! p.

Lemma look_touch q t p : look (touch q t) p = look t p.
Proof.
  unfold look, touch. destruct (decide (q = p)) as [->|Hne].
  - rewrite lookup_alter_eq. destruct (t !! p) as [[]|] eqn:E; cbn; rewrite ?decide_True by done; cbn; done.
  - by rewrite lookup_alter_ne.
Qed.

Lemma look_add p n t q : look (add_node p n t) q = if decide (p = q) then Some (content_of n) else look t q.
Proof.
  unfold add_node. rewrite look_touch. unfold look. destruct (decide (p = q)) as [->|Hne].
  - by rewrite lookup_insert_eq.
  - by rewrite lookup_insert_ne.
Qed.

Lemma look_del p t q : look (del_node p t) q = if decide (p = q) then None else look t q.
Proof.
  unfold del_node. rewrite look_touch. unfold look. destruct (decide (p = q)) as [->|Hne].
  - by rewrite lookup_delete_eq.
  - by rewrite lookup_delete_ne.
Qed.

Lemma look_edit p f t q : look (edit p f t) q =
  match look t q with Some (CFile d) => if decide (p = q) then Some (CFile (f d)) else Some (CFile d) | c => c end.
Proof.
  unfold look, edit. destruct (decide (p = q)) as [->|Hne].
  - rewrite lookup_alter_eq. by destruct (t !! q) as [[]|].
  - rewrite lookup_alter_ne by done. by destruct (t !! q) as [[]|].
Qed.

Lemma is_dir_look t p : is_dir_at t p = true <-> look t p = Some CDir.
Proof. unfold is_dir_at, look. destruct (t !! p) as [[]|]; cbn; split; congruence. Qed.

Lemma look_insert_same (t : tree) p n n' q : t !! p = Some n -> content_of n' = content_of n ->
  look (<[p := n']> t) q = look t q.
Proof.
  intros Ht Hc. unfold look. destruct (decide (p = q)) as [->|Hne].
  - rewrite lookup_insert_eq. rewrite Ht. cbn. congruence.
  - by rewrite lookup_insert_ne.
Qed.

Lemma content_read_only n : content_of (read_only n) = content_of n.
Proof. by destruct n. Qed.
Lemma content_set_mode m n : content_of (set_mode m n) = content_of n.
Proof. by destruct n. Qed.
Lemma content_set_mtime m n : content_of (set_mtime m n) = content_of n.
Proof. by destruct n. Qed.

Lemma look_read_only root t q : look (MakeTreeReadOnly root t) q = look t q.
Proof.
  unfold look, MakeTreeReadOnly. rewrite map_lookup_imap. destruct (t !! q) as [n|]; cbn; [|done].
  destruct (in_tree root q); by rewrite ?content_read_only.
Qed.

Lemma look_seal_entry name t q : look (seal_entry name t) q = look t q.
Proof.
  unfold seal_entry. destruct (t !! [name]) as [[]|] eqn:E; [|by eapply look_insert_same|done].
  apply look_read_only.
Qed.

(** Trees that hold the same. *)
Definition same (t t' : tree) : Prop := forall q, look t q = look t' q.

#[export] Instance same_equiv : Equivalence same.
Proof.
  split; [intros ? ?; done|intros ? ? H q; by rewrite H|intros ? ? ? H1 H2 q; by rewrite H1, H2].
Qed.

#[export] Instance same_preorder : PreOrder same.
Proof. split; apply _. Qed.

(** Calls that change modes and times only. *)
Notation quiet := (within same).

Lemma quiet_failing_id {R : Type} (step : tree -> (oserr + R) * tree) :
  (forall t, same t (snd (step t))) -> quiet (act step (failing (fun t => t))).
Proof. intros Hs. apply within_act; [done|]. by intros f n t [= <-]. Qed.

Lemma quiet_Stat p : quiet (Stat p).
Proof. apply quiet_failing_id. done. Qed.
Lemma quiet_ReadFile p : quiet (ReadFile p).
Proof. apply quiet_failing_id. done. Qed.
Lemma quiet_Sync : quiet Sync.
Proof. apply quiet_failing_id. done. Qed.
Lemma quiet_Chmod p m : quiet (Chmod p m).
Proof.
  apply quiet_failing_id. intros t. destruct (t !! p) eqn:E; [|done]. cbn. intros q.
  symmetry. eapply look_insert_same; [done|apply content_set_mode].
Qed.
Lemma quiet_Chtimes p ns : quiet (Chtimes p ns).
Proof.
  apply quiet_failing_id. intros t. destruct (t !! p) eqn:E; [|done]. cbn. intros q.
  symmetry. eapply look_insert_same; [done|apply content_set_mtime].
Qed.
#[export] Hint Resolve quiet_Stat quiet_ReadFile quiet_Sync quiet_Chmod quiet_Chtimes : within.

Lemma quiet_SealPayload : quiet SealPayload.
Proof.
  unfold SealPayload. within_solve.
  apply within_act; [intros t q; cbn; by rewrite look_seal_entry|].
  intros f n t [= <-]. destruct n; [done|]. intros q. cbn. by rewrite look_seal_entry.
Qed.
#[export] Hint Resolve quiet_SealPayload : within.

(** ** What the other calls do to the contents *)

Lemma mkdirs_look mode qs t r t' : mkdirs mode qs t = (r, t') ->
  (forall q c, look t q = Some c -> look t' q = Some c) /\
  (forall q c, look t' q = Some c -> look t q = Some c \/ (c = CDir /\ q ∈ qs)) /\
  (r = inr tt -> forall q, q ∈ qs -> look t' q = Some CDir).
Proof.
  revert t. induction qs as [|q qs IH]; intros t; cbn.
  { intros [= <- <-]. split_and!; auto. by intros _ q ?%elem_of_nil. }
  destruct (t !! q) as [[m mt|d m mt]|] eqn:E.
  - intros H. destruct (IH _ H) as (H1 & H2 & H3). split_and!; [done| |].
    + intros q' c Hc. destruct (H2 q' c Hc) as [?|[? ?]]; [by left|]. right. split; [done|by right].
    + intros Hr q' [->|Hq]%elem_of_cons; [|auto]. apply H1. unfold look. by rewrite E.
  - intros [= <- <-]. split_and!; auto. done.
  - intros H. destruct (IH _ H) as (H1 & H2 & H3). split_and!.
    + intros q' c Hc. apply H1. rewrite look_add. destruct (decide (q = q')) as [->|]; [|done].
      unfold look in Hc. by rewrite E in Hc.
    + intros q' c Hc. destruct (H2 q' c Hc) as [Hl|[? ?]]; [|right; split; [done|by right]].
      rewrite look_add in Hl. destruct (decide (q = q')) as [->|]; [|by left].
      right. split; [by simplify_eq/=|by left].
    + intros Hr q' [->|Hq]%elem_of_cons; [|auto]. apply H1. rewrite look_add, decide_True; done.
Qed.

Lemma create_look excl p mode t r t' : create excl p mode t = (r, t') ->
  (forall q, q <> p -> look t' q = look t q) /\
  (look t p = None -> r = inr tt -> look t' p = Some (CFile "") /\ look t (parent p) = Some CDir) /\
  (excl = true -> r = inr tt -> look t p = None) /\
  (r <> inr tt \/ (exists d, look t p = Some (CFile d)) -> t' = t).
Proof.
  unfold create. destruct (t !! p) as [[m mt|d m mt]|] eqn:E; [|destruct excl|].
  - intros [= <- <-]. unfold look. rewrite E. split_and!; try done.
  - intros [= <- <-]. unfold look. rewrite E. by split_and!.
  - intros [= <- <-]. unfold look. rewrite E. by split_and!.
  - destruct (is_dir_at t (parent p)) eqn:Ep; intros [= <- <-].
    + apply is_dir_look in Ep. split_and!.
      * intros q Hq. by rewrite look_add, decide_False.
      * intros _ _. by rewrite look_add, decide_True.
      * intros _ _. unfold look. by rewrite E.
      * intros [?|[d Hd]]; [done|]. unfold look in Hd. by rewrite E in Hd.
    + by split_and!.
Qed.

Lemma rename_look src dst t r t' : rename src dst t = (r, t') -> src <> dst ->
  (r <> inr tt -> t' = t) /\
  (r = inr tt -> exists d, look t src = Some (CFile d) /\ look t' dst = Some (CFile d) /\
    look t (parent dst) = Some CDir /\ look t dst <> Some CDir /\ look t' src = None /\
    forall q, q <> src -> q <> dst -> look t' q = look t q).
Proof.
  unfold rename. intros H Hne. destruct (t !! src) as [[m mt|d m mt]|] eqn:E; simplify_eq; [done| |done].
  destruct (is_dir_at t (parent dst)) eqn:Ep; simplify_eq/=; [|done].
  destruct (is_dir_at t dst) eqn:Ed; simplify_eq/=; [done|]. split; [done|]. intros _.
  exists d. apply is_dir_look in Ep. split_and!; [unfold look; by rewrite E|by rewrite look_add, decide_True|done| | |].
  - rewrite <- is_dir_look. congruence.
  - rewrite look_add, decide_False by done. by rewrite look_del, decide_True.
  - intros q H1 H2. rewrite look_add, decide_False, look_del, decide_False; done.
Qed.

Lemma remove_look p t r t' : remove p t = (r, t') ->
  (forall q, q <> p -> look t' q = look t q).
Proof.
  unfold remove. intros H q Hq.
  assert (G : look (del_node p t) q = look t q) by (by rewrite look_del, decide_False).
  destruct (t !! p) as [[]|]; [destruct (children t p)| |]; by simplify_eq.
Qed.

Lemma prefixes_self p : p ∈ prefixes p.
Proof. induction p as [|x p IH]; cbn; [by left|]. right. by apply list_elem_of_fmap_2. Qed.
Lemma prefixes_nil p : [] ∈ prefixes p.
Proof. destruct p; by left. Qed.

(** Calls that only read. *)
Lemma wp_Stat (I : tree -> Prop) (p : path) (Q : oserr + node -> tree -> Prop) t : I t ->
  (forall r, match r with inr n => t !! p = Some n | inl _ => True end -> Q r t) -> wp I (Stat p) Q t.
Proof.
  intros HI HQ. apply wp_act. intros r t' [[= <- <-]|(f & n & [= <-] & [= <- <-])].
  - split; [done|]. apply HQ. by destruct (t !! p).
  - split; [done|]. by apply HQ.
Qed.
Lemma wp_ReadFile (I : tree -> Prop) (p : path) (Q : oserr + string -> tree -> Prop) t : I t ->
  (forall r, match r with inr d => look t p = Some (CFile d) | inl _ => True end -> Q r t) ->
  wp I (ReadFile p) Q t.
Proof.
  intros HI HQ. apply wp_act. intros r t' [[= <- <-]|(f & n & [= <-] & [= <- <-])].
  - split; [done|]. apply HQ. unfold look. by destruct (t !! p) as [[]|].
  - split; [done|]. by apply HQ.
Qed.
Lemma wp_Sync (I : tree -> Prop) (Q : oserr + unit -> tree -> Prop) t : I t ->
  (forall r, Q r t) -> wp I Sync Q t.
Proof.
  intros HI HQ. apply wp_act. by intros r t' [[= <- <-]|(f & n & [= <-] & [= <- <-])].
Qed.

Lemma wp_MkdirAll (I : tree -> Prop) (p : path) (mode : Z) (Q : oserr + unit -> tree -> Prop) (t : tree) :
  (forall r t', (forall q c, look t q = Some c -> look t' q = Some c) ->
    (r = inr tt -> look t' p = Some CDir) -> I t' /\ Q r t') ->
  wp I (MkdirAll p mode) Q t.
Proof.
  intros HQ. apply wp_act. intros r t' [E|(f & n & [= <-] & [= <- <-])].
  - destruct (mkdirs_look _ _ _ _ _ E) as (H1 & _ & H3). apply HQ; [done|]. intros Hr.
    apply H3; [done|apply prefixes_self].
  - apply HQ; [|done]. destruct (mkdirs mode (take n (prefixes p)) t) as [r' t'] eqn:E.
    by destruct (mkdirs_look _ _ _ _ _ E) as (H1 & _).
Qed.

Lemma wp_Rename (I : tree -> Prop) (src dst : path) (Q : oserr + unit -> tree -> Prop) (t : tree) :
  src <> dst -> I t -> (forall e, Q (inl e) t) ->
  (forall d t', look t src = Some (CFile d) -> look t dst <> Some CDir -> look t' dst = Some (CFile d) ->
    (forall q, q <> src -> q <> dst -> look t' q = look t q) -> look t' src = None ->
    look t (parent dst) = Some CDir -> I t' /\ Q (inr tt) t') ->
  wp I (Rename src dst) Q t.
Proof.
  intros Hne HI He HQ. apply wp_act. intros r t' [E|(f & n & [= <-] & [= <- <-])]; [|auto].
  destruct (rename_look _ _ _ _ _ E Hne) as [H1 H2]. destruct r as [e|[]].
  - rewrite H1 by done. auto.
  - destruct H2 as (d & ? & ? & ? & ? & ? & ?); [done|]. eauto.
Qed.
