(* ===== verification/Integrity.v ===== *)
(** * Digests and verification trees: internal/integrity, and the code of other projects
      the server calls *)
From S2P Require Import Prelude GoStrings GoTime Manifest Prog Tree.
Local Open Scope prog_scope.

(** One item of an archive stream: an entry with the bytes its reader delivers and whether
    the reader fails after them, or an unreadable header. *)
Inductive tar_item :=
| TarEntry (name : string) (size : Z) (regular : bool) (body : string) (body_fails : bool)
| TarUnreadable.

(** Third-party code: lukechampine.com/blake3 with its bao package, and the zstd decoder
    of klauspost/compress (under archive/tar's reader, whose items it determines).
    Nothing is assumed of the functions unless a theorem names a law.  [sha256] is the
    digest of crypto/sha256, [dir_size] what the file system reports as the size of a
    directory, which Go leaves system-dependent. *)
Class Externals := {
  blake3 : string -> list Z;
  bao_encode : string -> string * list Z;
  EncodedSize : Z -> Z;
  VerifyChunk : string -> string -> Z -> list Z -> bool;
  sha256 : string -> list Z;
  unpack : string -> list tar_item;
  dir_size : Z }.

(** What the code relies on: a BLAKE3-256 digest has 32 bytes, and the root of a bao tree is
    the digest of the same bytes (internal/integrity/outboard.go, "the root is exactly the
    BLAKE3-256 digest"). *)
Class ExternalsLaws `{Externals} := {
  blake3_bytes d : length (blake3 d) = 32%nat /\ Forall (fun b => 0 <= b < 256)%Z (blake3 d);
  bao_root d : snd (bao_encode d) = blake3 d }.

(** encoding/json for manifests: the two encoders, which fail on a year JSON cannot carry,
    and the decoder.  [ManifestCodecLaws] is what the server relies on: a manifest that can
    be represented is read back unchanged. *)
Class ManifestCodec := {
  json_Marshal : Manifest -> option string;
  json_MarshalIndent : Manifest -> option string;
  json_Unmarshal : string -> option Manifest }.

(** UTF-8 strings and numbers in the range of their Go types. *)
Definition json_ok (m : Manifest) : Prop :=
  in_int64 (SchemaVersion m) /\ valid_utf8 (TransferID m) = true /\
  valid_utf8 (Note m) = true /\ Forall (fun r => valid_utf8 r = true) (Roots m) /\
  valid_utf8 (m_DigestAlgorithm m) = true /\
  Forall (fun s => valid_utf8 (seg_ID s) = true /\ valid_utf8 (seg_Kind s) = true /\
    in_int64 (seg_WireSize s) /\ valid_utf8 (seg_Digest s) = true /\
    valid_utf8 (seg_StoragePath s) = true) (Segments m) /\
  Forall (fun e => valid_utf8 (e_Path e) = true /\ valid_utf8 (e_Type e) = true /\
    in_int64 (e_Size e) /\ in_int64 (e_MTimeUnixNS e) /\ (0 <= e_Mode e < 2^32)%Z /\
    valid_utf8 (e_Digest e) = true /\ valid_utf8 (e_SegmentID e) = true /\
    in_int64 (e_SegmentOffset e)) (Entries m).

Class ManifestCodecLaws `{ManifestCodec} := {
  MarshalIndent_Unmarshal m s : json_ok m -> json_MarshalIndent m = Some s ->
    json_Unmarshal (s ++ nl) = Some m }.

Section integrity.
Context `{Externals}.

(** HashBytes, and HashStream/Reader over everything read. *)
Definition HashBytes (b : string) : string := EncodeToString (blake3 b).

Definition HashFile (p : path) : prog tree (oserr + string * Z) :=
  d <-? ReadFile p ;; Ret (inr (HashBytes d, slen d)).

(** GroupLog, GroupSize and OutboardSize *)
Definition GroupLog : Z := 6.
Definition GroupSize : Z := 1024 * 2 ^ GroupLog.
Definition OutboardSize (dataLen : Z) : Z := EncodedSize dataLen.

(** OutboardFile: the digest and size of a file, its tree written next to it. *)
Definition OutboardFile (p outboardPath : path) : prog tree (oserr + string * Z) :=
  d <-? ReadFile p ;;
  let size := slen d in
  _ <-? OpenFile false outboardPath 384 ;;
  _ <-? Truncate outboardPath 0 ;;
  _ <-? Truncate outboardPath (OutboardSize size) ;;
  let '(tree, root) := bao_encode d in
  _ <-? WriteAt outboardPath 0 tree ;;
  _ <-? Sync ;;
  _ <-? Sync ;;
  Ret (inr (EncodeToString root, size)).

(** hex.DecodeString of a lowercase digest, as VerifyGroup uses it. *)
Definition hex_val (a : ascii) : option Z :=
  (let b := byte_val a in
   if (48 <=? b) && (b <=? 57) then Some (b - 48)
   else if (97 <=? b) && (b <=? 102) then Some (b - 87)
   else if (65 <=? b) && (b <=? 70) then Some (b - 55) else None)%Z.
Fixpoint DecodeString (s : string) : option (list Z) :=
  match s with
  | EmptyString => Some []
  | String a (String b s) =>
    match hex_val a, hex_val b, DecodeString s with
    | Some x, Some y, Some l => Some (16 * x + y :: l)%Z
    | _, _, _ => None
    end
  | String _ EmptyString => None
  end.

Definition VerifyGroup (data outboard : string) (offset : Z) (rootHex : string) : bool :=
  match DecodeString rootHex with
  | Some root => if negb (length root =? 32)%nat then false
                 else VerifyChunk data outboard (offset mod 2^64)%Z root
  | None => false
  end.
End integrity.
