(* ===== verification/GoUrl.v ===== *)
(** * net/url and net as the command line uses them

    url.Parse up to the scheme and the host, and the loopback test on textual addresses. *)
From S2P Require Import Prelude GoStrings Integrity.

Record url := mkUrl { u_Scheme : string; u_Host : string }.

Definition is_alpha (a : ascii) : bool := let b := byte_val (lower_byte a) in (97 <=? b) && (b <=? 122).
Definition is_digit_byte (a : ascii) : bool := match digit_val a with Some _ => true | None => false end.

(** getScheme: [None] is an error, [Some None] no scheme. *)
Fixpoint scan_scheme (first : bool) (s : string) : option (option (string * string)) :=
  match s with
  | EmptyString => Some None
  | String a s =>
    if is_alpha a then option_map (option_map (fun x => (String (lower_byte a) (fst x), snd x))) (scan_scheme false s) else
    if is_digit_byte a || existsb (Ascii.eqb a) ["+"; "-"; "."]%char then
      if first then Some None else option_map (option_map (fun x => (String a (fst x), snd x))) (scan_scheme false s) else
    if (a =? ":")%char then if first then None else Some (Some (""%string, s)) else Some None
  end.

(** An escape is a percent sign and two hexadecimal digits. *)
Fixpoint escapes_ok (s : string) : bool :=
  match s with
  | String "%" t =>
    match t with
    | String x (String y u) => match hex_val x, hex_val y with Some _, Some _ => escapes_ok u | _, _ => false end
    | _ => false
    end
  | String _ t => escapes_ok t
  | EmptyString => true
  end.
(** shouldEscape is false for these bytes of a host. *)
Definition host_byte (a : ascii) : bool :=
  is_alpha a || is_digit_byte a || existsb (Ascii.eqb a) (list_ascii_of_string "!$&'()*+,;=:[]<>-_.~") || (byte_val a =? 34).
Fixpoint unescape_host (zone : bool) (s : string) : option string :=
  match s with
  | String "%" t =>
    match t with
    | String x (String y u) =>
      match hex_val x, hex_val y with
      | Some h, Some l =>
        let v := byte_of (16 * h + l) in
        if (byte_val v =? 37) || (if zone then (byte_val v =? 32) || host_byte v else negb (h <? 8))
        then String v <$> unescape_host zone u else None
      | _, _ => None
      end
    | _ => None
    end
  | String a t => if (byte_val a <? 128) && negb (host_byte a) then None else String a <$> unescape_host zone t
  | EmptyString => Some EmptyString
  end.

(** The last occurrence of a byte splits a text in what is before and after it. *)
Fixpoint cut_last (c : ascii) (s : string) : option (string * string) :=
  match s with
  | EmptyString => None
  | String a t =>
    match cut_last c t with
    | Some (x, y) => Some (String a x, y)
    | None => if (a =? c)%char then Some (""%string, t) else None
    end
  end.
Definition sall (f : ascii -> bool) (s : string) : bool := forallb f (list_ascii_of_string s).
Definition validOptionalPort (s : string) : bool :=
  match s with EmptyString => true | String a t => (a =? ":")%char && sall is_digit_byte t end.

Fixpoint cut_text (sep s : string) : option (string * string) :=
  if has_prefix sep s then Some (""%string, TrimPrefix sep s) else
  match s with EmptyString => None | String a t => option_map (fun x => (String a (fst x), snd x)) (cut_text sep t) end.

Definition parseHost (host : string) : option string :=
  if has_prefix "[" host then
    match cut_last "]" host with
    | None => None
    | Some (inside, port) =>
      if negb (validOptionalPort port) then None else
      match cut_text "%25" inside with
      | Some (addr, zone) =>
        a ← unescape_host false addr; z ← unescape_host true ("%25" ++ zone); r ← unescape_host false ("]" ++ port);
        Some (a ++ z ++ r)%string
      | None => unescape_host false host
      end
    end
  else
    match cut_last ":" host with
    | Some (_, port) => if sall is_digit_byte port then unescape_host false host else None
    | None => unescape_host false host
    end.

Definition userinfo_byte (a : ascii) : bool :=
  is_alpha a || is_digit_byte a || existsb (Ascii.eqb a) (list_ascii_of_string "-._:~!$&'()*+,;=%@").
Definition parseAuthority (authority : string) : option string :=
  match cut_last "@" authority with
  | None => parseHost authority
  | Some (user, host) => h ← parseHost host; if sall userinfo_byte user && escapes_ok user then Some h else None
  end.

Definition after_byte (c : ascii) (s : string) : string := String.substring (String.length (before c s) + 1) (String.length s) s.
Definition is_ctl (a : ascii) : bool := (byte_val a <? 32) || (byte_val a =? 127).
(** url.Parse *)
Definition url_Parse (raw : string) : option url :=
  let u := before "#" raw in
  if negb (escapes_ok (after_byte "#" raw)) || negb (sall (fun a => negb (is_ctl a)) u) then None else
  if (u =? "*")%string then Some (mkUrl "" "") else
  sr ← scan_scheme true u;
  let '(scheme, rest) := match sr with Some x => x | None => (""%string, u) end in
  let rest := before "?" rest in
  if negb (has_prefix "/" rest) then
    if negb (scheme =? "")%string then Some (mkUrl scheme "") else
    if has_byte ":" (before "/" rest) || negb (escapes_ok rest) then None else Some (mkUrl "" "")
  else if (negb (scheme =? "")%string || negb (has_prefix "///" rest)) && has_prefix "//" rest then
    let authority := before "/" (TrimPrefix "//" rest) in
    h ← parseAuthority authority;
    if escapes_ok (TrimPrefix authority (TrimPrefix "//" rest)) then Some (mkUrl scheme h) else None
  else if escapes_ok rest then Some (mkUrl scheme "") else None.

(** u.Hostname() *)
Definition Hostname (u : url) : string :=
  let h := u_Host u in
  let h := match cut_last ":" h with Some (x, port) => if sall is_digit_byte port then x else h | None => h end in
  if has_prefix "[" h && ends_with "]" h then String.substring 1 (String.length h - 2) h else h.

(** ** Textual addresses: net.ParseIP and IP.IsLoopback *)

Definition octet (s : string) : option Z :=
  if (s =? "")%string || (negb (s =? "0")%string && has_prefix "0" s) || (3 <? slen s) || negb (sall is_digit_byte s) then None else
  n ← digits 0 s; if n <=? 255 then Some n else None.
Definition parse_v4 (s : string) : option (list Z) :=
  match split "." s with
  | [a; b; c; d] => a ← octet a; b ← octet b; c ← octet c; d ← octet d; Some [a; b; c; d]
  | _ => None
  end.
Fixpoint hex_run (n : nat) (acc : Z) (s : string) : option (Z * nat * string) :=
  match s with
  | String a t =>
    match hex_val a with
    | Some d => if (3 <? n)%nat then None else hex_run (S n) (16 * acc + d) t
    | None => Some (acc, n, s)
    end
  | EmptyString => Some (acc, n, s)
  end.
(** The fields of an IPv6 address: [got] are the bytes so far, [gap] where "::" stood. *)
Fixpoint v6_fields (fuel : nat) (got : list Z) (gap : option nat) (s : string) : option (list Z * option nat) :=
  match fuel with
  | O => None
  | S fuel =>
    r ← hex_run 0 0 s;
    let '(acc, n, rest) := r in
    if (n =? 0)%nat then None else
    if has_prefix "." rest then
      if (negb (bool_decide (is_Some gap)) && negb (length got =? 12)%nat) || (12 <? length got)%nat then None else
      v ← parse_v4 s; Some (got ++ v, gap)
    else
      let got := got ++ [acc / 256; acc mod 256] in
      match rest with
      | EmptyString => Some (got, gap)
      | String ":" (String ":" t) =>
        if bool_decide (is_Some gap) then None else
        if (t =? "")%string then Some (got, Some (length got)) else
        if (length got <? 16)%nat then v6_fields fuel got (Some (length got)) t else None
      | String ":" (String _ _ as t) => if (length got <? 16)%nat then v6_fields fuel got gap t else None
      | _ => None
      end
  end.
Definition parse_v6 (s : string) : option (list Z) :=
  if (s =? "::")%string then Some (repeat 0 16) else
  r ← (if has_prefix "::" s then v6_fields 9 [] (Some O) (TrimPrefix "::" s) else v6_fields 9 [] None s);
  let '(got, gap) := r in
  match gap with
  | None => if (length got =? 16)%nat then Some got else None
  | Some k => if (length got <? 16)%nat then Some (take k got ++ repeat 0 (16 - length got) ++ drop k got) else None
  end.
(** [net.ParseIP(host)] is a loopback address; a zone is refused. *)
Definition loopback_ip (s : string) : bool :=
  if has_byte ":" s then
    if has_byte "%" s then false else
    match parse_v6 s with
    | Some ip => bool_decide (ip = repeat 0 15 ++ [1]) || bool_decide (take 12 ip = repeat 0 10 ++ [255; 255] /\ nth_error ip 12 = Some 127)
    | None => false
    end
  else match parse_v4 s with Some (a :: _) => a =? 127 | _ => false end.

(** isLoopbackURL of commands.go *)
Definition isLoopbackURL (base : string) : bool :=
  match url_Parse base with
  | None => false
  | Some u => (Hostname u =? "localhost")%string || loopback_ip (Hostname u)
  end.
