(* ===== verification/Materialize.v ===== *)
(** * Materialization: internal/materialize/materialize.go

    [Run] is a program over the staging tree of one transfer. *)
From S2P Require Import Prelude GoStrings Errors Paths Manifest Prog Tree Integrity.
Local Open Scope prog_scope.

(** SafeJoin below a directory [dir] of the transfer directory whose absolute path has the
    components [root]; the answer is relative to the transfer directory again. *)
Definition abs_comps (p : string) : list string := tail (split "/" p).
Definition SafeJoinIn (root : list string) (dir : path) (rel : string) : option path :=
  match SafeJoin "/" (rooted (root ++ dir)) rel with
  | None => None
  | Some q => Some (drop (length root) (abs_comps q))
  end.

Record Result := mkResult { Published : Manifest; MaterializedBytes : Z }.

(** [published.Segments[i].StoragePath = p] on the segments placed so far. *)
Definition with_storage (s : Segment) (p : string) : Segment :=
  mkSegment (seg_ID s) (seg_Kind s) (seg_WireSize s) (seg_Digest s) p.
Definition with_segments (m : Manifest) (ss : list Segment) : Manifest :=
  mkManifest (SchemaVersion m) (TransferID m) (CreatedAt m) (Note m) (Roots m)
    (m_DigestAlgorithm m) ss (Entries m).

Definition files_of (m : Manifest) : list Entry := List.filter is_file (Entries m).
Definition entriesBySegment (m : Manifest) (id : string) : list Entry :=
  List.filter (fun e => e_SegmentID e =? id)%string (files_of m).

Section materialize.
Context `{Unicode} `{Externals}.

(** ctx.Err() *)
Definition ctx_Err : prog tree (oserr + unit) := Sync.

(** *** extractPack *)

Definition extract_item (root : list string) (allowed : gmap string Entry) (seen : gset string)
    (it : tar_item) : prog tree (ecode + gset string) :=
  _ <-? ctx_Err orelse Internal ;;
  _ <-? Sync orelse HashMismatch ;;
  match it with
  | TarUnreadable => Ret (inl HashMismatch)
  | TarEntry name size regular body body_fails =>
    ensure regular orelse UnsupportedEntry ;;
    match ValidatePortablePath name with
    | Some e => Ret (inl e)
    | None =>
      match allowed !! name with
      | None => Ret (inl InvalidPath)
      | Some entry =>
        ensure (negb (bool_decide (name ∈ seen))) orelse DuplicatePath ;;
        let seen := {[name]} ∪ seen in
        ensure (size =? e_Size entry)%Z orelse HashMismatch ;;
        match SafeJoinIn root [PayloadDir] name with
        | None => Ret (inl InvalidPath)
        | Some target =>
          _ <-? MkdirAll (parent target) 488 orelse Internal ;;
          _ <-? OpenFile true target 416 orelse Internal ;;
          let copied := stake (e_Size entry + 1) body in
          _ <-? WriteAt target 0 copied orelse Internal ;;
          ensure (negb (body_fails && (slen body <=? e_Size entry)%Z)) orelse Internal ;;
          _ <-? Sync orelse Internal ;;
          ensure (slen copied =? e_Size entry)%Z orelse HashMismatch ;;
          Ret (inr seen)
        end
      end
    end
  end.

Definition extractPack (root : list string) (packPath : path) (declared : list Entry)
    : prog tree (ecode + unit) :=
  let allowed := foldl (fun m e => <[e_Path e := e]> m) (∅ : gmap string Entry) declared in
  data <-? ReadFile packPath orelse Internal ;;
  _ <-? Sync orelse Internal ;;
  seen <-? loop (extract_item root allowed) ∅ (unpack data) ;;
  _ <-? ctx_Err orelse Internal ;;
  _ <-? Sync orelse HashMismatch ;;
  ensure (size seen =? size allowed)%nat orelse HashMismatch ;;
  Ret (inr tt).

(** *** verify

    Workers take the jobs in any order and the first failure is reported: the program runs
    the jobs in order and the choice of the reported failure is an outcome. *)
Definition verify_one (root : list string) (e : Entry) : prog tree (option ecode) :=
  c <- ctx_Err ;;
  if c is inl _ then Ret (Some Internal) else
  match SafeJoinIn root [PayloadDir] (e_Path e) with
  | None => Ret (Some InvalidPath)
  | Some target =>
    info <- Stat target ;;
    match info with
    | inl _ => Ret (Some HashMismatch)
    | inr (NDir _ _) => Ret (Some UnsupportedEntry)
    | inr (NFile d _ _) =>
      if negb (slen d =? e_Size e)%Z then Ret (Some HashMismatch) else
      h <- HashFile target ;;
      match h with
      | inl _ => Ret (Some Internal)
      | inr (digest, _) => if (digest =? e_Digest e)%string then Ret None else Ret (Some HashMismatch)
      end
    end
  end.

Definition failures (rs : list (option ecode)) : list ecode := omap id rs.

Definition verify (root : list string) (m : Manifest) : prog tree (option ecode) :=
  rs <- each (fun rs e => r <- verify_one root e ;; Ret (rs ++ [r])%list) [] (files_of m) ;;
  act (fun t => (head (failures rs), t))
      (Some (fun n t => (match failures rs !! n with Some f => Some f | None => head (failures rs) end, t))).

(** *** Run *)

(** The directory the first loop creates for an entry; [None] is [continue]. *)
Definition entry_dir (e : Entry) : option string :=
  if is_dir e then Some (e_Path e) else
  let parent := Dir (e_Path e) in
  if (parent =? ".")%string then None else Some parent.

Definition make_dir (root : list string) (_ : unit) (e : Entry) : prog tree (ecode + unit) :=
  match entry_dir e with
  | None => Ret (inr tt)
  | Some rel =>
    match SafeJoinIn root [PayloadDir] rel with
    | None => Ret (inl InvalidPath)
    | Some dir => _ <-? MkdirAll dir 488 orelse Internal ;; Ret (inr tt)
    end
  end.

Definition place (root : list string) (m : Manifest) (acc : list Segment) (seg : Segment)
    : prog tree (ecode + list Segment) :=
  let staged := [SegmentsDir; seg_ID seg] in
  _ <-? Stat staged orelse StateConflict ;;
  if (seg_Kind seg =? SegmentRaw)%string then
    match entriesBySegment m (seg_ID seg) with
    | [entry] =>
      match SafeJoinIn root [PayloadDir] (e_Path entry) with
      | None => Ret (inl InvalidPath)
      | Some target =>
        _ <-? Rename staged target orelse Internal ;;
        Ret (inr (acc ++ [with_storage seg (PayloadDir ++ "/" ++ e_Path entry)%string])%list)
      end
    | _ => Ret (inl InvalidRequest)
    end
  else if (seg_Kind seg =? SegmentTarZstd)%string then
    _ <-? MkdirAll [PacksDir] 488 orelse Internal ;;
    let packPath := [PacksDir; seg_ID seg] in
    _ <-? Rename staged packPath orelse Internal ;;
    _ <-? extractPack root packPath (entriesBySegment m (seg_ID seg)) ;;
    Ret (inr (acc ++ [with_storage seg (PacksDir ++ "/" ++ seg_ID seg)%string])%list)
  else Ret (inl InvalidRequest).

(** [e.Mode & 0o111 != 0] *)
Definition entry_mode (e : Entry) : Z := if (Z.land (e_Mode e) 73 =? 0)%Z then 420 else 493.

Definition apply_metadata (root : list string) (_ : unit) (e : Entry) : prog tree (ecode + unit) :=
  match SafeJoinIn root [PayloadDir] (e_Path e) with
  | None => Ret (inl InvalidPath)
  | Some target =>
    _ <-? Chmod target (entry_mode e) orelse Internal ;;
    _ <-? Chtimes target (e_MTimeUnixNS e) orelse Internal ;;
    Ret (inr tt)
  end.

Definition dir_time (root : list string) (_ : unit) (e : Entry) : prog tree unit :=
  match SafeJoinIn root [PayloadDir] (e_Path e) with
  | None => Ret tt
  | Some target => Chtimes target (e_MTimeUnixNS e) ;;; Ret tt
  end.

Definition Run (root : list string) (m : Manifest) : prog tree (ecode + Result) :=
  _ <-? MkdirAll [PayloadDir] 488 orelse Internal ;;
  _ <-? loop (make_dir root) tt (SortedEntries m) ;;
  published <-? loop (place root m) [] (Segments m) ;;
  _ <-? loop (apply_metadata root) tt (files_of m) ;;
  failure <- verify root m ;;
  match failure with
  | Some perr => Ret (inl perr)
  | None =>
    each (dir_time root) tt (List.filter is_dir (SortedEntries m)) ;;;
    r <- Remove [SegmentsDir] ;;
    match r with
    | inl ErrExist | inl ErrOther => Ret (inl StateConflict)
    | _ => Ret (inr (mkResult (with_segments m published) (TotalBytes m)))
    end
  end.
End materialize.

(** ** Properties *)

Lemma abs_comps_rooted cs : cs <> [] -> Forall (fun c => plain c = true) cs -> abs_comps (rooted cs) = cs.
Proof. intros Hne Hcs. unfold abs_comps. by rewrite split_rooted. Qed.

Lemma SafeJoinIn_plain root dir cs : (root ++ dir)%list <> [] -> cs <> [] ->
  Forall (fun c => plain c = true) (root ++ dir)%list -> Forall (fun c => plain c = true) cs ->
  SafeJoinIn root dir (join "/" cs) = Some (dir ++ cs)%list.
Proof.
  intros Hne Hcs Hpl Hc. unfold SafeJoinIn. rewrite SafeJoin_plain by done. f_equal.
  rewrite abs_comps_rooted; [|by destruct (root ++ dir)%list|by apply Forall_app].
  rewrite <- app_assoc. apply drop_app_length.
Qed.

Section join.
Context `{Unicode}.

Lemma SafeJoinIn_valid root dir p : (root ++ dir)%list <> [] ->
  Forall (fun c => plain c = true) (root ++ dir)%list -> ValidatePortablePath p = None ->
  SafeJoinIn root dir p = Some (dir ++ split "/" p)%list.
Proof.
  intros Hne Hpl Hp. destruct (ValidatePortablePath_comps p Hp) as (cs & Hcs & -> & Hv).
  apply valid_plain in Hv. rewrite split_join by (auto using Forall_plain_slash).
  by apply SafeJoinIn_plain.
Qed.
End join.

(** Where a payload entry is, and what it means that a tree holds an entry, a segment or a
    whole manifest. *)
Definition payload_path (p : string) : path := PayloadDir :: split "/" p.

Section held.
Context `{Externals}.

Definition file_held (t : tree) (e : Entry) : Prop :=
  exists d, look t (payload_path (e_Path e)) = Some (CFile d) /\ slen d = e_Size e /\ HashBytes d = e_Digest e.
Definition entry_held (t : tree) (e : Entry) : Prop :=
  (is_dir e = true -> look t (payload_path (e_Path e)) = Some CDir) /\ (is_file e = true -> file_held t e).
Definition segment_held (t : tree) (s : Segment) : Prop :=
  plain (seg_ID s) = true /\ Forall (fun c => plain c = true) (split "/" (seg_StoragePath s)) /\
  (2 <= length (split "/" (seg_StoragePath s)))%nat /\
  exists d, look t (split "/" (seg_StoragePath s)) = Some (CFile d) /\ slen d = seg_WireSize s /\
    HashBytes d = seg_Digest s.
Definition manifest_held (t : tree) (m : Manifest) : Prop :=
  Forall (entry_held t) (Entries m) /\ Forall (segment_held t) (Segments m).

Lemma file_held_same t t' e : same t t' -> file_held t e -> file_held t' e.
Proof. intros Hs (d & Hd & ?). exists d. by rewrite <- Hs. Qed.
Lemma manifest_held_same t t' m : same t t' -> manifest_held t m -> manifest_held t' m.
Proof.
  intros Hs [He Hsg]. split; (eapply Forall_impl; [eassumption|]).
  - intros e [H1 H2]. split; [by rewrite <- Hs|]. intros Hf. eapply file_held_same; eauto.
  - intros s (Hid & Hp & Hlen & d & Hd & ?). do 3 (split; [done|]). exists d. by rewrite <- Hs.
Qed.
End held.

(** *** Extraction stays inside the payload *)

Definition frame (t t' : tree) : Prop :=
  (forall q, q <> [] -> head q <> Some PayloadDir -> look t' q = look t q) /\
  (forall q, look t q = Some CDir -> look t' q = Some CDir).

#[export] Instance frame_preorder : PreOrder frame.
Proof.
  split; [done|]. intros t1 t2 t3 [H1 H2] [H3 H4]. split; [|by auto].
  intros q Hq Hh. by rewrite H3, H1.
Qed.

Lemma same_frame t t' : same t t' -> frame t t'.
Proof. intros Hs. split; intros; by rewrite <- Hs. Qed.

Lemma within_quiet_frame {A : Type} (p : prog tree A) : quiet p -> within frame p.
Proof. apply within_mono, same_frame. Qed.
#[export] Hint Resolve within_quiet_frame : within.

Lemma frame_MkdirAll p mode : p = [] \/ head p = Some PayloadDir -> within frame (MkdirAll p mode).
Proof.
  intros Hp. assert (Hq : forall q, q ∈ prefixes p -> q = [] \/ head q = Some PayloadDir).
  { intros q. destruct p as [|x p]; cbn; [intros ->%list_elem_of_singleton; by left|].
    intros [->|Hin]%elem_of_cons; [by left|]. apply list_elem_of_fmap in Hin as (y & -> & _).
    destruct Hp; [done|]. by right. }
  assert (G : forall qs t, (forall q, q ∈ qs -> q ∈ prefixes p) -> frame t (snd (mkdirs mode qs t))).
  { intros qs t Hqs. destruct (mkdirs mode qs t) as [r t'] eqn:E.
    destruct (mkdirs_look _ _ _ _ _ E) as (H1 & H2 & _). cbn. split; [|auto].
    intros q Hne Hh. destruct (look t' q) as [c|] eqn:Ec.
    - destruct (H2 q c Ec) as [->|[-> Hin]]; [done|]. by destruct (Hq q (Hqs q Hin)).
    - destruct (look t q) as [c|] eqn:Ec'; [|done]. apply H1 in Ec'. congruence. }
  apply within_act; [by intros; apply G|]. intros f n t [= <-]. cbn. apply G.
  intros q (i & Hi & _)%elem_of_take. by eapply list_elem_of_lookup_2.
Qed.
Lemma frame_OpenFile p mode : p <> [] -> head p = Some PayloadDir -> within frame (OpenFile true p mode).
Proof.
  intros Hp Hh. apply within_act; [|by intros f n t [= <-]]. intros t.
  destruct (create true p mode t) as [r t'] eqn:E. destruct (create_look _ _ _ _ _ _ E) as (H1 & H2 & H3 & H4).
  cbn. split; intros q; [intros _ Hq; apply H1; congruence|].
  destruct (decide (q = p)) as [->|Hne]; [|by rewrite H1]. intros Hd.
  destruct r as [er|[]]; [by rewrite H4 by (by left)|]. rewrite H3 in Hd; done.
Qed.
Lemma frame_WriteAt p off d : head p = Some PayloadDir -> within frame (WriteAt p off d).
Proof.
  intros Hh. assert (G : forall f t, frame t (edit p f t)).
  { intros f t. split; intros q; rewrite look_edit; [|by intros ->]. intros _ Hq.
    destruct (look t q) as [[]|]; try done. by rewrite decide_False by congruence. }
  apply within_act; [intros t; apply G|]. intros f n t [= <-]. apply G.
Qed.

Section extract.
Context `{Unicode} `{Externals}.
Context (root : list string) (Hroot : Forall (fun c => plain c = true) root).

Lemma SafeJoinIn_payload p : ValidatePortablePath p = None ->
  SafeJoinIn root [PayloadDir] p = Some (payload_path p).
Proof.
  intros Hp. rewrite SafeJoinIn_valid; [done|by destruct root| |done].
  apply Forall_app. split; [done|]. by repeat constructor.
Qed.

Lemma parent_payload p : parent (payload_path p) = [] \/ head (parent (payload_path p)) = Some PayloadDir.
Proof. unfold payload_path, parent. cbn. destruct (split "/" p); auto. Qed.

Lemma frame_extract_item allowed seen it : within frame (extract_item root allowed seen it).
Proof.
  unfold extract_item, ctx_Err. destruct it as [name size regular body body_fails|]; [|within_solve].
  destruct regular; [|within_solve].
  destruct (ValidatePortablePath name) eqn:Ep; [within_solve|].
  destruct (allowed !! name) as [entry|]; [|within_solve].
  rewrite SafeJoinIn_payload by done.
  within_solve; auto using frame_MkdirAll, parent_payload.
  - by apply frame_OpenFile.
  - by apply frame_WriteAt.
Qed.
#[local] Hint Resolve frame_extract_item : within.
Lemma frame_extractPack packPath declared : within frame (extractPack root packPath declared).
Proof. unfold extractPack, ctx_Err. within_solve. Qed.
End extract.

Section verify.
Context `{Unicode} `{Externals}.
Context (root : list string) (Hroot : Forall (fun c => plain c = true) root).

Lemma verify_one_wp (I : tree -> Prop) (e : Entry) (t : tree) : I t -> ValidatePortablePath (e_Path e) = None ->
  wp I (verify_one root e) (fun r t' => t' = t /\ (r = None -> file_held t e)) t.
Proof.
  intros HI Hp. unfold verify_one, ctx_Err. apply wp_bind, wp_Sync; [done|]. intros [er|[]]; [done|].
  rewrite SafeJoinIn_payload by done.
  apply wp_bind, wp_Stat; [done|]. intros [er|[m mt|d m mt]] Hn; [done|done|].
  destruct (Z.eqb_spec (slen d) (e_Size e)); cbn [negb]; [|done].
  apply wp_bind, wp_bindE, wp_ReadFile; [done|]. intros [er|d'] Hd; cbn; [done|].
  assert (d' = d) as -> by (unfold look in Hd; rewrite Hn in Hd; by simplify_eq/=).
  destruct (String.eqb_spec (HashBytes d) (e_Digest e)); cbn; [|done].
  split; [done|]. intros _. by exists d.
Qed.

Lemma failures_nil rs : failures rs = [] <-> Forall (fun r => r = None) rs.
Proof.
  induction rs as [|[f|] rs IH]; cbn; [by split|split; [done|by inversion 1]|].
  change (omap id rs) with (failures rs). rewrite IH, Forall_cons. tauto.
Qed.

Lemma verify_wp (I : tree -> Prop) (m : Manifest) (t : tree) : I t ->
  Forall (fun e => ValidatePortablePath (e_Path e) = None) (files_of m) ->
  wp I (verify root m) (fun r t' => t' = t /\ (r = None -> Forall (file_held t) (files_of m))) t.
Proof.
  intros HI Hp. unfold verify. apply wp_bind.
  eapply wp_wand.
  { apply (wp_each _ _ (fun l rs t' => t' = t /\ exists done, files_of m = (done ++ l)%list /\
      Forall2 (fun e r => r = None -> file_held t e) done rs)).
    - split; [done|]. exists []. split; [done|constructor].
    - intros e l rs t' (-> & done & Hsplit & Hdone). apply wp_bind.
      eapply wp_wand; [apply verify_one_wp; [done|]|].
      + rewrite Hsplit in Hp. apply Forall_app in Hp as [_ Hp]. by inversion Hp.
      + intros r t' [-> Hr]. cbn. split; [reflexivity|]. exists (done ++ [e])%list.
        rewrite <- app_assoc. split; [exact Hsplit|]. apply Forall2_app; [exact Hdone|]. by repeat constructor. }
  intros rs t' (-> & done & Hsplit & Hdone). rewrite app_nil_r in Hsplit. subst done.
  assert (G : head (failures rs) = None -> Forall (file_held t) (files_of m)).
  { intros Hh. assert (failures rs = []) as Hf%failures_nil by (by destruct (failures rs)).
    revert Hf. clear Hp Hh. induction Hdone as [|e r es rs' Her _ IH]; intros Hf; [constructor|].
    inversion Hf; subst. constructor; [by apply Her|by apply IH]. }
  apply wp_act. intros r t' [[= <- <-]|(f & n & [= <-] & E)]; [done|].
  injection E as <- <-. split; [done|]. split; [done|]. by destruct (failures rs !! n).
Qed.
End verify.

(** *** What a successful run leaves *)

Section run.
Context `{Unicode} `{Externals}.
Context (root : list string) (Hroot : Forall (fun c => plain c = true) root).
Context (m : Manifest) (Hm : manifest_ok m) (content : string -> string).

(** The storage path the published manifest records for a segment. *)
Definition storage_of (s : Segment) : string :=
  if (seg_Kind s =? SegmentRaw)%string then
    match entriesBySegment m (seg_ID s) with
    | [e] => (PayloadDir ++ "/" ++ e_Path e)%string
    | _ => ""%string
    end
  else (PacksDir ++ "/" ++ seg_ID s)%string.
Definition published_segment (s : Segment) : Segment := with_storage s (storage_of s).

Definition staged_at (t : tree) (s : Segment) : Prop :=
  look t [SegmentsDir; seg_ID s] = Some (CFile (content (seg_ID s))).
Definition packed_at (t : tree) (s : Segment) : Prop :=
  seg_Kind s = SegmentTarZstd -> look t [PacksDir; seg_ID s] = Some (CFile (content (seg_ID s))).
Definition dirs_at (t : tree) (es : list Entry) : Prop :=
  Forall (fun e => is_dir e = true -> look t (payload_path (e_Path e)) = Some CDir) es.
Definition raws_unique (ss : list Segment) : Prop :=
  Forall (fun s => seg_Kind s = SegmentRaw -> exists e, entriesBySegment m (seg_ID s) = [e]) ss.

Definition placed (done todo : list Segment) (t : tree) : Prop :=
  dirs_at t (Entries m) /\ Forall (packed_at t) done /\ Forall (staged_at t) todo /\ raws_unique done.

Lemma keeps_placed done todo (t t' : tree) :
  (forall q c, look t q = Some c -> look t' q = Some c) -> placed done todo t -> placed done todo t'.
Proof.
  intros Hk (H1 & H2 & H3 & H4). split_and!; [| | |done].
  - eapply Forall_impl; [exact H1|]. cbn. auto.
  - eapply Forall_impl; [exact H2|]. intros s Hs Hd. by apply Hk, Hs.
  - eapply Forall_impl; [exact H3|]. intros s Hs. by apply Hk.
Qed.

Lemma frame_placed done todo (t t' : tree) : frame t t' -> placed done todo t -> placed done todo t'.
Proof.
  intros [F1 F2] (H1 & H2 & H3 & H4). split_and!; [| | |done].
  - eapply Forall_impl; [exact H1|]. cbn. auto.
  - eapply Forall_impl; [exact H2|]. intros s Hs Hk. rewrite F1 by done. by apply Hs.
  - eapply Forall_impl; [exact H3|]. intros s Hs. unfold staged_at. by rewrite F1.
Qed.

Lemma make_dirs_wp (t : tree) : Forall (staged_at t) (Segments m) ->
  wp (fun _ => True) (loop (make_dir root) tt (SortedEntries m))
    (fun r t' => match r with inl _ => True | inr _ => placed [] (Segments m) t' end) t.
Proof.
  intros Hst. apply (wp_loop _ _ (fun l _ t' => Forall (staged_at t') (Segments m) /\
    exists done, SortedEntries m = (done ++ l)%list /\ dirs_at t' done)).
  - split; [done|]. exists []. split; [done|constructor].
  - intros [] t' (H1 & done & Hs & H2). rewrite app_nil_r in Hs. subst done.
    split_and!; [|constructor|done|constructor]. unfold dirs_at. by rewrite <- (SortedEntries_perm m).
  - intros e l [] t' (H1 & done & Hs & H2). unfold make_dir.
    assert (Hnext : forall t2, (forall q c, look t' q = Some c -> look t2 q = Some c) ->
      (is_dir e = true -> look t2 (payload_path (e_Path e)) = Some CDir) ->
      Forall (staged_at t2) (Segments m) /\
      exists done0, SortedEntries m = (done0 ++ l)%list /\ dirs_at t2 done0).
    { intros t2 Hk He. split; [eapply Forall_impl; [exact H1|]; intros s Hs'; by apply Hk|].
      exists (done ++ [e])%list. rewrite <- app_assoc. split; [exact Hs|]. apply Forall_app.
      split; [|by repeat constructor]. eapply Forall_impl; [exact H2|]. cbn. eauto. }
    assert (He : e ∈ Entries m).
    { rewrite <- SortedEntries_perm, Hs. apply elem_of_app. right. by left. }
    destruct Hm as (_ & _ & _ & _ & _ & _ & _ & _ & _ & _ & _ & _ & _ & Hent & _).
    rewrite Forall_forall in Hent. destruct (Hent e He) as (Hport & _).
    unfold entry_dir. destruct (is_dir e) eqn:Ed.
    + rewrite SafeJoinIn_payload by done. apply wp_orE, wp_MkdirAll.
      intros [er|[]] t2 Hk Hd; (split; [done|]); [done|]. cbn. apply Hnext; auto.
    + destruct (_ =? ".")%string; [by apply Hnext|]. destruct (SafeJoinIn _ _ _); [|done].
      apply wp_orE, wp_MkdirAll. intros [er|[]] t2 Hk Hd; (split; [done|]); [done|]. by apply Hnext.
Qed.

Lemma segment_ids_nodup : NoDup (map seg_ID (Segments m)).
Proof. by destruct Hm as (_ & _ & _ & _ & _ & _ & _ & _ & _ & _ & _ & ? & _). Qed.

Lemma entry_portable e : e ∈ Entries m -> ValidatePortablePath (e_Path e) = None.
Proof.
  intros He. destruct Hm as (_ & _ & _ & _ & _ & _ & _ & _ & _ & _ & _ & _ & _ & Hent & _).
  rewrite Forall_forall in Hent. by destruct (Hent e He).
Qed.

Lemma entriesBySegment_in id e : e ∈ entriesBySegment m id ->
  e ∈ Entries m /\ is_file e = true /\ e_SegmentID e = id.
Proof.
  clear content. unfold entriesBySegment, files_of. rewrite !list_elem_of_In, !filter_In, String.eqb_eq. tauto.
Qed.

Lemma nodup_middle done s todo s' : Segments m = (done ++ s :: todo)%list -> s' ∈ (done ++ todo)%list ->
  seg_ID s' <> seg_ID s.
Proof.
  intros Hs Hin Heq. pose proof segment_ids_nodup as Hnd. rewrite Hs, map_app in Hnd. cbn in Hnd.
  rewrite <- Permutation_middle in Hnd. apply NoDup_cons in Hnd as [Hn _]. apply Hn.
  rewrite <- map_app, <- Heq. by apply list_elem_of_fmap_2.
Qed.

(** Moving the staged file of [s] to a fresh place keeps everything else placed. *)
Lemma move_placed done s todo (t t' : tree) dst :
  Segments m = (done ++ s :: todo)%list -> placed done (s :: todo) t ->
  look t dst <> Some CDir -> head dst = Some PayloadDir \/ dst = [PacksDir; seg_ID s] ->
  (forall q, q <> [SegmentsDir; seg_ID s] -> q <> dst -> look t' q = look t q) ->
  dirs_at t' (Entries m) /\ Forall (packed_at t') done /\ Forall (staged_at t') todo.
Proof.
  intros Hs (H1 & H2 & H3 & H4) Hdst Hhead Hsame. split_and!.
  - eapply Forall_impl; [exact H1|]. intros e He Hd. specialize (He Hd).
    rewrite Hsame; [done|done|]. congruence.
  - rewrite Forall_forall in H2 |- *. intros s' Hin Hk. rewrite Hsame; [by apply H2|done|].
    assert (seg_ID s' <> seg_ID s) by (eapply nodup_middle; [exact Hs|set_solver]).
    destruct Hhead as [Hh| ->]; [by intros <-|congruence].
  - apply Forall_cons in H3 as [_ H3]. rewrite Forall_forall in H3 |- *. intros s' Hin. unfold staged_at.
    assert (seg_ID s' <> seg_ID s) by (eapply nodup_middle; [exact Hs|set_solver]).
    rewrite Hsame; [by apply H3|congruence|]. destruct Hhead as [Hh| ->]; [by intros <-|done].
Qed.

Lemma place_wp done s todo acc (t : tree) :
  Segments m = (done ++ s :: todo)%list -> placed done (s :: todo) t ->
  wp (fun _ => True) (place root m acc s) (fun r t' => match r with
    | inl _ => True
    | inr acc' => acc' = (acc ++ [published_segment s])%list /\ placed (done ++ [s])%list todo t' end) t.
Proof.
  intros Hs Hpl. unfold place. apply wp_orE, wp_Stat; [done|]. intros [er|n] _; [done|].
  unfold published_segment, storage_of.
  destruct (String.eqb_spec (seg_Kind s) SegmentRaw) as [Hk|Hk].
  - destruct (entriesBySegment m (seg_ID s)) as [|e [|]] eqn:Ee; [done| |done].
    assert (He : e ∈ entriesBySegment m (seg_ID s)) by (rewrite Ee; by left).
    destruct (entriesBySegment_in _ _ He) as (Hin & Hf & Hid).
    rewrite SafeJoinIn_payload by auto using entry_portable.
    apply wp_orE, wp_Rename; [done|done|done|]. intros d t' Hsrc Hdst Hd Hsame _ _.
    split; [done|]. cbn. split; [done|].
    destruct (move_placed done s todo t t' _ Hs Hpl Hdst ltac:(by left) Hsame) as (H1 & H2 & H3).
    destruct Hpl as (_ & _ & _ & H4). split_and!; [done| |done|].
    + apply Forall_app. split; [done|]. repeat constructor. unfold packed_at. by rewrite Hk.
    + apply Forall_app. split; [done|]. repeat constructor. eauto.
  - destruct (String.eqb_spec (seg_Kind s) SegmentTarZstd) as [Hk'|]; [|done].
    apply wp_orE, wp_MkdirAll. intros [er|[]] t1 Hkeep _; (split; [done|]); [done|].
    apply (keeps_placed _ _ _ _ Hkeep) in Hpl.
    apply wp_orE, wp_Rename; [done|done|done|]. intros d t' Hsrc Hdst Hd Hsame _ _. split; [done|].
    destruct (move_placed done s todo t1 t' _ Hs Hpl Hdst ltac:(by right) Hsame) as (H1 & H2 & H3).
    assert (Hpl' : placed (done ++ [s])%list todo t').
    { destruct Hpl as (_ & _ & Hst & H4). apply Forall_cons in Hst as [Hst _].
      split_and!; [done| |done|].
      - apply Forall_app. split; [done|]. repeat constructor. intros _. rewrite Hd.
        unfold staged_at in Hst. congruence.
      - apply Forall_app. split; [done|]. repeat constructor. by intros ?. }
    apply wp_bindE. eapply wp_within; [by apply frame_extractPack|done|].
    intros [er|[]] t2 Hfr; [done|]. cbn. split; [done|]. by eapply frame_placed.
Qed.

Lemma places_wp (t : tree) : placed [] (Segments m) t ->
  wp (fun _ => True) (loop (place root m) [] (Segments m)) (fun r t' => match r with
    | inl _ => True
    | inr acc => acc = map published_segment (Segments m) /\ placed (Segments m) [] t' end) t.
Proof.
  intros Hpl. apply (wp_loop _ _ (fun todo acc t' => exists done, Segments m = (done ++ todo)%list /\
    acc = map published_segment done /\ placed done todo t')).
  - by exists [].
  - intros acc t' (done & Hs & -> & Hp). rewrite app_nil_r in Hs. by subst done.
  - intros s todo acc t' (done & Hs & -> & Hp). eapply wp_wand; [by apply place_wp|].
    intros [er|acc'] t2; [done|]. intros [-> Hp']. exists (done ++ [s])%list.
    rewrite <- app_assoc, map_app. done.
Qed.

Context (Hplain : Forall (fun s => plain (seg_ID s) = true) (Segments m)).
Context (Hcontent : Forall (fun s => slen (content (seg_ID s)) = seg_WireSize s /\
  HashBytes (content (seg_ID s)) = seg_Digest s) (Segments m)).

Lemma SegmentByID_self s : s ∈ Segments m -> SegmentByID m (seg_ID s) = Some s.
Proof.
  pose proof segment_ids_nodup as Hnd. unfold SegmentByID. revert Hnd.
  generalize (Segments m). intros segs0. induction segs0 as [|x ss IH]; cbn; [by intros _ ?%elem_of_nil|].
  intros [Hx Hnd]%NoDup_cons [->|Hin]%elem_of_cons; [by rewrite String.eqb_refl|].
  destruct (String.eqb_spec (seg_ID x) (seg_ID s)) as [Heq|]; [|by apply IH].
  destruct Hx. rewrite Heq. by apply list_elem_of_fmap_2.
Qed.

Lemma split_slash a b : has_byte "/" a = false -> split "/" (a ++ "/" ++ b)%string = a :: split "/" b.
Proof. intros Ha. change ("/" ++ b)%string with (String "/" b). by rewrite split_app, split_no_sep. Qed.

Lemma published_segment_held t s : s ∈ Segments m -> Forall (file_held t) (files_of m) ->
  packed_at t s -> raws_unique (Segments m) -> segment_held t (published_segment s).
Proof.
  intros Hs Hfiles Hpack Hraw. unfold segment_held, published_segment, storage_of.
  cbn [seg_ID seg_StoragePath seg_WireSize seg_Digest with_storage].
  unfold raws_unique in Hraw. rewrite Forall_forall in Hfiles. rewrite Forall_forall in Hraw.
  rewrite Forall_forall in Hplain. rewrite Forall_forall in Hcontent. split; [by apply Hplain|].
  destruct (String.eqb_spec (seg_Kind s) SegmentRaw) as [Hk|Hk].
  - destruct (Hraw s Hs Hk) as [e Ee]. rewrite Ee.
    assert (He : e ∈ entriesBySegment m (seg_ID s)) by (rewrite Ee; by left).
    destruct (entriesBySegment_in _ _ He) as (Hin & Hf & Hid).
    destruct Hm as (_ & _ & _ & _ & _ & _ & _ & _ & _ & _ & _ & _ & _ & Hent & _).
    rewrite Forall_forall in Hent. destruct (Hent e Hin) as (_ & _ & _ & _ & Hcase).
    destruct Hcase as [[Hd _]|(_ & _ & _ & _ & s' & Hs' & Hrawok)].
    { by rewrite (dir_not_file e Hd) in Hf. }
    rewrite Hid, SegmentByID_self in Hs' by done. injection Hs' as <-. destruct (Hrawok Hk) as [-> ->].
    rewrite split_slash by done. split_and!.
    + constructor; [done|]. pose proof (entry_portable e Hin) as Hp.
      destruct (ValidatePortablePath_comps _ Hp) as (cs & Hcs & -> & Hv). apply valid_plain in Hv.
      by rewrite split_join by (auto using Forall_plain_slash).
    + cbn. pose proof (split_cons_ne "/" (e_Path e)). destruct (split "/" (e_Path e)); [done|cbn; lia].
    + apply Hfiles. unfold files_of. by rewrite list_elem_of_In, filter_In, <- list_elem_of_In.
  - assert (Hns : has_byte "/" (seg_ID s) = false) by (by apply plain_spec, Hplain).
    rewrite split_slash, (split_no_sep _ _ Hns) by done.
    split; [repeat constructor; by apply Hplain|]. split; [done|].
    destruct (Hcontent s Hs). exists (content (seg_ID s)). split; [|done].
    assert (Hk' : seg_Kind s = SegmentTarZstd).
    { destruct Hm as (_ & _ & _ & _ & _ & _ & _ & _ & _ & _ & Hseg & _).
      rewrite Forall_forall in Hseg. destruct (Hseg s Hs) as (_ & _ & [?|?] & _); done. }
    by apply Hpack.
Qed.

Lemma Run_wp (t : tree) : Forall (staged_at t) (Segments m) ->
  wp (fun _ => True) (Run root m) (fun r t' => match r with
    | inl _ => True
    | inr res => Published res = with_segments m (map published_segment (Segments m)) /\
        MaterializedBytes res = TotalBytes m /\ manifest_held t' (Published res)
    end) t.
Proof.
  intros Hst. unfold Run. apply wp_orE, wp_MkdirAll. intros [er|[]] t0 Hk _; (split; [done|]); [done|].
  apply wp_bindE. eapply wp_wand; [apply make_dirs_wp|].
  { eapply Forall_impl; [exact Hst|]. intros s Hs. by apply Hk. }
  intros [er|[]] t1 Hp1; [done|].
  apply wp_bindE. eapply wp_wand; [by apply places_wp|]. intros [er|acc] t2; [done|]. intros [-> Hp2].
  apply wp_bindE. apply (wp_within same); [|done|].
  { unfold apply_metadata. within_solve. }
  intros [er|[]] t3 H3; [done|].
  apply wp_bind. eapply wp_wand; [apply verify_wp; [done|done|]|].
  { apply Forall_forall. intros e He. apply entry_portable. unfold files_of in He.
    rewrite list_elem_of_In, filter_In, <- list_elem_of_In in He. tauto. }
  intros [er|] t4 [-> Hfiles]; [done|]. specialize (Hfiles eq_refl).
  apply wp_bind. apply (wp_within same); [|done|].
  { unfold dir_time. within_solve. }
  intros [] t5 H5. apply wp_bind, wp_act. intros r t6 Hr. split; [done|].
  assert (H6 : forall q, q <> [SegmentsDir] -> look t6 q = look t2 q /\ look t6 q = look t3 q).
  { intros q Hq. assert (look t6 q = look t5 q) as ->.
    { destruct Hr as [E|(f & n & [= <-] & [= <- <-])]; [by eapply remove_look|done]. }
    by rewrite <- H5, <- H3. }
  assert (Hheld : manifest_held t6 (with_segments m (map published_segment (Segments m)))).
  { destruct Hp2 as (Hd & Hpk & _ & Hraw).
    assert (Hf6 : Forall (file_held t6) (files_of m)).
    { eapply Forall_impl; [exact Hfiles|]. intros e (d & Hl & Hd'). exists d.
      by rewrite (proj2 (H6 (payload_path (e_Path e)) ltac:(done))). }
    split; cbn.
    - unfold dirs_at in Hd. rewrite Forall_forall in Hd, Hf6 |- *. intros e He. split.
      + intros Hdir. rewrite (proj1 (H6 (payload_path (e_Path e)) ltac:(done))). by apply Hd.
      + intros Hf. apply Hf6. unfold files_of. by rewrite list_elem_of_In, filter_In, <- list_elem_of_In.
    - rewrite Forall_map. rewrite Forall_forall in Hpk |- *. intros s Hs.
      apply published_segment_held; [done|done| |done]. intros Hk'.
      rewrite (proj1 (H6 [PacksDir; seg_ID s] ltac:(done))). by apply Hpk. }
  destruct r as [[]|[]]; done.
Qed.
End run.

(** *** What a successful run leaves, whatever it started from

    The receiving client runs the same code on segments a peer sent and on whatever an
    earlier attempt left behind. *)
Definition dirs_kept (t t' : tree) : Prop := forall q, look t q = Some CDir -> look t' q = Some CDir.
#[export] Instance dirs_kept_preorder : PreOrder dirs_kept.
Proof. split; [by intros t q|]. intros t1 t2 t3 H1 H2 q Hq. by apply H2, H1. Qed.

Lemma dirs_kept_same (t t' : tree) : same t t' -> dirs_kept t t'.
Proof. intros Hs q. by rewrite Hs. Qed.
Lemma dirs_kept_quiet {A : Type} (p : prog tree A) : quiet p -> within dirs_kept p.
Proof. apply within_mono, dirs_kept_same. Qed.
Lemma dirs_kept_frame {A : Type} (p : prog tree A) : within frame p -> within dirs_kept p.
Proof. apply within_mono. by intros t t' [_ H]. Qed.
Lemma dirs_kept_MkdirAll p mode : within dirs_kept (MkdirAll p mode).
Proof.
  intros I t HI. apply wp_MkdirAll. intros r t' Hk _. assert (dirs_kept t t') by (intros q; apply Hk). auto.
Qed.
Lemma dirs_kept_Rename src dst : src <> dst -> within dirs_kept (Rename src dst).
Proof.
  intros Hne I t HI. apply wp_Rename; [done|by apply HI|by intros e|].
  intros d t' Hs Hd _ Hsame _ _. assert (dirs_kept t t'); [|auto].
  intros q Hq. rewrite Hsame; [done| |]; intros ->; congruence.
Qed.
#[export] Hint Resolve dirs_kept_quiet dirs_kept_MkdirAll : within.

Section run_any.
Context `{Unicode} `{Externals}.
Context (root : list string) (Hroot : Forall (fun c => plain c = true) root).
Context (m : Manifest) (Hm : Forall (fun e => ValidatePortablePath (e_Path e) = None) (Entries m)).

Definition portable_at e (He : e ∈ Entries m) : ValidatePortablePath (e_Path e) = None :=
  proj1 (Forall_forall _ _) Hm e He.

Lemma dirs_kept_place acc s : within dirs_kept (place root m acc s).
Proof.
  unfold place. apply within_orE; [apply _|auto with within|]. intros _.
  destruct (_ =? SegmentRaw)%string.
  - destruct (entriesBySegment m (seg_ID s)) as [|e [|]] eqn:Ee; [apply within_ret; apply _| |apply within_ret; apply _].
    assert (He : e ∈ entriesBySegment m (seg_ID s)) by (rewrite Ee; by left).
    destruct (entriesBySegment_in m _ _ He) as (Hin & _).
    rewrite SafeJoinIn_payload by (auto using portable_at). apply within_orE; [apply _|by apply dirs_kept_Rename|].
    intros _. apply within_ret; apply _.
  - destruct (_ =? SegmentTarZstd)%string; [|apply within_ret; apply _].
    assert (Hx := fun q es => dirs_kept_frame _ (frame_extractPack root Hroot q es)).
    apply within_orE; [apply _|auto with within|]. intros _. apply within_orE; [apply _|by apply dirs_kept_Rename|]. intros _.
    apply within_bindE; [apply _|apply Hx|]. intros _. apply within_ret; apply _.
Qed.

Lemma make_dirs_any (t : tree) :
  wp (fun _ => True) (loop (make_dir root) tt (SortedEntries m))
    (fun r t' => match r with inl _ => True | inr _ => dirs_at t' (Entries m) end) t.
Proof.
  apply (wp_loop _ _ (fun l _ t' => exists done, SortedEntries m = (done ++ l)%list /\ dirs_at t' done)).
  - exists []. split; [done|constructor].
  - intros [] t' (done & Hs & H2). rewrite app_nil_r in Hs. subst done. unfold dirs_at. by rewrite <- (SortedEntries_perm m).
  - intros e l [] t' (done & Hs & H2). unfold make_dir.
    assert (Hnext : forall t2, dirs_kept t' t2 -> (is_dir e = true -> look t2 (payload_path (e_Path e)) = Some CDir) ->
      exists done0, SortedEntries m = (done0 ++ l)%list /\ dirs_at t2 done0).
    { intros t2 Hk He. exists (done ++ [e])%list. rewrite <- app_assoc. split; [exact Hs|]. apply Forall_app.
      split; [|by repeat constructor]. eapply Forall_impl; [exact H2|]. cbn. intros e' He' Hd. by apply Hk, He'. }
    assert (He : e ∈ Entries m).
    { rewrite <- SortedEntries_perm, Hs. apply elem_of_app. right. by left. }
    unfold entry_dir. destruct (is_dir e) eqn:Ed.
    + rewrite SafeJoinIn_payload by (auto using portable_at). apply wp_orE, wp_MkdirAll.
      intros [er|[]] t2 Hk Hd; (split; [done|]); [done|]. cbn. apply Hnext; [intros q; apply Hk|auto].
    + destruct (_ =? ".")%string; [by apply Hnext|]. destruct (SafeJoinIn _ _ _); [|done].
      apply wp_orE, wp_MkdirAll. intros [er|[]] t2 Hk Hd; (split; [done|]); [done|]. apply Hnext; [intros q; apply Hk|done].
Qed.

(** A successful run leaves every entry of the manifest, with its declared content. *)
Lemma Run_entries (t : tree) :
  wp (fun _ => True) (Run root m) (fun r t' => match r with
    | inl _ => True
    | inr res => MaterializedBytes res = TotalBytes m /\ Forall (entry_held t') (Entries m)
    end) t.
Proof.
  unfold Run. apply wp_orE, wp_MkdirAll. intros [er|[]] t0 _ _; (split; [done|]); [done|].
  apply wp_bindE. eapply wp_wand; [apply make_dirs_any|]. intros [er|[]] t1 H1; [done|].
  apply wp_bindE, (wp_within dirs_kept); [|done|].
  { apply within_loop; [apply _|]. intros acc s _. apply dirs_kept_place. }
  intros [er|acc] t2 H2; [done|].
  apply wp_bindE, (wp_within same); [unfold apply_metadata; within_solve|done|]. intros [er|[]] t3 H3; [done|].
  apply wp_bind. eapply wp_wand; [apply verify_wp; [done|done|]|].
  { apply Forall_forall. intros e He. apply portable_at. unfold files_of in He.
    rewrite list_elem_of_In, filter_In, <- list_elem_of_In in He. tauto. }
  intros [er|] t4 [-> Hfiles]; [done|]. specialize (Hfiles eq_refl).
  apply wp_bind, (wp_within same); [unfold dir_time; within_solve|done|]. intros [] t5 H5.
  apply wp_bind, wp_act. intros r t6 Hr. split; [done|].
  assert (H6 : forall q, q <> [SegmentsDir] -> look t6 q = look t3 q).
  { intros q Hq. rewrite (H5 q). destruct Hr as [E|(f & n & [= <-] & [= <- <-])]; [by eapply remove_look|done]. }
  assert (Hheld : Forall (entry_held t6) (Entries m)).
  { unfold dirs_at in H1. rewrite Forall_forall in H1, Hfiles |- *. intros e He. split.
    - intros Hd. rewrite H6, <- (H3 (payload_path (e_Path e))) by done. by apply H2, H1.
    - intros Hf. assert (He' : e ∈ files_of m).
      { unfold files_of. by rewrite list_elem_of_In, filter_In, <- list_elem_of_In. }
      destruct (Hfiles e He') as (d & Hl & Hd). exists d. by rewrite H6. }
  by destruct r as [[]|[]].
Qed.
End run_any.
