(* ===== verification/Archive.v ===== *)
(** * Archives of a payload: internal/archive

    The writers of archive/tar and archive/zip turn headers and contents into bytes; the
    model keeps the members they are given. *)
From S2P Require Import Prelude GoStrings Errors Paths Manifest Prog Tree Integrity Materialize.
Local Open Scope prog_scope.

Inductive archive_item :=
| ADir (name : string) (mode mtime : Z)
| AFile (name : string) (mode mtime : Z) (size : option Z) (data : string).

Section archive.
Context {EX : Externals}.
Context (root : list string).

(** copyEntry, up to the copy: the opened file's bytes. *)
Definition copyEntry (rel : string) : prog tree (unit + string) :=
  match SafeJoinIn root [PayloadDir] rel with
  | None => Ret (inl tt)
  | Some p => d <-? ReadFile p orelse tt ;; Ret (inr d)
  end.

(** One turn of the loops. ctx.Err and the writer's own errors end the stream; a tar
    member must have exactly the size its header declares. *)
Definition stream_entry (tar : bool) (items : list archive_item) (e : Entry)
    : prog tree (list archive_item + list archive_item) :=
  c <- Sync ;;
  match c with
  | inl _ => Ret (inl items)
  | inr _ =>
    h <- Sync ;;
    match h with
    | inl _ => Ret (inl items)
    | inr _ =>
      if (e_Type e =? EntryDirectory)%string
      then Ret (inr (items ++ [ADir (e_Path e ++ "/") 493 (e_MTimeUnixNS e)])%list) else
      d <- copyEntry (e_Path e) ;;
      match d with
      | inl _ => Ret (inl items)
      | inr d =>
        let item := AFile (e_Path e) (entry_mode e) (e_MTimeUnixNS e) (if tar then Some (e_Size e) else None) d in
        if tar && negb (slen d =? e_Size e)%Z then Ret (inl items) else Ret (inr (items ++ [item])%list)
      end
    end
  end.

(** StreamTar and StreamZip: the members written, and whether the archive was closed. *)
Definition stream (tar : bool) (m : Manifest) : prog tree (list archive_item * bool) :=
  r <- loop (stream_entry tar) [] (SortedEntries m) ;;
  match r with
  | inl items => Ret (items, false)
  | inr items => c <- Sync ;; Ret (items, match c with inr _ => true | inl _ => false end)
  end.
Definition StreamTar : Manifest -> prog tree (list archive_item * bool) := stream true.
Definition StreamZip : Manifest -> prog tree (list archive_item * bool) := stream false.

(** What a member must be for its entry. *)
Definition archived (tar : bool) (e : Entry) (i : archive_item) : Prop :=
  if is_dir e then i = ADir (e_Path e ++ "/") 493 (e_MTimeUnixNS e)
  else exists d, i = AFile (e_Path e) (entry_mode e) (e_MTimeUnixNS e) (if tar then Some (e_Size e) else None) d /\
    slen d = e_Size e /\ HashBytes d = e_Digest e.
End archive.

Section correct.
Context `{Unicode} {EX : Externals}.
Context (root : list string) (Hroot : Forall (fun c => plain c = true) root).

Lemma copyEntry_wp e (t : tree) (Q : unit + string -> tree -> Prop) : root <> [] ->
  ValidatePortablePath (e_Path e) = None -> file_held t e ->
  (forall r, (forall d, r = inr d -> slen d = e_Size e /\ HashBytes d = e_Digest e) -> Q r t) ->
  wp (eq t) (copyEntry root (e_Path e)) Q t.
Proof.
  intros Hne Hp (d & Hd & Hs & Hh) HQ. unfold copyEntry. rewrite SafeJoinIn_payload by done.
  apply wp_orE, wp_ReadFile; [done|]. intros [er|x] Hx; cbn; apply HQ; [done|]. intros d' [= <-].
  rewrite Hx in Hd. by injection Hd as ->.
Qed.

Lemma stream_entry_wp tar items e (t : tree) : root <> [] -> ValidatePortablePath (e_Path e) = None ->
  (is_dir e = true \/ is_file e = true) -> entry_held t e ->
  wp (eq t) (stream_entry root tar items e) (fun r t' => t = t' /\
    forall items', r = inr items' -> exists i, items' = (items ++ [i])%list /\ archived tar e i) t.
Proof.
  intros Hne Hp Hcase [Hd Hf]. unfold stream_entry.
  do 2 (apply wp_bind, wp_Sync; [done|]; intros [?|[]]; [done|]).
  unfold archived, is_dir. destruct (e_Type e =? EntryDirectory)%string eqn:Ed.
  { cbn. split; [done|]. intros items' [= <-]. eauto. }
  assert (Hfile : is_file e = true) by (destruct Hcase as [Hc|?]; [unfold is_dir in Hc; congruence|done]).
  apply wp_bind, copyEntry_wp; [done|done|by apply Hf|]. intros [er|d] Hd'; [done|].
  destruct (Hd' d eq_refl) as [Hs Hh]. rewrite Hs, Z.eqb_refl, andb_false_r. cbn.
  split; [done|]. intros items' [= <-]. eexists. split; [done|]. by exists d.
Qed.

Lemma stream_wp tar m (t : tree) : root <> [] -> manifest_ok m -> manifest_held t m ->
  wp (eq t) (stream root tar m) (fun r t' => t = t' /\
    (snd r = true -> Forall2 (archived tar) (SortedEntries m) (fst r))) t.
Proof.
  intros Hne Hm [He _]. unfold stream. apply wp_bind.
  assert (Hok : Forall (fun e => ValidatePortablePath (e_Path e) = None /\ (is_dir e = true \/ is_file e = true) /\
    entry_held t e) (SortedEntries m)).
  { destruct Hm as (_ & _ & _ & _ & _ & _ & _ & _ & _ & _ & _ & _ & _ & Hent & _). rewrite Forall_forall in *.
    intros e Hin. rewrite SortedEntries_perm in Hin. destruct (Hent e Hin) as (Hp & _ & _ & _ & Hc). split; [done|].
    split; [|by apply He]. destruct Hc as [[? _]|[? _]]; auto. }
  eapply wp_wand; [apply (wp_loop _ _ (fun l items t' => t = t' /\ exists done, SortedEntries m = (done ++ l)%list /\
      Forall2 (archived tar) done items)
    (fun r t' => t = t' /\ forall items, r = inr items -> Forall2 (archived tar) (SortedEntries m) items))|].
  - split; [done|]. by exists [].
  - intros items t' (<- & done & E & H2). split; [done|]. intros items' [= <-]. by rewrite E, app_nil_r.
  - intros e l items t' (<- & done & E & H2). rewrite E in Hok. apply Forall_app in Hok as [_ Hok].
    apply Forall_cons in Hok as [(Hp & Hc & Hh) _].
    eapply wp_wand; [by apply stream_entry_wp|]. intros [items'|items'] t' [<- Hi]; [done|]. split; [done|].
    destruct (Hi items' eq_refl) as (i & -> & Ha). exists (done ++ [e])%list. rewrite <- app_assoc. split; [done|].
    apply Forall2_app; [done|]. by apply Forall2_cons_2; [|apply Forall2_nil_2].
  - intros [items|items] t' [<- Hi]; [done|]. apply wp_bind, wp_Sync; [done|]. intros [e|[]]; cbn; [done|].
    split; [done|]. intros _. by apply Hi.
Qed.
End correct.
