(* ===== verification/Store.v ===== *)
(** * The metadata repository: internal/store/sqlite

    A database is four finite maps keyed by the primary keys of the schema; NULL is
    [None].  A query or transaction is a function of the database: an UPDATE changes the
    rows its WHERE clause selects, an INSERT fails on a duplicate key, on a duplicate UNIQUE
    value and on a missing foreign key, and a transaction that fails changes nothing. *)
From S2P Require Import Prelude GoStrings GoTime Errors Code.
Local Open Scope string_scope.

(** Transfer states and segment states *)
Inductive tstate :=
| StateCreated | StateUploading | StateVerifying | StateCommitted | StateExpired
| StateDeleting | StateDeleted | StateFailed | StateAbandoned.
Inductive sstate := SegmentPending | SegmentReceived | SegmentVerified.
Inductive ckind := ClaimRemote | ClaimLocal.

#[export] Instance tstate_eq_dec : EqDecision tstate.
Proof. solve_decision. Defined.
#[export] Instance sstate_eq_dec : EqDecision sstate.
Proof. solve_decision. Defined.
#[export] Instance ckind_eq_dec : EqDecision ckind.
Proof. solve_decision. Defined.

(** States a transfer can still be committed from. *)
Definition precommit (s : tstate) : bool :=
  match s with StateCreated | StateUploading | StateVerifying => true | _ => false end.

(** One row of each table, without its primary key. *)
Record trow := mkTrow {
  c_code : option string; c_state : tstate; c_sender_label : option string; c_created_at : Z;
  c_committed_at : option Z; c_expires_at : option Z; c_requested_ttl_minutes : Z;
  c_note : option string; c_manifest_digest : option string; c_wire_bytes : Z;
  c_materialized_bytes : Z; c_reserved_bytes : Z; c_root_path : string;
  c_last_error_code : option string }.
#[export] Instance trow_eq_dec : EqDecision trow.
Proof. solve_decision. Defined.

Record srow := mkSrow {
  c_upload_id : option string; c_kind : string; c_expected_length : Z; c_received_length : Z;
  c_digest_algorithm : string; c_expected_digest : option string; c_sstate : sstate;
  c_relative_storage_path : string }.
Record crow := mkCrow {
  c_transfer_id : string; c_ckind : ckind; c_claim_created_at : Z; c_lease_until : Z;
  c_completed_at : option Z; c_token_hash : option string }.
Record irow := mkIrow {
  c_operation : string; c_idem_transfer_id : option string; c_response_code : option string;
  c_idem_created_at : Z; c_idem_expires_at : Z; c_request_fingerprint : option string }.

Record DB := mkDB {
  transfers : gmap string trow;
  segments : gmap (string * string) srow;   (* (transfer_id, id) *)
  claims : gmap string crow;
  idempotency_keys : gmap string irow }.

Definition empty_db : DB := mkDB ∅ ∅ ∅ ∅.

(** The Go records *)
Record Transfer := mkTransfer {
  t_ID : string; t_Code : string; t_State : tstate; t_SenderLabel : string; t_CreatedAt : Z;
  t_CommittedAt : Z; t_ExpiresAt : Z; t_RequestedTTLMinutes : Z; t_Note : string;
  t_ManifestDigest : string; t_WireBytes : Z; t_MaterializedBytes : Z; t_ReservedBytes : Z;
  t_RootPath : string; t_LastErrorCode : string }.
Record StoredSegment := mkStored {
  s_ID : string; s_TransferID : string; s_UploadID : string; s_Kind : string;
  s_ExpectedLength : Z; s_ReceivedLength : Z; s_DigestAlgorithm : string;
  s_ExpectedDigest : string; s_State : sstate; s_RelativeStoragePath : string }.
Record Claim := mkClaim {
  k_ID : string; k_TransferID : string; k_Kind : ckind; k_CreatedAt : Z; k_LeaseUntil : Z;
  k_CompletedAt : Z; k_TokenHash : string }.
Record Idempotency := mkIdem {
  i_KeyHash : string; i_Operation : string; i_TransferID : string; i_ResponseCode : string;
  i_CreatedAt : Z; i_ExpiresAt : Z; i_RequestFingerprint : string }.

(** Transfer.Committed *)
Definition Committed_ (t : Transfer) : bool :=
  bool_decide (t_State t = StateCommitted) && negb (t_Code t =? "").

(** nullTime, nullString and the sql.Null* values read back *)
Definition nullTime (t : Z) : option Z := if IsZero t then None else Some (Unix t).
Definition nullString (s : string) : option string := if s =? "" then None else Some s.
Definition from_null (s : option string) : string := default "" s.
Definition time_from_null (t : option Z) : Z :=
  match t with Some s => from_unix s | None => zero_time end.

Definition scanTransfer (id : string) (r : trow) : Transfer :=
  mkTransfer id (from_null (c_code r)) (c_state r) (from_null (c_sender_label r))
    (from_unix (c_created_at r)) (time_from_null (c_committed_at r))
    (time_from_null (c_expires_at r)) (c_requested_ttl_minutes r) (from_null (c_note r))
    (from_null (c_manifest_digest r)) (c_wire_bytes r) (c_materialized_bytes r)
    (c_reserved_bytes r) (c_root_path r) (from_null (c_last_error_code r)).
Definition scanSegment (k : string * string) (r : srow) : StoredSegment :=
  mkStored (snd k) (fst k) (from_null (c_upload_id r)) (c_kind r) (c_expected_length r)
    (c_received_length r) (c_digest_algorithm r) (from_null (c_expected_digest r))
    (c_sstate r) (c_relative_storage_path r).
Definition scanClaim (id : string) (r : crow) : Claim :=
  mkClaim id (c_transfer_id r) (c_ckind r) (from_unix (c_claim_created_at r))
    (from_unix (c_lease_until r)) (time_from_null (c_completed_at r)) (from_null (c_token_hash r)).
Definition scanIdempotency (key : string) (r : irow) : Idempotency :=
  mkIdem key (c_operation r) (from_null (c_idem_transfer_id r)) (from_null (c_response_code r))
    (from_unix (c_idem_created_at r)) (from_unix (c_idem_expires_at r))
    (from_null (c_request_fingerprint r)).

(** Errors of the repository: not found, a stable protocol error, a constraint violation,
    anything else. *)
Inductive serr := SNotFound | SStable (e : ecode) | SUnique | SForeignKey | SOther.
Notation query A := (DB -> serr + A).
Notation txn A := (DB -> (serr + A) * DB).

(** protocol.AsError on them *)
Definition serr_code (e : serr) : ecode := match e with SStable c => c | _ => Internal end.

Definition found {A} (o : option A) : serr + A := match o with Some a => inr a | None => inl SNotFound end.

(** *** Updates of one column, as the statements write them *)
Definition set_transfers (m : gmap string trow) (d : DB) : DB :=
  mkDB m (segments d) (claims d) (idempotency_keys d).
Definition set_segments (m : gmap (string * string) srow) (d : DB) : DB :=
  mkDB (transfers d) m (claims d) (idempotency_keys d).
Definition set_claims (m : gmap string crow) (d : DB) : DB :=
  mkDB (transfers d) (segments d) m (idempotency_keys d).
Definition set_idem (m : gmap string irow) (d : DB) : DB :=
  mkDB (transfers d) (segments d) (claims d) m.

Definition row_state (s : tstate) (r : trow) : trow :=
  mkTrow (c_code r) s (c_sender_label r) (c_created_at r) (c_committed_at r) (c_expires_at r)
    (c_requested_ttl_minutes r) (c_note r) (c_manifest_digest r) (c_wire_bytes r)
    (c_materialized_bytes r) (c_reserved_bytes r) (c_root_path r) (c_last_error_code r).
Definition row_error (e : string) (r : trow) : trow :=
  mkTrow (c_code r) (c_state r) (c_sender_label r) (c_created_at r) (c_committed_at r)
    (c_expires_at r) (c_requested_ttl_minutes r) (c_note r) (c_manifest_digest r)
    (c_wire_bytes r) (c_materialized_bytes r) (c_reserved_bytes r) (c_root_path r) (Some e).
Definition row_note_ttl (note : option string) (ttl : Z) (r : trow) : trow :=
  mkTrow (c_code r) (c_state r) (c_sender_label r) (c_created_at r) (c_committed_at r)
    (c_expires_at r) ttl note (c_manifest_digest r) (c_wire_bytes r)
    (c_materialized_bytes r) (c_reserved_bytes r) (c_root_path r) (c_last_error_code r).
Definition row_wire (n : Z) (r : trow) : trow :=
  mkTrow (c_code r) (c_state r) (c_sender_label r) (c_created_at r) (c_committed_at r)
    (c_expires_at r) (c_requested_ttl_minutes r) (c_note r) (c_manifest_digest r)
    (c_wire_bytes r + n)%Z (c_materialized_bytes r) (c_reserved_bytes r) (c_root_path r) (c_last_error_code r).
Definition row_reserved (n : Z) (r : trow) : trow :=
  mkTrow (c_code r) (c_state r) (c_sender_label r) (c_created_at r) (c_committed_at r)
    (c_expires_at r) (c_requested_ttl_minutes r) (c_note r) (c_manifest_digest r)
    (c_wire_bytes r) (c_materialized_bytes r) n (c_root_path r) (c_last_error_code r).
Definition row_publish (code : string) (committed expires : Z) (digest : string) (bytes : Z) (r : trow) : trow :=
  mkTrow (Some code) StateCommitted (c_sender_label r) (c_created_at r) (Some committed)
    (Some expires) (c_requested_ttl_minutes r) (c_note r) (Some digest) (c_wire_bytes r)
    bytes 0 (c_root_path r) (c_last_error_code r).

Definition update_transfer (id : string) (f : trow -> trow) (d : DB) : DB :=
  set_transfers (alter f id (transfers d)) d.

(** *** Transfers *)

Definition CreateTransfer (t : Transfer) : txn unit := fun d =>
  match transfers d !! t_ID t with
  | Some _ => (inl SUnique, d)
  | None =>
    (inr tt, set_transfers (<[t_ID t :=
      mkTrow None (t_State t) (nullString (t_SenderLabel t)) (Unix (t_CreatedAt t)) None None
        (t_RequestedTTLMinutes t) (nullString (t_Note t)) None (t_WireBytes t)
        (t_MaterializedBytes t) (t_ReservedBytes t) (t_RootPath t) None]> (transfers d)) d)
  end.

Definition GetTransfer (id : string) : query Transfer := fun d =>
  found (scanTransfer id <$> transfers d !! id).

(** [WHERE code = ?]: NULL codes never match. *)
Definition row_by_code (code : string) (d : DB) : option (string * trow) :=
  head (List.filter (fun p => bool_decide (c_code (snd p) = Some code)) (map_to_list (transfers d))).
Definition GetTransferByCode (code : string) : query Transfer := fun d =>
  found ((fun p => scanTransfer (fst p) (snd p)) <$> row_by_code code d).

Definition select_transfers (f : string -> trow -> bool) (d : DB) : list Transfer :=
  map (fun p => scanTransfer (fst p) (snd p))
      (List.filter (fun p => f (fst p) (snd p)) (map_to_list (transfers d))).
Definition ListByState (states : list tstate) : query (list Transfer) := fun d =>
  inr (select_transfers (fun _ r => bool_decide (c_state r ∈ states)) d).
Definition CountByState (states : list tstate) : query Z := fun d =>
  inr (Z.of_nat (length (select_transfers (fun _ r => bool_decide (c_state r ∈ states)) d))).

Definition SetState (id : string) (s : tstate) : txn unit := fun d =>
  (inr tt, update_transfer id (row_state s) d).
Definition Fail (id : string) (errorCode : string) : txn unit := fun d =>
  (inr tt, update_transfer id (fun r => row_error errorCode (row_state StateFailed r)) d).
Definition SetNoteAndTTL (id note : string) (ttl : Z) : txn unit := fun d =>
  (inr tt, update_transfer id (row_note_ttl (nullString note) ttl) d).
Definition AddWireBytes (id : string) (n : Z) : txn unit := fun d =>
  (inr tt, update_transfer id (row_wire n) d).
Definition SetReservation (id : string) (n : Z) : txn unit := fun d =>
  (inr tt, update_transfer id (row_reserved n) d).

(** SUM(reserved_bytes): SQLite raises an error when the sum leaves the int64 range, and
    the sum of no rows is NULL, read as 0. *)
Definition ReservedBytes : query Z := fun d =>
  let sum := foldr (fun p n => (c_reserved_bytes (snd p) + n)%Z) 0%Z
    (List.filter (fun p => precommit (c_state (snd p))) (map_to_list (transfers d))) in
  if ((sum <? min_int64) || (max_int64 <? sum))%Z then inl SOther else inr sum.

(** *** Publish *)

(** [UPDATE transfers SET code = ?, ... WHERE id = ? AND code IS NULL]: the rows affected,
    or a violation of UNIQUE(code). *)
Definition update_code (id code : string) (committed expires : Z) (digest : string) (bytes : Z)
    (d : DB) : (serr + nat) * DB :=
  match transfers d !! id with
  | Some r =>
    match c_code r with
    | Some _ => (inr 0%nat, d)
    | None =>
      match row_by_code code d with
      | Some _ => (inl SUnique, d)
      | None => (inr 1%nat, update_transfer id (row_publish code committed expires digest bytes) d)
      end
    end
  | None => (inr 0%nat, d)
  end.

(** The attempt loop: [bufs] are the buffers crypto/rand fills, one per attempt.  Returns
    the code that was stored. *)
Fixpoint allocate (bufs : list (list Z)) (id : string) (committed expires : Z) (digest : string)
    (bytes : Z) (d : DB) : (serr + string) * DB :=
  match bufs with
  | [] => (inl (SStable Internal), d)
  | buf :: bufs =>
    let canonical := default "" (NormalizeCode (NewCode buf)) in
    match update_code id canonical committed expires digest bytes d with
    | (inl SUnique, _) => allocate bufs id committed expires digest bytes d
    | (inl e, _) => (inl e, d)
    | (inr O, _) => (inl (SStable StateConflict), d)
    | (inr _, d') => (inr canonical, d')
    end
  end.

(** Publish. [bufs] stands for the sixteen attempts. *)
Definition Publish (bufs : list (list Z)) (id : string) (now ttlMinutes : Z) (digest : string)
    (bytes : Z) : txn Transfer := fun d =>
  match transfers d !! id with
  | None => (inl SNotFound, d)
  | Some r =>
    let t := scanTransfer id r in
    if bool_decide (t_State t = StateCommitted) && negb (t_Code t =? "") then (inr t, d) else
    if negb (precommit (t_State t)) then (inl (SStable StateConflict), d) else
    let committedAt := truncate_second now in
    let expiresAt := (committedAt + minutes ttlMinutes)%Z in
    match allocate bufs id (Unix committedAt) (Unix expiresAt) digest bytes d with
    | (inl e, d') => (inl e, d')
    | (inr code, d') =>
      (inr (mkTransfer id code StateCommitted (t_SenderLabel t) (t_CreatedAt t) committedAt expiresAt
              (t_RequestedTTLMinutes t) (t_Note t) digest (t_WireBytes t) bytes
              (t_ReservedBytes t) (t_RootPath t) (t_LastErrorCode t)), d')
    end
  end.

(** *** Segments *)

Definition segment_by_upload (uploadID : string) (d : DB) : option ((string * string) * srow) :=
  head (List.filter (fun p => bool_decide (c_upload_id (snd p) = Some uploadID)) (map_to_list (segments d))).

Definition InsertSegment (s : StoredSegment) : txn unit := fun d =>
  match segments d !! (s_TransferID s, s_ID s) with
  | Some _ => (inl SUnique, d)
  | None =>
    if match nullString (s_UploadID s) with Some u => bool_decide (segment_by_upload u d <> None) | None => false end
    then (inl SUnique, d) else
    match transfers d !! s_TransferID s with
    | None => (inl SForeignKey, d)
    | Some _ =>
      (inr tt, set_segments (<[(s_TransferID s, s_ID s) :=
        mkSrow (nullString (s_UploadID s)) (s_Kind s) (s_ExpectedLength s) (s_ReceivedLength s)
          (s_DigestAlgorithm s) (nullString (s_ExpectedDigest s)) (s_State s)
          (s_RelativeStoragePath s)]> (segments d)) d)
    end
  end.

Definition GetSegmentByUploadID (uploadID : string) : query StoredSegment := fun d =>
  found ((fun p => scanSegment (fst p) (snd p)) <$> segment_by_upload uploadID d).
Definition GetSegment (transferID segmentID : string) : query StoredSegment := fun d =>
  found (scanSegment (transferID, segmentID) <$> segments d !! (transferID, segmentID)).

(** ORDER BY id *)
Fixpoint insert_by_id (s : StoredSegment) (l : list StoredSegment) : list StoredSegment :=
  match l with
  | [] => [s]
  | x :: l' => if slt (s_ID s) (s_ID x) then s :: l else x :: insert_by_id s l'
  end.
Definition ListSegments (transferID : string) : query (list StoredSegment) := fun d =>
  inr (foldr insert_by_id []
    (map (fun p => scanSegment (fst p) (snd p))
      (List.filter (fun p => fst (fst p) =? transferID) (map_to_list (segments d))))).

Definition SetSegmentProgress (transferID id : string) (received : Z) (s : sstate) : txn unit := fun d =>
  (inr tt, set_segments (alter (fun r => mkSrow (c_upload_id r) (c_kind r) (c_expected_length r)
     received (c_digest_algorithm r) (c_expected_digest r) s (c_relative_storage_path r))
     (transferID, id) (segments d)) d).

(** *** Claims *)

Definition CreateClaim (c : Claim) : txn unit := fun d =>
  match claims d !! k_ID c with
  | Some _ => (inl SUnique, d)
  | None =>
    match transfers d !! k_TransferID c with
    | None => (inl SForeignKey, d)
    | Some _ =>
      (inr tt, set_claims (<[k_ID c := mkCrow (k_TransferID c) (k_Kind c) (Unix (k_CreatedAt c))
        (Unix (k_LeaseUntil c)) None (nullString (k_TokenHash c))]> (claims d)) d)
    end
  end.

Definition GetClaim (id : string) : query Claim := fun d => found (scanClaim id <$> claims d !! id).

Definition RenewClaim (id : string) (leaseUntil : Z) : txn unit := fun d =>
  (inr tt, set_claims (alter (fun r =>
     match c_completed_at r with
     | None => mkCrow (c_transfer_id r) (c_ckind r) (c_claim_created_at r) (Unix leaseUntil) None (c_token_hash r)
     | Some _ => r
     end) id (claims d)) d).

Definition CompleteClaim (id : string) (at_ : Z) : txn unit := fun d =>
  (inr tt, set_claims (alter (fun r =>
     mkCrow (c_transfer_id r) (c_ckind r) (c_claim_created_at r) (c_lease_until r)
       (Some (Unix at_)) (c_token_hash r)) id (claims d)) d).

(** completed_at IS NULL AND lease_until > ? *)
Definition active (now : Z) (r : crow) : bool :=
  match c_completed_at r with None => (Unix now <? c_lease_until r)%Z | Some _ => false end.
Definition active_claims (now : Z) (f : crow -> bool) (d : DB) : list (string * crow) :=
  List.filter (fun p => f (snd p) && active now (snd p)) (map_to_list (claims d)).

Definition ActiveClaimCount (transferID : string) (now : Z) : query Z := fun d =>
  inr (Z.of_nat (length (active_claims now (fun r => c_transfer_id r =? transferID) d))).
Definition TotalActiveClaims (now : Z) : query Z := fun d =>
  inr (Z.of_nat (length (active_claims now (fun _ => true) d))).

(** *** Expiry *)

Definition due (now : Z) (r : trow) : bool :=
  bool_decide (c_state r = StateCommitted) &&
  match c_expires_at r with Some e => (e <=? Unix now)%Z | None => false end.

Definition ExpireDue (now : Z) : txn Z := fun d =>
  (inr (Z.of_nat (length (List.filter (fun p => due now (snd p)) (map_to_list (transfers d))))),
   set_transfers ((fun r => if due now r then row_state StateExpired r else r) <$> transfers d) d).

Definition terminal (s : tstate) : bool :=
  match s with StateExpired | StateFailed | StateAbandoned => true | _ => false end.

Definition UnpinnedExpired (now : Z) : query (list Transfer) := fun d =>
  inr (select_transfers (fun id r => terminal (c_state r) &&
    bool_decide (active_claims now (fun c => c_transfer_id c =? id) d = [])) d).

Definition StaleStaging (before : Z) : query (list Transfer) := fun d =>
  inr (select_transfers (fun _ r => precommit (c_state r) && (c_created_at r <? Unix before)%Z) d).

Definition Purge (id : string) : txn unit := fun d =>
  (inr tt, mkDB (delete id (transfers d))
     (filter (fun p => fst (fst p) <> id) (segments d))
     (filter (fun p => c_transfer_id (snd p) <> id) (claims d))
     (filter (fun p => c_idem_transfer_id (snd p) <> Some id) (idempotency_keys d))).

Definition AllTransferIDs : query (gmap string tstate) := fun d => inr (c_state <$> transfers d).

(** *** Idempotency *)

Definition RememberIdempotency (rec : Idempotency) : txn (option Idempotency) := fun d =>
  match idempotency_keys d !! i_KeyHash rec with
  | Some prev => (inr (Some (scanIdempotency (i_KeyHash rec) prev)), d)
  | None =>
    (inr None, set_idem (<[i_KeyHash rec := mkIrow (i_Operation rec) (nullString (i_TransferID rec))
       (nullString (i_ResponseCode rec)) (Unix (i_CreatedAt rec)) (Unix (i_ExpiresAt rec))
       (nullString (i_RequestFingerprint rec))]> (idempotency_keys d)) d)
  end.

Definition LookupIdempotency (keyHash : string) : query Idempotency := fun d =>
  found (scanIdempotency keyHash <$> idempotency_keys d !! keyHash).

Definition CompleteIdempotency (keyHash transferID responseCode : string) : txn unit := fun d =>
  (inr tt, set_idem (alter (fun r => mkIrow (c_operation r) (nullString transferID)
     (nullString responseCode) (c_idem_created_at r) (c_idem_expires_at r) (c_request_fingerprint r))
     keyHash (idempotency_keys d)) d).

Definition ForgetIdempotency (keyHash : string) : txn unit := fun d =>
  (inr tt, set_idem (delete keyHash (idempotency_keys d)) d).

Definition PurgeExpiredIdempotency (now : Z) : txn unit := fun d =>
  (inr tt, set_idem (filter (fun p => (Unix now < c_idem_expires_at (snd p))%Z) (idempotency_keys d)) d).

(** ** The repository's invariant *)

Definition row_ok (r : trow) : Prop :=
  (forall c, c_code r = Some c -> canonical c = true) /\
  (c_state r = StateCommitted -> is_Some (c_code r) /\ is_Some (c_committed_at r) /\ is_Some (c_expires_at r)) /\
  (c_code r = None <-> c_committed_at r = None).

Record db_ok (d : DB) : Prop := {
  rows_ok : map_Forall (fun _ r => row_ok r) (transfers d);
  codes_unique i j ri rj c : transfers d !! i = Some ri -> transfers d !! j = Some rj ->
    c_code ri = Some c -> c_code rj = Some c -> i = j;
  uploads_unique i j ri rj u : segments d !! i = Some ri -> segments d !! j = Some rj ->
    c_upload_id ri = Some u -> c_upload_id rj = Some u -> i = j;
  segments_fk : map_Forall (fun k _ => is_Some (transfers d !! fst k)) (segments d);
  claims_fk : map_Forall (fun _ c => is_Some (transfers d !! c_transfer_id c)) (claims d) }.

(** The writing operations. *)
Inductive write :=
| WCreateTransfer (t : Transfer) | WSetState (id : string) (s : tstate) | WFail (id e : string)
| WSetNoteAndTTL (id note : string) (ttl : Z) | WAddWireBytes (id : string) (n : Z)
| WSetReservation (id : string) (n : Z)
| WPublish (bufs : list (list Z)) (id : string) (now ttl : Z) (digest : string) (bytes : Z)
| WInsertSegment (s : StoredSegment) | WSetSegmentProgress (t id : string) (n : Z) (s : sstate)
| WCreateClaim (c : Claim) | WRenewClaim (id : string) (until : Z) | WCompleteClaim (id : string) (at_ : Z)
| WExpireDue (now : Z) | WPurge (id : string) | WRemember (rec : Idempotency)
| WCompleteIdempotency (k t c : string) | WForgetIdempotency (k : string)
| WPurgeExpiredIdempotency (now : Z).

Definition apply_write (w : write) (d : DB) : DB :=
  match w with
  | WCreateTransfer t => snd (CreateTransfer t d)
  | WSetState id s => snd (SetState id s d)
  | WFail id e => snd (Fail id e d)
  | WSetNoteAndTTL id n ttl => snd (SetNoteAndTTL id n ttl d)
  | WAddWireBytes id n => snd (AddWireBytes id n d)
  | WSetReservation id n => snd (SetReservation id n d)
  | WPublish bufs id now ttl dg b => snd (Publish bufs id now ttl dg b d)
  | WInsertSegment s => snd (InsertSegment s d)
  | WSetSegmentProgress t id n s => snd (SetSegmentProgress t id n s d)
  | WCreateClaim c => snd (CreateClaim c d)
  | WRenewClaim id u => snd (RenewClaim id u d)
  | WCompleteClaim id a => snd (CompleteClaim id a d)
  | WExpireDue now => snd (ExpireDue now d)
  | WPurge id => snd (Purge id d)
  | WRemember rec => snd (RememberIdempotency rec d)
  | WCompleteIdempotency k t c => snd (CompleteIdempotency k t c d)
  | WForgetIdempotency k => snd (ForgetIdempotency k d)
  | WPurgeExpiredIdempotency now => snd (PurgeExpiredIdempotency now d)
  end.

(** How the program calls them: rows start pre-commit, only Publish writes COMMITTED, and
    a code is drawn from eight random bytes. *)
Definition allowed_write (w : write) : Prop :=
  match w with
  | WCreateTransfer t => precommit (t_State t) = true
  | WSetState _ s => s <> StateCommitted
  | WPublish bufs _ _ _ _ _ => Forall (fun b => length b = 8%nat) bufs
  | _ => True
  end.

(** ** Lemmas *)

Lemma found_inr {A} (o : option A) a : found o = inr a <-> o = Some a.
Proof. destruct o; cbn; split; congruence. Qed.

Lemma update_transfer_lookup id f d j :
  transfers (update_transfer id f d) !! j = if decide (id = j) then f <$> transfers d !! j else transfers d !! j.
Proof.
  cbn. destruct (decide (id = j)) as [->|]; [by rewrite lookup_alter_eq|by rewrite lookup_alter_ne].
Qed.

(** Changing rows in place without touching their codes. *)
Lemma db_ok_map (f : string -> trow -> trow) (d : DB) m :
  (forall i, m !! i = f i <$> transfers d !! i) ->
  (forall i r, c_code (f i r) = c_code r /\ c_committed_at (f i r) = c_committed_at r /\
     c_expires_at (f i r) = c_expires_at r /\ (c_state (f i r) = StateCommitted -> c_state r = StateCommitted)) ->
  db_ok d -> db_ok (set_transfers m d).
Proof.
  intros Hm Hf [H1 H2 H3 H4 H5]. split; cbn.
  - intros i r Hi. rewrite Hm in Hi. apply fmap_Some in Hi as (r0 & Hr0 & ->).
    destruct (Hf i r0) as (E1 & E2 & E3 & E4). destruct (H1 i r0 Hr0) as (A & B & C).
    unfold row_ok. rewrite E1, E2, E3. auto.
  - intros i j ri rj c Hi Hj. rewrite Hm in Hi, Hj.
    apply fmap_Some in Hi as (ri0 & Hri & ->). apply fmap_Some in Hj as (rj0 & Hrj & ->).
    rewrite (proj1 (Hf i ri0)), (proj1 (Hf j rj0)). by apply H2.
  - done.
  - intros k s Hk. rewrite Hm. by apply fmap_is_Some, (H4 k s).
  - intros k c Hk. rewrite Hm. by apply fmap_is_Some, (H5 k c).
Qed.

Lemma db_ok_update id f d :
  (forall r, c_code (f r) = c_code r /\ c_committed_at (f r) = c_committed_at r /\
     c_expires_at (f r) = c_expires_at r /\ (c_state (f r) = StateCommitted -> c_state r = StateCommitted)) ->
  db_ok d -> db_ok (update_transfer id f d).
Proof.
  intros Hf. apply (db_ok_map (fun i r => if decide (id = i) then f r else r)).
  - intros i. destruct (decide (id = i)) as [->|]; [by rewrite lookup_alter_eq|].
    rewrite lookup_alter_ne by done. by destruct (transfers d !! i).
  - intros i r. by destruct (decide (id = i)).
Qed.

Lemma row_by_code_Some code d i r : row_by_code code d = Some (i, r) ->
  transfers d !! i = Some r /\ c_code r = Some code.
Proof.
  unfold row_by_code. intros H. apply head_Some_elem_of in H.
  rewrite list_elem_of_In, filter_In, <- list_elem_of_In in H. destruct H as [Hin Hc].
  apply elem_of_map_to_list in Hin. by apply bool_decide_eq_true in Hc.
Qed.

Lemma row_by_code_None code d i r : row_by_code code d = None -> transfers d !! i = Some r ->
  c_code r <> Some code.
Proof.
  unfold row_by_code. intros H Hi Hc.
  assert (Hin : (i, r) ∈ List.filter (fun p => bool_decide (c_code (snd p) = Some code)) (map_to_list (transfers d))).
  { rewrite list_elem_of_In, filter_In, <- list_elem_of_In, elem_of_map_to_list. split; [done|]. by apply bool_decide_eq_true. }
  destruct (List.filter _ _); [by apply elem_of_nil in Hin|done].
Qed.

Lemma update_code_spec id code a e dg b d r d' : update_code id code a e dg b d = (r, d') ->
  match r with
  | inl er => d' = d /\ er = SUnique
  | inr O => d' = d
  | inr (S _) => exists row, transfers d !! id = Some row /\ c_code row = None /\
      (forall i ri, transfers d !! i = Some ri -> c_code ri <> Some code) /\
      d' = update_transfer id (row_publish code a e dg b) d
  end.
Proof.
  unfold update_code. destruct (transfers d !! id) as [row|] eqn:Er; [|by intros [= <- <-]].
  destruct (c_code row) eqn:Ec; [by intros [= <- <-]|].
  destruct (row_by_code code d) eqn:Eb; intros [= <- <-]; [done|]. exists row.
  split_and!; [done|done| |done]. intros i ri. by apply row_by_code_None.
Qed.

(** What the attempts achieve: nothing, or one fresh canonical code on the row. *)
Lemma allocate_spec bufs id a e dg b d r d' :
  Forall (fun buf => length buf = 8%nat) bufs -> allocate bufs id a e dg b d = (r, d') ->
  match r with
  | inl _ => d' = d
  | inr code => canonical code = true /\ exists row, transfers d !! id = Some row /\ c_code row = None /\
      (forall i ri, transfers d !! i = Some ri -> c_code ri <> Some code) /\
      d' = update_transfer id (row_publish code a e dg b) d
  end.
Proof.
  intros Hb. induction Hb as [|buf bufs Hlen _ IH]; cbn; [by intros [= <- <-]|].
  destruct (NewCode_canonical buf Hlen) as (c & Hc & ->).
  rewrite (proj1 (NormalizeCode_FormatCode c Hc)). cbn.
  destruct (update_code id c a e dg b d) as [[er|[|n]] d1] eqn:E; apply update_code_spec in E.
  - destruct E as [-> ->]. done.
  - by intros [= <- <-].
  - intros [= <- <-]. split; [done|]. destruct E as (row & ?). by exists row.
Qed.

Lemma db_ok_publish id code a e dg b d row : db_ok d -> canonical code = true ->
  transfers d !! id = Some row -> (forall i ri, transfers d !! i = Some ri -> c_code ri <> Some code) ->
  db_ok (update_transfer id (row_publish code a e dg b) d).
Proof.
  intros [H1 H2 H3 H4 H5] Hc Hrow Hfresh.
  assert (Hl : forall i r, transfers (update_transfer id (row_publish code a e dg b) d) !! i = Some r ->
    exists r0, transfers d !! i = Some r0 /\ (i = id /\ r = row_publish code a e dg b r0 \/ i <> id /\ r = r0)).
  { intros i r. rewrite update_transfer_lookup. destruct (decide (id = i)) as [->|Hne].
    - intros (r0 & Hr0 & ->)%fmap_Some. eauto.
    - intros Hr. exists r. auto. }
  split.
  - intros i r Hi. destruct (Hl i r Hi) as (r0 & Hr0 & [[-> ->]|[_ ->]]); [|by apply (H1 i)].
    unfold row_ok. cbn. split_and!; [by intros ? [= <-]|eauto|done].
  - intros i j ri rj c Hi Hj Hci Hcj.
    destruct (Hl i ri Hi) as (i0 & Hi0 & [[-> ->]|[Hni ->]]), (Hl j rj Hj) as (j0 & Hj0 & [[-> ->]|[Hnj ->]]); cbn in *; simplify_eq.
    + done.
    + by apply Hfresh in Hj0.
    + by apply Hfresh in Hi0.
    + by eapply H2.
  - done.
  - intros k s Hk. rewrite update_transfer_lookup. destruct (H4 k s Hk) as [x Hx]. rewrite Hx.
    destruct (decide _); cbn; eauto.
  - intros k s Hk. rewrite update_transfer_lookup. destruct (H5 k s Hk) as [x Hx]. rewrite Hx.
    destruct (decide _); cbn; eauto.
Qed.

Lemma Publish_spec bufs id now ttl dg b d r d' :
  Forall (fun buf => length buf = 8%nat) bufs -> Publish bufs id now ttl dg b d = (r, d') ->
  match r with
  | inl _ => d' = d
  | inr t => exists row, transfers d !! id = Some row /\ t_ID t = id /\ t_State t = StateCommitted /\
      ((c_state row = StateCommitted /\ t = scanTransfer id row /\ t_Code t <> "" /\ d' = d) \/
       (precommit (c_state row) = true /\ c_code row = None /\ canonical (t_Code t) = true /\
        (forall i ri, transfers d !! i = Some ri -> c_code ri <> Some (t_Code t)) /\
        t_CommittedAt t = from_unix (Unix now) /\
        t_ExpiresAt t = (from_unix (Unix now) + minutes ttl)%Z /\
        d' = update_transfer id (row_publish (t_Code t) (Unix now)
               (Unix (from_unix (Unix now) + minutes ttl)) dg b) d))
  end.
Proof.
  intros Hb. unfold Publish. destruct (transfers d !! id) as [row|] eqn:Er; [|by intros [= <- <-]].
  destruct (bool_decide_reflect (t_State (scanTransfer id row) = StateCommitted)) as [Hc|Hc]; cbn [andb].
  - destruct (String.eqb_spec (t_Code (scanTransfer id row)) "") as [Hcode|Hcode]; cbn [negb].
    + rewrite Hc. cbn. by intros [= <- <-].
    + intros [= <- <-]. exists row. split_and!; [done|done|done|]. left. by cbn in Hc.
  - cbn [scanTransfer t_State]. destruct (precommit (c_state row)) eqn:Hp; cbn [negb]; [|by intros [= <- <-]].
    rewrite truncate_second_unix, Unix_from_unix.
    destruct (allocate _ _ _ _ _ _ _) as [[er|code] d1] eqn:Ea; apply allocate_spec in Ea; try done.
    { by intros [= <- <-]. }
    intros [= <- <-]. destruct Ea as (Hcan & row' & Hrow & Hnone & Hfresh & ->).
    assert (row' = row) as -> by congruence.
    exists row. split_and!; [done|done|done|]. right. by split_and!.
Qed.

Lemma db_ok_create t d : db_ok d -> precommit (t_State t) = true -> db_ok (snd (CreateTransfer t d)).
Proof.
  intros Hd Hw. unfold CreateTransfer. destruct (transfers d !! t_ID t) eqn:E; [done|].
  destruct Hd as [H1 H2 H3 H4 H5]. split; cbn; [| |done| |].
  - apply map_Forall_insert_2; [|done]. unfold row_ok. cbn. split_and!; [done| |done].
    intros Hs. by rewrite Hs in Hw.
  - intros i j ri rj c Hi Hj. rewrite lookup_insert in Hi. rewrite lookup_insert in Hj.
    destruct (decide _) as [<-|], (decide _) as [<-|]; simplify_eq/=; try done. by apply H2.
  - intros k s Hk. rewrite lookup_insert. destruct (decide _); [eauto|]. by apply (H4 k s).
  - intros k s Hk. rewrite lookup_insert. destruct (decide _); [eauto|]. by apply (H5 k s).
Qed.

Lemma segment_by_upload_None u d i r : segment_by_upload u d = None -> segments d !! i = Some r ->
  c_upload_id r <> Some u.
Proof.
  unfold segment_by_upload. intros H Hi Hc.
  assert (Hin : (i, r) ∈ List.filter (fun p => bool_decide (c_upload_id (snd p) = Some u)) (map_to_list (segments d))).
  { rewrite list_elem_of_In, filter_In, <- list_elem_of_In, elem_of_map_to_list. split; [done|]. by apply bool_decide_eq_true. }
  destruct (List.filter _ _); [by apply elem_of_nil in Hin|done].
Qed.

(** Replacing or adding one segment row whose upload ID is new or the row's own. *)
Lemma db_ok_segment k row d : db_ok d -> is_Some (transfers d !! fst k) ->
  (forall i ri u, segments d !! i = Some ri -> c_upload_id row = Some u -> c_upload_id ri = Some u -> i = k) ->
  db_ok (set_segments (<[k := row]> (segments d)) d).
Proof.
  intros [H1 H2 H3 H4 H5] Ht Hfresh. split; cbn; [done|done| | |done].
  - intros i j ri rj u Hi Hj Hui Huj. rewrite lookup_insert in Hi. rewrite lookup_insert in Hj.
    destruct (decide _) as [<-|], (decide _) as [<-|]; simplify_eq; try done.
    + symmetry. eauto.
    + eauto.
    + by eapply H3.
  - by apply map_Forall_insert_2.
Qed.

Lemma db_ok_insert_segment s d : db_ok d -> db_ok (snd (InsertSegment s d)).
Proof.
  intros Hd. unfold InsertSegment. destruct (segments d !! _) eqn:E; [done|].
  destruct (nullString (s_UploadID s)) as [u|] eqn:Eu.
  - destruct (bool_decide_reflect (segment_by_upload u d <> None)) as [Hn|Hn]; [done|].
    destruct (transfers d !! s_TransferID s) eqn:Et; [|done]. apply db_ok_segment; [done|by cbn; rewrite Et|].
    cbn. intros i ri u' Hi [= <-] Hu. exfalso.
    destruct (segment_by_upload u d) eqn:Es; [by destruct Hn|]. by eapply segment_by_upload_None.
  - destruct (transfers d !! s_TransferID s) eqn:Et; [|done]. apply db_ok_segment; [done|by cbn; rewrite Et|].
    by cbn.
Qed.

Lemma alter_in {K A} `{Countable K} (m : gmap K A) (f : A -> A) k x :
  m !! k = Some x -> alter f k m = <[k := f x]> m.
Proof.
  intros Hx. apply map_eq. intros j. rewrite lookup_alter, lookup_insert.
  destruct (decide _); [by rewrite Hx|done].
Qed.
Lemma alter_not_in {K A} `{Countable K} (m : gmap K A) (f : A -> A) k :
  m !! k = None -> alter f k m = m.
Proof.
  intros Hx. apply map_eq. intros j. rewrite lookup_alter.
  destruct (decide _) as [<-|]; [by rewrite Hx|done].
Qed.

Lemma db_ok_progress t id n s d : db_ok d -> db_ok (snd (SetSegmentProgress t id n s d)).
Proof.
  intros Hd. unfold SetSegmentProgress. cbn [snd].
  destruct (segments d !! (t, id)) as [r|] eqn:E.
  - rewrite (alter_in _ _ _ r) by done. apply db_ok_segment; [done|by apply (segments_fk d Hd _ _ E)|].
    cbn. intros i ri u Hi Hu Hu'. by eapply (uploads_unique d Hd).
  - rewrite alter_not_in by done. by destruct d.
Qed.

Lemma db_ok_set_claims m d : db_ok d ->
  (forall k c, m !! k = Some c -> is_Some (transfers d !! c_transfer_id c)) -> db_ok (set_claims m d).
Proof. intros [H1 H2 H3 H4 H5] Hm. by split. Qed.

Lemma db_ok_create_claim c d : db_ok d -> db_ok (snd (CreateClaim c d)).
Proof.
  intros Hd. unfold CreateClaim. destruct (claims d !! k_ID c) eqn:E; [done|].
  destruct (transfers d !! k_TransferID c) eqn:Et; [|done]. apply db_ok_set_claims; [done|].
  intros k r. rewrite lookup_insert. destruct (decide _); [|by apply (claims_fk d Hd)].
  intros [= <-]. cbn. by rewrite Et.
Qed.

Lemma db_ok_alter_claim id f d : db_ok d -> (forall r, c_transfer_id (f r) = c_transfer_id r) ->
  db_ok (set_claims (alter f id (claims d)) d).
Proof.
  intros Hd Hf. apply db_ok_set_claims; [done|]. intros k r. rewrite lookup_alter.
  destruct (decide _); [|by apply (claims_fk d Hd)]. intros (r0 & Hr0 & ->)%fmap_Some.
  rewrite Hf. by eapply (claims_fk d Hd).
Qed.

Lemma db_ok_purge id d : db_ok d -> db_ok (snd (Purge id d)).
Proof.
  intros [H1 H2 H3 H4 H5]. split; cbn.
  - by apply map_Forall_delete.
  - intros i j ri rj c Hi Hj. apply lookup_delete_Some in Hi as [_ Hi], Hj as [_ Hj]. by eapply H2.
  - intros i j ri rj c Hi Hj. apply map_lookup_filter_Some in Hi as [Hi _], Hj as [Hj _]. by eapply H3.
  - intros k s Hk. apply map_lookup_filter_Some in Hk as [Hk Hne]. rewrite lookup_delete_ne by done. by eapply H4.
  - intros k s Hk. apply map_lookup_filter_Some in Hk as [Hk Hne]. rewrite lookup_delete_ne by done. by eapply H5.
Qed.

Lemma db_ok_set_idem m d : db_ok d -> db_ok (set_idem m d).
Proof. intros [H1 H2 H3 H4 H5]. by split. Qed.

Lemma db_ok_expire now d : db_ok d -> db_ok (snd (ExpireDue now d)).
Proof.
  intros Hd. apply (db_ok_map (fun _ r => if due now r then row_state StateExpired r else r)); [|intros i r|done].
  - intros i. apply lookup_fmap.
  - by destruct (due now r).
Qed.

Lemma db_ok_do_publish bufs id now ttl dg b d : db_ok d -> Forall (fun buf => length buf = 8%nat) bufs ->
  db_ok (snd (Publish bufs id now ttl dg b d)).
Proof.
  intros Hd Hb. destruct (Publish bufs id now ttl dg b d) as [r d'] eqn:E.
  apply Publish_spec in E; [|done]. cbn. destruct r as [er|t]; [by subst|].
  destruct E as (row & Hrow & _ & _ & [(_ & _ & _ & ->)|(_ & _ & Hcan & Hfresh & _ & _ & ->)]); [done|].
  by eapply db_ok_publish.
Qed.

Lemma db_ok_write w d : db_ok d -> allowed_write w -> db_ok (apply_write w d).
Proof.
  intros Hd Hw. destruct w; cbn [apply_write allowed_write] in *;
    auto using db_ok_create, db_ok_do_publish, db_ok_insert_segment, db_ok_progress,
      db_ok_create_claim, db_ok_expire, db_ok_purge, db_ok_set_idem.
  - by apply db_ok_update.
  - by apply db_ok_update.
  - by apply db_ok_update.
  - by apply db_ok_update.
  - by apply db_ok_update.
  - apply db_ok_alter_claim; [done|]. intros r. by destruct (c_completed_at r).
  - by apply db_ok_alter_claim.
  - unfold RememberIdempotency. destruct (_ !! _); [done|]. by apply db_ok_set_idem.
  - by apply db_ok_set_idem.
  - by apply db_ok_set_idem.
  - by apply db_ok_set_idem.
Qed.

Lemma empty_db_ok : db_ok empty_db.
Proof. split; cbn; try apply map_Forall_empty; intros ? ? ? ? ? Hi; by rewrite lookup_empty in Hi. Qed.

(** ** Properties *)

(** C24 (repository invariant): however the server's transactions are sequenced, every
    stored code is canonical and belongs to one transfer, every COMMITTED row carries a
    code and both instants, upload IDs are unique, and segments and claims refer to
    existing transfers. *)
Theorem store_invariant ws : Forall allowed_write ws -> db_ok (foldl (fun d w => apply_write w d) empty_db ws).
Proof.
  intros Hws. assert (G : forall d, db_ok d -> db_ok (foldl (fun d w => apply_write w d) d ws)).
  { induction Hws as [|w ws Hw _ IH]; intros d Hd; cbn; [done|]. by apply IH, db_ok_write. }
  apply G, empty_db_ok.
Qed.

Definition example_transfer : Transfer :=
  mkTransfer "t-aa" "" StateCreated "" 0 zero_time zero_time 30 "hello" "" 0 0 0 "/srv/staging/t-aa" "".
Definition example_bufs : list (list Z) := replicate 16 [1; 2; 3; 4; 5; 6; 7; 8]%Z.

Lemma store_invariant_witness :
  db_ok (foldl (fun d w => apply_write w d) empty_db
    [WCreateTransfer example_transfer; WPublish example_bufs "t-aa" (5 * second)%Z 30 "d" 7; WPurge "t-aa"]).
Proof. apply store_invariant. repeat constructor. Defined.

Lemma row_by_code_unique d id r code : db_ok d -> transfers d !! id = Some r -> c_code r = Some code ->
  row_by_code code d = Some (id, r).
Proof.
  intros Hd Hr Hc. destruct (row_by_code code d) as [[i ri]|] eqn:E.
  - apply row_by_code_Some in E as [Hi Hci]. assert (i = id) as -> by (by eapply (codes_unique d Hd)). congruence.
  - by destruct (row_by_code_None _ _ _ _ E Hr).
Qed.

Lemma canonical_not_empty c : canonical c = true -> c <> "".
Proof. by intros Hc ->. Qed.

(** The row a successful Publish leaves. *)
Lemma published_row id row t now ttl dg b d' (d : DB) : (0 <= ttl <= 3000)%Z -> transfers d !! id = Some row ->
  (c_state row = StateCommitted /\ t = scanTransfer id row /\ t_Code t <> "" /\ d' = d) \/
  (precommit (c_state row) = true /\ c_code row = None /\ canonical (t_Code t) = true /\
   (forall i ri, transfers d !! i = Some ri -> c_code ri <> Some (t_Code t)) /\
   t_CommittedAt t = from_unix (Unix now) /\ t_ExpiresAt t = (from_unix (Unix now) + minutes ttl)%Z /\
   d' = update_transfer id (row_publish (t_Code t) (Unix now)
          (Unix (from_unix (Unix now) + minutes ttl)) dg b) d) ->
  exists row', transfers d' !! id = Some row' /\ c_state row' = StateCommitted /\
    c_code row' = Some (t_Code t) /\ t_Code t <> "" /\
    time_from_null (c_committed_at row') = t_CommittedAt t /\ time_from_null (c_expires_at row') = t_ExpiresAt t.
Proof.
  intros Httl Hrow [(Hc & -> & Hne & ->)|(Hp & Hn & Hcan & Hf & Hca & Hex & ->)].
  - exists row. split_and!; try done. cbn in *. unfold from_null in *. by destruct (c_code row).
  - eexists. split; [by rewrite update_transfer_lookup, decide_True, Hrow|]. cbn.
    split_and!; [done|done|by apply canonical_not_empty|done|].
    rewrite Hex, minutes_small by done. replace (ttl * minute)%Z with ((ttl * 60) * second)%Z by (unfold minute; lia).
    by rewrite from_unix_add, Unix_from_unix.
Qed.

(** Publication: a transaction that returns a transfer makes its code resolve to that
    transfer, COMMITTED and with the returned instants, and touches no other row; the first
    publication gives a pre-commit row a canonical code no row carried, commits it at the
    whole second of the clock and lets it expire the requested minutes later; and
    publishing again, at any time and with any arguments, changes nothing and returns the
    same code and instants. *)
Theorem Publish_correct bufs id now ttl dg b d t d' :
  db_ok d -> Forall (fun buf => length buf = 8%nat) bufs -> (0 <= ttl <= 3000)%Z ->
  Publish bufs id now ttl dg b d = (inr t, d') ->
  (exists t', GetTransferByCode (t_Code t) d' = inr t' /\ t_ID t' = id /\ t_State t' = StateCommitted /\
     t_CommittedAt t' = t_CommittedAt t /\ t_ExpiresAt t' = t_ExpiresAt t) /\
  (forall j, j <> id -> transfers d' !! j = transfers d !! j) /\
  (forall row, transfers d !! id = Some row -> c_state row <> StateCommitted ->
     precommit (c_state row) = true /\ canonical (t_Code t) = true /\
     (forall j rj, transfers d !! j = Some rj -> c_code rj <> Some (t_Code t)) /\
     t_CommittedAt t = truncate_second now /\ t_ExpiresAt t = (t_CommittedAt t + ttl * minute)%Z) /\
  (forall bufs' now' ttl' dg' b', exists t', Publish bufs' id now' ttl' dg' b' d' = (inr t', d') /\
     t_Code t' = t_Code t /\ t_CommittedAt t' = t_CommittedAt t /\ t_ExpiresAt t' = t_ExpiresAt t).
Proof.
  intros Hd Hb Httl HP. pose proof (db_ok_do_publish bufs id now ttl dg b d Hd Hb) as Hd'. rewrite HP in Hd'. cbn in Hd'.
  apply Publish_spec in HP as (row & Hrow & Hid & Hst & Hcase); [|done].
  destruct (published_row _ _ _ _ _ _ _ _ _ Httl Hrow Hcase) as (row' & Hr' & Hs' & Hc' & Hne & Hca & Hex).
  split_and!.
  - exists (scanTransfer id row'). unfold GetTransferByCode.
    rewrite (row_by_code_unique d' id row') by done. by split_and!.
  - intros j Hj. destruct Hcase as [(_ & _ & _ & ->)|(_ & _ & _ & _ & _ & _ & ->)]; [done|].
    by rewrite update_transfer_lookup, decide_False.
  - intros row0 Hrow0 Hs0. assert (row0 = row) as -> by congruence.
    destruct Hcase as [(Hs & _)|(Hp & _ & Hcan & Hf & Hca' & Hex' & _)]; [done|].
    rewrite truncate_second_unix, Hex', Hca', minutes_small by done. by split_and!.
  - intros bufs' now' ttl' dg' b'. exists (scanTransfer id row'). unfold Publish. rewrite Hr'.
    cbn [scanTransfer t_State t_Code t_CommittedAt t_ExpiresAt]. rewrite Hs', Hc'. change (from_null (Some (t_Code t))) with (t_Code t).
    rewrite bool_decide_eq_true_2 by done. apply String.eqb_neq in Hne. rewrite Hne. by split_and!.
Qed.

Lemma Publish_correct_witness :
  let d := apply_write (WCreateTransfer example_transfer) empty_db in
  exists t d', Publish example_bufs "t-aa" (5 * second)%Z 30 "d" 7 d = (inr t, d') /\
  exists t', GetTransferByCode (t_Code t) d' = inr t' /\ t_ID t' = "t-aa" /\ t_State t' = StateCommitted /\
     t_CommittedAt t' = t_CommittedAt t /\ t_ExpiresAt t' = t_ExpiresAt t.
Proof.
  intros d. destruct (Publish example_bufs "t-aa" (5 * second)%Z 30 "d" 7 d) as [[e|t] d'] eqn:E; [vm_compute in E; done|].
  exists t, d'. split; [reflexivity|].
  apply (Publish_correct example_bufs "t-aa" (5 * second)%Z 30 "d" 7 d t d'); [|repeat constructor|lia|exact E].
  apply (db_ok_write (WCreateTransfer example_transfer)); [apply empty_db_ok|done].
Defined.

(** Expiry: ExpireDue moves to EXPIRED exactly the COMMITTED rows whose instant has
    come, reports how many rows it changed, and alters nothing else of any row, so an
    expired code still resolves to its own transfer. *)
Theorem ExpireDue_exact now (d : DB) :
  let '(res, d') := ExpireDue now d in
  dom (transfers d') = dom (transfers d) /\
  (forall id r, transfers d !! id = Some r ->
     let expired := c_state r = StateCommitted /\ exists e, c_expires_at r = Some e /\ (e <= Unix now)%Z in
     (expired -> transfers d' !! id = Some (row_state StateExpired r)) /\
     (~ expired -> transfers d' !! id = Some r)) /\
  res = inr (Z.of_nat (length (List.filter (fun p => bool_decide (transfers d' !! fst p <> Some (snd p)))
                                           (map_to_list (transfers d))))) /\
  segments d' = segments d /\ claims d' = claims d /\ idempotency_keys d' = idempotency_keys d.
Proof.
  assert (Hdue : forall r, due now r = true <->
    (c_state r = StateCommitted /\ exists e, c_expires_at r = Some e /\ (e <= Unix now)%Z)).
  { intros r. unfold due. rewrite andb_true_iff, bool_decide_eq_true. destruct (c_expires_at r) as [e|].
    - rewrite Z.leb_le. naive_solver.
    - naive_solver. }
  unfold ExpireDue. cbn. split_and!; try done.
  - apply dom_fmap_L.
  - intros id r Hr. rewrite lookup_fmap, Hr. cbn. rewrite <- Hdue. by destruct (due now r).
  - do 3 f_equal. apply filter_ext_in. intros [id r] Hin. apply list_elem_of_In, elem_of_map_to_list in Hin.
    cbn. rewrite lookup_fmap, Hin. cbn. specialize (Hdue r). destruct (due now r); symmetry.
    + apply bool_decide_eq_true. intros E. injection E as E. apply (f_equal c_state) in E. cbn in E.
      destruct Hdue as [[Hs _] _]; [done|]. congruence.
    + apply bool_decide_eq_false. tauto.
Qed.
