(* ===== verification/Config.v ===== *)
(** * Server configuration: internal/config/server.go

    The TOML decoder is outside; [Validate] is the contract every loaded configuration
    meets. *)
From S2P Require Import Prelude GoStrings Paths Wire.
Local Open Scope string_scope.

Record ServerSection := mkServerSection {
  Listen : string; PublicURL : string; UnixSocket : string; ShutdownGraceSeconds : Z }.
Record AuthSection := mkAuthSection {
  Username : string; PasswordHash : string; FailedAttemptsPerMinute : Z }.
Record StorageSection := mkStorageSection {
  DataDir : string; DBPath : string; StagingTTLMinutes : Z; LocalClaimGraceMinutes : Z }.
Record LimitsSection := mkLimitsSection {
  DefaultTTLMinutes_ : Z; MaxTTLMinutes_ : Z; MaxTransferBytes : Z; MaxFiles : Z;
  MaxNoteBytes : Z; DiskHighWatermarkPercent : Z; MaxConcurrentUploads : Z;
  MaxConcurrentDownloads : Z; MaxMaterializeWorkers : Z }.
Record Server := mkServer {
  sv_Server : ServerSection; Auth : AuthSection; Storage : StorageSection; Limits : LimitsSection }.

Definition DefaultServer : Server :=
  mkServer (mkServerSection "127.0.0.1:7070" "" "/run/sss/sssd.sock" 30)
    (mkAuthSection "sss" "" 20)
    (mkStorageSection "/srv/sss" "/var/lib/sss/sss.db" 360 120)
    (mkLimitsSection DefaultTTLMinutes MaxTTLMinutes 0 250000 16384 85 8 16 4).

(** strings.Contains *)
Fixpoint contains (sub s : string) : bool :=
  has_prefix sub s || match s with EmptyString => false | String _ s => contains sub s end.

Definition IsAbs (p : string) : bool := has_prefix "/" p.

(** [absolute_url] says whether net/url parses the text with a scheme and a host.  The
    error names the field. *)
Definition Validate (absolute_url : string -> bool) (c : Server) : option string :=
  if Listen (sv_Server c) =? "" then Some "server.listen" else
  if negb (PublicURL (sv_Server c) =? "") && negb (absolute_url (PublicURL (sv_Server c)))
  then Some "server.public_url" else
  if UnixSocket (sv_Server c) =? "" then Some "server.unix_socket" else
  if ((ShutdownGraceSeconds (sv_Server c) <? 1) || (600 <? ShutdownGraceSeconds (sv_Server c)))%Z
  then Some "server.shutdown_grace_seconds" else
  if negb (Username (Auth c) =? "sss") then Some "auth.username" else
  if (slen (PasswordHash (Auth c)) <? 20)%Z || contains "REPLACE_ME" (PasswordHash (Auth c))
  then Some "auth.password_hash" else
  if (FailedAttemptsPerMinute (Auth c) <? 1)%Z then Some "auth.failed_attempts_per_minute" else
  if (DataDir (Storage c) =? "") || negb (IsAbs (DataDir (Storage c))) then Some "storage.data_dir" else
  if (DBPath (Storage c) =? "") || negb (IsAbs (DBPath (Storage c))) then Some "storage.db_path" else
  if (StagingTTLMinutes (Storage c) <? 1)%Z then Some "storage.staging_ttl_minutes" else
  if (LocalClaimGraceMinutes (Storage c) <? 1)%Z then Some "storage.local_claim_grace_minutes" else
  if negb (DefaultTTLMinutes_ (Limits c) =? DefaultTTLMinutes)%Z then Some "limits.default_ttl_minutes" else
  if negb (MaxTTLMinutes_ (Limits c) =? MaxTTLMinutes)%Z then Some "limits.max_ttl_minutes" else
  if (MaxTransferBytes (Limits c) <? 0)%Z then Some "limits.max_transfer_bytes" else
  if (MaxFiles (Limits c) <? 1)%Z then Some "limits.max_files" else
  if ((MaxNoteBytes (Limits c) <? 1) || (16384 <? MaxNoteBytes (Limits c)))%Z then Some "limits.max_note_bytes" else
  if ((DiskHighWatermarkPercent (Limits c) <? 50) || (99 <? DiskHighWatermarkPercent (Limits c)))%Z
  then Some "limits.disk_high_watermark_percent" else
  if ((MaxConcurrentUploads (Limits c) <? 1) || (MaxConcurrentDownloads (Limits c) <? 1)
      || (MaxMaterializeWorkers (Limits c) <? 1))%Z then Some "limits.concurrency" else
  None.

(** StagingDir, LiveDir and TrashDir *)
Definition StagingDir (c : Server) : string := Staging (DataDir (Storage c)).
Definition LiveDir (c : Server) : string := Live (DataDir (Storage c)).
Definition TrashDir (c : Server) : string := Trash (DataDir (Storage c)).

Definition Redacted (c : Server) : Server :=
  mkServer (sv_Server c) (mkAuthSection (Username (Auth c)) "[redacted]" (FailedAttemptsPerMinute (Auth c)))
    (Storage c) (Limits c).

(** The components of the data directory and of the directories of one transfer. *)
Definition data_root (c : Server) : list string := clean_comps true (split "/" (DataDir (Storage c))).
Definition staging_root (c : Server) (id : string) : list string := (data_root c ++ ["staging"; id])%list.
Definition live_root (c : Server) (id : string) : list string := (data_root c ++ ["live"; Shard id; id])%list.

Lemma data_root_plain c : Forall (fun x => plain x = true) (data_root c).
Proof. apply clean_comps_rooted, split_parts. Qed.

Lemma staging_root_plain c id : plain id = true -> Forall (fun x => plain x = true) (staging_root c id).
Proof. intros H. apply Forall_app. split; [apply data_root_plain|]. by repeat constructor. Qed.

Lemma live_root_plain c id : plain id = true -> plain (Shard id) = true ->
  Forall (fun x => plain x = true) (live_root c id).
Proof. intros H1 H2. apply Forall_app. split; [apply data_root_plain|]. by repeat constructor. Qed.
