(* ===== verification/World.v ===== *)
(** * The server's world: database, directories, caches, clock and randomness

    The state that the handlers share, the directory operations of
    internal/store/files (layout.go, manifest.go), the manifest cache of
    internal/transfer/service.go, internal/ids and the calls by which a handler reaches the
    database, the clock, the disk gauge and the random source. *)
From S2P Require Import Prelude GoStrings Errors Paths Manifest Admission Prog Tree Integrity Store Config.
Local Open Scope prog_scope.

(** ** manifestCache *)
Record manifestCache := mkCache {
  cache_limit : nat; cache_order : list string; cache_items : gmap string Manifest }.

Definition newManifestCache (limit : nat) : manifestCache := mkCache limit [] ∅.
Definition cache_get (id : string) (c : manifestCache) : option Manifest := cache_items c !! id.

(** The eviction loop, oldest first. *)
Fixpoint evict (limit : nat) (order : list string) (items : gmap string Manifest)
    : list string * gmap string Manifest :=
  match order with
  | oldest :: rest =>
    if (limit <? length order)%nat then evict limit rest (delete oldest items) else (order, items)
  | [] => ([], items)
  end.

Definition cache_put (id : string) (m : Manifest) (c : manifestCache) : manifestCache :=
  match cache_items c !! id with
  | Some _ => mkCache (cache_limit c) (cache_order c) (<[id := m]> (cache_items c))
  | None =>
    let '(order, items) := evict (cache_limit c) (cache_order c ++ [id]) (cache_items c) in
    mkCache (cache_limit c) order (<[id := m]> items)
  end.

Fixpoint remove_first (id : string) (l : list string) : list string :=
  match l with
  | [] => []
  | x :: l => if (x =? id)%string then l else x :: remove_first id l
  end.

Definition cache_drop (id : string) (c : manifestCache) : manifestCache :=
  mkCache (cache_limit c) (remove_first id (cache_order c)) (delete id (cache_items c)).

(** ** The world *)

(** [staging], [live] and [trash] give each transfer ID its directory tree; a directory
    exists when its tree has the node [[]] (distinct IDs and areas are distinct
    directories: [layout_injective]). *)
Record world := mkWorld {
  db : DB; staging : gmap string tree; live : gmap string tree; trash : gmap string tree;
  cache : manifestCache; clock : Z; disk : DiskUsage; rnd : nat -> Z; rpos : nat }.

Definition set_db (d : DB) (w : world) : world :=
  mkWorld d (staging w) (live w) (trash w) (cache w) (clock w) (disk w) (rnd w) (rpos w).
Definition set_staging (m : gmap string tree) (w : world) : world :=
  mkWorld (db w) m (live w) (trash w) (cache w) (clock w) (disk w) (rnd w) (rpos w).
Definition set_live (m : gmap string tree) (w : world) : world :=
  mkWorld (db w) (staging w) m (trash w) (cache w) (clock w) (disk w) (rnd w) (rpos w).
Definition set_trash (m : gmap string tree) (w : world) : world :=
  mkWorld (db w) (staging w) (live w) m (cache w) (clock w) (disk w) (rnd w) (rpos w).
Definition set_cache (c : manifestCache) (w : world) : world :=
  mkWorld (db w) (staging w) (live w) (trash w) c (clock w) (disk w) (rnd w) (rpos w).
Definition set_clock (t : Z) (w : world) : world :=
  mkWorld (db w) (staging w) (live w) (trash w) (cache w) t (disk w) (rnd w) (rpos w).
Definition set_disk (u : DiskUsage) (w : world) : world :=
  mkWorld (db w) (staging w) (live w) (trash w) (cache w) (clock w) u (rnd w) (rpos w).
Definition set_rpos (n : nat) (w : world) : world :=
  mkWorld (db w) (staging w) (live w) (trash w) (cache w) (clock w) (disk w) (rnd w) n.

Definition tree_of (a : gmap string tree) (id : string) : tree := default ∅ (a !! id).
Definition put_tree (id : string) (t : tree) (a : gmap string tree) : gmap string tree :=
  if decide (t = ∅) then delete id a else <[id := t]> a.
Definition exists_dir (a : gmap string tree) (id : string) : bool :=
  match tree_of a id !! ([] : path) with Some _ => true | None => false end.

(** ** Calls *)

(** A query: it may fail; rows without ORDER BY may come in any order. *)
Definition ask {A} (q : query A) : prog world (serr + A) :=
  act (fun w => (q (db w), w)) (Some (fun _ w => (inl SOther, w))).
Definition ask_rows {A} (q : query (list A)) : prog world (serr + list A) :=
  act (fun w => (q (db w), w))
      (Some (fun n w => (match n, q (db w) with
                         | S k, inr l => match permutations l !! k with Some l' => inr l' | None => inl SOther end
                         | _, _ => inl SOther
                         end, w))).

(** A transaction: an error may be reported whether or not it was applied. *)
Definition tx_step {A} (f : txn A) (w : world) : (serr + A) * world :=
  let '(r, d) := f (db w) in (r, set_db d w).
Definition tx {A} (f : txn A) : prog world (serr + A) :=
  act (tx_step f) (Some (fun n w => (inl SOther, match n with O => w | _ => snd (tx_step f w) end))).

(** clk.Now(): time may have passed since the last reading. *)
Definition Now : prog world Z :=
  act (fun w => (clock w, w))
      (Some (fun n w => let t := (clock w + Z.of_nat n)%Z in (t, set_clock t w))).

(** crypto/rand.Read of [n] bytes *)
Definition bytes_at (w : world) (from n : nat) : list Z :=
  map (fun i => rnd w (from + i)%nat mod 256)%Z (seq 0 n).
Definition rand_Read (n : nat) : prog world (list Z) :=
  act_ (fun w => (bytes_at w (rpos w) n, set_rpos (rpos w + n) w)).

(** ids.New, ids.Transfer, ids.Segment, ids.Upload, ids.Claim, ids.Token and ids.RequestID *)
Definition New (prefix : string) : prog world string :=
  b <- rand_Read 16 ;; Ret (prefix ++ EncodeToString b)%string.
Definition ids_Transfer : prog world string := New "t-".
Definition ids_Segment : prog world string := New "s-".
Definition ids_Upload : prog world string := New "u-".
Definition ids_Claim : prog world string := New "c-".
Definition ids_Token : prog world string := b <- rand_Read 32 ;; Ret (EncodeToString b).
Definition ids_RequestID : prog world string := b <- rand_Read 8 ;; Ret (EncodeToString b).

(** store.Publish draws the codes of its attempts inside the transaction. *)
Definition Publish_step (id : string) (now ttl : Z) (digest : string) (bytes : Z) (w : world)
    : (serr + Transfer) * world :=
  let bufs := map (fun k => bytes_at w (rpos w + 8 * k) 8) (seq 0 16) in
  tx_step (Publish bufs id now ttl digest bytes) (set_rpos (rpos w + 128) w).
Definition store_Publish (id : string) (now ttl : Z) (digest : string) (bytes : Z)
    : prog world (serr + Transfer) :=
  act (Publish_step id now ttl digest bytes)
      (Some (fun n w => (inl SOther, match n with O => w | _ => snd (Publish_step id now ttl digest bytes w) end))).

(** admission.Controller over the world: statfs may fail or move between calls. *)
Definition Usage : prog world (option DiskUsage) :=
  act (fun w => (Some (disk w), w))
      (Some (fun n w => match n with
                        | O => (None, w)
                        | S k => let u := mkDiskUsage (Admission.TotalBytes (disk w)) (Z.of_nat k) in (Some u, set_disk u w)
                        end)).
Definition controller (c : Server) : Controller :=
  mkController (DiskHighWatermarkPercent (Limits c)) (MaxTransferBytes (Limits c)).
Definition adm_Admit (c : Server) (expectedBytes : Z) : prog world (option ecode) :=
  if ((0 <? MaxTransferBytes (Limits c)) && (MaxTransferBytes (Limits c) <? expectedBytes))%Z
  then Ret (Some PayloadTooLarge) else
  u <- Usage ;;
  match u with
  | None => Ret (Some Internal)
  | Some _ =>
    r <- ask ReservedBytes ;;
    Ret (Admit (controller c) u (match r with inr n => Some n | inl _ => None end) expectedBytes)
  end.
Definition adm_CheckStreaming (c : Server) : prog world (option ecode) :=
  u <- Usage ;; Ret (CheckStreaming (controller c) u).

(** Directory calls inside one transfer's staging or live directory *)
Definition in_staging {A} (id : string) : prog tree A -> prog world A :=
  lift (fun w => tree_of (staging w) id) (fun t w => set_staging (put_tree id t (staging w)) w).
Definition in_live {A} (id : string) : prog tree A -> prog world A :=
  lift (fun w => tree_of (live w) id) (fun t w => set_live (put_tree id t (live w)) w).

(** ** internal/store/files/layout.go *)

Definition PrepareStaging (id : string) : prog world (oserr + unit) :=
  in_staging id (loop (fun _ d => MkdirAll d 488) tt [[]; [PayloadDir]; [SegmentsDir]; [PacksDir]]).

(** A call that only reports an error or not. *)
Definition world_sync : prog world (oserr + unit) :=
  act (fun w => (inr tt, w)) (Some (fun _ w => (inl ErrOther, w))).
Definition stat_dir (area : world -> gmap string tree) (id : string) : prog world (oserr + unit) :=
  act (fun w => (if exists_dir (area w) id then inr tt else inl ErrNotExist, w))
      (Some (fun _ w => (inl ErrOther, w))).

(** os.Rename of a directory: package os answers EEXIST when the target is a directory, even
    an empty one. *)
Definition can_replace (t : tree) : bool := bool_decide (t = ∅).

Definition rename_to_live (id : string) (w : world) : (oserr + unit) * world :=
  if negb (exists_dir (staging w) id) then (inl ErrNotExist, w) else
  if negb (can_replace (tree_of (live w) id)) then (inl ErrExist, w) else
  (inr tt, set_live (<[id := tree_of (staging w) id]> (live w)) (set_staging (delete id (staging w)) w)).

Definition layout_Publish (id : string) : prog world (oserr + unit) :=
  _ <-? world_sync ;;
  dst <- stat_dir live id ;;
  match dst with
  | inr _ => Ret (inr tt)
  | inl _ =>
    _ <-? act (rename_to_live id) (Some (fun _ w => (inl ErrOther, w))) ;;
    world_sync
  end.

(** platform.RemoveAllForce on a whole directory: an error may leave part of the tree. *)
Definition remove_all (area : world -> gmap string tree) (set : gmap string tree -> world -> world)
    (id : string) : prog world (oserr + unit) :=
  e <- stat_dir area id ;;
  match e with
  | inl ErrNotExist => Ret (inr tt)
  | _ =>
    _ <-? act (fun w => (inr tt, set (put_tree id (MakeTreeWritable (tree_of (area w) id)) (area w)) w))
              (Some (fun _ w => (inl ErrOther, w))) ;;
    act (fun w => (inr tt, set (delete id (area w)) w))
        (Some (fun n w => (inl ErrOther,
           set (put_tree id (list_to_map (take n (map_to_list (tree_of (area w) id)))) (area w)) w)))
  end.

Definition rename_to_trash (area : world -> gmap string tree) (set : gmap string tree -> world -> world)
    (id : string) (w : world) : (oserr + unit) * world :=
  if negb (exists_dir (area w) id) then (inl ErrNotExist, w) else
  if negb (can_replace (tree_of (trash w) id)) then (inl ErrExist, w) else
  (inr tt, set_trash (<[id := tree_of (area w) id]> (trash w)) (set (delete id (area w)) w)).

Definition trash_one (area : world -> gmap string tree) (set : gmap string tree -> world -> world)
    (id : string) : prog world (oserr + unit) :=
  src <- stat_dir area id ;;
  match src with
  | inl _ => Ret (inr tt)
  | inr _ =>
    dst <- stat_dir trash id ;;
    _ <-? (match dst with inr _ => remove_all trash set_trash id | inl _ => Ret (inr tt) end) ;;
    act (rename_to_trash area set id) (Some (fun _ w => (inl ErrOther, w)))
  end.

Definition ToTrash (id : string) : prog world (oserr + unit) :=
  _ <-? trash_one live set_live id ;;
  trash_one staging set_staging id.

Definition dir_names (a : gmap string tree) : list string :=
  List.filter (exists_dir a) (map fst (map_to_list a)).
Definition list_dir (area : world -> gmap string tree) : prog world (oserr + list string) :=
  act (fun w => (inr (dir_names (area w)), w)) (Some (fun _ w => (inl ErrOther, w))).

(** EmptyTrash: the directories removed and the error. *)
Definition EmptyTrash : prog world (Z * option oserr) :=
  entries <- list_dir trash ;;
  match entries with
  | inl e => Ret (0%Z, Some e)
  | inr names =>
    r <- loop (fun n id => x <- remove_all trash set_trash id ;;
                           match x with inl e => Ret (inl (n, e)) | inr _ => Ret (inr (n + 1)%Z) end) 0%Z names ;;
    match r with inl (n, e) => Ret (n, Some e) | inr n => Ret (n, None) end
  end.

Definition ListStagingIDs : prog world (oserr + list string) := list_dir staging.
Definition ListLiveIDs : prog world (oserr + list string) := list_dir live.
Definition RemoveStaging (id : string) : prog world (oserr + unit) := remove_all staging set_staging id.

(** ** internal/store/files/manifest.go *)
Section manifest_files.
Context `{Unicode} `{ManifestCodec}.

Inductive merr := ManifestIO (e : oserr) | ManifestParse | ManifestInvalid (e : ecode).

Definition WriteManifest (tmp : string) (m : Manifest) : prog tree (merr + unit) :=
  match json_MarshalIndent m with
  | None => Ret (inl ManifestParse)
  | Some data =>
    r <- WriteFileSync [] ManifestFile tmp (data ++ nl)%string 416 ;;
    match r with
    | inl e => Ret (inl (ManifestIO e))
    | inr _ => s <- Sync ;; match s with inl e => Ret (inl (ManifestIO e)) | inr _ => Ret (inr tt) end
    end
  end.

Definition parse_manifest (data : string) : merr + Manifest :=
  match json_Unmarshal data with
  | None => inl ManifestParse
  | Some m => match Manifest.Validate m with Some e => inl (ManifestInvalid e) | None => inr m end
  end.

Definition ReadManifest : prog tree (merr + Manifest) :=
  r <- ReadFile [ManifestFile] ;;
  match r with inl e => Ret (inl (ManifestIO e)) | inr data => Ret (parse_manifest data) end.

Definition ManifestExists : prog tree bool :=
  r <- Stat [ManifestFile] ;; Ret (match r with inr _ => true | inl _ => false end).
End manifest_files.

(** A restarted process: memory is lost, storage is not. *)
Definition reboot (w : world) : world := set_cache (newManifestCache (cache_limit (cache w))) w.
