(* ===== verification/Service.v ===== *)
(** * Resolving codes and receiving: internal/transfer/service.go *)
From S2P Require Import Prelude GoStrings GoTime Errors Code Paths Manifest Wire Admission Prog Tree Integrity.
From S2P Require Import Materialize Store Config World.
Local Open Scope prog_scope.

Definition RemoteLeaseMinutes : Z := 30.

Record Download := mkDownload { dl_Transfer : Transfer; dl_Manifest : Manifest; dl_PayloadDir : string }.
Record ClaimSegment := mkClaimSegment {
  cs_ID : string; cs_Kind : string; cs_Length : Z; cs_Digest : string; cs_Path : string;
  cs_OutboardPath : string; cs_OutboardLength : Z }.
Record ClaimResponse := mkClaimResponse {
  cl_ClaimID : string; cl_Token : string; cl_LeaseUntil : Z; cl_Manifest : Manifest;
  cl_Segments : list ClaimSegment }.
Record LocalClaim := mkLocalClaim {
  lc_OK : bool; lc_Code : string; lc_Path : string; lc_ReadOnly : bool; lc_LeaseUntil : Z }.

Record Info := mkInfo {
  in_DefaultTTL : Z; in_MaxTTL : Z; in_MaxFiles : Z; in_MaxNoteBytes : Z; in_MaxTransferBytes : Z;
  in_HighWatermark : Z; in_Accepting : bool; in_FreeBytes : Z; in_ReservedBytes : Z }.
Record AdminStatus := mkAdminStatus {
  as_Committed : Z; as_Staging : Z; as_ActiveClaims : Z; as_DiskTotal : Z; as_DiskFree : Z;
  as_DiskUsedPercent : Z; as_Reserved : Z; as_AdmissionOK : bool; as_HighWatermark : Z; as_StorageDir : string }.

Section service.
Context `{Unicode} `{Externals} `{ManifestCodec}.
Context (cfg : Server).

(** ResolveTTL and CheckNote *)
Definition ResolveTTL (minutes : Z) : ecode + Z :=
  if (minutes =? 0)%Z then inr (DefaultTTLMinutes_ (Limits cfg)) else
  match ValidateTTL minutes with Some e => inl e | None => inr minutes end.
Definition CheckNote (note : string) : option ecode :=
  if (MaxNoteBytes (Limits cfg) <? slen note)%Z then Some InvalidRequest else None.

(** What the state of a row found by its code means for a receiver. *)
Definition claimable (s : tstate) : option ecode :=
  match s with
  | StateCommitted => None
  | StateExpired | StateDeleting | StateDeleted => Some TransferExpired
  | _ => Some TransferNotFound
  end.

Definition lookupCommitted (codeInput : string) : prog world (ecode + Transfer) :=
  match NormalizeCode codeInput with
  | None => Ret (inl InvalidCode)
  | Some canonical =>
    r <- ask (GetTransferByCode canonical) ;;
    match r with
    | inl SNotFound => Ret (inl TransferNotFound)
    | inl _ => Ret (inl Internal)
    | inr t =>
      match claimable (t_State t) with
      | Some e => Ret (inl e)
      | None =>
        if IsZero (t_ExpiresAt t) then Ret (inr t) else
        now <- Now ;;
        if negb (Before now (t_ExpiresAt t)) then
          tx (SetState (t_ID t) StateExpired) ;;;
          Ret (inl TransferExpired)
        else Ret (inr t)
      end
    end
  end.

(** Manifest: the cached one, or the one in the live directory. *)
Definition service_Manifest (t : Transfer) : prog world (ecode + Manifest) :=
  c <- act_ (fun w => (cache_get (t_ID t) (cache w), w)) ;;
  match c with
  | Some m => Ret (inr m)
  | None =>
    r <- in_live (t_ID t) ReadManifest ;;
    match r with
    | inl _ => Ret (inl Internal)
    | inr m => act_ (fun w => (tt, set_cache (cache_put (t_ID t) m (cache w)) w)) ;;; Ret (inr m)
    end
  end.

Definition service_PayloadDir (id : string) : string :=
  Join [LivePath (DataDir (Storage cfg)) id; PayloadDir].

Definition Metadata (codeInput : string) : prog world (ecode + TransferMetadata) :=
  t <-? lookupCommitted codeInput ;;
  m <-? service_Manifest t ;;
  Ret (inr (mkTransferMetadata (FormatCode (t_Code t)) (t_Note t) (t_CommittedAt t) (t_ExpiresAt t)
    (FileCount m) (Manifest.TotalBytes m)
    (map (fun e => mkEntrySummary (e_Path e) (e_Type e) (e_Size e)) (SortedEntries m)))).

Definition OpenDownload (codeInput : string) : prog world (ecode + Download) :=
  t <-? lookupCommitted codeInput ;;
  m <-? service_Manifest t ;;
  Ret (inr (mkDownload t m (service_PayloadDir (t_ID t)))).

(** outboardsPresent *)
Definition outboardsPresent (t : Transfer) : prog world bool :=
  r <- in_live (t_ID t) (Stat [OutboardsDir]) ;;
  Ret (match r with inr (NDir _ _) => true | _ => false end).

Definition hashToken (token : string) : string := EncodeToString (sha256 token).

(** now.Add(n * time.Minute) *)
Definition lease_at (now n : Z) : Z := (now + minutes n)%Z.

Definition claim_segment_of (claimID : string) (outboards : bool) (seg : Segment) : ClaimSegment :=
  let p := ("/v1/claims/" ++ claimID ++ "/segments/" ++ seg_ID seg)%string in
  mkClaimSegment (seg_ID seg) (seg_Kind seg) (seg_WireSize seg) (seg_Digest seg) p
    (if outboards then p ++ "/outboard" else "")%string
    (if outboards then OutboardSize (seg_WireSize seg) else 0%Z).

Definition service_CreateClaim (codeInput : string) : prog world (ecode + ClaimResponse) :=
  t <-? lookupCommitted codeInput ;;
  m <-? service_Manifest t ;;
  now <- Now ;;
  token <- ids_Token ;;
  claimID <- ids_Claim ;;
  let lease := lease_at now RemoteLeaseMinutes in
  _ <-? tx (CreateClaim (mkClaim claimID (t_ID t) ClaimRemote now lease zero_time (hashToken token))) orelse Internal ;;
  outboards <- outboardsPresent t ;;
  Ret (inr (mkClaimResponse claimID token lease m (map (claim_segment_of claimID outboards) (Segments m)))).

Definition authorizeClaim (claimID token : string) : prog world (ecode + Claim) :=
  r <- ask (GetClaim claimID) ;;
  match r with
  | inl SNotFound => Ret (inl TransferNotFound)
  | inl _ => Ret (inl Internal)
  | inr claim =>
    if (token =? "")%string || negb (hashToken token =? k_TokenHash claim)%string
    then Ret (inl AuthInvalid) else
    now <- Now ;;
    if negb (Before now (k_LeaseUntil claim)) then Ret (inl ClaimExpired) else Ret (inr claim)
  end.

Definition claimSegment (claimID token segmentID : string) : prog world (ecode + Transfer * Segment) :=
  claim <-? authorizeClaim claimID token ;;
  t <-? ask (GetTransfer (k_TransferID claim)) orelse TransferNotFound ;;
  ensure (negb (bool_decide (t_State t = StateDeleting) || bool_decide (t_State t = StateDeleted)))
    orelse TransferExpired ;;
  m <-? service_Manifest t ;;
  match SegmentByID m segmentID with
  | None => Ret (inl TransferNotFound)
  | Some seg => Ret (inr (t, seg))
  end.

Definition renew (claimID : string) : prog world unit :=
  now <- Now ;; tx (RenewClaim claimID (lease_at now RemoteLeaseMinutes)) ;;; Ret tt.

(** The opened file is its content, the size what Stat says of it. *)
Definition ClaimOutboardFile (claimID token segmentID : string) : prog world (ecode + string * Z) :=
  ts <-? claimSegment claimID token segmentID ;;
  let '(t, seg) := ts in
  d <-? in_live (t_ID t) (ReadFile [OutboardsDir; (seg_ID seg ++ OutboardSuffix)%string]) orelse TransferNotFound ;;
  _ <-? world_sync orelse Internal ;;
  renew claimID ;;;
  Ret (inr (d, slen d)).

Definition ClaimSegmentFile (claimID token segmentID : string) : prog world (ecode + string * Z) :=
  ts <-? claimSegment claimID token segmentID ;;
  let '(t, seg) := ts in
  ensure (negb (seg_StoragePath seg =? "")%string) orelse Internal ;;
  match SafeJoinIn (live_root cfg (t_ID t)) [] (seg_StoragePath seg) with
  | None => Ret (inl Internal)
  | Some p =>
    d <-? in_live (t_ID t) (ReadFile p) orelse Internal ;;
    _ <-? world_sync orelse Internal ;;
    renew claimID ;;;
    Ret (inr (d, slen d))
  end.

Definition service_CompleteClaim (claimID token : string) : prog world (ecode + unit) :=
  claim <-? authorizeClaim claimID token ;;
  now <- Now ;;
  _ <-? tx (CompleteClaim (k_ID claim) now) orelse Internal ;;
  Ret (inr tt).

Definition LocalPath (codeInput : string) : prog world (ecode + LocalClaim) :=
  t <-? lookupCommitted codeInput ;;
  let payload := service_PayloadDir (t_ID t) in
  _ <-? in_live (t_ID t) (Stat [PayloadDir]) orelse Internal ;;
  now <- Now ;;
  let lease := lease_at now (LocalClaimGraceMinutes (Storage cfg)) in
  claimID <- ids_Claim ;;
  _ <-? tx (CreateClaim (mkClaim claimID (t_ID t) ClaimLocal now lease zero_time "")) orelse Internal ;;
  Ret (inr (mkLocalClaim true (FormatCode (t_Code t)) payload true lease)).

(** admission.Status and the reports built on it (build versions, the process's uptime and
    its readiness flag aside, which the callers fill in). *)
Definition adm_Status : prog world (DiskUsage * Z * bool) :=
  u <- Usage ;;
  match u with
  | None => Ret (Admission.Status (controller cfg) None None)
  | Some _ =>
    r <- ask ReservedBytes ;;
    Ret (Admission.Status (controller cfg) u (match r with inr n => Some n | inl _ => None end))
  end.

Definition service_Info : prog world Info :=
  s <- adm_Status ;;
  let '(usage, reserved, accepting) := s in
  Ret (mkInfo (DefaultTTLMinutes_ (Limits cfg)) (MaxTTLMinutes_ (Limits cfg)) (MaxFiles (Limits cfg))
    (MaxNoteBytes (Limits cfg)) (MaxTransferBytes (Limits cfg)) (DiskHighWatermarkPercent (Limits cfg))
    accepting (FreeBytes usage) reserved).

Definition service_Status : prog world (serr + AdminStatus) :=
  s <- adm_Status ;;
  let '(usage, reserved, accepting) := s in
  committed <-? ask (CountByState [StateCommitted]) ;;
  staging <-? ask (CountByState [StateCreated; StateUploading; StateVerifying]) ;;
  now <- Now ;;
  claims <-? ask (TotalActiveClaims now) ;;
  Now ;;;
  Ret (inr (mkAdminStatus committed staging claims (Admission.TotalBytes usage) (FreeBytes usage) (UsedPercent usage)
    reserved accepting (DiskHighWatermarkPercent (Limits cfg)) (DataDir (Storage cfg)))).

(** A slot of the download semaphore; waiting ends when the client goes away. *)
Definition AcquireDownload : prog world (ecode + unit) := _ <-? world_sync orelse Network ;; Ret (inr tt).

Definition InvalidateManifest (id : string) : prog world unit :=
  act_ (fun w => (tt, set_cache (cache_drop id (cache w)) w)).
End service.
