(* ===== verification/Upload.v ===== *)
(** * Resumable uploads: internal/transfer/advanced.go *)
From S2P Require Import Prelude GoStrings GoTime Errors Paths Manifest Wire Admission Prog Tree Integrity.
From S2P Require Import Store Config World Service.
Local Open Scope prog_scope.

(** hexDigest *)
Definition hexDigest (s : string) : bool := digestPattern s.

(** A request body as its reader delivers it: chunks of at most one buffer, then io.EOF or
    another error. *)
Record reader := mkReader { chunks : list string; fails : bool }.

(** admissionCheckInterval: 32 << 20 *)
Definition admissionCheckInterval : Z := 33554432.

Section upload.
Context `{Unicode} `{Externals} `{ManifestCodec}.
Context (cfg : Server).

(** *** CreateTransfer *)

(** The loop over the declared segments: an error, or the identifiers and the sum. *)
Fixpoint check_plans (segs : list SegmentPlan) (seen : gset string) (declared : Z) : ecode + Z :=
  match segs with
  | [] => inr declared
  | seg :: segs =>
    if (sp_ID seg =? "")%string || (128 <? slen (sp_ID seg))%Z then inl InvalidRequest else
    if negb (ok (ValidateComponent (sp_ID seg))) then inl InvalidRequest else
    if bool_decide (sp_ID seg ∈ seen) then inl InvalidRequest else
    if negb (sp_Kind seg =? SegmentRaw)%string && negb (sp_Kind seg =? SegmentTarZstd)%string
    then inl InvalidRequest else
    if negb (sp_DigestAlgorithm seg =? "")%string && negb (sp_DigestAlgorithm seg =? DigestAlgorithm)%string
    then inl InvalidRequest else
    if (sp_ExpectedLength seg <? 0)%Z then inl InvalidRequest else
    if match sp_ExpectedDigest seg with Some d => negb (hexDigest d) | None => false end
    then inl InvalidRequest else
    check_plans segs ({[sp_ID seg]} ∪ seen) (int64 (declared + sp_ExpectedLength seg))
  end.

Definition insert_plan (id : string) (uploads : list UploadResource) (seg : SegmentPlan)
    : prog world (ecode + list UploadResource) :=
  uploadID <- ids_Upload ;;
  r <- tx (InsertSegment (mkStored (sp_ID seg) id uploadID (sp_Kind seg) (sp_ExpectedLength seg) 0
         DigestAlgorithm (default "" (sp_ExpectedDigest seg)) SegmentPending
         (SegmentsDir ++ "/" ++ sp_ID seg)%string)) ;;
  match r with
  | inl _ => RemoveStaging id ;;; tx (Purge id) ;;; Ret (inl Internal)
  | inr _ => Ret (inr (uploads ++ [mkUploadResource (sp_ID seg) uploadID ("/v1/uploads/" ++ uploadID)%string])%list)
  end.

Definition service_CreateTransfer (req : CreateTransferRequest)
    : prog world (ecode + CreateTransferResponse) :=
  match ResolveTTL cfg (cr_TTLMinutes req) with
  | inl e => Ret (inl e)
  | inr ttl =>
    match CheckNote cfg (cr_Note req) with
    | Some e => Ret (inl e)
    | None =>
      ensure (negb (length (cr_Segments req) =? 0)%nat) orelse InvalidRequest ;;
      ensure (negb (MaxFiles (Limits cfg) <? cr_ExpectedFileCount req)%Z) orelse TooManyFiles ;;
      match check_plans (cr_Segments req) ∅ 0 with
      | inl e => Ret (inl e)
      | inr declared =>
        adm <- adm_Admit cfg declared ;;
        match adm with
        | Some e => Ret (inl e)
        | None =>
          id <- ids_Transfer ;;
          _ <-? PrepareStaging id orelse Internal ;;
          now <- Now ;;
          c <- tx (CreateTransfer (mkTransfer id "" StateCreated "" now zero_time zero_time ttl
                 (cr_Note req) "" 0 0 (Reserve declared) (StagingPath (DataDir (Storage cfg)) id) "")) ;;
          match c with
          | inl _ => RemoveStaging id ;;; Ret (inl Internal)
          | inr _ =>
            uploads <-? loop (insert_plan id) [] (cr_Segments req) ;;
            Ret (inr (mkCreateTransferResponse id uploads))
          end
        end
      end
    end
  end.

(** *** Upload resources *)

Definition UploadState (uploadID : string) : prog world (ecode + Z * Z) :=
  r <- ask (GetSegmentByUploadID uploadID) ;;
  match r with
  | inl SNotFound => Ret (inl TransferNotFound)
  | inl _ => Ret (inl Internal)
  | inr seg => Ret (inr (s_ReceivedLength seg, s_ExpectedLength seg))
  end.

Definition acquireUpload : prog world (oserr + unit) := world_sync.

Definition finishPatch (seg : StoredSegment) (newOffset : Z) : prog world unit :=
  world_sync ;;;
  let state := if (newOffset =? s_ExpectedLength seg)%Z then SegmentReceived else SegmentPending in
  tx (SetSegmentProgress (s_TransferID seg) (s_ID seg) newOffset state) ;;;
  let delta := (newOffset - s_ReceivedLength seg)%Z in
  (if (0 <? delta)%Z then tx (AddWireBytes (s_TransferID seg) delta) ;;; Ret tt else Ret tt).

(** The read loop; the answer is the offset reported to the client and its error. *)
Fixpoint patch_loop (seg : StoredSegment) (p : path) (offset remaining : Z) (failing : bool)
    (cs : list string) (written sinceCheck : Z) : prog world (Z * option ecode) :=
  match cs with
  | [] =>
    finishPatch seg (offset + written) ;;;
    Ret ((offset + written)%Z, if failing then Some Network else None)
  | c :: cs =>
    let n := slen c in
    if (remaining <? written + n)%Z then
      let valid := (remaining - written)%Z in
      w' <- (if (0 <? valid)%Z then
               r <- in_staging (s_TransferID seg) (WriteAt p (offset + written) (stake valid c)) ;;
               Ret (match r with inr _ => (written + valid)%Z | inl _ => written end)
             else Ret written) ;;
      finishPatch seg (offset + w') ;;;
      Ret ((offset + w')%Z, Some InvalidRequest)
    else
      r <- in_staging (s_TransferID seg) (WriteAt p (offset + written) c) ;;
      match r with
      | inl _ =>
        finishPatch seg (offset + written) ;;;
        Ret ((offset + written)%Z, Some InsufficientStorage)
      | inr _ =>
        let written := (written + n)%Z in
        let sinceCheck := (sinceCheck + n)%Z in
        if (admissionCheckInterval <=? sinceCheck)%Z then
          a <- adm_CheckStreaming cfg ;;
          match a with
          | Some e => finishPatch seg (offset + written) ;;; Ret ((offset + written)%Z, Some e)
          | None => patch_loop seg p offset remaining failing cs written 0
          end
        else patch_loop seg p offset remaining failing cs written sinceCheck
      end
  end.

Definition UploadPatch (uploadID : string) (offset : Z) (body : reader) : prog world (Z * option ecode) :=
  a <- acquireUpload ;;
  if a is inl _ then Ret (0%Z, Some Network) else
  r <- ask (GetSegmentByUploadID uploadID) ;;
  match r with
  | inl SNotFound => Ret (0%Z, Some TransferNotFound)
  | inl _ => Ret (0%Z, Some Internal)
  | inr seg =>
    tr <- ask (GetTransfer (s_TransferID seg)) ;;
    match tr with
    | inl _ => Ret (0%Z, Some TransferNotFound)
    | inr t =>
      if negb (bool_decide (t_State t = StateCreated) || bool_decide (t_State t = StateUploading))
      then Ret (0%Z, Some StateConflict) else
      if negb (offset =? s_ReceivedLength seg)%Z then Ret (s_ReceivedLength seg, Some OffsetMismatch) else
      if (s_ExpectedLength seg <? offset)%Z then Ret (s_ReceivedLength seg, Some InvalidRequest) else
      adm <- adm_CheckStreaming cfg ;;
      match adm with
      | Some e => Ret (s_ReceivedLength seg, Some e)
      | None =>
        let p := [SegmentsDir; s_ID seg] in
        o <- in_staging (t_ID t) (_ <-? OpenFile false p 416 ;; _ <-? Truncate p offset ;; Sync) ;;
        match o with
        | inl _ => Ret (s_ReceivedLength seg, Some Internal)
        | inr _ =>
          (if bool_decide (t_State t = StateCreated)
           then tx (SetState (t_ID t) StateUploading) ;;; Ret tt else Ret tt) ;;;
          patch_loop seg p offset (s_ExpectedLength seg - offset) (fails body) (chunks body) 0 0
        end
      end
    end
  end.
End upload.
