(* ===== verification/Commit.v ===== *)
(** * Committing: Commit of internal/transfer/advanced.go and internal/transfer/publish.go *)
From S2P Require Import Prelude GoStrings GoTime Errors Code Paths Manifest Wire Prog Tree Integrity.
From S2P Require Import Materialize Store Config World Service.
Local Open Scope prog_scope.

Section commit.
Context `{Unicode} `{Externals} `{ManifestCodec}.
Context (cfg : Server).

Definition response_of (t : Transfer) : CommitResponse :=
  mkCommitResponse (FormatCode (t_Code t)) (t_CommittedAt t) (t_ExpiresAt t).

(** os.CreateTemp's random suffix *)
Definition temp_name : prog world string := b <- rand_Read 8 ;; Ret (".tmp-" ++ EncodeToString b)%string.

Definition writeAndDigestManifest (id : string) (m : Manifest) : prog world (ecode + string) :=
  match json_Marshal m with
  | None => Ret (inl Internal)
  | Some data =>
    tmp <- temp_name ;;
    _ <-? in_staging id (WriteManifest tmp m) orelse Internal ;;
    Ret (inr (HashBytes data))
  end.

Definition publish (id : string) (m : Manifest) (ttlMinutes : Z) (note : string)
    (materializedBytes : Z) : prog world (ecode + CommitResponse) :=
  _ <-? tx (SetState id StateVerifying) orelse Internal ;;
  _ <-? tx (SetNoteAndTTL id note ttlMinutes) orelse Internal ;;
  digest <-? writeAndDigestManifest id m ;;
  _ <-? in_staging id SealPayload orelse Internal ;;
  _ <-? layout_Publish id orelse Internal ;;
  now <- Now ;;
  r <- store_Publish id now ttlMinutes digest materializedBytes ;;
  match r with
  | inl e => Ret (inl (serr_code e))
  | inr rec =>
    act_ (fun w => (tt, set_cache (cache_put id m (cache w)) w)) ;;;
    Ret (inr (response_of rec))
  end.

(** The per-segment check of Commit. *)
Definition check_segment (id : string) (byID : gmap string StoredSegment) (_ : unit) (ms : Segment)
    : prog world (ecode + unit) :=
  match byID !! seg_ID ms with
  | None => Ret (inl InvalidRequest)
  | Some seg =>
    ensure (s_Kind seg =? seg_Kind ms)%string orelse InvalidRequest ;;
    ensure (s_ExpectedLength seg =? seg_WireSize ms)%Z orelse InvalidRequest ;;
    ensure (s_ReceivedLength seg =? s_ExpectedLength seg)%Z orelse StateConflict ;;
    r <- in_staging id (OutboardFile [SegmentsDir; seg_ID ms]
                          [OutboardsDir; (seg_ID ms ++ OutboardSuffix)%string]) ;;
    match r with
    | inl _ => Ret (inl StateConflict)
    | inr (digest, size) =>
      ensure (size =? seg_WireSize ms)%Z orelse HashMismatch ;;
      ensure (digest =? seg_Digest ms)%string orelse HashMismatch ;;
      ensure (negb (negb (s_ExpectedDigest seg =? "") && negb (s_ExpectedDigest seg =? seg_Digest ms)))%string
        orelse InvalidRequest ;;
      Ret (inr tt)
    end
  end.

Definition effective_ttl (t : Transfer) : Z :=
  if (t_RequestedTTLMinutes t =? 0)%Z then DefaultTTLMinutes_ (Limits cfg) else t_RequestedTTLMinutes t.

(** The checks on the request itself, before any segment is read. *)
Definition check_request (id : string) (m : Manifest) : option ecode :=
  if negb (TransferID m =? id)%string then Some InvalidRequest else
  match Manifest.Validate m with
  | Some e => Some e
  | None =>
    if (MaxFiles (Limits cfg) <? FileCount m)%Z then Some TooManyFiles else
    match CheckNote cfg (Note m) with
    | Some e => Some e
    | None =>
      if ((0 <? MaxTransferBytes (Limits cfg)) && (MaxTransferBytes (Limits cfg) <? TotalBytes m))%Z
      then Some PayloadTooLarge else None
    end
  end.

Definition service_Commit (id : string) (m : Manifest) : prog world (ecode + CommitResponse * bool) :=
  r <- ask (GetTransfer id) ;;
  match r with
  | inl SNotFound => Ret (inl TransferNotFound)
  | inl _ => Ret (inl Internal)
  | inr t =>
    if Committed_ t then Ret (inr (response_of t, false)) else
    ensure (precommit (t_State t)) orelse StateConflict ;;
    match check_request id m with
    | Some e => Ret (inl e)
    | None =>
      stored <-? ask (ListSegments id) orelse Internal ;;
      let byID := foldl (fun b s => <[s_ID s := s]> b) (∅ : gmap string StoredSegment) stored in
      ensure (length stored =? length (Segments m))%nat orelse InvalidRequest ;;
      _ <-? in_staging id (MkdirAll [OutboardsDir] 488) orelse Internal ;;
      _ <-? loop (check_segment id byID) tt (Segments m) ;;
      _ <-? tx (SetState id StateVerifying) orelse Internal ;;
      result <- in_staging id (Run (staging_root cfg id) m) ;;
      match result with
      | inl perr => tx (Fail id (code_string perr)) ;;; Ret (inl perr)
      | inr res =>
        resp <-? publish id (Published res) (effective_ttl t) (Note m) (MaterializedBytes res) ;;
        Ret (inr (resp, true))
      end
    end
  end.

(** *** Interrupted publications *)

Definition completeInterruptedPublish (t : Transfer) : prog world (ecode + Transfer) :=
  m <-? in_live (t_ID t) ReadManifest orelse Internal ;;
  match json_Marshal m with
  | None => Ret (inl Internal)
  | Some data =>
    _ <-? in_live (t_ID t) SealPayload orelse Internal ;;
    now <- Now ;;
    rec <-? store_Publish (t_ID t) now (effective_ttl t) (HashBytes data) (TotalBytes m) orelse Internal ;;
    Ret (inr rec)
  end.

(** livePayloadValid, on the tree of the live directory. *)
Definition info_size (n : node) : Z := match n with NFile d _ _ => slen d | NDir _ _ => dir_size end.

Definition entry_usable (root : list string) (_ : unit) (e : Entry) : prog tree (unit + unit) :=
  match SafeJoinIn root [PayloadDir] (e_Path e) with
  | None => Ret (inl tt)
  | Some p =>
    info <-? Stat p orelse tt ;;
    if is_file e && negb (info_size info =? e_Size e)%Z then Ret (inl tt) else Ret (inr tt)
  end.

Definition live_valid (root : list string) : prog tree bool :=
  ex <- ManifestExists ;;
  if negb ex then Ret false else
  r <- ReadManifest ;;
  match r with
  | inl _ => Ret false
  | inr m =>
    x <- loop (entry_usable root) tt (Entries m) ;;
    Ret (match x with inr _ => true | inl _ => false end)
  end.

Definition livePayloadValid (id : string) : prog world bool :=
  in_live id (live_valid (live_root cfg id)).
End commit.
