(* ===== verification/Simple.v ===== *)
(** * Simple uploads: internal/transfer/simple.go *)
From S2P Require Import Prelude GoStrings GoTime Errors Paths Manifest Wire Prog Tree Integrity Materialize.
From S2P Require Import Store Config World Service Upload Commit.
Local Open Scope prog_scope.

Record SimpleSession := mkSession {
  ss_id : string; ss_note : string; ss_ttlMinutes : Z; ss_entries : list Entry;
  ss_segments : list Segment; ss_roots : list string; ss_seenNames : gset string;
  ss_bytes : Z; ss_sinceCheck : Z }.

Definition ss_set_note (note : string) (s : SimpleSession) : SimpleSession :=
  mkSession (ss_id s) note (ss_ttlMinutes s) (ss_entries s) (ss_segments s) (ss_roots s)
    (ss_seenNames s) (ss_bytes s) (ss_sinceCheck s).
Definition ss_set_ttl (ttl : Z) (s : SimpleSession) : SimpleSession :=
  mkSession (ss_id s) (ss_note s) ttl (ss_entries s) (ss_segments s) (ss_roots s)
    (ss_seenNames s) (ss_bytes s) (ss_sinceCheck s).
Definition ss_set_since (n : Z) (s : SimpleSession) : SimpleSession :=
  mkSession (ss_id s) (ss_note s) (ss_ttlMinutes s) (ss_entries s) (ss_segments s) (ss_roots s)
    (ss_seenNames s) (ss_bytes s) n.

Section simple.
Context `{Unicode} `{Externals} `{ManifestCodec}.
Context (cfg : Server).

Definition BeginSimple : prog world (ecode + SimpleSession) :=
  a <- adm_CheckStreaming cfg ;;
  match a with
  | Some e => Ret (inl e)
  | None =>
    id <- ids_Transfer ;;
    _ <-? PrepareStaging id orelse Internal ;;
    now <- Now ;;
    c <- tx (CreateTransfer (mkTransfer id "" StateCreated "" now zero_time zero_time
           (DefaultTTLMinutes_ (Limits cfg)) "" "" 0 0 0 (StagingPath (DataDir (Storage cfg)) id) "")) ;;
    match c with
    | inl _ => RemoveStaging id ;;; Ret (inl Internal)
    | inr _ => Ret (inr (mkSession id "" (DefaultTTLMinutes_ (Limits cfg)) [] [] [] ∅ 0 0))
    end
  end.

Definition SetNote (note : string) (s : SimpleSession) : ecode + SimpleSession :=
  match CheckNote cfg note with Some e => inl e | None => inr (ss_set_note note s) end.
Definition SetTTL (minutes : Z) (s : SimpleSession) : ecode + SimpleSession :=
  match ResolveTTL cfg minutes with inl e => inl e | inr ttl => inr (ss_set_ttl ttl s) end.

(** The read loop of AddFile: the bytes written and sinceCheck, or the error. *)
Fixpoint add_loop (id : string) (target : path) (bytes : Z) (failing : bool) (cs : list string)
    (written since : Z) : prog world (ecode + Z * Z) :=
  match cs with
  | [] => if failing then Ret (inl Network) else Ret (inr (written, since))
  | c :: cs =>
    _ <-? in_staging id (WriteAt target written c) orelse InsufficientStorage ;;
    let written := int64 (written + slen c) in
    let since := (since + slen c)%Z in
    if ((0 <? MaxTransferBytes (Limits cfg)) && (MaxTransferBytes (Limits cfg) <? bytes + written))%Z
    then Ret (inl PayloadTooLarge) else
    if (admissionCheckInterval <=? since)%Z then
      a <- adm_CheckStreaming cfg ;;
      match a with
      | Some e => Ret (inl e)
      | None => add_loop id target bytes failing cs written 0
      end
    else add_loop id target bytes failing cs written since
  end.

Definition AddFile (name : string) (r : reader) (s : SimpleSession) : prog world (ecode + SimpleSession) :=
  let clean := sanitizeUploadName name in
  if (clean =? "")%string then Ret (inl InvalidPath) else
  match ValidateComponent clean with
  | Some e => Ret (inl e)
  | None =>
    ensure (negb (bool_decide (ToLower clean ∈ ss_seenNames s))) orelse DuplicatePath ;;
    ensure (negb (MaxFiles (Limits cfg) <=? Z.of_nat (length (ss_entries s)))%Z) orelse TooManyFiles ;;
    match SafeJoinIn (staging_root cfg (ss_id s)) [PayloadDir] clean with
    | None => Ret (inl InvalidPath)
    | Some target =>
      _ <-? in_staging (ss_id s) (OpenFile true target 416) orelse Internal ;;
      ws <-? add_loop (ss_id s) target (ss_bytes s) (fails r) (chunks r) 0 (ss_sinceCheck s) ;;
      let '(written, since) := ws in
      _ <-? world_sync orelse Internal ;;
      _ <-? world_sync orelse Internal ;;
      let digest := HashBytes (join "" (chunks r)) in
      segID <- ids_Segment ;;
      now <- Now ;;
      Ret (inr (mkSession (ss_id s) (ss_note s) (ss_ttlMinutes s)
        (ss_entries s ++ [mkEntry clean EntryFile written (int64 now) 420 digest segID 0])
        (ss_segments s ++ [mkSegment segID SegmentRaw written digest (PayloadDir ++ "/" ++ clean)%string])
        (ss_roots s ++ [clean]) ({[ToLower clean]} ∪ ss_seenNames s)
        (ss_bytes s + written)%Z since))
    end
  end.

Definition session_manifest (now : Z) (s : SimpleSession) : Manifest :=
  mkManifest 1 (ss_id s) now (ss_note s) (ss_roots s) DigestAlgorithm (ss_segments s) (ss_entries s).

Definition session_Commit (s : SimpleSession) : prog world (ecode + CommitResponse) :=
  ensure (negb (length (ss_entries s) =? 0)%nat) orelse NoFiles ;;
  now <- Now ;;
  let m := session_manifest now s in
  match Manifest.Validate m with
  | Some e => Ret (inl e)
  | None => publish (ss_id s) m (ss_ttlMinutes s) (ss_note s) (Manifest.TotalBytes m)
  end.

(** Abort of an uncommitted session. *)
Definition session_Abort (s : SimpleSession) : prog world unit :=
  RemoveStaging (ss_id s) ;;; tx (Purge (ss_id s)) ;;; Ret tt.

Definition SimpleRawTTL (raw : string) : ecode + Z :=
  if (TrimSpace raw =? "")%string then inr (DefaultTTLMinutes_ (Limits cfg))
  else ParseTTL raw.

(** What the simple endpoints (internal/api/public) make of a request: the parts in order,
    then Commit; whatever fails first aborts the session. *)
Inductive part := PartFile (name : string) (r : reader) | PartNote (note : string) | PartTTL (minutes : Z)
| PartBroken (e : ecode).

Definition do_part (s : SimpleSession) (p : part) : prog world (ecode + SimpleSession) :=
  match p with
  | PartFile name r => AddFile name r s
  | PartNote note => Ret (SetNote note s)
  | PartTTL m => Ret (SetTTL m s)
  | PartBroken e => Ret (inl e)
  end.

(** A session from its first call to its last: [forget] is what a handler does before
    the deferred Abort when it answers an error.  The answer names the session. *)
Definition simple_session (forget : prog world unit) (parts : list part)
    : prog world (ecode + string * CommitResponse) :=
  b <- BeginSimple ;;
  match b with
  | inl e => forget ;;; Ret (inl e)
  | inr s =>
    r <- loop do_part s parts ;;
    match r with
    | inl e => forget ;;; session_Abort s ;;; Ret (inl e)
    | inr s' =>
      c <- session_Commit s' ;;
      match c with
      | inl e => forget ;;; session_Abort s' ;;; Ret (inl e)
      | inr resp => Ret (inr (ss_id s', resp))
      end
    end
  end.
End simple.
