(* ===== verification/Janitor.v ===== *)
(** * Expiry, deletion and reconciliation: internal/janitor and internal/reconcile *)
From S2P Require Import Prelude GoStrings GoTime Errors Paths Manifest Prog Tree Integrity Materialize Store.
From S2P Require Import Config World Service Commit.
Local Open Scope prog_scope.

Record CleanupResult := mkCleanup { cu_Expired : Z; cu_Deleted : Z; cu_StagingCleaned : Z; cu_TrashEmptied : Z }.
Record Report := mkReport {
  rp_CompletedCommits : Z; rp_FailedTransfers : Z; rp_OrphanLive : Z; rp_OrphanStaging : Z;
  rp_FinishedDeletes : Z }.

(** A Go map is ranged over in an order the runtime's random source picks. *)
Definition range_map {A} (f : world -> list A) : prog world (list A) :=
  act_ (fun w => (match permutations (f w) !! Z.to_nat (rnd w (rpos w)) with Some l => l | None => f w end,
                  set_rpos (rpos w + 1) w)).

Section janitor.
Context `{Unicode} `{Externals} `{ManifestCodec}.
Context (cfg : Server).

(** *** Sweep *)

Definition abandon (n : Z) (t : Transfer) : prog world Z :=
  r <- tx (SetState (t_ID t) StateAbandoned) ;;
  Ret (match r with inl _ => n | inr _ => (n + 1)%Z end).

Definition delete_one (n : Z) (t : Transfer) : prog world Z :=
  r <- tx (SetState (t_ID t) StateDeleting) ;;
  match r with
  | inl _ => Ret n
  | inr _ =>
    InvalidateManifest (t_ID t) ;;;
    r <- ToTrash (t_ID t) ;;
    match r with
    | inl _ => Ret n
    | inr _ =>
      r <- tx (Purge (t_ID t)) ;;
      Ret (match r with inl _ => n | inr _ => (n + 1)%Z end)
    end
  end.

(** now.Add(-time.Duration(n) * time.Minute) *)
Definition staging_deadline (now : Z) : Z := (now + minutes (- StagingTTLMinutes (Storage cfg)))%Z.

Definition Sweep : prog world (serr + CleanupResult) :=
  now <- Now ;;
  expired <-? tx (ExpireDue now) ;;
  stale <-? ask_rows (StaleStaging (staging_deadline now)) ;;
  abandoned <- each abandon 0%Z stale ;;
  unpinned <-? ask_rows (UnpinnedExpired now) ;;
  deleted <- each delete_one 0%Z unpinned ;;
  emptied <- EmptyTrash ;;
  tx (PurgeExpiredIdempotency now) ;;;
  Ret (inr (mkCleanup expired deleted abandoned (fst emptied))).

(** *** reconcile.Run *)

Definition bump_completed (r : Report) : Report :=
  mkReport (rp_CompletedCommits r + 1) (rp_FailedTransfers r) (rp_OrphanLive r) (rp_OrphanStaging r) (rp_FinishedDeletes r).
Definition bump_failed (r : Report) : Report :=
  mkReport (rp_CompletedCommits r) (rp_FailedTransfers r + 1) (rp_OrphanLive r) (rp_OrphanStaging r) (rp_FinishedDeletes r).
Definition bump_live (r : Report) : Report :=
  mkReport (rp_CompletedCommits r) (rp_FailedTransfers r) (rp_OrphanLive r + 1) (rp_OrphanStaging r) (rp_FinishedDeletes r).
Definition bump_staging (r : Report) : Report :=
  mkReport (rp_CompletedCommits r) (rp_FailedTransfers r) (rp_OrphanLive r) (rp_OrphanStaging r + 1) (rp_FinishedDeletes r).
Definition bump_deletes (r : Report) : Report :=
  mkReport (rp_CompletedCommits r) (rp_FailedTransfers r) (rp_OrphanLive r) (rp_OrphanStaging r) (rp_FinishedDeletes r + 1).

Definition stagingExists (id : string) : prog world bool :=
  r <- ListStagingIDs ;;
  Ret (match r with inl _ => false | inr ids => existsb (String.eqb id) ids end).

Definition reconcile_committed (id : string) (rep : Report) : prog world Report :=
  v <- livePayloadValid cfg id ;;
  if v then Ret rep else
  InvalidateManifest id ;;;
  ToTrash id ;;;
  tx (Purge id) ;;;
  Ret (bump_failed rep).

Definition reconcile_precommit (id : string) (state : tstate) (rep : Report) : prog world Report :=
  ex <- in_live id ManifestExists ;;
  v <- (if ex then livePayloadValid cfg id else Ret false) ;;
  if v then
    t <- ask (GetTransfer id) ;;
    match t with
    | inl _ => Ret rep
    | inr t =>
      r <- completeInterruptedPublish cfg t ;;
      Ret (match r with inl _ => rep | inr _ => bump_completed rep end)
    end
  else if bool_decide (state = StateVerifying) then
    tx (Fail id "INTERNAL") ;;;
    ToTrash id ;;;
    Ret (bump_failed rep)
  else
    m <- in_staging id ReadManifest ;;
    match m with
    | inr _ => Ret rep
    | inl _ =>
      ex <- stagingExists id ;;
      if ex then Ret rep else
      tx (Fail id "INTERNAL") ;;;
      Ret (bump_failed rep)
    end.

Definition reconcile_one (rep : Report) (p : string * tstate) : prog world Report :=
  let '(id, state) := p in
  match state with
  | StateCommitted => reconcile_committed id rep
  | StateCreated | StateUploading | StateVerifying => reconcile_precommit id state rep
  | StateDeleting => ToTrash id ;;; tx (Purge id) ;;; Ret (bump_deletes rep)
  | _ => Ret rep
  end.

Definition orphan_live (known : gmap string tstate) (rep : Report) (id : string) : prog world Report :=
  match known !! id with
  | Some _ => Ret rep
  | None => ToTrash id ;;; Ret (bump_live rep)
  end.
Definition orphan_staging (known : gmap string tstate) (rep : Report) (id : string) : prog world Report :=
  match known !! id with
  | Some _ => Ret rep
  | None => RemoveStaging id ;;; Ret (bump_staging rep)
  end.

Definition reconcile_Run : prog world (Report * bool) :=
  k <- ask AllTransferIDs ;;
  match k with
  | inl _ => Ret (mkReport 0 0 0 0 0, false)
  | inr known =>
    order <- range_map (fun _ => map_to_list known) ;;
    rep <- each reconcile_one (mkReport 0 0 0 0 0) order ;;
    l <- ListLiveIDs ;;
    match l with
    | inl _ => Ret (rep, false)
    | inr liveIDs =>
      rep <- each (orphan_live known) rep liveIDs ;;
      s <- ListStagingIDs ;;
      match s with
      | inl _ => Ret (rep, false)
      | inr stagingIDs =>
        rep <- each (orphan_staging known) rep stagingIDs ;;
        EmptyTrash ;;;
        Ret (rep, true)
      end
    end
  end.
End janitor.
