(* ===== verification/Api.v ===== *)
(** * HTTP handlers: internal/api/public and internal/api/local

    A handler turns a request into calls of the service and a response.  net/http parses
    requests (canonical header names, path values, multipart parts) and serves ranges of the
    content a handler hands over; encoding/json decodes bodies, so a JSON body is given as
    the decoder's answer. *)
From S2P Require Import Prelude GoStrings GoTime GoHttp Errors Code Paths Manifest Wire Admission Prog Tree Integrity.
From S2P Require Import Materialize Archive Store Config World Service Upload Commit Simple Janitor.
Local Open Scope prog_scope.

Record http := mkHttp {
  q_Method : string; q_Path : string; q_ContentLength : Z; q_Header : list (string * string) }.

(** r.Header.Get *)
Definition header (q : http) (name : string) : string :=
  match List.find (fun h => (fst h =? name)%string) (q_Header q) with Some h => snd h | None => "" end.

Inductive body :=
| BNone
| BText (s : string)
| BError (json : bool) (e : ecode)
| BCommit (r : CommitResponse) | BCreated (r : CreateTransferResponse) | BMetadata (m : TransferMetadata)
| BClaim (c : ClaimResponse) | BInfo (protocol : string) (i : Info) | BHealth (ready : bool) (protocol : string)
| BLocal (c : LocalClaim) | BStatus (s : AdminStatus)
| BCleanup (c : CleanupResult)
| BContent (name data : string)
| BArchive (items : list archive_item) (complete : bool).

Record response := mkResponse { r_Status : Z; r_Header : list (string * string); r_Body : body }.

(** ** errors.go *)

Definition wantsJSON (q : http) : bool :=
  contains "application/json" (header q "Accept") ||
  has_prefix "/v1/" (q_Path q) || (q_Path q =? "/v1")%string ||
  has_prefix "/local/status" (q_Path q) || has_prefix "/local/cleanup" (q_Path q).

Definition no_store : string * string := ("Cache-Control", "no-store")%string.
Definition text_plain : string * string := ("Content-Type", "text/plain; charset=utf-8")%string.
Definition app_json : string * string := ("Content-Type", "application/json; charset=utf-8")%string.
Definition octets : string * string := ("Content-Type", "application/octet-stream")%string.

Definition WriteError (q : http) (hs : list (string * string)) (e : ecode) : response :=
  let json := wantsJSON q in
  mkResponse (HTTPStatus (code_string e)) (hs ++ [if json then app_json else text_plain; no_store])%list (BError json e).
Definition writeJSON (status : Z) (hs : list (string * string)) (b : body) : response :=
  mkResponse status (hs ++ [app_json; no_store])%list b.
Definition writePlain (status : Z) (hs : list (string * string)) (s : string) : response :=
  mkResponse status (hs ++ [text_plain; no_store])%list (BText s).

(** ** Names in headers *)

(** sanitizeHeaderFilename *)
Definition header_rune (r : Z) : string :=
  if ((r <? 32) || (r =? 127) || (r =? 34) || (r =? 92) || (r =? 47) || (127 <? r))%Z then "_"
  else String (byte_of r) EmptyString.
Definition sanitizeHeaderFilename (name : string) : string :=
  let out := join "" (map header_rune (runes name)) in
  if (out =? "")%string then "download"%string else out.

(** setDisposition *)
Definition disposition (name : string) : string * string :=
  ("Content-Disposition", "attachment; filename=" ++ quote ++ sanitizeHeaderFilename name ++ quote
     ++ "; filename*=UTF-8''" ++ PathEscape name)%string.

(** bearerToken *)
Definition bearerToken (q : http) : string :=
  let h := header q "Authorization" in
  if (7 <? slen h)%Z && (smap lower_byte (stake 7 h) =? "bearer ")%string then TrimSpace (sdrop 7 h) else "".

(** One part of a multipart form: its form name, its file name, its content. *)
Record mpart := mkMpart { mp_FormName : string; mp_FileName : string; mp_body : reader }.

Section api.
Context {UC : Unicode} {EX : Externals} {MC : ManifestCodec}.
Context (cfg : Server).

(** ** Idempotency keys *)

(** idempotencyTTL: 24 hours *)
Definition idempotencyTTL : Z := (24 * 60 * 60 * second)%Z.

Definition requestFingerprint (q : http) : string :=
  EncodeToString (sha256 (join nul [q_Method q; q_Path q; FormatInt (q_ContentLength q);
    header q "X-SSS-Filename"; header q "X-SSS-TTL"])).
Definition keyHash (operation key : string) : string := EncodeToString (sha256 (operation ++ nul ++ key)%string).

(** beginIdempotent: the key's hash and the code to replay. *)
Definition beginIdempotent (q : http) (operation : string) : prog world (ecode + string * string) :=
  let key := TrimSpace (header q "Idempotency-Key") in
  if (key =? "")%string then Ret (inr (""%string, ""%string)) else
  ensure (negb ((slen key <? 8) || (200 <? slen key)))%Z orelse InvalidRequest ;;
  let hash := keyHash operation key in
  let fingerprint := requestFingerprint q in
  now <- Now ;;
  existing <-? tx (RememberIdempotency (mkIdem hash operation "" "" now (now + idempotencyTTL)%Z fingerprint)) orelse Internal ;;
  match existing with
  | None => Ret (inr (hash, ""%string))
  | Some rec =>
    ensure (i_RequestFingerprint rec =? fingerprint)%string orelse IdempotencyConflict ;;
    if negb (i_ResponseCode rec =? "")%string then Ret (inr (hash, i_ResponseCode rec)) else
    if negb (i_TransferID rec =? "")%string then Ret (inl IdempotencyConflict) else
    Ret (inl StateConflict)
  end.

Definition completeIdempotent (hash transferID code : string) : prog world unit :=
  if (hash =? "")%string then Ret tt else tx (CompleteIdempotency hash transferID code) ;;; Ret tt.
Definition forget (hash : string) : prog world unit :=
  if (hash =? "")%string then Ret tt else tx (ForgetIdempotency hash) ;;; Ret tt.

(** respondCode *)
Definition respondCode (q : http) (r : CommitResponse) (status : Z) : response :=
  let loc := ("Location", "/v1/transfers/" ++ co_Code r)%string in
  if contains "application/json" (header q "Accept") then writeJSON status [loc] (BCommit r)
  else writePlain status [loc] (co_Code r ++ nl)%string.

(** A replayed answer carries the code only. *)
Definition replayed (code : string) : CommitResponse := mkCommitResponse code zero_time zero_time.

(** readField *)
Definition readField (r : reader) (limit : Z) : ecode + string :=
  let data := join "" (chunks r) in
  if (limit <=? slen data)%Z then inl InvalidRequest else
  if fails r then inl Network else inr data.

(** The parts a form makes; the first one that cannot be used ends the request. *)
Definition form_part (p : mpart) : list part :=
  if (mp_FormName p =? "file")%string then [PartFile (mp_FileName p) (mp_body p)] else
  if (mp_FormName p =? "note")%string then
    match readField (mp_body p) (MaxNoteBytesHard + 1) with inl e => [PartBroken e] | inr v => [PartNote v] end else
  if (mp_FormName p =? "ttl")%string then
    match readField (mp_body p) 32 with
    | inl e => [PartBroken e]
    | inr v => match ParseTTL (TrimSpace v) with inl e => [PartBroken e] | inr m => [PartTTL m] end
    end
  else [].

(** What both simple endpoints do once the request is read. *)
Definition upload_session (q : http) (hash : string) (parts : list part) : prog world response :=
  r <- simple_session cfg (forget hash) parts ;;
  match r with
  | inl e => Ret (WriteError q [] e)
  | inr (id, resp) => completeIdempotent hash id (co_Code resp) ;;; Ret (respondCode q resp 201)
  end.

(** A multipart body: its parts, and whether the stream fails after them. *)
Definition form_parts (form : list mpart * bool) : list part :=
  flat_map form_part (fst form) ++ (if snd form then [PartBroken Network] else []).
Definition raw_parts (q : http) (minutes : Z) (filename : string) (data : reader) : list part :=
  let note := header q "X-SSS-Note" in
  [PartTTL minutes] ++ (if (note =? "")%string then [] else [PartNote note]) ++ [PartFile filename data].

(** The form is [None] when the body is not multipart. *)
Definition handleSimpleUpload (q : http) (form : option (list mpart * bool)) : prog world response :=
  b <- beginIdempotent q "simple-send" ;;
  match b with
  | inl e => Ret (WriteError q [] e)
  | inr (hash, replay) =>
    if negb (replay =? "")%string then Ret (respondCode q (replayed replay) 200) else
    match form with
    | None => forget hash ;;; Ret (WriteError q [] InvalidRequest)
    | Some form => upload_session q hash (form_parts form)
    end
  end.

Definition handleRawUpload (q : http) (data : reader) : prog world response :=
  b <- beginIdempotent q "raw-send" ;;
  match b with
  | inl e => Ret (WriteError q [] e)
  | inr (hash, replay) =>
    if negb (replay =? "")%string then Ret (respondCode q (replayed replay) 200) else
    let filename := TrimSpace (header q "X-SSS-Filename") in
    if (filename =? "")%string then forget hash ;;; Ret (WriteError q [] InvalidRequest) else
    match SimpleRawTTL cfg (header q "X-SSS-TTL") with
    | inl e => forget hash ;;; Ret (WriteError q [] e)
    | inr minutes => upload_session q hash (raw_parts q minutes filename data)
    end
  end.

(** ** Receiving *)

Definition serveRawFile (q : http) (dl : Download) (e : Entry) : prog world response :=
  let id := t_ID (dl_Transfer dl) in
  match SafeJoinIn (live_root cfg id) [PayloadDir] (e_Path e) with
  | None => Ret (WriteError q [] Internal)
  | Some p =>
    d <- in_live id (ReadFile p) ;;
    match d with
    | inl _ => Ret (WriteError q [] Internal)
    | inr d => Ret (mkResponse 200 [octets; no_store; disposition (e_Path e)] (BContent (e_Path e) d))
    end
  end.

Definition handleDownload (q : http) (code format : string) : prog world response :=
  let format := if (format =? "")%string then "auto"%string else format in
  if negb (existsb (String.eqb format) ["auto"; "raw"; "zip"; "tar"]%string) then Ret (WriteError q [] InvalidRequest) else
  d <- OpenDownload cfg code ;;
  match d with
  | inl e => Ret (WriteError q [] e)
  | inr dl =>
    a <- AcquireDownload ;;
    match a with
    | inl e => Ret (WriteError q [] e)
    | inr _ =>
      let '(single, isSingle) := SingleRootFile (dl_Manifest dl) in
      if (format =? "raw")%string && negb isSingle then Ret (WriteError q [] InvalidRequest) else
      if (format =? "raw")%string || (format =? "auto")%string && isSingle then serveRawFile q dl single else
      let tar := (format =? "tar")%string in
      let name := ("sss-" ++ FormatCode (t_Code (dl_Transfer dl)) ++ (if tar then ".tar" else ".zip"))%string in
      let hs := [("Content-Type", if tar then "application/x-tar" else "application/zip")%string; disposition name; no_store] in
      if (q_Method q =? "HEAD")%string then Ret (mkResponse 200 hs BNone) else
      let id := t_ID (dl_Transfer dl) in
      r <- in_live id (stream (live_root cfg id) tar (dl_Manifest dl)) ;;
      Ret (mkResponse 200 hs (BArchive (fst r) (snd r)))
    end
  end.

Definition handleMetadata (q : http) (code : string) : prog world response :=
  m <- Metadata code ;;
  Ret (match m with inl e => WriteError q [] e | inr m => writeJSON 200 [] (BMetadata m) end).

(** ** Resumable transfers *)

Definition handleCreateTransfer (q : http) (req : option CreateTransferRequest) : prog world response :=
  b <- beginIdempotent q "create-transfer" ;;
  match b with
  | inl e => Ret (WriteError q [] e)
  | inr (hash, replay) =>
    if negb (replay =? "")%string then Ret (WriteError q [] IdempotencyConflict) else
    match req with
    | None => forget hash ;;; Ret (WriteError q [] InvalidRequest)
    | Some req =>
      r <- service_CreateTransfer cfg req ;;
      match r with
      | inl e => forget hash ;;; Ret (WriteError q [] e)
      | inr resp => completeIdempotent hash (cx_TransferID resp) "" ;;; Ret (writeJSON 201 [] (BCreated resp))
      end
    end
  end.

Definition tus : string * string := ("Tus-Resumable", "1.0.0")%string.
Definition offset_header (n : Z) : string * string := ("Upload-Offset"%string, FormatInt n).

Definition handleUploadHead (q : http) (uploadID : string) : prog world response :=
  s <- UploadState uploadID ;;
  Ret (match s with
       | inl e => WriteError q [] e
       | inr (off, len) => mkResponse 200 [tus; offset_header off; ("Upload-Length"%string, FormatInt len); no_store] BNone
       end).

Definition handleUploadPatch (q : http) (uploadID : string) (data : reader) : prog world response :=
  let v := header q "Tus-Resumable" in
  if negb (v =? "")%string && negb (v =? "1.0.0")%string then Ret (WriteError q [] ProtocolMismatch) else
  let ct := header q "Content-Type" in
  if negb (ct =? "")%string &&
     negb (match ParseMediaType ct with Some m => (m =? "application/offset+octet-stream")%string | None => false end)
  then Ret (WriteError q [] InvalidRequest) else
  match Atoi (header q "Upload-Offset") with
  | None => Ret (WriteError q [] InvalidRequest)
  | Some offset =>
    if (offset <? 0)%Z then Ret (WriteError q [] InvalidRequest) else
    r <- UploadPatch cfg uploadID offset data ;;
    let '(n, e) := r in
    Ret (match e with
         | Some e => WriteError q [tus; offset_header n] e
         | None => mkResponse 204 [tus; offset_header n] BNone
         end)
  end.

Definition handleCommit (q : http) (id : string) (m : option Manifest) : prog world response :=
  match m with
  | None => Ret (WriteError q [] InvalidRequest)
  | Some m =>
    r <- service_Commit cfg id m ;;
    Ret (match r with
         | inl e => WriteError q [] e
         | inr (resp, created) =>
           writeJSON (if created : bool then 201 else 200) [("Location", "/v1/transfers/" ++ co_Code resp)%string] (BCommit resp)
         end)
  end.

(** ** Claims *)

Definition handleCreateClaim (q : http) (code : option string) : prog world response :=
  match code with
  | None => Ret (WriteError q [] InvalidRequest)
  | Some code =>
    r <- service_CreateClaim code ;;
    Ret (match r with inl e => WriteError q [] e | inr c => writeJSON 201 [] (BClaim c) end)
  end.

Definition challenge : string * string := ("WWW-Authenticate", "Bearer realm=" ++ quote ++ "sss-claim" ++ quote)%string.

Definition handleClaimSegment (q : http) (claimID segmentID : string) : prog world response :=
  let token := bearerToken q in
  if (token =? "")%string then Ret (WriteError q [challenge] AuthRequired) else
  a <- AcquireDownload ;;
  match a with
  | inl e => Ret (WriteError q [] e)
  | inr _ =>
    f <- ClaimSegmentFile cfg claimID token segmentID ;;
    Ret (match f with
         | inl e => WriteError q [] e
         | inr (d, n) => mkResponse 200 [octets; no_store; ("X-SSS-Segment-Length"%string, FormatInt n)] (BContent segmentID d)
         end)
  end.

Definition handleClaimOutboard (q : http) (claimID segmentID : string) : prog world response :=
  let token := bearerToken q in
  if (token =? "")%string then Ret (WriteError q [challenge] AuthRequired) else
  f <- ClaimOutboardFile claimID token segmentID ;;
  Ret (match f with
       | inl e => WriteError q [] e
       | inr (d, n) =>
         mkResponse 200 [octets; no_store; ("X-SSS-Outboard-Length"%string, FormatInt n)] (BContent (segmentID ++ ".obao") d)
       end).

Definition handleClaimComplete (q : http) (claimID : string) : prog world response :=
  let token := bearerToken q in
  if (token =? "")%string then Ret (WriteError q [challenge] AuthRequired) else
  r <- service_CompleteClaim claimID token ;;
  Ret (match r with inl e => WriteError q [] e | inr _ => mkResponse 204 [] BNone end).

(** ** Reports and the local socket *)

Definition handleHealthz : prog world response := Ret (writePlain 200 [] ("ok" ++ nl)%string).
Definition handleReadyz (ready : bool) : prog world response :=
  Ret (if ready then writePlain 200 [] ("ready" ++ nl)%string else writePlain 503 [] ("reconciling" ++ nl)%string).
Definition handleInfo : prog world response := i <- service_Info cfg ;; Ret (writeJSON 200 [] (BInfo Protocol i)).

Definition handleLocalReceive (q : http) (code : string) : prog world response :=
  c <- LocalPath cfg code ;;
  Ret (match c with
       | inl e => WriteError q [] e
       | inr c => if contains "application/json" (header q "Accept") then mkResponse 200 [app_json] (BLocal c)
                  else mkResponse 200 [text_plain] (BText (lc_Path c ++ nl)%string)
       end).
Definition handleStatus (q : http) : prog world response :=
  s <- service_Status cfg ;;
  Ret (match s with inl _ => WriteError q [] Internal | inr s => mkResponse 200 [app_json] (BStatus s) end).
Definition handleCleanup (q : http) : prog world response :=
  r <- Sweep cfg ;;
  Ret (match r with inl _ => WriteError q [] Internal | inr c => mkResponse 200 [app_json] (BCleanup c) end).

Definition local_handleHealthz (ready : bool) : prog world response := Ret (mkResponse 200 [app_json] (BHealth ready Protocol)).

(** ** Register: the routes, a request with its path values and decoded body *)

Inductive request :=
| GetHealthz | GetReadyz (ready : bool) | GetInfo
| PostSimple (q : http) (form : option (list mpart * bool))
| PostRaw (q : http) (data : reader)
| GetDownload (q : http) (code format : string)
| GetTransfer_ (q : http) (code : string)
| PostTransfers (q : http) (req : option CreateTransferRequest)
| PostCommit (q : http) (id : string) (m : option Manifest)
| HeadUpload (q : http) (uploadID : string)
| PatchUpload (q : http) (uploadID : string) (data : reader)
| PostClaims (q : http) (code : option string)
| GetSegment_ (q : http) (claimID segmentID : string)
| GetOutboard (q : http) (claimID segmentID : string)
| PostComplete (q : http) (claimID : string)
| LocalReceive (q : http) (code : string) | LocalStatus (q : http) | LocalCleanup (q : http) | LocalHealthz (ready : bool).

Definition handle (r : request) : prog world response :=
  match r with
  | GetHealthz => handleHealthz
  | GetReadyz ready => handleReadyz ready
  | GetInfo => handleInfo
  | PostSimple q form => handleSimpleUpload q form
  | PostRaw q data => handleRawUpload q data
  | GetDownload q code format => handleDownload q code format
  | GetTransfer_ q code => handleMetadata q code
  | PostTransfers q req => handleCreateTransfer q req
  | PostCommit q id m => handleCommit q id m
  | HeadUpload q u => handleUploadHead q u
  | PatchUpload q u data => handleUploadPatch q u data
  | PostClaims q code => handleCreateClaim q code
  | GetSegment_ q c s => handleClaimSegment q c s
  | GetOutboard q c s => handleClaimOutboard q c s
  | PostComplete q c => handleClaimComplete q c
  | LocalReceive q code => handleLocalReceive q code
  | LocalStatus q => handleStatus q
  | LocalCleanup q => handleCleanup q
  | LocalHealthz ready => local_handleHealthz ready
  end.
End api.
