(* ===== verification/Safety.v ===== *)
(** * The server's safety invariant

    What holds of the database, the directories and the manifest cache between any two
    calls of any operation, and the preservation lemmas the operations' proofs share. *)
From S2P Require Import Prelude GoStrings GoTime Errors Code Paths Manifest Wire Admission Prog Tree.
From S2P Require Import Integrity Materialize Store Config World Service.
Local Open Scope prog_scope.

(** Whether the invariant also demands that every COMMITTED transfer has its live
    directory.  Every operation keeps that part; startup reconciliation, which deletes
    first and forgets the row afterwards, may lose it when a call fails. *)
Class Strictness := strict : Prop.
Definition strictly : Strictness := True.
Definition leniently : Strictness := False.

Section safety.
Context {ST : Strictness} {UC : Unicode} {EX : Externals} {MC : ManifestCodec}.

(** The manifest a tree carries, and a tree that holds everything its manifest declares. *)
Definition manifest_of (t : tree) : option Manifest :=
  match look t [ManifestFile] with
  | Some (CFile d) => match parse_manifest d with inr m => Some m | inl _ => None end
  | _ => None
  end.
Definition live_complete (t : tree) : Prop :=
  is_Some (look t []) /\ exists m, manifest_of t = Some m /\ manifest_held t m.

Definition no_segments (t : tree) : Prop := forall s d, look t [SegmentsDir; s] <> Some (CFile d).

Definition uploading (s : tstate) : Prop := s = StateCreated \/ s = StateUploading.

Record Inv (w : world) : Prop := {
  inv_db : db_ok (db w);
  inv_ids : map_Forall (fun id _ => plain id = true /\ plain (Shard id) = true) (transfers (db w));
  inv_segment_ids : map_Forall (fun k _ => plain (snd k) = true) (segments (db w));
  (** every live directory is complete *)
  inv_live id t : live w !! id = Some t -> live_complete t;
  (** a COMMITTED transfer has its live directory *)
  inv_committed : strict -> forall id r, transfers (db w) !! id = Some r -> c_state r = StateCommitted ->
    is_Some (live w !! id);
  (** a cached manifest is the live one *)
  inv_cache id m : cache_items (cache w) !! id = Some m ->
    exists t, live w !! id = Some t /\ manifest_of t = Some m;
  (** once published, a transfer accepts no upload and has no staged segment *)
  inv_published id t : live w !! id = Some t ->
    no_segments (tree_of (staging w) id) /\
    (forall r, transfers (db w) !! id = Some r -> ~ uploading (c_state r)) }.

Lemma manifest_of_same t t' : same t t' -> manifest_of t = manifest_of t'.
Proof. intros Hs. unfold manifest_of. by rewrite Hs. Qed.
Lemma live_complete_same t t' : same t t' -> live_complete t -> live_complete t'.
Proof.
  intros Hs (Hd & m & Hm & Hh). split; [by rewrite <- Hs|]. exists m.
  rewrite <- (manifest_of_same _ _ Hs). split; [done|]. by eapply manifest_held_same.
Qed.
Lemma no_segments_same t t' : same t t' -> no_segments t -> no_segments t'.
Proof. intros Hs Hn s d. rewrite <- Hs. apply Hn. Qed.

(** ** Calls that keep the invariant *)

Definition keeps (w w' : world) : Prop := Inv w -> Inv w'.

#[export] Instance keeps_preorder : PreOrder keeps.
Proof. split; [intros w Hw; exact Hw|]. intros w1 w2 w3 H1 H2 Hw. auto. Qed.

(** Calls that moreover leave the contents of every live directory alone. *)
Definition live_stays (w w' : world) : Prop :=
  forall id t, live w !! id = Some t -> exists t', live w' !! id = Some t' /\ same t t'.
#[export] Instance live_stays_preorder : PreOrder live_stays.
Proof.
  split; [intros w id t Ht; by exists t|]. intros w1 w2 w3 L1 L2 id t Ht.
  destruct (L1 id t Ht) as (t2 & Ht2 & Hs2). destruct (L2 id t2 Ht2) as (t3 & Ht3 & Hs3).
  exists t3. split; [done|]. by etrans.
Qed.
Definition calm (w w' : world) : Prop := Inv w -> Inv w' /\ live_stays w w'.

#[export] Instance calm_preorder : PreOrder calm.
Proof.
  split.
  - intros w Hw. split; [done|]. intros id t Ht. by exists t.
  - intros w1 w2 w3 G1 G2 Hw. destruct (G1 Hw) as [Hw2 L1]. destruct (G2 Hw2) as [Hw3 L2].
    split; [done|]. by etrans.
Qed.

Lemma within_calm_keeps {A : Type} (p : prog world A) : within calm p -> within keeps p.
Proof. apply within_mono. intros w w' Hc Hw. by apply Hc. Qed.

Lemma calm_same_live w w' : live w' = live w -> (Inv w -> Inv w') -> calm w w'.
Proof. intros E HI Hw. split; [auto|]. intros id t Ht. rewrite E. by exists t. Qed.

(** The parts of the world the invariant does not read. *)
Lemma Inv_same w w' : db w' = db w -> staging w' = staging w -> live w' = live w -> cache w' = cache w ->
  Inv w -> Inv w'.
Proof. intros E1 E2 E3 E4 [H1 H2 H2s H3 H4 H5 H6]. split; rewrite ?E1, ?E2, ?E3, ?E4; done. Qed.

(** Changing the database: rows keep their identity, none becomes COMMITTED or uploading
    that was not, unless it has, or lacks, a live directory. *)
Lemma Inv_db w d : Inv w -> db_ok d -> map_Forall (fun k _ => plain (snd k) = true) (segments d) ->
  (forall id r', transfers d !! id = Some r' -> exists r, transfers (db w) !! id = Some r /\
     (c_state r' = StateCommitted -> c_state r = StateCommitted \/ is_Some (live w !! id)) /\
     (uploading (c_state r') -> uploading (c_state r) \/ live w !! id = None)) ->
  Inv (set_db d w).
Proof.
  intros [H1 H2 H2s H3 H4 H5 H6] Hd Hsd Hr. split; cbn; [done| |done|done| |done|].
  - intros id r' Hr'. destruct (Hr id r' Hr') as (r & Hrow & _). by apply (H2 id r).
  - intros Hst id r' Hr' Hc. destruct (Hr id r' Hr') as (r & Hrow & [?|?] & _); [done|eauto|done].
  - intros id t Ht. destruct (H6 id t Ht) as [? Hu]. split; [done|]. intros r' Hr' Hup.
    destruct (Hr id r' Hr') as (r & Hrow & _ & [?|?]); [done|by eapply Hu|congruence].
Qed.

Lemma Inv_db_same_transfers w d : Inv w -> db_ok d ->
  map_Forall (fun k _ => plain (snd k) = true) (segments d) -> transfers d = transfers (db w) -> Inv (set_db d w).
Proof.
  intros Hw Hd Hsd E. apply Inv_db; [done|done|done|]. intros id r. rewrite E. intros Hr.
  exists r. split; [done|]. auto.
Qed.

Lemma Inv_update w id f : Inv w -> (forall r, c_code (f r) = c_code r /\ c_committed_at (f r) = c_committed_at r /\
     c_expires_at (f r) = c_expires_at r /\ (c_state (f r) = StateCommitted -> c_state r = StateCommitted)) ->
  (forall r, uploading (c_state (f r)) -> uploading (c_state r) \/ live w !! id = None) ->
  Inv (set_db (update_transfer id f (db w)) w).
Proof.
  intros Hw Hf Hu. apply Inv_db; [done|by apply db_ok_update; [|apply Hw]|apply Hw|].
  intros j r'. rewrite update_transfer_lookup. destruct (decide (id = j)) as [->|].
  - intros (r & Hr & ->)%fmap_Some. exists r. split; [done|]. split; [left; by apply Hf|]. apply Hu.
  - intros Hr. exists r'. auto.
Qed.

(** A transaction keeps the invariant when its effect does. *)
Definition safe_txn {A : Type} (f : txn A) : Prop := forall w, Inv w -> Inv (set_db (snd (f (db w))) w).

(** Calls that leave every live directory as it is. *)
Definition still (w w' : world) : Prop := live w' = live w /\ (Inv w -> Inv w').

#[export] Instance still_preorder : PreOrder still.
Proof.
  split; [by intros w|]. intros w1 w2 w3 [E1 G1] [E2 G2]. split; [congruence|auto].
Qed.
Lemma within_still_calm {A : Type} (p : prog world A) : within still p -> within calm p.
Proof. apply within_mono. intros w w' [E HI]. by apply calm_same_live. Qed.
Lemma still_intro w w' : live w' = live w -> (Inv w -> Inv w') -> still w w'.
Proof. done. Qed.

Lemma still_tx {A : Type} (f : txn A) : safe_txn f -> within still (tx f).
Proof.
  intros Hf. assert (G : forall w, still w (snd (tx_step f w))).
  { intros w. unfold tx_step. specialize (Hf w). destruct (f (db w)). by apply still_intro. }
  apply within_act; [done|]. intros g n w [= <-]. cbn. destruct n; [done|apply G].
Qed.

(** Calls that change nothing but the clock and the disk gauge. *)
Definition idle (w w' : world) : Prop :=
  db w' = db w /\ staging w' = staging w /\ live w' = live w /\ cache w' = cache w /\ rnd w' = rnd w /\ rpos w' = rpos w.
#[export] Instance idle_preorder : PreOrder idle.
Proof. split; [done|]. unfold idle. intros w1 w2 w3. intuition congruence. Qed.
Lemma idle_Inv w w' : idle w w' -> Inv w -> Inv w'.
Proof. intros (? & ? & ? & ? & _). by apply Inv_same. Qed.
Lemma within_idle_still {A : Type} (p : prog world A) : within idle p -> within still p.
Proof. apply within_mono. intros w w' Hi. split; [apply Hi|by apply idle_Inv]. Qed.

Lemma idle_act {R : Type} (step : world -> R * world) alts :
  (forall w, idle w (snd (step w))) -> (forall f n w, alts = Some f -> idle w (snd (f n w))) ->
  within idle (act step alts).
Proof. intros Hs Ha. by apply within_act. Qed.

Lemma idle_ask {A : Type} (q : query A) : within idle (ask q).
Proof. apply idle_act; [done|]. by intros f n w [= <-]. Qed.
Lemma idle_ask_rows {A : Type} (q : query (list A)) : within idle (ask_rows q).
Proof. apply idle_act; [done|]. by intros f n w [= <-]. Qed.
Lemma idle_Now : within idle Now.
Proof. apply idle_act; [done|]. by intros f n w [= <-]. Qed.
Lemma idle_Usage : within idle Usage.
Proof. apply idle_act; [done|]. intros f n w [= <-]. by destruct n. Qed.
Lemma idle_sync : within idle world_sync.
Proof. apply idle_act; [done|]. by intros f n w [= <-]. Qed.
Lemma idle_stat area id : within idle (stat_dir area id).
Proof. apply idle_act; [done|]. by intros f n w [= <-]. Qed.
Lemma idle_list_dir area : within idle (list_dir area).
Proof. apply idle_act; [done|]. by intros f n w [= <-]. Qed.

Lemma still_rand n : within still (rand_Read n).
Proof. apply within_act; [|done]. intros w. apply still_intro; [done|]. by apply Inv_same. Qed.
Lemma still_New p : within still (New p).
Proof. unfold New. within_solve. apply still_rand. Qed.
Lemma still_Upload : within still ids_Upload.
Proof. apply still_New. Qed.
Lemma still_Segment : within still ids_Segment.
Proof. apply still_New. Qed.
Lemma still_Claim : within still ids_Claim.
Proof. apply still_New. Qed.
Lemma still_Token : within still ids_Token.
Proof. unfold ids_Token. within_solve. apply still_rand. Qed.

(** *** Transactions *)

Lemma safe_SetState id s : s <> StateCommitted -> ~ uploading s -> safe_txn (SetState id s).
Proof. intros Hc Hu w Hw. apply Inv_update; [done|by intros r|]. intros r Hr. done. Qed.
Lemma safe_Fail id e : safe_txn (Fail id e).
Proof. intros w Hw. apply Inv_update; [done|by intros r|]. intros r [|]; done. Qed.
Lemma safe_SetNoteAndTTL id n ttl : safe_txn (SetNoteAndTTL id n ttl).
Proof. intros w Hw. apply Inv_update; [done|by intros r|]. by left. Qed.
Lemma safe_AddWireBytes id n : safe_txn (AddWireBytes id n).
Proof. intros w Hw. apply Inv_update; [done|by intros r|]. by left. Qed.
Lemma safe_InsertSegment s : plain (s_ID s) = true -> safe_txn (InsertSegment s).
Proof.
  intros Hp w Hw. pose proof (db_ok_insert_segment s _ (inv_db w Hw)) as Hd. revert Hd.
  unfold InsertSegment. repeat case_match; intros Hd; cbn in *; try (by destruct w);
    (apply Inv_db_same_transfers; [done|exact Hd| |done]; apply map_Forall_insert_2; [done|apply Hw]).
Qed.
Lemma safe_SetSegmentProgress t id n s : safe_txn (SetSegmentProgress t id n s).
Proof.
  intros w Hw. apply Inv_db_same_transfers; [done|apply db_ok_progress, Hw| |done].
  intros k r. cbn. rewrite lookup_alter. destruct (decide _) as [<-|].
  - intros (r0 & Hr0 & _)%fmap_Some. by apply (inv_segment_ids w Hw _ _ Hr0).
  - apply (inv_segment_ids w Hw).
Qed.
Lemma safe_CreateClaim c : safe_txn (CreateClaim c).
Proof.
  intros w Hw. apply Inv_db_same_transfers; [done|apply db_ok_create_claim, Hw| |];
    unfold CreateClaim; repeat case_match; apply Hw || done.
Qed.
Lemma safe_RenewClaim id u : safe_txn (RenewClaim id u).
Proof.
  intros w Hw. apply Inv_db_same_transfers; [done| |apply Hw|done].
  apply (db_ok_write (WRenewClaim id u)); [apply Hw|done].
Qed.
Lemma safe_CompleteClaim id a : safe_txn (CompleteClaim id a).
Proof.
  intros w Hw. apply Inv_db_same_transfers; [done| |apply Hw|done].
  apply (db_ok_write (WCompleteClaim id a)); [apply Hw|done].
Qed.
Lemma safe_Purge id : safe_txn (Purge id).
Proof.
  intros w Hw. apply Inv_db; [done|apply db_ok_purge, Hw| |].
  - intros k r. cbn. intros [Hk _]%map_lookup_filter_Some. by apply (inv_segment_ids w Hw _ _ Hk).
  - intros j r. cbn. rewrite lookup_delete_Some. intros [_ Hr]. exists r. auto.
Qed.
Lemma safe_ExpireDue now : safe_txn (ExpireDue now).
Proof.
  intros w Hw. apply Inv_db; [done|apply db_ok_expire, Hw|apply Hw|].
  intros j r. cbn. rewrite lookup_fmap. intros (r0 & Hr & ->)%fmap_Some. exists r0.
  split; [done|]. destruct (due now r0); cbn; [|auto]. split; [done|]. intros [|]; done.
Qed.
Lemma safe_PurgeExpired now : safe_txn (PurgeExpiredIdempotency now).
Proof. intros w Hw. apply Inv_db_same_transfers; [done|apply db_ok_set_idem, Hw|apply Hw|done]. Qed.

(** A run of an idle call followed by the rest of a program. *)
Lemma wp_idle {A B : Type} (p : prog world A) (f : A -> prog world B) (Q : B -> world -> Prop) w :
  Inv w -> within idle p -> (forall a w1, Inv w1 -> idle w w1 -> wp Inv (f a) Q w1) ->
  wp Inv (bind p f) Q w.
Proof.
  intros Hw Hp Hf. apply wp_bind. apply (wp_within idle); [done|intros w1 Hi; by eapply idle_Inv|].
  intros a w1 Hi. apply Hf; [by eapply idle_Inv|done].
Qed.

(** *** Programs of one directory *)

Lemma tree_of_put id t a : tree_of (put_tree id t a) id = t.
Proof.
  unfold tree_of, put_tree. destruct (decide (t = ∅)) as [->|]; [by rewrite lookup_delete_eq|by rewrite lookup_insert_eq].
Qed.
Lemma lookup_put_ne id j t (a : gmap string tree) : j <> id -> put_tree id t a !! j = a !! j.
Proof.
  intros Hj. unfold put_tree. destruct (decide (t = ∅)); [by rewrite lookup_delete_ne|by rewrite lookup_insert_ne].
Qed.
Lemma lookup_put id t (a : gmap string tree) t' : put_tree id t a !! id = Some t' -> t' = t.
Proof.
  unfold put_tree. destruct (decide (t = ∅)); [by rewrite lookup_delete_eq|]. rewrite lookup_insert_eq. by intros [= ->].
Qed.
Lemma same_empty t : same ∅ t -> t = ∅.
Proof.
  intros Hs. apply map_eq. intros q. specialize (Hs q). unfold look in Hs. rewrite lookup_empty in Hs |- *.
  by destruct (t !! q).
Qed.

(** [w1] differs from [w] in the staging directory of [id] only. *)
Record staged_from (id : string) (w w1 : world) : Prop := {
  sf_db : db w1 = db w; sf_live : live w1 = live w; sf_trash : trash w1 = trash w; sf_cache : cache w1 = cache w;
  sf_rnd : rnd w1 = rnd w /\ rpos w1 = rpos w /\ clock w1 = clock w;
  sf_staging j : j <> id -> tree_of (staging w1) j = tree_of (staging w) j }.

Lemma wp_in_staging {A : Type} id (p : prog tree A) (I : world -> Prop) (J : tree -> Prop) (Q' : A -> tree -> Prop)
    (Q : A -> world -> Prop) w :
  wp J p Q' (tree_of (staging w) id) ->
  (forall w1, staged_from id w w1 -> J (tree_of (staging w1) id) -> I w1) ->
  (forall a w1, staged_from id w w1 -> Q' a (tree_of (staging w1) id) -> Q a w1) ->
  wp I (in_staging id p) Q w.
Proof.
  intros Hp HI HQ. eapply wp_wand.
  - apply (wp_lift (fun w => tree_of (staging w) id) (fun t w => set_staging (put_tree id t (staging w)) w) I J
      (staged_from id w) p Q'); [| |by split|exact Hp].
    + intros t w1 [E1 E2 E3 E4 E5 E6] HJ.
      assert (Hsf : staged_from id w (set_staging (put_tree id t (staging w1)) w1)).
      { split; cbn; try done. intros j Hj. rewrite <- E6 by done. unfold tree_of. by rewrite lookup_put_ne. }
      split; [|done]. apply HI; [done|]. cbn. by rewrite tree_of_put.
    + intros t w1. cbn. apply tree_of_put.
  - cbn. intros a w1 [? ?]. auto.
Qed.

Lemma Inv_staged id w w1 : Inv w -> staged_from id w w1 ->
  live w !! id = None \/ no_segments (tree_of (staging w1) id) -> Inv w1.
Proof.
  intros [H1 H2 H2s H3 H4 H5 H6] [E1 E2 E3 E4 _ E6] Hc. split; rewrite ?E1, ?E2, ?E4; try done.
  intros j t Ht. destruct (H6 j t Ht) as [Hn Hu]. split; [|done].
  destruct (decide (j = id)) as [->|Hj]; [|by rewrite E6].
  destruct Hc as [Hc|]; [congruence|done].
Qed.

(** Staging directories that lose files. *)
Lemma Inv_set_staging w m : Inv w ->
  (forall j, no_segments (tree_of (staging w) j) -> no_segments (tree_of m j)) -> Inv (set_staging m w).
Proof.
  intros [H1 H2 H2s H3 H4 H5 H6] Hm. split; cbn; try done. intros j t Ht. destruct (H6 j t Ht). auto.
Qed.

Lemma no_segments_sub (t t' : tree) : (forall q d, look t' q = Some (CFile d) -> exists d', look t q = Some (CFile d')) ->
  no_segments t -> no_segments t'.
Proof. intros Hs Hn s d Hl. destruct (Hs _ _ Hl) as [d' Hd']. by eapply Hn. Qed.

#[local] Hint Resolve idle_stat within_idle_still : within.
Lemma still_RemoveStaging id : within still (RemoveStaging id).
Proof.
  assert (G : forall (t' : tree) w, (forall q d, look t' q = Some (CFile d) ->
      exists d', look (tree_of (staging w) id) q = Some (CFile d')) ->
    still w (set_staging (put_tree id t' (staging w)) w)).
  { intros t' w Hsub. split; [done|]. intros Hw. apply Inv_set_staging; [done|]. intros j Hn.
    destruct (decide (j = id)) as [->|Hj]; [|unfold tree_of; by rewrite lookup_put_ne].
    rewrite tree_of_put. by eapply no_segments_sub. }
  assert (Hrm : forall w, still w (set_staging (delete id (staging w)) w)).
  { intros w. replace (delete id (staging w)) with (put_tree id ∅ (staging w)) by (unfold put_tree; by rewrite decide_True).
    apply G. intros q d Hl. unfold look in Hl. by rewrite lookup_empty in Hl. }
  assert (Hw1 : within still (act (fun w => (inr tt : oserr + unit,
      set_staging (put_tree id (MakeTreeWritable (tree_of (staging w) id)) (staging w)) w))
      (Some (fun _ w => (inl ErrOther, w))))).
  { apply within_act; [|by intros f n w [= <-]]. intros w. apply G. intros q d. unfold look, MakeTreeWritable.
    rewrite lookup_fmap. destruct (_ !! q) as [[]|]; cbn; naive_solver. }
  unfold RemoveStaging, remove_all. within_solve; try exact Hw1.
  all: apply within_act; [exact Hrm|]; intros f n w [= <-]; apply G; intros q d Hl; exists d;
    unfold look in *; destruct (_ !! q) as [x|] eqn:E; [|done];
    apply elem_of_list_to_map_2, elem_of_take in E as (i & Hi & _); apply list_elem_of_lookup_2 in Hi;
    apply elem_of_map_to_list in Hi; by rewrite Hi.
Qed.

(** [w1] differs from [w] in the live directory of [id] only, which holds the same. *)
Record live_from (id : string) (w w1 : world) : Prop := {
  lf_db : db w1 = db w; lf_staging : staging w1 = staging w; lf_trash : trash w1 = trash w;
  lf_cache : cache w1 = cache w; lf_clock : rnd w1 = rnd w /\ rpos w1 = rpos w /\ clock w1 = clock w;
  lf_live j : j <> id -> live w1 !! j = live w !! j;
  lf_same : same (tree_of (live w) id) (tree_of (live w1) id);
  lf_none : live w !! id = None -> live w1 !! id = None }.

Lemma wp_in_live {A : Type} id (p : prog tree A) (I : world -> Prop) (Q' : A -> tree -> Prop)
    (Q : A -> world -> Prop) w :
  wp (same (tree_of (live w) id)) p Q' (tree_of (live w) id) ->
  (forall w1, live_from id w w1 -> I w1) ->
  (forall a w1, live_from id w w1 -> Q' a (tree_of (live w1) id) -> Q a w1) ->
  wp I (in_live id p) Q w.
Proof.
  intros Hp HI HQ. eapply wp_wand.
  - apply (wp_lift (fun w => tree_of (live w) id) (fun t w => set_live (put_tree id t (live w)) w) I
      (same (tree_of (live w) id)) (live_from id w) p Q'); [| |by split|exact Hp].
    + intros t w1 [E1 E2 E3 E4 E5 E6 E7 E8] HJ.
      assert (Hlf : live_from id w (set_live (put_tree id t (live w1)) w1)).
      { split; cbn; try done.
        - intros j Hj. rewrite <- E6 by done. by apply lookup_put_ne.
        - by rewrite tree_of_put.
        - intros Hn. unfold tree_of in HJ. rewrite Hn in HJ. apply same_empty in HJ as ->.
          unfold put_tree. rewrite decide_True by done. apply lookup_delete_eq. }
      split; [by apply HI|done].
    + intros t w1. cbn. apply tree_of_put.
  - cbn. intros a w1 [? ?]. auto.
Qed.

Lemma tree_of_Some (a : gmap string tree) id t : a !! id = Some t -> tree_of a id = t.
Proof. unfold tree_of. by intros ->. Qed.

Lemma live_from_lookup id w w1 j t : live_from id w w1 -> live w1 !! j = Some t ->
  exists t0, live w !! j = Some t0 /\ same t0 t.
Proof.
  intros [_ _ _ _ _ E6 E7 E8] Ht. destruct (decide (j = id)) as [->|Hj]; [|rewrite E6 in Ht by done; by exists t].
  destruct (live w !! id) as [t0|] eqn:E; [|rewrite E8 in Ht; done]. exists t0. split; [done|].
  by rewrite (tree_of_Some _ _ _ E), (tree_of_Some _ _ _ Ht) in E7.
Qed.

Lemma live_from_keeps_some id w w1 : Inv w -> live_from id w w1 -> forall j, is_Some (live w !! j) -> is_Some (live w1 !! j).
Proof.
  intros Hw [_ _ _ _ _ E6 E7 E8] j [t Ht]. destruct (decide (j = id)) as [->|Hj]; [|rewrite E6; eauto].
  destruct (inv_live w Hw id t Ht) as (Hd & _). rewrite (tree_of_Some _ _ _ Ht) in E7.
  rewrite E7 in Hd. unfold tree_of in Hd. destruct (live w1 !! id); [eauto|].
  unfold look in Hd. by destruct Hd as [? Hd].
Qed.

Lemma Inv_live id w w1 : Inv w -> live_from id w w1 -> Inv w1.
Proof.
  intros Hw Hl. pose proof Hw as [H1 H2 H2s H3 H4 H5 H6]. pose proof Hl as [E1 E2 E3 E4 _ _ _ _].
  split; rewrite ?E1, ?E2, ?E4; try done.
  - intros j t Ht. destruct (live_from_lookup _ _ _ _ _ Hl Ht) as (t0 & Ht0 & Hs).
    eapply live_complete_same; eauto.
  - intros Hst j r Hr Hc. eapply live_from_keeps_some; eauto.
  - intros j m Hm. destruct (H5 j m Hm) as (t0 & Ht0 & Hm0).
    destruct (live_from_keeps_some _ _ _ Hw Hl j) as [t Ht]; [eauto|].
    destruct (live_from_lookup _ _ _ _ _ Hl Ht) as (t1 & Ht1 & Hs). exists t. split; [done|].
    assert (t1 = t0) as -> by congruence. by rewrite <- (manifest_of_same _ _ Hs).
  - intros j t Ht. destruct (live_from_lookup _ _ _ _ _ Hl Ht) as (t0 & Ht0 & Hs). by eapply H6.
Qed.

Lemma calm_live id w w1 : live_from id w w1 -> calm w w1.
Proof.
  intros Hl Hw. split; [by eapply Inv_live|]. intros j t Ht.
  destruct (live_from_keeps_some _ _ _ Hw Hl j) as [t1 Ht1]; [eauto|]. exists t1. split; [done|].
  destruct (live_from_lookup _ _ _ _ _ Hl Ht1) as (t0 & Ht0 & Hs). congruence.
Qed.

Lemma calm_in_live {A : Type} id (p : prog tree A) : quiet p -> within calm (in_live id p).
Proof.
  intros Hq I w HI. apply (wp_in_live id p I (fun _ _ => True)).
  - by apply (wp_within same).
  - intros w1 Hl. apply HI. by eapply calm_live.
  - intros a w1 Hl _. by eapply calm_live.
Qed.

Lemma stable_keeps {A : Type} (p : prog world A) : within keeps p -> stable Inv p.
Proof.
  intros Hp. apply (stable_wp _ _ (fun _ _ => True)). intros w Hw.
  apply (wp_within keeps); [done| |done]. intros w1 Hk. by apply Hk.
Qed.

(** Using a calm call inside a proof about one run. *)
Lemma wp_calm {A B : Type} (p : prog world A) (f : A -> prog world B) (Q : B -> world -> Prop) w :
  Inv w -> within calm p -> (forall a w1, Inv w1 -> live_stays w w1 -> wp Inv (f a) Q w1) ->
  wp Inv (bind p f) Q w.
Proof.
  intros Hw Hp Hf. apply wp_bind. apply (wp_within calm); [done|by intros w1 Hc; apply Hc|].
  intros a w1 Hc. destruct (Hc Hw). by apply Hf.
Qed.
End safety.

#[export] Hint Resolve within_calm_keeps within_still_calm calm_in_live within_idle_still still_tx idle_ask idle_ask_rows idle_Now still_rand
  still_New still_Upload still_Segment still_Claim still_Token idle_Usage idle_sync idle_stat idle_list_dir safe_Fail
  safe_SetNoteAndTTL safe_AddWireBytes safe_InsertSegment safe_SetSegmentProgress safe_CreateClaim
  safe_RenewClaim safe_CompleteClaim safe_Purge safe_ExpireDue safe_PurgeExpired : within.
#[export] Hint Resolve stable_keeps : stable.
#[export] Hint Resolve still_RemoveStaging : within.
