(* ===== verification/ServiceProofs.v ===== *)
(** * What resolving a code guarantees *)
From S2P Require Import Prelude GoStrings GoTime Errors Code Paths Manifest Wire Prog Tree Integrity.
From S2P Require Import Materialize Store Config World Service Safety.
Local Open Scope prog_scope.

Section service_proofs.
Context {ST : Strictness} {UC : Unicode} {EX : Externals} {MC : ManifestCodec}.
Context (cfg : Server).

Lemma evict_items limit order items id m : snd (evict limit order items) !! id = Some m -> items !! id = Some m.
Proof.
  revert items. induction order as [|x order IH]; intros items; cbn; [done|].
  case_match; [|done]. intros Hi. apply IH in Hi. by apply lookup_delete_Some in Hi as [_ Hi].
Qed.

Lemma cache_put_lookup id m c id' m' : cache_items (cache_put id m c) !! id' = Some m' ->
  id' = id /\ m' = m \/ cache_items c !! id' = Some m'.
Proof.
  unfold cache_put. destruct (cache_items c !! id) eqn:E; cbn.
  - rewrite lookup_insert. destruct (decide _) as [<-|]; [intros [= <-]; by left|by right].
  - destruct (evict _ _ _) as [order items] eqn:Ev. cbn. rewrite lookup_insert.
    destruct (decide _) as [<-|]; [intros [= <-]; by left|]. intros Hi. right.
    eapply evict_items. by rewrite Ev.
Qed.

Lemma Inv_cache_put id m w : Inv w -> (exists t, live w !! id = Some t /\ manifest_of t = Some m) ->
  Inv (set_cache (cache_put id m (cache w)) w).
Proof.
  intros [H1 H2 H2s H3 H4 H5 H6] Hm. split; cbn; try done.
  intros id' m' Hm'. apply cache_put_lookup in Hm' as [[-> ->]|Hm']; [done|]. by apply H5.
Qed.

Lemma Inv_cache_drop id w : Inv w -> Inv (set_cache (cache_drop id (cache w)) w).
Proof.
  intros [H1 H2 H2s H3 H4 H5 H6]. split; cbn; try done.
  intros id' m' Hm'. apply lookup_delete_Some in Hm' as [_ Hm']. by apply H5.
Qed.

Lemma quiet_ReadManifest : quiet ReadManifest.
Proof. unfold ReadManifest. within_solve. Qed.
Lemma quiet_ManifestExists : quiet ManifestExists.
Proof. unfold ManifestExists. within_solve. Qed.

Lemma ReadManifest_wp (I : tree -> Prop) t : I t ->
  wp I ReadManifest (fun r t' => t' = t /\ forall m, r = inr m -> manifest_of t = Some m) t.
Proof.
  intros HI. unfold ReadManifest. apply wp_bind, wp_ReadFile; [done|].
  intros [e|d] Hd; cbn; [done|]. split; [done|]. intros m Hm. unfold manifest_of. by rewrite Hd, Hm.
Qed.

(** What the live directory says, seen from the world. *)
Definition live_manifest (w : world) (id : string) (m : Manifest) : Prop :=
  exists t, live w !! id = Some t /\ manifest_of t = Some m /\ manifest_held t m.

Lemma live_manifest_intro w id t m : Inv w -> live w !! id = Some t -> manifest_of t = Some m -> live_manifest w id m.
Proof.
  intros Hw Ht Hm. exists t. split_and!; [done|done|].
  destruct (inv_live w Hw id t Ht) as (_ & m' & Hm' & Hh). congruence.
Qed.

Lemma live_manifest_stays w w' id m : live_stays w w' -> live_manifest w id m -> live_manifest w' id m.
Proof.
  intros Hl (t & Ht & Hm & Hh). destruct (Hl id t Ht) as (t' & Ht' & Hs). exists t'.
  rewrite <- (manifest_of_same _ _ Hs). split_and!; [done|done|]. by eapply manifest_held_same.
Qed.

Lemma service_Manifest_wp tr (Q : ecode + Manifest -> world -> Prop) w : Inv w ->
  (forall r w1, Inv w1 -> live_stays w w1 -> (forall m, r = inr m -> live_manifest w1 (t_ID tr) m) -> Q r w1) ->
  wp Inv (service_Manifest tr) Q w.
Proof.
  intros Hw HQ. unfold service_Manifest.
  apply wp_bind, wp_act. intros r w0 [[= <- <-]|(? & ? & [=] & _)]. split; [done|].
  destruct (cache_get (t_ID tr) (cache w)) as [m|] eqn:Ec.
  { cbn. destruct (inv_cache w Hw _ _ Ec) as (t & Ht & Hm). apply HQ; [done|by intros id t0 Ht0; exists t0|].
    intros m' [= <-]. by eapply live_manifest_intro. }
  eapply wp_then; [done| |].
  - apply (wp_in_live (t_ID tr) ReadManifest Inv (fun r _ => forall m, r = inr m ->
        manifest_of (tree_of (live w) (t_ID tr)) = Some m) (fun r w1 => live_from (t_ID tr) w w1 /\
        forall m, r = inr m -> manifest_of (tree_of (live w) (t_ID tr)) = Some m)).
    + eapply wp_wand; [by apply ReadManifest_wp|]. cbn. by intros r t' [_ Hr].
    + intros w1 Hl. by eapply Inv_live.
    + auto.
  - intros [e|m] w1 Hw1 [Hl Hr]; cbn.
    { apply HQ; [done| |done]. by apply (calm_live _ _ _ Hl Hw). }
    specialize (Hr m eq_refl). destruct (live w !! t_ID tr) as [t|] eqn:Et.
    2:{ unfold tree_of in Hr. rewrite Et in Hr. done. }
    rewrite (tree_of_Some _ _ _ Et) in Hr. destruct (calm_live _ _ _ Hl Hw) as [_ Hstay].
    assert (Hlm : live_manifest w1 (t_ID tr) m).
    { apply (live_manifest_stays w); [done|]. by eapply live_manifest_intro. }
    assert (Hput : Inv (set_cache (cache_put (t_ID tr) m (cache w1)) w1)).
    { apply Inv_cache_put; [done|]. destruct Hlm as (t1 & ? & ? & _). eauto. }
    split_and!; [done| |done]. apply HQ; [done|done|]. by intros m' [= <-].
Qed.

(** The row a resolved code stands for. *)
Definition resolves (w : world) (codeInput : string) (t : Transfer) : Prop :=
  exists c r, NormalizeCode codeInput = Some c /\ transfers (db w) !! t_ID t = Some r /\
    t = scanTransfer (t_ID t) r /\ c_code r = Some c /\ c_state r = StateCommitted.

Lemma lookupCommitted_wp code (Q : ecode + Transfer -> world -> Prop) w : Inv w ->
  (forall r w1, Inv w1 -> live_stays w w1 -> (forall t, r = inr t -> resolves w code t /\ db w1 = db w /\
     (t_ExpiresAt t = zero_time \/ (clock w1 < t_ExpiresAt t)%Z)) -> Q r w1) ->
  wp Inv (lookupCommitted code) Q w.
Proof.
  intros Hw HQ. assert (Hrefl : live_stays w w) by (intros id t Ht; by exists t).
  unfold lookupCommitted. destruct (NormalizeCode code) as [c|] eqn:Ec; [|by apply HQ].
  apply wp_bind, wp_act. intros r w0 Hr. assert (w0 = w) as -> by (destruct Hr as [[=]|(? & ? & [= <-] & [=])]; congruence).
  split; [done|]. destruct r as [[]|t]; try by apply HQ.
  destruct (claimable (t_State t)) eqn:Ecl; [by apply HQ|].
  assert (Hres : resolves w code t).
  { destruct Hr as [[= E]|(? & ? & [= <-] & [=])]. unfold GetTransferByCode in E. apply found_inr in E.
    apply fmap_Some in E as ([id r] & E & ->). apply row_by_code_Some in E as [E1 E2]. exists c, r.
    cbn in *. by destruct (c_state r). }
  destruct (Z.eqb_spec (t_ExpiresAt t) zero_time) as [Hz|Hz]; unfold IsZero.
  { rewrite (proj2 (Z.eqb_eq _ _) Hz). apply HQ; [done|done|]. intros t' [= <-]. auto. }
  rewrite (proj2 (Z.eqb_neq _ _) Hz).
  apply wp_bind, wp_act. intros now w1 Hnow.
  assert (E1 : db w1 = db w /\ staging w1 = staging w /\ live w1 = live w /\ cache w1 = cache w /\ clock w1 = now).
  { by destruct Hnow as [[= <- <-]|(? & ? & [= <-] & [= <- <-])]. }
  destruct E1 as (Ed & Es & El & Eca & Eck).
  assert (Hw1 : Inv w1) by (by apply (Inv_same w)). split; [done|].
  assert (Hst1 : live_stays w w1) by (intros id t0 Ht0; rewrite El; by exists t0).
  unfold Before. destruct (Z.ltb_spec now (t_ExpiresAt t)); cbn [negb].
  - apply HQ; [done|done|]. intros t' [= <-]. split_and!; [done|done|right; lia].
  - apply wp_calm; [done|apply within_still_calm, still_tx, safe_SetState; [done|by intros [|]]|].
    intros a w2 Hw2 Hst2. apply HQ; [done|by etrans; [|exact Hst2]|done].
Qed.

(** Programs that only read and renew. *)
Lemma calm_lookup code : within calm (lookupCommitted code).
Proof.
  unfold lookupCommitted. within_solve. apply within_still_calm, still_tx, safe_SetState; [done|by intros [|]].
Qed.
Lemma calm_authorize claimID token : within calm (authorizeClaim claimID token).
Proof. unfold authorizeClaim. within_solve. Qed.
Lemma calm_renew claimID : within calm (renew claimID).
Proof. unfold renew. within_solve. Qed.
Lemma calm_outboards t : within calm (outboardsPresent t).
Proof. unfold outboardsPresent. within_solve. Qed.

Lemma OpenDownload_wp code w : Inv w ->
  wp Inv (OpenDownload cfg code) (fun r w1 => Inv w1 /\ live_stays w w1 /\
    forall dl, r = inr dl -> resolves w code (dl_Transfer dl) /\
      dl_PayloadDir dl = service_PayloadDir cfg (t_ID (dl_Transfer dl)) /\
      live_manifest w1 (t_ID (dl_Transfer dl)) (dl_Manifest dl)) w.
Proof.
  intros Hw. unfold OpenDownload. apply wp_bindE, lookupCommitted_wp; [done|].
  intros [e|t] w1 Hw1 Hs1 Ht; [done|]. destruct (Ht t eq_refl) as (Hres & _ & _).
  apply wp_bindE, service_Manifest_wp; [done|]. intros [e|m] w2 Hw2 Hs2 Hm; cbn.
  { split_and!; [done|by etrans|done]. }
  split_and!; [done|by etrans|]. intros dl [= <-]. cbn. auto.
Qed.

(** What holding a claim means: the row's token and an unexpired lease. *)
Definition authorized (w : world) (now : Z) (claimID token : string) (c : Claim) : Prop :=
  exists row, claims (db w) !! claimID = Some row /\ c = scanClaim claimID row /\ token <> "" /\
    from_null (c_token_hash row) = hashToken token /\ (now < k_LeaseUntil c)%Z.

Lemma authorizeClaim_wp claimID token w : Inv w ->
  wp Inv (authorizeClaim claimID token) (fun r w1 => Inv w1 /\ db w1 = db w /\ live w1 = live w /\
     forall c, r = inr c -> authorized w (clock w1) claimID token c) w.
Proof.
  intros Hw. unfold authorizeClaim.
  apply wp_bind, wp_act. intros r w0 Hr. assert (w0 = w) as -> by (destruct Hr as [[=]|(? & ? & [= <-] & [=])]; congruence).
  split; [done|]. destruct r as [[]|c]; try done.
  destruct (String.eqb_spec token "") as [|Hne]; [done|]. cbn [orb].
  destruct (String.eqb_spec (hashToken token) (k_TokenHash c)) as [Hh|]; [|done]. cbn [negb].
  apply wp_bind, wp_act. intros now w1 Hnow.
  assert (E1 : db w1 = db w /\ staging w1 = staging w /\ live w1 = live w /\ cache w1 = cache w /\ clock w1 = now).
  { by destruct Hnow as [[= <- <-]|(? & ? & [= <-] & [= <- <-])]. }
  destruct E1 as (Ed & Es & El & Eca & Eck). assert (Hw1 : Inv w1) by (by apply (Inv_same w)). split; [done|].
  unfold Before. destruct (Z.ltb_spec now (k_LeaseUntil c)); cbn [negb]; [|done]. cbn.
  split_and!; [done|done|done|]. intros c' [= <-].
  destruct Hr as [[= E]|(? & ? & [= <-] & [=])]. unfold GetClaim in E. apply found_inr in E.
  apply fmap_Some in E as (row & Hrow & ->). exists row.
  split_and!; [done|done|done|by symmetry|by rewrite Eck].
Qed.

Lemma claimSegment_wp claimID token segID w : Inv w ->
  wp Inv (claimSegment claimID token segID) (fun r w1 => Inv w1 /\ live_stays w w1 /\
    forall t seg, r = inr (t, seg) -> exists m c now, live_manifest w1 (t_ID t) m /\ SegmentByID m segID = Some seg /\
      authorized w now claimID token c /\ k_TransferID c = t_ID t /\
      plain (t_ID t) = true /\ plain (Shard (t_ID t)) = true) w.
Proof.
  intros Hw. unfold claimSegment. apply wp_bindE. eapply wp_wand; [by apply authorizeClaim_wp|].
  intros [e|c] w1 (Hw1 & Ed & El & Hc).
  { split_and!; [done|intros id t Ht; rewrite El; by exists t|done]. }
  specialize (Hc c eq_refl).
  assert (Hs1 : live_stays w w1) by (intros id t Ht; rewrite El; by exists t).
  apply wp_orE, wp_act. intros r w2 Hr. assert (w2 = w1) as -> by (destruct Hr as [[=]|(? & ? & [= <-] & [=])]; congruence).
  split; [done|]. destruct r as [e|t]; [done|].
  assert (Hid : k_TransferID c = t_ID t /\ is_Some (transfers (db w1) !! t_ID t)).
  { destruct Hr as [[= E]|(? & ? & [= <-] & [=])]. unfold GetTransfer in E. apply found_inr in E.
    apply fmap_Some in E as (row & Hrow & ->). cbn. eauto. }
  destruct Hid as [Hid [row Hrow]]. destruct (inv_ids w1 Hw1 _ _ Hrow) as [Hp1 Hp2].
  destruct (negb _); [|done].
  apply wp_bindE, service_Manifest_wp; [done|]. intros [e|m] w2 Hw2 Hs2 Hm; cbn.
  { split_and!; [done|by etrans|done]. }
  destruct (SegmentByID m segID) as [seg|] eqn:Es; cbn; (split_and!; [done|by etrans|]); [|done].
  intros t' seg' [= <- <-]. exists m, c, (clock w1). split_and!; auto.
Qed.

Lemma ClaimSegmentFile_wp claimID token segID w : Inv w ->
  wp Inv (ClaimSegmentFile cfg claimID token segID) (fun r w1 => Inv w1 /\ live_stays w w1 /\
    forall d n, r = inr (d, n) -> exists m c now seg, live_manifest w1 (k_TransferID c) m /\
      SegmentByID m segID = Some seg /\ authorized w now claimID token c /\
      slen d = seg_WireSize seg /\ HashBytes d = seg_Digest seg /\ n = slen d) w.
Proof.
  intros Hw. unfold ClaimSegmentFile. apply wp_bindE. eapply wp_wand; [by apply claimSegment_wp|].
  intros [e|[t seg]] w1 (Hw1 & Hs1 & Hts); [done|].
  destruct (Hts t seg eq_refl) as (m & c & now & Hm & Hseg & Hauth & Hid & Hp1 & Hp2).
  destruct (negb _); [|done].
  pose proof Hm as (tr & Htr & Hmt & Hheld). destruct Hheld as [_ Hsegs].
  assert (Hin : seg ∈ Segments m) by (apply List.find_some in Hseg as [Hin _]; by apply list_elem_of_In).
  rewrite Forall_forall in Hsegs. destruct (Hsegs seg Hin) as (_ & Hpl & _ & d & Hd & Hlen & Hdig).
  assert (Hj : SafeJoinIn (live_root cfg (t_ID t)) [] (seg_StoragePath seg) = Some (split "/" (seg_StoragePath seg))).
  { rewrite <- (join_split (seg_StoragePath seg)) at 1. apply SafeJoinIn_plain; rewrite ?app_nil_r.
    - unfold live_root. intros E. by apply app_eq_nil in E as [_ E].
    - apply split_cons_ne.
    - by apply live_root_plain.
    - done. }
  rewrite Hj. apply wp_orE, (wp_in_live _ _ _ (fun r _ => forall x, r = inr x -> x = d)).
  { apply wp_ReadFile; [done|]. intros [e|x] Hx; [done|]. intros y [= <-].
    rewrite (tree_of_Some _ _ _ Htr) in Hx. congruence. }
  { intros w2 Hl. by eapply Inv_live. }
  intros [e|x] w2 Hl Hx; destruct (calm_live _ _ _ Hl Hw1) as [Hw2 Hs2]; [split_and!; [done|by etrans|done]|].
  rewrite (Hx x eq_refl). clear x Hx.
  apply wp_orE, (wp_within calm); [apply within_still_calm, within_idle_still, idle_sync|by intros w3 Hc; apply Hc|]. intros [e|[]] w3 Hc3;
    destruct (Hc3 Hw2) as [Hw3 Hs3]; [split_and!; [done|etrans; [exact Hs1|]; by etrans|done]|].
  apply wp_calm; [done|apply calm_renew|]. intros [] w4 Hw4 Hs4. cbn.
  assert (Hs : live_stays w1 w4) by (etrans; [exact Hs2|]; by etrans).
  split_and!; [done|by etrans|]. intros d' n [= <- <-]. exists m, c, now, seg. rewrite Hid.
  split_and!; try done. by eapply live_manifest_stays.
Qed.

(** ** Every receiver operation keeps the invariant *)

Lemma stable_Manifest tr : stable Inv (service_Manifest tr).
Proof.
  apply (stable_wp _ _ (fun _ _ => True)). intros w Hw. by apply service_Manifest_wp.
Qed.
Lemma stable_cache_drop id : stable Inv (InvalidateManifest id).
Proof. intros w Hw. apply wp_act. intros r w1 [[= <- <-]|(? & ? & [=] & _)]. split; by apply Inv_cache_drop. Qed.
#[local] Hint Resolve stable_Manifest stable_cache_drop calm_lookup calm_authorize calm_renew calm_outboards : stable within.

Lemma stable_Metadata code : stable Inv (Metadata code).
Proof. unfold Metadata. stable_solve. Qed.
Lemma stable_OpenDownload code : stable Inv (OpenDownload cfg code).
Proof. unfold OpenDownload. stable_solve. Qed.
Lemma stable_CreateClaim code : stable Inv (service_CreateClaim code).
Proof. unfold service_CreateClaim. stable_solve. Qed.
Lemma stable_claimSegment c t s : stable Inv (claimSegment c t s).
Proof. unfold claimSegment. stable_solve. Qed.
#[local] Hint Resolve stable_claimSegment : stable.
Lemma stable_ClaimOutboardFile c t s : stable Inv (ClaimOutboardFile c t s).
Proof. unfold ClaimOutboardFile. stable_solve. Qed.
Lemma stable_ClaimSegmentFile c t s : stable Inv (ClaimSegmentFile cfg c t s).
Proof. unfold ClaimSegmentFile. stable_solve. Qed.
Lemma stable_CompleteClaim c t : stable Inv (service_CompleteClaim c t).
Proof. unfold service_CompleteClaim. stable_solve. Qed.
Lemma stable_LocalPath code : stable Inv (LocalPath cfg code).
Proof. unfold LocalPath. stable_solve. Qed.
End service_proofs.

#[export] Hint Resolve stable_Manifest stable_cache_drop stable_Metadata stable_OpenDownload stable_CreateClaim
  stable_ClaimOutboardFile stable_ClaimSegmentFile stable_CompleteClaim stable_LocalPath : stable.
#[export] Hint Resolve calm_lookup calm_authorize calm_renew calm_outboards quiet_ReadManifest quiet_ManifestExists : within.
