(* ===== verification/UploadProofs.v ===== *)
(** * Uploads keep the invariant, and what a transfer holds while it is uploaded *)
From S2P Require Import Prelude GoStrings GoTime Errors Code Paths Manifest Wire Admission Prog Tree.
From S2P Require Import Integrity Materialize Store Config World Service Upload Safety ServiceProofs.
Local Open Scope prog_scope.

(** ** Identifiers *)

Lemma hex_byte_lower b : (0 <= b < 256)%Z -> sforall lower_hex (hex_byte b) = true.
Proof. exact (all_bytes_spec (fun b => sforall lower_hex (hex_byte b)) ltac:(vm_compute; reflexivity) b). Qed.

Lemma sforall_app f a b : sforall f (a ++ b)%string = sforall f a && sforall f b.
Proof. induction a as [|x a IH]; cbn; [done|]. by rewrite IH, andb_assoc. Qed.

Lemma hex_cons b l : EncodeToString (b :: l) = (hex_byte b ++ EncodeToString l)%string.
Proof. unfold EncodeToString. cbn [map]. apply join_nil_cons. Qed.

Lemma EncodeToString_lower l : Forall (fun b => 0 <= b < 256)%Z l -> sforall lower_hex (EncodeToString l) = true.
Proof.
  induction 1 as [|b l Hb _ IH]; [done|]. by rewrite hex_cons, sforall_app, hex_byte_lower, IH.
Qed.

Lemma lower_hex_no_slash s : sforall lower_hex s = true -> has_byte "/" s = false.
Proof.
  induction s as [|a s IH]; cbn; [done|]. intros [Ha Hs]%andb_true_iff. rewrite (IH Hs).
  destruct (Ascii.eqb_spec a "/"%char) as [->|]; [done|done].
Qed.

Lemma lower_hex_not_dot s a : sforall lower_hex (String a s) = true -> String a s <> "."%string /\ String a s <> ".."%string.
Proof. cbn. intros [Ha _]%andb_true_iff. split; intros [= -> _]; done. Qed.

Lemma bytes_at_range w n k : Forall (fun b => 0 <= b < 256)%Z (bytes_at w n k).
Proof.
  apply Forall_forall. unfold bytes_at. intros b Hb. apply list_elem_of_fmap in Hb as (i & -> & _).
  apply Z.mod_pos_bound. lia.
Qed.

Lemma transfer_id_plain b0 b1 l : Forall (fun b => 0 <= b < 256)%Z (b0 :: b1 :: l) ->
  let id := ("t-" ++ EncodeToString (b0 :: b1 :: l))%string in plain id = true /\ plain (Shard id) = true.
Proof.
  intros Hl id. pose proof (EncodeToString_lower _ Hl) as Hhex.
  pose proof (lower_hex_no_slash _ Hhex) as Hns. subst id. split.
  - apply plain_spec. rewrite hex_cons in *. by split_and!.
  - rewrite hex_cons in Hhex |- *. unfold Shard, TrimPrefix. rewrite app_has_prefix.
    cbn [hex_byte append String.length]. unfold hex_byte. cbn [append].
    set (rest := EncodeToString (b1 :: l)) in *. cbn [hex_byte append sforall] in Hhex.
    apply andb_true_iff in Hhex as [Hx Hhex]. apply andb_true_iff in Hhex as [Hy _].
    set (x := hex_digit (b0 / 16)) in *. set (y := hex_digit (b0 mod 16)) in *. clearbody x y rest.
    change (String.length "t-") with 2%nat. cbn [String.length].
    replace (substring 2 (S (S (S (S (String.length rest)))) - 2)
       (String "t" (String "-" (String x (String y rest))))) with (String x (String y rest)).
    2:{ cbn. f_equal. f_equal. clear. induction rest as [|a r IH]; cbn; [done|]. by rewrite <- IH. }
    unfold slen. cbn [String.length]. destruct (Z.ltb_spec (Z.of_nat (S (S (String.length rest)))) 2); [lia|].
    replace (substring 0 2 (String x (String y rest))) with (String x (String y "")) by (cbn; by destruct rest).
    assert (Hxy : sforall lower_hex (String x (String y "")) = true) by (cbn; by rewrite Hx, Hy).
    apply plain_spec. split_and!; [by intros [=]|by apply (lower_hex_not_dot _ _ Hxy)|by apply (lower_hex_not_dot _ _ Hxy)|
      by apply lower_hex_no_slash].
Qed.

Section upload_proofs.
Context {ST : Strictness} {UC : Unicode} {EX : Externals} {MC : ManifestCodec}.
Context (cfg : Server).

(** *** Transfers that are not published *)

Definition unpub (id : string) (w : world) : Prop := Inv w /\ live w !! id = None.

Lemma stable_still {A : Type} id (p : prog world A) : within still p -> stable (unpub id) p.
Proof.
  intros Hp w [Hw Hl]. apply (wp_within still); [done| |].
  - intros w1 [E HI]. split; [auto|by rewrite E].
  - intros a w1 [E HI]. split; [auto|by rewrite E].
Qed.

Lemma unpub_staged id w w1 : unpub id w -> staged_from id w w1 -> unpub id w1.
Proof.
  intros [Hw Hl] Hs. split; [eapply Inv_staged; eauto|]. by rewrite (sf_live _ _ _ Hs).
Qed.

Lemma stable_in_staging {A : Type} id (p : prog tree A) : stable (unpub id) (in_staging id p).
Proof.
  intros w Hw. apply (wp_in_staging id p _ (fun _ => True) (fun _ _ => True)); [apply wp_trivial| |];
    intros; by eapply unpub_staged.
Qed.

(** A state change to UPLOADING is safe while nothing is published. *)
Lemma stable_SetUploading id : stable (unpub id) (tx (SetState id StateUploading)).
Proof.
  assert (G : forall w, unpub id w -> unpub id (snd (tx_step (SetState id StateUploading) w))).
  { intros w [Hw Hl]. split; [|done]. cbn. apply Inv_update; [done|by intros r|]. by right. }
  intros w Hw. apply wp_act. intros r w1 [E|(f & n & [= <-] & [= <- <-])].
  - pose proof (G w Hw) as G'. rewrite E in G'. done.
  - destruct n; [done|]. split; by apply G.
Qed.

(** *** CreateTransfer *)

Definition next_id (w : world) : string := ("t-" ++ EncodeToString (bytes_at w (rpos w) 16))%string.

(** The next identifier the random source yields is not in use. *)
Definition fresh_next (w : world) : Prop :=
  transfers (db w) !! next_id w = None /\ live w !! next_id w = None.

Lemma next_id_plain w : plain (next_id w) = true /\ plain (Shard (next_id w)) = true.
Proof.
  unfold next_id. pose proof (bytes_at_range w (rpos w) 16) as Hr. unfold bytes_at in *. cbn [map seq] in *.
  by apply transfer_id_plain.
Qed.

Lemma idle_fresh w w1 : idle w w1 -> next_id w1 = next_id w /\ (fresh_next w -> fresh_next w1).
Proof.
  intros (Ed & _ & El & _ & Er & Ep). unfold fresh_next, next_id, bytes_at. by rewrite Ed, El, Er, Ep.
Qed.

Lemma idle_Admit n : within idle (adm_Admit cfg n).
Proof. unfold adm_Admit. within_solve; apply idle_Usage || apply idle_ask. Qed.
Lemma idle_CheckStreaming : within idle (adm_CheckStreaming cfg).
Proof. unfold adm_CheckStreaming. within_solve. Qed.

Lemma Inv_new_row w t : Inv w -> live w !! t_ID t = None -> precommit (t_State t) = true ->
  plain (t_ID t) = true -> plain (Shard (t_ID t)) = true -> Inv (set_db (snd (CreateTransfer t (db w))) w).
Proof.
  intros Hw Hl Hp P1 P2. pose proof (db_ok_create t (db w) (inv_db w Hw) Hp) as Hd. revert Hd.
  unfold CreateTransfer. destruct (transfers (db w) !! t_ID t) eqn:E; [by intros _; destruct w|]. cbn. intros Hd.
  pose proof Hw as [H1 H2 H2s H3 H4 H5 H6]. split; cbn; [exact Hd| |done|done| |done|].
  - by apply map_Forall_insert_2.
  - intros Hst id r. rewrite lookup_insert. destruct (decide _) as [<-|]; [|by apply H4].
    intros [= <-] Hc. cbn in Hc. by rewrite Hc in Hp.
  - intros id t' Ht. destruct (H6 id t' Ht) as [Hn Hu]. split; [done|]. intros r.
    rewrite lookup_insert. destruct (decide _) as [<-|]; [congruence|by apply Hu].
Qed.

(** A transfer row and its staging directory for the next identifier: the shared part of
    CreateTransfer and BeginSimple. *)
Lemma stable_new_transfer id t : t_ID t = id -> precommit (t_State t) = true ->
  plain id = true -> plain (Shard id) = true -> stable (unpub id) (tx (CreateTransfer t)).
Proof.
  intros Hid Hp P1 P2.
  assert (G : forall w, unpub id w -> unpub id (snd (tx_step (CreateTransfer t) w))).
  { intros w [Hw Hl]. pose proof (Inv_new_row w t Hw) as HI. rewrite Hid in HI. specialize (HI Hl Hp P1 P2).
    unfold tx_step. by destruct (CreateTransfer t (db w)). }
  intros w Hw. apply wp_act. intros r w1 [E|(f & n & [= <-] & [= <- <-])].
  - pose proof (G w Hw) as G'. rewrite E in G'. done.
  - destruct n; [done|]. split; by apply G.
Qed.

#[local] Hint Resolve stable_still stable_in_staging stable_SetUploading : stable.
#[local] Hint Resolve idle_CheckStreaming idle_Admit : within.

Lemma stable_insert_plan id ups seg : plain (sp_ID seg) = true -> stable (unpub id) (insert_plan id ups seg).
Proof. intros Hp. unfold insert_plan. stable_solve. Qed.

Lemma check_plans_plain segs seen n declared : check_plans segs seen n = inr declared ->
  Forall (fun s => plain (sp_ID s) = true) segs.
Proof.
  revert seen n. induction segs as [|s segs IH]; intros seen n; cbn; [constructor|].
  destruct (_ || _); [done|]. destruct (ValidateComponent (sp_ID s)) eqn:Ev; cbn; [done|].
  repeat (case_match; try done); intros Hc; (constructor; [by apply ValidateComponent_plain|by eapply IH]).
Qed.
#[local] Hint Resolve stable_insert_plan : stable.

(** Drawing the identifier and preparing its directory. *)
Lemma wp_new_id {B : Type} (f : string -> prog world B) w : Inv w -> fresh_next w ->
  (forall w1, unpub (next_id w) w1 -> wp Inv (f (next_id w)) (fun _ w' => Inv w') w1) ->
  wp Inv (bind ids_Transfer f) (fun _ w' => Inv w') w.
Proof.
  intros Hw [Hf1 Hf2] Hk. unfold ids_Transfer, New. apply wp_bind, wp_bind, wp_act.
  intros b w1 [[= <- <-]|(? & ? & [=] & _)].
  assert (Hw1 : Inv (set_rpos (rpos w + 16) w)) by (by apply (Inv_same w)).
  split; [done|]. cbn. by apply Hk.
Qed.

Lemma unpub_wp {A : Type} id (p : prog world A) w : stable (unpub id) p -> unpub id w ->
  wp Inv p (fun _ w' => Inv w') w.
Proof. intros Hp Hw. eapply wp_mono; [| |by apply Hp]; [by intros w' []|by intros a w' []]. Qed.

Lemma CreateTransfer_safe req w : Inv w -> fresh_next w ->
  wp Inv (service_CreateTransfer cfg req) (fun _ w' => Inv w') w.
Proof.
  intros Hw Hf. unfold service_CreateTransfer.
  destruct (ResolveTTL cfg _) as [e|ttl]; [done|]. destruct (CheckNote cfg _); [done|].
  destruct (negb _); [|done]. destruct (negb _); [|done]. destruct (check_plans _ _ _) as [e|declared] eqn:Ep; [done|].
  apply check_plans_plain in Ep. rewrite Forall_forall in Ep.
  apply wp_idle; [done|apply idle_Admit|]. intros [e|] w1 Hw1 Hi; [done|].
  destruct (idle_fresh _ _ Hi) as [Hid Hfr]. apply wp_new_id; [done|by apply Hfr|]. intros w2 Hw2.
  destruct (next_id_plain w1) as [P1 P2].
  eapply unpub_wp; [|exact Hw2]. unfold PrepareStaging.
  apply stable_orE; [auto with stable|]. intros _. apply stable_bind; [auto with stable within|]. intros now.
  apply stable_bind; [by apply stable_new_transfer|]. intros [e|c]; [stable_solve|].
  apply stable_bindE; [|intros ?; apply stable_ret]. apply stable_loop_in. intros ups seg Hin. by apply stable_insert_plan, Ep.
Qed.

(** *** UploadPatch *)

Lemma stable_finishPatch id seg n : stable (unpub id) (finishPatch seg n).
Proof. unfold finishPatch. stable_solve. Qed.
#[local] Hint Resolve stable_finishPatch : stable.

Lemma stable_patch_loop seg p offset remaining failing cs written since :
  stable (unpub (s_TransferID seg)) (patch_loop cfg seg p offset remaining failing cs written since).
Proof.
  revert written since. induction cs as [|c cs IH]; intros written since; cbn [patch_loop].
  - stable_solve.
  - case_match; [stable_solve|]. apply stable_bind; [auto with stable|]. intros [e|[]]; [stable_solve|].
    case_match; [|apply IH]. apply stable_bind; [auto with stable within|]. intros [e|]; [stable_solve|apply IH].
Qed.

Lemma UploadPatch_safe uploadID offset body w : Inv w ->
  wp Inv (UploadPatch cfg uploadID offset body) (fun _ w' => Inv w') w.
Proof.
  intros Hw. unfold UploadPatch, acquireUpload.
  apply wp_idle; [done|apply idle_sync|]. intros [e|[]] w1 Hw1 _; [done|].
  apply wp_idle; [done|apply idle_ask|]. intros [[]|seg] w2 Hw2 _; try done.
  apply wp_bind, wp_act. intros r w3 Hr. assert (w3 = w2) as -> by (destruct Hr as [[=]|(? & ? & [= <-] & [=])]; congruence).
  split; [done|]. destruct r as [e|t]; [done|].
  assert (Ht : exists row, transfers (db w2) !! s_TransferID seg = Some row /\ t = scanTransfer (s_TransferID seg) row).
  { destruct Hr as [[= E]|(? & ? & [= <-] & [=])]. unfold GetTransfer in E. apply found_inr in E.
    apply fmap_Some in E as (row & Hrow & ->). eauto. }
  destruct Ht as (row & Hrow & ->). cbn [scanTransfer t_State t_ID].
  destruct (bool_decide _ || bool_decide _) eqn:Est; cbn [negb]; [|done].
  assert (Hup : unpub (s_TransferID seg) w2).
  { split; [done|]. destruct (live w2 !! s_TransferID seg) eqn:El; [|done].
    destruct (inv_published w2 Hw2 _ _ El) as [_ Hu]. destruct (Hu row Hrow).
    apply orb_true_iff in Est as [Es|Es]; apply bool_decide_eq_true in Es; [by left|by right]. }
  destruct (negb _); [done|]. destruct (_ <? _)%Z; [done|].
  eapply unpub_wp; [|exact Hup]. apply stable_bind; [auto with stable within|]. intros [e|]; [stable_solve|].
  apply stable_bind; [auto with stable|]. intros [e|[]]; [stable_solve|].
  apply stable_bind; [stable_solve|]. intros []. apply stable_patch_loop.
Qed.

Lemma stable_UploadState uploadID : stable Inv (UploadState uploadID).
Proof. unfold UploadState. stable_solve. Qed.
End upload_proofs.
