(* ===== verification/CommitProofs.v ===== *)
(** * Committing keeps the invariant and publishes what was staged *)
From S2P Require Import Prelude GoStrings GoTime Errors Code Paths Manifest Wire Prog Tree Integrity.
From S2P Require Import Materialize Store Config World Service Commit Safety ServiceProofs UploadProofs.
Local Open Scope prog_scope.

(** ** The staging directory *)

(** Calls that leave a class of paths alone. *)
Definition fixes (P : path -> Prop) (t t' : tree) : Prop := forall q, P q -> look t' q = look t q.
#[export] Instance fixes_preorder P : PreOrder (fixes P).
Proof. split; [done|]. intros t1 t2 t3 H1 H2 q Hq. by rewrite H2, H1. Qed.

Definition segment_path (q : path) : Prop := head q = Some SegmentsDir.
Definition deep (q : path) : Prop := (2 <= length q)%nat.

Section fixes.
Context (P : path -> Prop).

Lemma fixes_same t t' : same t t' -> fixes P t t'.
Proof. intros Hs q _. by rewrite Hs. Qed.
Lemma fixes_quiet {A : Type} (p : prog tree A) : within same p -> within (fixes P) p.
Proof. apply within_mono, fixes_same. Qed.
Lemma fixes_OpenFile excl p mode : ~ P p -> within (fixes P) (OpenFile excl p mode).
Proof.
  intros Hp. apply within_act; [|by intros f n t [= <-]]. intros t q Hq.
  destruct (create excl p mode t) as [r t'] eqn:E. apply create_look in E as (H1 & _).
  apply H1. by intros ->.
Qed.
Lemma fixes_edit p f t : ~ P p -> fixes P t (edit p f t).
Proof. intros Hp q Hq. rewrite look_edit. destruct (look t q) as [[]|]; try done. by rewrite decide_False by (by intros ->). Qed.
Lemma fixes_WriteAt p off d : ~ P p -> within (fixes P) (WriteAt p off d).
Proof. intros Hp. apply within_act; [intros t|intros f n t [= <-]]; by apply fixes_edit. Qed.
Lemma fixes_Truncate p n : ~ P p -> within (fixes P) (Truncate p n).
Proof. intros Hp. apply within_act; [intros t; by apply fixes_edit|by intros f k t [= <-]]. Qed.
Lemma fixes_Rename src dst : ~ P src -> ~ P dst -> src <> dst -> within (fixes P) (Rename src dst).
Proof.
  intros H1 H2 Hne. apply within_act; [|by intros f k t [= <-]]. intros t q Hq.
  destruct (rename src dst t) as [r t'] eqn:E. apply rename_look in E as [Hf Hs]; [|done].
  cbn. destruct r as [e|[]]; [by rewrite Hf|]. destruct Hs as (d & _ & _ & _ & _ & _ & Hq'); [done|].
  apply Hq'; by intros ->.
Qed.
Lemma fixes_Remove p : ~ P p -> within (fixes P) (Remove p).
Proof.
  intros Hp. apply within_act; [|by intros f k t [= <-]]. intros t q Hq.
  destruct (remove p t) as [r t'] eqn:E. eapply remove_look; [exact E|]. by intros ->.
Qed.
Lemma fixes_MkdirAll p mode : (forall q, q ∈ prefixes p -> ~ P q) -> within (fixes P) (MkdirAll p mode).
Proof.
  intros Hp. assert (G : forall qs t, (forall q, q ∈ qs -> ~ P q) -> fixes P t (snd (mkdirs mode qs t))).
  { intros qs t Hqs q Hq. destruct (mkdirs mode qs t) as [r t'] eqn:E.
    destruct (mkdirs_look _ _ _ _ _ E) as (H1 & H2 & _). cbn.
    destruct (look t q) as [c|] eqn:Ec; [by apply H1|]. destruct (look t' q) as [c|] eqn:Ec'; [|done].
    destruct (H2 q c Ec') as [|[_ Hin]]; [congruence|]. by apply Hqs in Hin. }
  apply within_act; [intros t; by apply G|]. intros f n t [= <-]. apply G.
  intros q (i & Hi & _)%elem_of_take. eapply Hp, list_elem_of_lookup_2, Hi.
Qed.
End fixes.
#[export] Hint Resolve fixes_quiet : within.

Lemma held_deep `{Externals} (t t' : tree) m : fixes deep t t' -> manifest_held t m -> manifest_held t' m.
Proof.
  intros Hd [He Hs]. assert (Hpay : forall p, deep (payload_path p)).
  { intros p. unfold deep, payload_path. cbn. pose proof (split_cons_ne "/" p). destruct (split "/" p); [done|cbn; lia]. }
  split; (eapply Forall_impl; [eassumption|]).
  - intros e [H1 H2]. split; [intros Hdir; rewrite Hd by done; auto|]. intros Hf.
    destruct (H2 Hf) as (d & Hl & ?). exists d. by rewrite Hd.
  - intros s (Hid & Hp & Hlen & d & Hl & ?). split_and!; [done..|]. exists d. by rewrite Hd.
Qed.

Section integrity.
Context {EX : Externals}.

#[local] Hint Resolve fixes_OpenFile fixes_Truncate fixes_WriteAt fixes_Rename fixes_Remove quiet_Sync : within.

Lemma OutboardFile_wp p q (t : tree) : ~ segment_path q -> segment_path p ->
  wp (fixes segment_path t) (OutboardFile p q) (fun r t' => fixes segment_path t t' /\
    forall digest size, r = inr (digest, size) -> exists d, look t p = Some (CFile d) /\ size = slen d /\
      digest = EncodeToString (snd (bao_encode d))) t.
Proof.
  intros Hq Hp. unfold OutboardFile. apply wp_bindE, wp_ReadFile; [done|]. intros [e|d] Hd; [done|].
  destruct (bao_encode d) as [tr root] eqn:Eb.
  repeat (apply wp_bindE_within; [apply _|auto with within|done|by intros e t' Hf; split|intros [] ? ?]).
  split; [done|]. intros digest size [= <- <-]. exists d. by rewrite Eb.
Qed.

Lemma write_at_empty data : write_at 0 data "" = data.
Proof.
  unfold write_at, truncate, stake, sdrop. change (String.length "") with 0%nat.
  replace (substring 0 (Z.to_nat 0) "") with "" by done. change (zeros _) with "". cbn [append].
  replace (substring _ _ "") with "" by (by destruct (Z.to_nat (0 + slen data))). apply string_app_nil_r.
Qed.

Lemma not_deep (x : string) : ~ deep [x].
Proof. unfold deep. cbn. lia. Qed.

(** The temporary file once created: filled, flushed, renamed over the target. *)
Lemma fill_and_rename_wp name tmp data perm (t0 t : tree) : name <> tmp -> fixes deep t0 t ->
  look t [tmp] = Some (CFile "") ->
  wp (fixes deep t0) (_ <-? WriteAt [tmp] 0 data ;; _ <-? Sync ;; _ <-? Sync ;; _ <-? Chmod [tmp] perm ;;
      _ <-? Rename [tmp] [name] ;; Sync) (fun (r : oserr + unit) (t' : tree) =>
    fixes deep t0 t' /\ (r = inr tt -> look t' [name] = Some (CFile data))) t.
Proof.
  intros Hne H0 Ht. pose proof not_deep as Hn.
  apply wp_bindE, wp_act. intros r t1 Hr.
  assert (H1 : fixes deep t0 t1 /\ (r = inr tt -> look t1 [tmp] = Some (CFile data))).
  { assert (He : forall f, fixes deep t0 (edit [tmp] f t)) by (intros f; etrans; [exact H0|]; by apply fixes_edit).
    destruct Hr as [[= <- <-]|(f & n & [= <-] & [= <- <-])]; (split; [apply He|]); [|done].
    intros _. by rewrite look_edit, Ht, decide_True, write_at_empty. }
  split; [apply H1|]. destruct r as [e|[]]; [by split; [apply H1|]|]. destruct H1 as [H1 Hd]. specialize (Hd eq_refl).
  clear Hr Ht H0 t.
  assert (Hq : forall {A : Type} (p : prog tree (oserr + A)) (f : A -> prog tree (oserr + unit)) t, within same p ->
    fixes deep t0 t -> look t [tmp] = Some (CFile data) ->
    (forall a t', fixes deep t0 t' -> look t' [tmp] = Some (CFile data) ->
       wp (fixes deep t0) (f a) (fun (r : oserr + unit) (t' : tree) =>
         fixes deep t0 t' /\ (r = inr tt -> look t' [name] = Some (CFile data))) t') ->
    wp (fixes deep t0) (bindE p f) (fun (r : oserr + unit) (t' : tree) =>
         fixes deep t0 t' /\ (r = inr tt -> look t' [name] = Some (CFile data))) t).
  { intros A p f t Hp Hf Hl Hk. apply wp_bindE, (wp_within same); [done| |].
    - intros t' Hs. etrans; [exact Hf|]. by apply fixes_same.
    - intros [e|a] t' Hs; [split; [|done]|apply Hk; [|by rewrite <- Hs]]; (etrans; [exact Hf|]; by apply fixes_same). }
  do 3 (apply Hq; [auto with within|done|done|]; clear dependent t1; intros [] t1 H1 Hd).
  apply wp_bindE, wp_Rename; [congruence|done|by split|]. intros d t2 Hsrc _ Hdst Hsame _ _.
  assert (d = data) as -> by congruence.
  assert (H2 : fixes deep t0 t2).
  { intros q Hdq. rewrite Hsame; [by apply H1| |]; intros ->; by apply Hn in Hdq. }
  split; [done|]. apply (wp_within same); [auto with within| |].
  - intros t3 Hs. etrans; [exact H2|]. by apply fixes_same.
  - intros r t3 Hs. split; [etrans; [exact H2|]; by apply fixes_same|]. intros _. by rewrite <- Hs.
Qed.

(** Writing a file durably: nothing deeper changes, and success means it holds the data. *)
Lemma WriteFileSync_wp name tmp data perm (t : tree) : name <> tmp ->
  wp (fixes deep t) (WriteFileSync [] name tmp data perm) (fun (r : oserr + unit) (t' : tree) =>
    fixes deep t t' /\ (r = inr tt -> look t' [name] = Some (CFile data))) t.
Proof.
  intros Hne. pose proof not_deep as Hn.
  unfold WriteFileSync. cbn [app]. apply wp_bindE, wp_act. intros r t1 Hr.
  assert (Hc : fixes deep t t1 /\ (r = inr tt -> look t1 [tmp] = Some (CFile ""))).
  { destruct Hr as [E|(f & n & [= <-] & [= <- <-])]; [|done]. apply create_look in E as (H1 & H2 & H3 & _).
    split; [intros q Hq; apply H1; intros ->; by apply (Hn tmp)|]. intros ->. by apply H2; [apply H3|]. }
  destruct Hc as [Hc1 Hc2]. split; [done|]. destruct r as [e|[]]; [by split|]. specialize (Hc2 eq_refl).
  apply wp_bind. eapply wp_wand; [by apply fill_and_rename_wp|].
  intros r t2 [Hj Hl]. apply wp_bind, (wp_within (fixes (fun q => deep q \/ q = [name]))).
  - apply fixes_Remove. intros [Hd|[= E]]; [by apply (Hn tmp)|congruence].
  - intros t3 H3 q Hq. rewrite H3 by (by left). by apply Hj.
  - intros _ t3 H3. cbn. split; [intros q Hq; rewrite H3 by (by left); by apply Hj|].
    intros Hr2. rewrite H3 by (by right). auto.
Qed.
End integrity.

Section manifest_file.
Context {ST : Strictness} {UC : Unicode} {EX : Externals} {MC : ManifestCodec} {ML : ManifestCodecLaws}.

Lemma WriteManifest_wp tmp m (t : tree) : tmp <> ManifestFile -> json_ok m -> Manifest.Validate m = None ->
  wp (fixes deep t) (WriteManifest tmp m) (fun (r : merr + unit) (t' : tree) =>
    fixes deep t t' /\ (r = inr tt -> manifest_of t' = Some m)) t.
Proof.
  intros Htmp Hj Hv. unfold WriteManifest. destruct (json_MarshalIndent m) as [data|] eqn:Ej; [|done].
  apply wp_bind. eapply wp_wand; [by apply WriteFileSync_wp|]. intros [e|[]] t1 [H1 Hl]; [done|].
  apply wp_bind, (wp_within same); [auto with within| |].
  - intros t2 Hs. etrans; [exact H1|]. by apply fixes_same.
  - intros r t2 Hs. assert (H2 : fixes deep t t2) by (etrans; [exact H1|]; by apply fixes_same).
    destruct r as [e|[]]; cbn; (split; [done|]); [done|]. intros _. unfold manifest_of.
    rewrite <- Hs, Hl by done. unfold parse_manifest. by rewrite (MarshalIndent_Unmarshal m data Hj Ej), Hv.
Qed.
End manifest_file.

(** ** The manifest that is published *)

Lemma valid_utf8_ascii a s : (byte_val a < 128)%Z -> valid_utf8 (String a s) = valid_utf8 s.
Proof.
  intros Ha. unfold valid_utf8. rewrite segs_ascii by done. cbn [forallb s_rune].
  destruct (Z.eqb_spec (byte_val a) RuneError) as [E|]; [unfold RuneError in E; lia|done].
Qed.
Lemma valid_utf8_prefix p s : sforall is_ascii_byte p = true -> valid_utf8 (p ++ s)%string = valid_utf8 s.
Proof.
  induction p as [|a p IH]; [done|]. cbn [sforall]. intros [Ha Hp]%andb_true_iff.
  cbn [append]. rewrite valid_utf8_ascii; [by apply IH|]. by apply Z.ltb_lt.
Qed.

Section published.
Context {ST : Strictness} {UC : Unicode}.

Definition republished (m : Manifest) : Manifest := with_segments m (map (published_segment m) (Segments m)).

Lemma SegmentByID_republished m id :
  SegmentByID (republished m) id = published_segment m <$> SegmentByID m id.
Proof.
  unfold SegmentByID, republished, with_segments. cbn [Segments].
  induction (Segments m) as [|s ss IH]; cbn; [done|]. by destruct (_ =? id)%string.
Qed.

Lemma raw_backed_republished m e : raw_backed (republished m) e = raw_backed m e.
Proof. unfold raw_backed. rewrite SegmentByID_republished. by destruct (SegmentByID m _). Qed.

Lemma republished_ok m : manifest_ok m -> manifest_ok (republished m).
Proof.
  intros (H1 & H2 & H3 & H4 & H5 & H6 & H7 & H8 & H9 & H10 & H11 & H12 & H13 & H14 & H15 & H16 & H17).
  assert (Hids : map seg_ID (Segments (republished m)) = map seg_ID (Segments m)).
  { cbn. rewrite map_map. by apply map_ext. }
  split_and!; try done; try apply H2.
  - cbn. by destruct (Segments m).
  - cbn. apply Forall_map. eapply Forall_impl; [exact H11|]. done.
  - by rewrite Hids.
  - eapply Forall_impl; [exact H14|]. intros e (A & B & C & D & E). split_and!; try done.
    destruct E as [E|(E1 & E2 & E3 & E4 & s & Hs & Hr)]; [by left|right]. split_and!; try done.
    exists (published_segment m s). by rewrite SegmentByID_republished, Hs.
  - replace (List.filter (raw_backed (republished m)) (Entries (republished m)))
      with (List.filter (raw_backed m) (Entries m)); [done|].
    apply filter_ext. intros e. by rewrite raw_backed_republished.
  - cbn. apply Forall_map. eapply Forall_impl; [exact H17|]. done.
Qed.

Lemma storage_valid_utf8 m s : json_ok m -> s ∈ Segments m -> valid_utf8 (storage_of m s) = true.
Proof.
  intros (_ & _ & _ & _ & _ & Hsegs & Hents) Hs. rewrite Forall_forall in Hsegs. rewrite Forall_forall in Hents.
  unfold storage_of. destruct (_ =? SegmentRaw)%string.
  - destruct (entriesBySegment m (seg_ID s)) as [|e [|]] eqn:Ee; [done| |done].
    assert (He : e ∈ entriesBySegment m (seg_ID s)) by (rewrite Ee; by left).
    apply entriesBySegment_in in He as [He _]. rewrite !valid_utf8_prefix by done. by apply Hents.
  - rewrite !valid_utf8_prefix by done. by apply Hsegs.
Qed.

Lemma republished_json m : json_ok m -> json_ok (republished m).
Proof.
  intros Hj. pose proof (storage_valid_utf8 m) as Hst. pose proof Hj as (H1 & H2 & H3 & H4 & H5 & Hsegs & Hents).
  split_and!; try done. cbn. apply Forall_map. rewrite Forall_forall in Hsegs |- *. intros s Hs.
  destruct (Hsegs s Hs) as (A & B & C & D & _). cbn. split_and!; try done. by apply Hst.
Qed.

Lemma republished_Validate m : Manifest.Validate m = None -> Manifest.Validate (republished m) = None.
Proof. rewrite !Validate_spec. apply republished_ok. Qed.
End published.

(** ** The segments of a commit *)

Lemma elem_of_insert_by_id s x l : x ∈ insert_by_id s l -> x = s \/ x ∈ l.
Proof.
  induction l as [|y l IH]; cbn; [by intros ->%list_elem_of_singleton; left|].
  destruct (slt _ _); [by intros [->|?]%elem_of_cons; [left|right]|].
  intros [->|Hx]%elem_of_cons; [right; by left|]. destruct (IH Hx) as [->|]; [by left|right; by right].
Qed.

Lemma ListSegments_rows id (d : DB) l s : ListSegments id d = inr l -> s ∈ l ->
  exists k r, segments d !! k = Some r /\ s = scanSegment k r.
Proof.
  unfold ListSegments. intros [= <-].
  assert (G : forall rows, s ∈ foldr insert_by_id [] rows -> s ∈ rows).
  { induction rows as [|x rows IH]; cbn; [done|]. intros [->|Hin]%elem_of_insert_by_id; [by left|right; auto]. }
  intros Hs%G. apply list_elem_of_fmap in Hs as ([k r] & -> & Hin). exists k, r. split; [|done].
  apply elem_of_map_to_list. rewrite list_elem_of_In, filter_In, <- list_elem_of_In in Hin. by destruct Hin.
Qed.

Lemma foldl_index (l : list StoredSegment) k s :
  foldl (fun b s => <[s_ID s := s]> b) (∅ : gmap string StoredSegment) l !! k = Some s -> s ∈ l /\ s_ID s = k.
Proof.
  assert (G : forall b, foldl (fun b s => <[s_ID s := s]> b) b l !! k = Some s ->
    s ∈ l /\ s_ID s = k \/ (b : gmap string StoredSegment) !! k = Some s).
  { induction l as [|x l IH]; intros b; cbn; [by right|]. intros Hl. destruct (IH _ Hl) as [[Hin Hk]|Hb].
    - left. split; [by right|done].
    - rewrite lookup_insert in Hb. destruct (decide _) as [<-|]; [|by right]. injection Hb as <-. left. split; [by left|done]. }
  intros Hl. destruct (G _ Hl) as [?|Hb]; [done|]. by rewrite lookup_empty in Hb.
Qed.

#[export] Instance staged_from_preorder id : PreOrder (staged_from id).
Proof.
  split; [by intros w; split|]. intros w1 w2 w3 [A1 A2 A3 A4 [A5 [A6 A7]] A8] [B1 B2 B3 B4 [B5 [B6 B7]] B8].
  split; [congruence|congruence|congruence|congruence|split_and!; congruence|]. intros j Hj. by rewrite B8, A8.
Qed.

(** Only the staging directory of [id] changed, and no staged segment. *)
Definition checked_from (id : string) (w w1 : world) : Prop :=
  staged_from id w w1 /\ fixes segment_path (tree_of (staging w) id) (tree_of (staging w1) id).
#[export] Instance checked_from_preorder id : PreOrder (checked_from id).
Proof.
  split; [by intros w; split|]. intros w1 w2 w3 [A1 A2] [B1 B2]. split; by etrans.
Qed.

Section segments.
Context {ST : Strictness} {UC : Unicode} {EX : Externals} {EL : ExternalsLaws} {MC : ManifestCodec}.

Lemma Inv_checked id w w1 : Inv w -> checked_from id w w1 -> Inv w1.
Proof.
  intros Hw [Hs Hf]. apply (Inv_staged id w); [done|done|].
  destruct (live w !! id) as [t|] eqn:El; [right|by left].
  destruct (inv_published w Hw id t El) as [Hn _]. intros s d. rewrite Hf by done. apply Hn.
Qed.

(** The staged file of a manifest segment holds what the manifest says. *)
Definition seg_staged (t : tree) (ms : Segment) : Prop :=
  plain (seg_ID ms) = true /\
  exists d, look t [SegmentsDir; seg_ID ms] = Some (CFile d) /\ slen d = seg_WireSize ms /\ HashBytes d = seg_Digest ms.

Context (id : string) (byID : gmap string StoredSegment).
Context (HbyID : map_Forall (fun k s => plain k = true) byID).

Lemma check_segment_wp ms w0 w : Inv w0 -> checked_from id w0 w ->
  wp Inv (check_segment id byID tt ms) (fun (r : ecode + unit) (w1 : world) => checked_from id w0 w1 /\
    (r = inr tt -> seg_staged (tree_of (staging w0) id) ms)) w.
Proof.
  intros Hw0 Hw. unfold check_segment. destruct (byID !! seg_ID ms) as [seg|] eqn:Eb; [|done].
  specialize (HbyID _ _ Eb). do 3 (case_match; [|done]).
  apply wp_bind. eapply wp_in_staging; [by apply OutboardFile_wp| |].
  - intros w1 Hs Hf. eapply Inv_checked; [exact Hw0|]. etrans; [exact Hw|]. by split.
  - intros [e|[digest size]] w1 Hs [Hf Hd]; assert (Hc1 : checked_from id w0 w1) by (etrans; [exact Hw|]; by split); [done|].
    destruct (Hd _ _ eq_refl) as (d & Hl & -> & ->). cbn.
    destruct (Z.eqb_spec (slen d) (seg_WireSize ms)) as [Hsz|]; cbn; [|done].
    destruct (String.eqb_spec (EncodeToString (snd (bao_encode d))) (seg_Digest ms)) as [Hdg|]; cbn; [|done].
    case_match; cbn; [|done]. split; [done|]. intros _. split; [done|]. exists d.
    destruct Hw as [_ Hfw]. rewrite <- Hfw by done. split_and!; [done|done|].
    unfold HashBytes. by rewrite <- bao_root.
Qed.

Lemma check_segments_wp (segs : list Segment) w0 w : Inv w0 -> checked_from id w0 w ->
  wp Inv (loop (check_segment id byID) tt segs) (fun (r : ecode + unit) (w1 : world) => checked_from id w0 w1 /\
    (r = inr tt -> Forall (seg_staged (tree_of (staging w0) id)) segs)) w.
Proof.
  intros Hw0 Hw. apply (wp_loop _ _ (fun l _ w1 => checked_from id w0 w1 /\
    exists done, segs = (done ++ l)%list /\ Forall (seg_staged (tree_of (staging w0) id)) done)).
  - split; [done|]. by exists [].
  - intros [] w1 [H1 (done & -> & Hd)]. split; [done|]. by rewrite app_nil_r.
  - intros ms l [] w1 [H1 (done & Hs & Hd)]. eapply wp_wand; [by apply check_segment_wp|].
    intros [e|[]] w2 [H2 Hr]; [by split|]. split; [done|]. exists (done ++ [ms])%list.
    rewrite <- app_assoc. split; [done|]. apply Forall_app. split; [done|]. apply Forall_singleton. by apply Hr.
Qed.
End segments.

(** ** Publication *)

Lemma wp_tx {A : Type} (I : world -> Prop) (f : txn A) (Q : serr + A -> world -> Prop) w :
  I w -> Q (inl SOther) w -> I (set_db (snd (f (db w))) w) -> Q (inl SOther) (set_db (snd (f (db w))) w) ->
  Q (fst (f (db w))) (set_db (snd (f (db w))) w) -> wp I (tx f) Q w.
Proof.
  intros Hw HQ HI HQ2 HQ3. apply wp_act.
  assert (E : tx_step f w = (fst (f (db w)), set_db (snd (f (db w))) w)) by (unfold tx_step; by destruct (f (db w))).
  intros r w1 [E'|(g & n & [= <-] & [= <- <-])]; [rewrite E in E'; by injection E' as <- <-|].
  destruct n; [done|]. rewrite E. done.
Qed.

Section publication.
Context {ST : Strictness} {UC : Unicode} {EX : Externals} {MC : ManifestCodec} {ML : ManifestCodecLaws}.

(** A transfer being verified: nothing is live, the staged tree satisfies [T]. *)
Record verifying (id : string) (T : tree -> Prop) (w : world) : Prop := {
  vf_inv : Inv w; vf_live : live w !! id = None; vf_tree : T (tree_of (staging w) id);
  vf_state r : transfers (db w) !! id = Some r -> c_state r = StateVerifying }.

Lemma wp_SetVerifying id (T : tree -> Prop) w (Q : serr + unit -> world -> Prop) :
  Inv w -> live w !! id = None -> T (tree_of (staging w) id) ->
  (forall w1, Q (inl SOther) w1) -> (forall w1, verifying id T w1 -> Q (inr tt) w1) ->
  wp Inv (tx (SetState id StateVerifying)) Q w.
Proof.
  intros Hw Hl HT HE HQ.
  assert (HI : Inv (set_db (snd (SetState id StateVerifying (db w))) w)) by (apply safe_SetState; [done|by intros [|]|done]).
  apply wp_tx; [done|done|done|done|]. apply HQ. split; cbn; [done|done|done|].
  intros r. rewrite lookup_alter_eq. by intros (r0 & _ & ->)%fmap_Some.
Qed.

Lemma wp_SetNote id n ttl (T : tree -> Prop) w (Q : serr + unit -> world -> Prop) :
  verifying id T w -> (forall w1, Q (inl SOther) w1) -> (forall w1, verifying id T w1 -> Q (inr tt) w1) ->
  wp Inv (tx (SetNoteAndTTL id n ttl)) Q w.
Proof.
  intros [Hw Hl HT Hs] HE HQ.
  assert (HI : Inv (set_db (snd (SetNoteAndTTL id n ttl (db w))) w)) by (by apply safe_SetNoteAndTTL).
  apply wp_tx; [done|done|done|done|]. apply HQ. split; cbn; [done|done|done|].
  intros r. rewrite lookup_alter_eq. intros (r0 & Hr0 & ->)%fmap_Some. exact (Hs r0 Hr0).
Qed.

Lemma verifying_staged id (T T' : tree -> Prop) w w1 : verifying id T w -> staged_from id w w1 ->
  T' (tree_of (staging w1) id) -> verifying id T' w1.
Proof.
  intros [Hw Hl HT Hs] Hf HT'. pose proof Hf as [E1 E2 _ _ _ _]. split.
  - apply (Inv_staged id w); [done|done|by left].
  - by rewrite E2.
  - done.
  - by rewrite E1.
Qed.

Lemma wp_verifying_staging {A : Type} id (p : prog tree A) (T : tree -> Prop) (Q' : A -> tree -> Prop)
    (Q : A -> world -> Prop) w :
  verifying id T w -> wp (fun _ => True) p Q' (tree_of (staging w) id) ->
  (forall a w1, verifying id (Q' a) w1 -> Q a w1) -> wp Inv (in_staging id p) Q w.
Proof.
  intros Hv Hp HQ. eapply wp_in_staging; [exact Hp| |].
  - intros w1 Hs _. by apply (verifying_staged id T (fun _ => True) w).
  - intros a w1 Hs HQ'. apply HQ. by apply (verifying_staged id T (Q' a) w).
Qed.

Lemma wp_verifying_idle {A : Type} id (p : prog world A) (T : tree -> Prop) (Q : A -> world -> Prop) w :
  verifying id T w -> within idle p -> (forall a w1, verifying id T w1 -> Q a w1) -> wp Inv p Q w.
Proof.
  intros [Hw Hl HT Hs] Hp HQ. apply (wp_within idle); [done|intros w1 Hi; by eapply idle_Inv|].
  intros a w1 Hi. apply HQ. pose proof Hi as (E1 & E2 & E3 & _). split; [by eapply idle_Inv|by rewrite E3|by rewrite E2|by rewrite E1].
Qed.

(** What else the staged tree holds: anything about its entries below the top level. *)
Context (X : tree -> Prop) (HX : forall t t', fixes deep t t' -> X t -> X t').

(** A tree that is complete for [m], and says so. *)
Definition sealed (m : Manifest) (t : tree) : Prop := manifest_of t = Some m /\ manifest_held t m /\ X t.
Definition live_sealed (w : world) (id : string) (m : Manifest) : Prop :=
  exists t, live w !! id = Some t /\ sealed m t.

Lemma sealed_same m t t' : same t t' -> sealed m t -> sealed m t'.
Proof.
  intros Hs (Hm & Hh & Hx). split_and!; [by rewrite <- (manifest_of_same _ _ Hs)|by eapply manifest_held_same|].
  eapply HX; [|done]. by apply fixes_same.
Qed.
Lemma live_sealed_stays w w' id m : live_stays w w' -> live_sealed w id m -> live_sealed w' id m.
Proof.
  intros Hl (t & Ht & Hse). destruct (Hl id t Ht) as (t' & Ht' & Hs). exists t'. split; [done|]. by eapply sealed_same.
Qed.
Lemma live_sealed_manifest w id m : live_sealed w id m -> live_manifest w id m.
Proof. intros (t & Ht & Hm & Hh & _). by exists t. Qed.

Lemma wp_writeAndDigest id m (Q : ecode + string -> world -> Prop) w :
  verifying id (fun t => manifest_held t m /\ X t) w -> json_ok m -> Manifest.Validate m = None ->
  (forall e w1, Q (inl e) w1) -> (forall s w1, verifying id (sealed m) w1 -> Q (inr s) w1) ->
  wp Inv (writeAndDigestManifest id m) Q w.
Proof.
  intros Hv Hj Hval HE HQ. unfold writeAndDigestManifest. destruct (json_Marshal m) as [data|]; [|apply HE].
  unfold temp_name. apply wp_bind, wp_bind, wp_act. intros b w1 [[= <- <-]|(? & ? & [=] & _)].
  assert (Hv1 : verifying id (fun t => manifest_held t m /\ X t) (set_rpos (rpos w + 8) w)).
  { destruct Hv as [Hw Hl HT Hs]. split; [by apply (Inv_same w)|done|done|done]. }
  split; [apply Hv1|]. cbn [wp]. apply wp_orE. eapply (wp_verifying_staging id _ _ _ _ _ Hv1).
  - eapply wp_mono; [| |apply WriteManifest_wp; [|exact Hj|exact Hval]]; [done| |done].
    intros r t' [Hf Hr]. exact (conj Hf Hr).
  - intros [e|[]] w2 Hv2; [apply HE|]. apply HQ. destruct Hv2 as [A B [Hf Hm] D]. split; [done|done| |done].
    destruct (vf_tree _ _ _ Hv1). split_and!; [by apply Hm|by eapply held_deep|by eapply HX].
Qed.

Lemma exists_dir_None (a : gmap string tree) id : a !! id = None -> exists_dir a id = false.
Proof. unfold exists_dir, tree_of. by intros ->. Qed.

Lemma Inv_rename id m w : verifying id (sealed m) w -> exists_dir (staging w) id = true ->
  let w1 := set_live (<[id := tree_of (staging w) id]> (live w)) (set_staging (delete id (staging w)) w) in
  Inv w1 /\ live_sealed w1 id m.
Proof.
  intros [Hw Hl Hse Hs] He. pose proof Hse as (Hm & Hh & _). pose proof Hw as [H1 H2 H2s H3 H4 H5 H6].
  assert (Hlc : live_complete (tree_of (staging w) id)).
  { split; [|by exists m]. unfold exists_dir in He. unfold look. revert He. case_match; [by eexists|done]. }
  cbn. split; [split; cbn; try done|].
  - intros j t. rewrite lookup_insert. destruct (decide _) as [<-|]; [by intros [= <-]|by apply H3].
  - intros Hst j r Hr Hc. rewrite lookup_insert. destruct (decide _); [done|]. by eapply H4.
  - intros j mj Hj. destruct (H5 j mj Hj) as (t & Ht & Hmt). exists t. rewrite lookup_insert_ne by congruence. done.
  - intros j t. rewrite lookup_insert. destruct (decide _) as [<-|Hj].
    + intros _. split; [|intros r Hr; rewrite (Hs r Hr); by intros [|]].
      unfold tree_of. rewrite lookup_delete_eq. intros s d. unfold look. cbn [default]. by rewrite lookup_empty.
    + intros Ht. destruct (H6 j t Ht) as [Hn Hu]. split; [|done]. unfold tree_of. by rewrite lookup_delete_ne.
  - exists (tree_of (staging w) id). cbn. by rewrite lookup_insert_eq.
Qed.

Lemma wp_layout_Publish id m (Q : oserr + unit -> world -> Prop) w :
  verifying id (sealed m) w -> (forall e w1, Q (inl e) w1) ->
  (forall w1, Inv w1 -> live_sealed w1 id m -> Q (inr tt) w1) -> wp Inv (layout_Publish id) Q w.
Proof.
  intros Hv HE HQ. unfold layout_Publish.
  apply wp_bindE. apply (wp_verifying_idle id _ _ _ _ Hv); [apply idle_sync|]. intros [e|[]] w1 Hv1; [apply HE|].
  apply wp_bind, wp_act. intros r w2 Hr.
  assert (Hw2 : w2 = w1 /\ exists e, r = inl e).
  { destruct Hr as [E|(f & n & [= <-] & [= <- <-])]; [|eauto].
    rewrite exists_dir_None in E by apply Hv1. injection E as <- <-. eauto. }
  destruct Hw2 as [-> [e ->]]. split; [apply Hv1|].
  apply wp_bindE, wp_act. intros r w2 Hr2.
  destruct Hr2 as [E|(f & n & [= <-] & [= <- <-])]; [|split; [apply Hv1|apply HE]].
  unfold rename_to_live in E. destruct (exists_dir (staging w1) id) eqn:He; cbn [negb] in E;
    [|injection E as <- <-; split; [apply Hv1|apply HE]].
  destruct (can_replace _); cbn [negb] in E; injection E as <- <-; [|split; [apply Hv1|apply HE]].
  destruct (Inv_rename id m w1 Hv1 He) as [HI Hlm]. split; [done|].
  set (w2 := set_live _ _) in *. clearbody w2.
  apply (wp_within calm); [apply within_still_calm, within_idle_still, idle_sync|by intros w3 Hc; apply Hc|].
  intros [e2|[]] w3 Hc; [apply HE|]. destruct (Hc HI) as [HI3 Hst]. apply HQ; [done|].
  by eapply live_sealed_stays.
Qed.

(** The row of a committed transfer, as the caller sees it; the expiry instant is the
    stored one when the lifetime is in the protocol's range. *)
Definition ttl_ok (ttl : Z) : Prop := (0 <= ttl <= 3000)%Z.
Definition committed_as (w : world) (ttl : Z) (t : Transfer) : Prop :=
  exists row, transfers (db w) !! t_ID t = Some row /\ c_state row = StateCommitted /\
    c_code row = Some (t_Code t) /\ canonical (t_Code t) = true /\
    time_from_null (c_committed_at row) = t_CommittedAt t /\
    (ttl_ok ttl -> time_from_null (c_expires_at row) = t_ExpiresAt t).

Lemma committed_as_scan (d : DB) w ttl id row : db_ok d -> db w = d -> transfers d !! id = Some row ->
  c_state row = StateCommitted -> committed_as w ttl (scanTransfer id row).
Proof.
  intros Hd <- Hr Hc. exists row. destruct (rows_ok _ Hd id row Hr) as (A & B & _).
  destruct (B Hc) as ([c Hcode] & _). cbn. rewrite Hcode. split_and!; try done. by apply A.
Qed.

Lemma Publish_step_Inv id now ttl dg b w m : Inv w -> live_manifest w id m ->
  let '(r, w1) := Publish_step id now ttl dg b w in
  Inv w1 /\ live w1 = live w /\ forall t, r = inr t -> t_ID t = id /\ committed_as w1 ttl t.
Proof.
  intros Hw (tr & Htr & _). unfold Publish_step, tx_step. cbn [db set_rpos].
  set (bufs := map _ _). assert (Hb : Forall (fun b => length b = 8%nat) bufs).
  { apply Forall_map, Forall_forall. intros k _. unfold bytes_at. by rewrite length_map, length_seq. }
  pose proof (db_ok_do_publish bufs id now ttl dg b (db w) (inv_db w Hw) Hb) as Hd.
  destruct (Publish bufs id now ttl dg b (db w)) as [r d'] eqn:E. cbn in Hd.
  assert (Hrp : Inv (set_rpos (rpos w + 128) w)) by (by apply (Inv_same w)).
  apply Publish_spec in E; [|done]. destruct r as [e|t].
  { subst d'. by destruct w. }
  destruct E as (row & Hrow & Hid & Hst & Hcase).
  split_and!; [|done|].
  - destruct Hcase as [(_ & _ & _ & ->)|(Hp & Hn & _ & _ & _ & _ & ->)]; [by destruct w|].
    apply (Inv_db _ _ Hrp); [done|apply Hw|]. intros j r'. rewrite update_transfer_lookup. cbn.
    destruct (decide (id = j)) as [<-|].
    + intros (r0 & Hr0 & ->)%fmap_Some. exists r0. split; [done|]. cbn. split; [|by intros [|]].
      right. by rewrite Htr.
    + intros Hr0. exists r'. auto.
  - intros t' [= <-]. split; [done|]. unfold committed_as. rewrite Hid. cbn [db set_db].
    destruct Hcase as [(Hc & -> & Hne & ->)|(Hp & Hn & Hcan & Hfresh & Hca & Hex & E)].
    + by apply (committed_as_scan (db w) (set_db (db w) w) ttl id row (inv_db w Hw)).
    + destruct (decide (ttl_ok ttl)) as [Hok|Hok].
      * destruct (published_row id row t now ttl dg b d' (db w) Hok Hrow) as (row' & Hr' & Hs' & Hc' & _ & Hca' & Hex');
          [right; by split_and!|].
        by exists row'.
      * eexists. split; [by rewrite E, update_transfer_lookup, decide_True, Hrow|]. by cbn.
Qed.

Lemma wp_store_Publish id now ttl dg b m (Q : serr + Transfer -> world -> Prop) w :
  Inv w -> live_manifest w id m ->
  (forall e w1, Inv w1 -> Q (inl e) w1) ->
  (forall t w1, Inv w1 -> live w1 = live w -> t_ID t = id -> committed_as w1 ttl t -> Q (inr t) w1) ->
  wp Inv (store_Publish id now ttl dg b) Q w.
Proof.
  intros Hw Hlm HE HQ. pose proof (Publish_step_Inv id now ttl dg b w m Hw Hlm) as Hstep.
  apply wp_act. intros r w1 Hr. destruct (Publish_step id now ttl dg b w) as [r0 w0] eqn:E.
  destruct Hstep as (HI & Hl & Ht). destruct Hr as [E'|(f & n & [= <-] & [= <- <-])].
  - injection E' as <- <-. split; [done|]. destruct r0 as [e|t]; [by apply HE|].
    destruct (Ht t eq_refl). by apply HQ.
  - destruct n; [split; [done|by apply HE]|]. rewrite E. split; [done|by apply HE].
Qed.

(** What a response promises: its code is the code of [id]'s COMMITTED row, which carries
    its instants. *)
Definition answered (w : world) (id : string) (ttl : Z) (resp : CommitResponse) : Prop :=
  exists t, committed_as w ttl t /\ t_ID t = id /\ resp = response_of t.

Lemma answered_same w w' id ttl resp : db w' = db w -> answered w id ttl resp -> answered w' id ttl resp.
Proof. unfold answered, committed_as. by intros ->. Qed.

Lemma publish_wp id m ttl note bytes w :
  Inv w -> live w !! id = None -> manifest_held (tree_of (staging w) id) m ->
  X (tree_of (staging w) id) -> json_ok m -> Manifest.Validate m = None ->
  wp Inv (publish id m ttl note bytes) (fun (r : ecode + CommitResponse) (w1 : world) =>
    forall resp, r = inr resp -> answered w1 id ttl resp /\ live_sealed w1 id m) w.
Proof.
  intros Hw Hl Hh Hx Hj Hv. unfold publish.
  apply wp_orE. eapply (wp_SetVerifying id (fun t => manifest_held t m /\ X t)); [done|done|done|done|]. intros w1 Hv1.
  apply wp_orE. eapply wp_SetNote; [exact Hv1|done|]. intros w2 Hv2.
  apply wp_bindE. eapply wp_writeAndDigest; [exact Hv2|done|done|done|]. intros digest w3 Hv3.
  apply wp_orE. eapply (wp_verifying_staging id _ _ (fun _ => sealed m) _ _ Hv3).
  { apply (wp_within same); [auto with within|done|]. intros a t' Hs. eapply sealed_same; [exact Hs|]. apply Hv3. }
  intros [e|[]] w4 Hv4; [done|].
  apply wp_orE. eapply wp_layout_Publish; [exact Hv4|done|]. intros w5 Hw5 Hlm5.
  eapply wp_calm; [done|apply within_still_calm, within_idle_still, idle_Now|]. intros now w6 Hw6 Hst6.
  apply (live_sealed_stays _ _ _ _ Hst6) in Hlm5.
  apply wp_bind. eapply wp_store_Publish; [done|by apply live_sealed_manifest|done|]. intros t w7 Hw7 Hl7 Hid Hc.
  apply wp_bind, wp_act. intros [] w8 [[= <-]|(? & ? & [=] & _)].
  assert (Hlm7 : live_sealed w7 id m) by (unfold live_sealed; by rewrite Hl7).
  split.
  - apply Inv_cache_put; [done|]. destruct Hlm7 as (tr & ? & ? & _). eauto.
  - cbn. intros resp [= <-]. split; [|done]. by exists t.
Qed.
End publication.

(** ** Commit *)

Section commit.
Context {ST : Strictness} {UC : Unicode} {EX : Externals} {EL : ExternalsLaws} {MC : ManifestCodec} {ML : ManifestCodecLaws}.
Context (cfg : Server).

Lemma seg_staged_live id w m : Inv w -> Forall (seg_staged (tree_of (staging w) id)) (Segments m) ->
  Segments m <> [] -> live w !! id = None.
Proof.
  intros Hw Hst Hne. destruct (live w !! id) eqn:El; [|done].
  destruct (inv_published w Hw id _ El) as [Hn _]. destruct (Segments m) as [|s ss]; [done|].
  apply Forall_cons in Hst as [(_ & d & Hd & _) _]. by apply Hn in Hd.
Qed.

(** What the staged files hold, segment by segment. *)
Definition staged_content (t : tree) (sid : string) : string :=
  match look t [SegmentsDir; sid] with Some (CFile d) => d | _ => "" end.

Lemma seg_staged_at t m : Forall (seg_staged t) (Segments m) ->
  Forall (staged_at (staged_content t) t) (Segments m) /\
  Forall (fun s => plain (seg_ID s) = true) (Segments m) /\
  Forall (fun s => slen (staged_content t (seg_ID s)) = seg_WireSize s /\
    HashBytes (staged_content t (seg_ID s)) = seg_Digest s) (Segments m).
Proof.
  intros Hs. split_and!; (eapply Forall_impl; [exact Hs|]); intros s (Hp & d & Hd & Hl & Hh);
    unfold staged_at, staged_content; by rewrite ?Hd.
Qed.

Lemma check_request_None id m : check_request cfg id m = None ->
  TransferID m = id /\ Manifest.Validate m = None.
Proof.
  unfold check_request. destruct (String.eqb_spec (TransferID m) id); cbn; [|done].
  by destruct (Manifest.Validate m).
Qed.

(** Materializing what was checked and publishing the result. *)
Lemma materialize_publish_wp id m ttl w : Inv w -> plain id = true -> json_ok m -> Manifest.Validate m = None ->
  live w !! id = None -> Forall (seg_staged (tree_of (staging w) id)) (Segments m) ->
  wp Inv (result <- in_staging id (Run (staging_root cfg id) m) ;;
    match result with
    | inl perr => tx (Fail id (code_string perr)) ;;; Ret (inl perr)
    | inr res => resp <-? publish id (Published res) ttl (Note m) (MaterializedBytes res) ;; Ret (inr (resp, true))
    end) (fun (r : ecode + CommitResponse * bool) (w1 : world) => forall resp fresh, r = inr (resp, fresh) ->
      fresh = true /\ answered w1 id ttl resp /\ live_manifest w1 id (republished m)) w.
Proof.
  intros Hw Hp Hj Hv Hl Hst. destruct (seg_staged_at _ _ Hst) as (H1 & H2 & H3).
  apply wp_bind. eapply wp_in_staging.
  - eapply Run_wp; [by apply staging_root_plain|by apply Validate_spec|exact H2|exact H3|exact H1].
  - intros w1 Hs _. apply (Inv_staged id w); [done|done|by left].
  - intros [perr|res] w1 Hs Hr.
    all: assert (Hw1 : Inv w1) by (apply (Inv_staged id w); [done|done|by left]).
    { eapply wp_calm; [done|apply within_still_calm, still_tx, safe_Fail|]. by intros a w2 _ _. }
    destruct Hr as (Hpub & _ & Hheld). change (with_segments m _) with (republished m) in Hpub. rewrite Hpub in *.
    apply wp_bindE.
    eapply wp_wand; [apply (publish_wp (fun _ => True)); [done|done| |done|done|by apply republished_json|by apply republished_Validate]|].
    + by rewrite (sf_live _ _ _ Hs).
    + intros [e|resp] w2 Hr2; [done|]. cbn. intros resp' fresh [= <- <-]. destruct (Hr2 _ eq_refl).
      split_and!; [done|done|by eapply live_sealed_manifest].
Qed.

Lemma service_Commit_wp id m w : Inv w -> json_ok m ->
  wp Inv (service_Commit cfg id m) (fun (r : ecode + CommitResponse * bool) (w1 : world) =>
    forall resp fresh, r = inr (resp, fresh) -> exists row, transfers (db w) !! id = Some row /\
      answered w1 id (effective_ttl cfg (scanTransfer id row)) resp /\
      (fresh = true -> live_manifest w1 id (republished m)) /\
      (fresh = false -> w1 = w)) w.
Proof.
  intros Hw Hj. unfold service_Commit.
  apply wp_bind, wp_act. intros r w0 Hr. assert (w0 = w) as -> by (destruct Hr as [[=]|(? & ? & [= <-] & [=])]; congruence).
  split; [done|]. destruct r as [[]|t]; try done.
  assert (Ht : exists row, transfers (db w) !! id = Some row /\ t = scanTransfer id row).
  { destruct Hr as [[= E]|(? & ? & [= <-] & [=])]. unfold GetTransfer in E. apply found_inr in E.
    apply fmap_Some in E as (row & Hrow & ->). eauto. }
  clear Hr. destruct Ht as (row & Hrow & ->).
  destruct (Committed_ (scanTransfer id row)) eqn:Ec.
  { cbn. intros resp fresh [= <- <-]. exists row. split_and!; [done| |done|done].
    apply andb_true_iff in Ec as [Ec _]. apply bool_decide_eq_true in Ec. exists (scanTransfer id row). split_and!; [|done..].
    eapply committed_as_scan; [apply (inv_db w Hw)|done|done|done]. }
  destruct (precommit _); [|done]. destruct (check_request cfg id m) eqn:Er; [done|].
  apply check_request_None in Er as [_ Hv].
  apply wp_orE, wp_act. intros r w0 Hr. assert (w0 = w) as -> by (destruct Hr as [[=]|(? & ? & [= <-] & [=])]; congruence).
  split; [done|]. destruct r as [e|stored]; [done|].
  assert (HbyID : map_Forall (fun k s => plain k = true)
     (foldl (fun b s => <[s_ID s := s]> b) (∅ : gmap string StoredSegment) stored)).
  { intros k s Hk. apply foldl_index in Hk as [Hin <-].
    destruct Hr as [[= E]|(? & ? & [= <-] & [=])]. destruct (ListSegments_rows id (db w) stored s) as (k & rw & Hk & ->); [exact (f_equal inr E)|done|].
    by apply (inv_segment_ids w Hw k rw). }
  clear Hr. case_match; [|done].
  apply wp_orE.
  eapply (wp_in_staging id _ _ (fixes segment_path (tree_of (staging w) id)) (fun _ => fixes segment_path (tree_of (staging w) id))).
  { apply (wp_within (fixes segment_path)); [|done|done]. apply fixes_MkdirAll.
    intros q. cbn. by intros [->|[->|?%elem_of_nil]%elem_of_cons]%elem_of_cons. }
  { intros w1 Hs Hf. by apply (Inv_checked id w). }
  intros [e|[]] w1 Hs Hf; [done|]. assert (Hc : checked_from id w w1) by done.
  apply wp_bindE. eapply wp_wand; [by apply (check_segments_wp id _ HbyID (Segments m) w)|].
  intros [e|[]] w2 [Hc2 Hst]; [done|]. specialize (Hst eq_refl). pose proof (Inv_checked id w w2 Hw Hc2) as Hw2.
  assert (Hst2 : Forall (seg_staged (tree_of (staging w2) id)) (Segments m)).
  { eapply Forall_impl; [exact Hst|]. intros s (Hp & d & Hd & Hx). split; [done|]. exists d.
    destruct Hc2 as [_ Hf2]. by rewrite Hf2. }
  assert (Hl2 : live w2 !! id = None).
  { apply (seg_staged_live id w2 m Hw2 Hst2). intros E. apply Validate_spec in Hv.
    destruct Hv as (_ & _ & _ & _ & _ & _ & _ & _ & _ & Hne & _). done. }
  apply wp_orE. eapply (wp_SetVerifying id (fun t => Forall (seg_staged t) (Segments m))); [done|done|done|done|].
  intros w3 [Hw3 Hl3 Hst3 _]. eapply wp_wand; [apply materialize_publish_wp; [done| |done|done|done|done]|].
  - by apply (inv_ids w Hw id row).
  - cbn. intros r w4 Hr resp fresh ->. destruct (Hr resp fresh eq_refl) as (-> & ? & ?). exists row. by split_and!.
Qed.
End commit.
