(* ===== verification/SimpleProofs.v ===== *)
(** * Simple uploads publish exactly the parts they received *)
From S2P Require Import Prelude GoStrings GoTime Errors Code Paths Manifest Wire Admission Prog Tree.
From S2P Require Import Integrity Materialize Store Config World Service Upload Commit Simple Safety.
From S2P Require Import ServiceProofs UploadProofs CommitProofs.
Local Open Scope prog_scope.

Lemma lower_hex_valid s : sforall lower_hex s = true -> valid_utf8 s = true.
Proof.
  intros Hs. rewrite <- (string_app_nil_r s). apply valid_utf8_prefix. revert Hs.
  induction s as [|a s IH]; cbn; [done|]. intros [Ha Hs]%andb_true_iff. rewrite (IH Hs), andb_true_r.
  unfold is_ascii_byte, lower_hex in *. revert Ha. boolprop. lia.
Qed.

Lemma slen_app a b : slen (a ++ b)%string = (slen a + slen b)%Z.
Proof. unfold slen. rewrite string_length_app. lia. Qed.

Lemma slen_hex l : slen (EncodeToString l) = (2 * Z.of_nat (length l))%Z.
Proof.
  induction l as [|b l IH]; [done|]. unfold EncodeToString in *. cbn [map]. rewrite join_nil_cons, slen_app, IH. cbn [length].
  replace (slen (hex_byte b)) with 2%Z by done. lia.
Qed.
Lemma slen_id p w n k : slen p = 2%Z -> slen (p ++ EncodeToString (bytes_at w n k))%string = (2 + 2 * Z.of_nat k)%Z.
Proof. intros Hp. rewrite slen_app, slen_hex, Hp. unfold bytes_at. by rewrite length_map, length_seq. Qed.

Lemma substring_beyond n k s : (String.length s <= n)%nat -> substring n k s = "".
Proof.
  revert n k. induction s as [|a s IH]; intros n k Hn; [by destruct n, k|].
  destruct n as [|n]; cbn in *; [lia|]. apply IH. lia.
Qed.

(** Writing at the end appends. *)
Lemma write_at_end d c : write_at (slen d) c d = (d ++ c)%string.
Proof.
  unfold write_at, truncate, stake, sdrop, slen. rewrite Nat2Z.id, substring_all by lia. rewrite Z.sub_diag. cbn [Z.to_nat zeros].
  rewrite string_app_nil_r. rewrite (substring_beyond (Z.to_nat _)) by lia. by rewrite string_app_nil_r.
Qed.

Section simple_proofs.
Context {ST : Strictness} {UC : Unicode} {EX : Externals} {EL : ExternalsLaws} {MC : ManifestCodec} {ML : ManifestCodecLaws}.
Context (cfg : Server).

Notation others target := (fixes (fun q => q <> target)).

Lemma others_refl_trans target t1 t2 t3 : others target t1 t2 -> others target t2 t3 -> others target t1 t3.
Proof. intros H1 H2. by etrans. Qed.

Lemma append_wp target d c (t : tree) : look t target = Some (CFile d) ->
  wp (fun _ => True) (WriteAt target (slen d) c) (fun (r : oserr + unit) (t' : tree) => others target t t' /\
    (r = inr tt -> look t' target = Some (CFile (d ++ c)%string))) t.
Proof.
  intros Ht. apply wp_act. intros r t' [[= <- <-]|(f & n & [= <-] & [= <- <-])]; (split; [done|]).
  - split; [apply fixes_edit; congruence|]. intros _. by rewrite look_edit, Ht, decide_True, write_at_end.
  - split; [apply fixes_edit; congruence|done].
Qed.

(** What a call on a session leaves: an unpublished transfer, and every path but the one
    being written as it was. *)
Definition session_frame (id : string) (target : path) (t0 : tree) (w : world) : Prop :=
  unpub id w /\ others target t0 (tree_of (staging w) id).

Lemma frame_idle id target t0 w w1 : session_frame id target t0 w -> idle w w1 -> session_frame id target t0 w1.
Proof.
  intros [[Hw Hl] Hf] Hi. pose proof Hi as (_ & E2 & E3 & _). split; [split; [by eapply idle_Inv|by rewrite E3]|by rewrite E2].
Qed.

Lemma add_loop_wp id target bytes failing cs t0 d since w :
  session_frame id target t0 w -> look (tree_of (staging w) id) target = Some (CFile d) ->
  (slen d + slen (join "" cs) < 2^63)%Z ->
  wp Inv (add_loop cfg id target bytes failing cs (slen d) since) (fun (r : ecode + Z * Z) (w1 : world) =>
    session_frame id target t0 w1 /\ forall wr si, r = inr (wr, si) ->
      look (tree_of (staging w1) id) target = Some (CFile (d ++ join "" cs)%string) /\
      wr = slen (d ++ join "" cs)%string) w.
Proof.
  revert d since w. induction cs as [|c cs IH]; intros d since w Hf Hd Hlen; cbn [add_loop].
  { destruct failing; [done|]. split; [done|]. intros wr si [= <- <-]. cbn. by rewrite string_app_nil_r. }
  rewrite join_nil_cons, slen_app in Hlen. assert (Hc0 : (0 <= slen (join "" cs))%Z) by (unfold slen; lia).
  assert (Hc1 : (0 <= slen c)%Z /\ (0 <= slen d)%Z) by (unfold slen; lia).
  apply wp_orE. eapply wp_in_staging; [by apply append_wp| |].
  { intros w1 Hs _. by apply (unpub_staged id w w1 (proj1 Hf)). }
  intros r w1 Hs [Ho Hr].
  assert (Hf1 : session_frame id target t0 w1).
  { split; [by apply (unpub_staged id w w1 (proj1 Hf))|]. etrans; [apply Hf|exact Ho]. }
  destruct r as [e|[]]; [by split|]. specialize (Hr eq_refl).
  replace (int64 (slen d + slen c)) with (slen (d ++ c)%string).
  2:{ rewrite slen_app, int64_small; [done|]. unfold in_int64, min_int64, max_int64. lia. }
  case_match; [done|].
  assert (Hrec : forall s w2, session_frame id target t0 w2 -> look (tree_of (staging w2) id) target = Some (CFile (d ++ c)%string) ->
    wp Inv (add_loop cfg id target bytes failing cs (slen (d ++ c)%string) s) (fun (r : ecode + Z * Z) (w1 : world) =>
    session_frame id target t0 w1 /\ forall wr si, r = inr (wr, si) ->
      look (tree_of (staging w1) id) target = Some (CFile (d ++ join "" (c :: cs))%string) /\
      wr = slen (d ++ join "" (c :: cs))%string) w2).
  { intros s w2 Hf2 Hd2. rewrite join_nil_cons, <- string_app_assoc. apply IH; [done|done|]. rewrite slen_app. lia. }
  case_match; [|by apply Hrec].
  apply wp_bind, (wp_within idle); [apply idle_CheckStreaming|intros w2 Hi; by eapply idle_Inv; [|apply Hf1]|].
  intros [e|] w2 Hi; pose proof (frame_idle _ _ _ _ _ Hf1 Hi) as Hf2; [by split|].
  apply Hrec; [done|]. destruct Hi as (_ & E2 & _). by rewrite E2.
Qed.

(** *** Sessions *)

(** What a part is recorded as. *)
Record simple_entry (t : tree) (e : Entry) (part : string * string) : Prop := {
  se_path : e_Path e = fst part; se_plain : plain (e_Path e) = true; se_type : e_Type e = EntryFile;
  se_size : e_Size e = slen (snd part); se_range : in_int64 (e_Size e) /\ in_int64 (e_MTimeUnixNS e);
  se_mode : e_Mode e = 420%Z; se_offset : e_SegmentOffset e = 0%Z;
  se_digest : e_Digest e = HashBytes (snd part);
  se_segment : valid_utf8 (e_SegmentID e) = true /\ plain (e_SegmentID e) = true;
  se_held : look t [PayloadDir; e_Path e] = Some (CFile (snd part)) }.

Definition raw_segment (e : Entry) : Segment :=
  mkSegment (e_SegmentID e) SegmentRaw (e_Size e) (e_Digest e) (PayloadDir ++ "/" ++ e_Path e)%string.

(** A session that received [parts]. *)
Record session_ok (s : SimpleSession) (parts : list (string * string)) (w : world) : Prop := {
  so_unpub : unpub (ss_id s) w; so_id : plain (ss_id s) = true /\ valid_utf8 (ss_id s) = true;
  so_entries : Forall2 (simple_entry (tree_of (staging w) (ss_id s))) (ss_entries s) parts;
  so_segments : ss_segments s = map raw_segment (ss_entries s);
  so_roots : ss_roots s = map e_Path (ss_entries s) }.

Lemma simple_entry_others t t' target e part : simple_entry t e part -> look t target = None ->
  others target t t' -> simple_entry t' e part.
Proof.
  intros [A B C D E F G H I J] Hn Ho. split; try done. rewrite Ho; [done|]. intros E'. congruence.
Qed.

Lemma session_idle s parts w w1 : session_ok s parts w -> idle w w1 -> session_ok s parts w1.
Proof.
  intros [[Hw Hl] A B C D] Hi. pose proof Hi as (_ & E2 & E3 & _).
  split; try done; [split; [by eapply idle_Inv|by rewrite E3]|by rewrite E2].
Qed.

Lemma session_frame_ok s parts w w1 target : session_ok s parts w -> look (tree_of (staging w) (ss_id s)) target = None ->
  session_frame (ss_id s) target (tree_of (staging w) (ss_id s)) w1 -> session_ok s parts w1.
Proof.
  intros [_ A B C D] Hn [Hu Ho]. split; [done|done| |done|done].
  eapply Forall2_impl; [exact B|]. intros e part He. by eapply simple_entry_others.
Qed.

Lemma wp_rand_keeps {B : Type} n (f : list Z -> prog world B) (Q : B -> world -> Prop) w :
  Inv w -> (Inv (set_rpos (rpos w + n) w) -> Forall (fun b => 0 <= b < 256)%Z (bytes_at w (rpos w) n) ->
    wp Inv (f (bytes_at w (rpos w) n)) Q (set_rpos (rpos w + n) w)) -> wp Inv (bind (rand_Read n) f) Q w.
Proof.
  intros Hw Hf. apply wp_bind, wp_act. intros b w1 [[= <- <-]|(? & ? & [=] & _)].
  assert (Hw1 : Inv (set_rpos (rpos w + n) w)) by (by apply (Inv_same w)).
  split; [done|]. apply Hf; [done|apply bytes_at_range].
Qed.

Lemma segment_id_valid w n k : let id := ("s-" ++ EncodeToString (bytes_at w n k))%string in
  valid_utf8 id = true /\ plain id = true.
Proof.
  pose proof (EncodeToString_lower _ (bytes_at_range w n k)) as Hhex. split.
  - rewrite valid_utf8_prefix by done. by apply lower_hex_valid.
  - apply plain_spec. apply lower_hex_no_slash in Hhex. by split_and!.
Qed.

Lemma payload_join id clean : plain id = true -> plain clean = true ->
  SafeJoinIn (staging_root cfg id) [PayloadDir] clean = Some [PayloadDir; clean].
Proof.
  intros Hid Hc. pose proof (SafeJoinIn_plain (staging_root cfg id) [PayloadDir] [clean]) as Hj.
  cbn [join String.concat app] in Hj. apply Hj; [by intros [_ [=]]%app_eq_nil|done| |by apply Forall_singleton].
  apply Forall_app. split; [by apply staging_root_plain|by apply Forall_singleton].
Qed.

(** Recording the part: the identifier, the time and the new session. *)
Lemma record_part_wp clean chs written since s parts w : session_ok s parts w -> plain clean = true ->
  written = slen (join "" chs) -> (slen (join "" chs) < 2^63)%Z ->
  look (tree_of (staging w) (ss_id s)) [PayloadDir; clean] = Some (CFile (join "" chs)) ->
  wp Inv (segID <- ids_Segment ;; now <- Now ;;
    Ret (inr (mkSession (ss_id s) (ss_note s) (ss_ttlMinutes s)
        (ss_entries s ++ [mkEntry clean EntryFile written (int64 now) 420 (HashBytes (join "" chs)) segID 0])
        (ss_segments s ++ [mkSegment segID SegmentRaw written (HashBytes (join "" chs)) (PayloadDir ++ "/" ++ clean)%string])
        (ss_roots s ++ [clean]) ({[ToLower clean]} ∪ ss_seenNames s)
        (ss_bytes s + written)%Z since)))
    (fun (r : ecode + SimpleSession) (w1 : world) => forall s', r = inr s' ->
      ss_id s' = ss_id s /\ session_ok s' (parts ++ [(clean, join "" chs)]) w1) w.
Proof.
  intros Hs Hp -> Hlen Hl. pose proof Hs as [[Hw Hlive] A B C D]. unfold ids_Segment, New.
  apply wp_bind, wp_rand_keeps; [done|]. intros Hw1 Hr. cbn [wp].
  assert (Hs1 : session_ok s parts (set_rpos (rpos w + 16) w)) by (by split; [split|..]).
  apply wp_bind, (wp_within idle); [apply idle_Now|intros w2 Hi; by eapply idle_Inv|]. intros now w2 Hi.
  pose proof (session_idle _ _ _ _ Hs1 Hi) as [Hu2 A2 B2 C2 D2]. cbn [wp].
  intros s' [= <-]. split; [done|]. split; cbn [ss_id ss_entries ss_segments ss_roots]; [done|done| | |].
  - apply Forall2_app; [done|]. constructor; [|constructor].
    assert (H0 : (0 <= slen (join "" chs))%Z) by (unfold slen; lia).
    split; cbn [e_Path e_Type e_Size e_MTimeUnixNS e_Mode e_SegmentOffset e_Digest e_SegmentID fst snd];
      [reflexivity|exact Hp|reflexivity|reflexivity| |reflexivity|reflexivity|reflexivity|apply segment_id_valid|].
    + split; [unfold in_int64, min_int64, max_int64; lia|apply int64_range].
    + destruct Hi as (_ & E2 & _). rewrite E2. exact Hl.
  - by rewrite C2, map_app.
  - by rewrite D2, map_app.
Qed.

Lemma AddFile_wp name r s parts w : session_ok s parts w -> (slen (join "" (chunks r)) < 2^63)%Z ->
  wp Inv (AddFile cfg name r s) (fun (res : ecode + SimpleSession) (w1 : world) => forall s', res = inr s' ->
    ss_id s' = ss_id s /\ session_ok s' (parts ++ [(sanitizeUploadName name, join "" (chunks r))]) w1) w.
Proof.
  intros Hs Hlen. unfold AddFile. set (clean := sanitizeUploadName name).
  destruct (clean =? "")%string; [done|]. destruct (ValidateComponent clean) eqn:Ev; [done|].
  apply ValidateComponent_plain in Ev. case_match; [|done]. case_match; [|done].
  rewrite payload_join by (try done; apply (so_id _ _ _ Hs)).
  set (target := [PayloadDir; clean]). set (t0 := tree_of (staging w) (ss_id s)).
  apply wp_orE. eapply (wp_in_staging (ss_id s) _ _ (fun _ => True) (fun (r : oserr + unit) t' => others target t0 t' /\
    (r = inr tt -> look t0 target = None /\ look t' target = Some (CFile "")))).
  { apply wp_act. intros x t' [E|(f & n & [= <-] & [= <- <-])]; [|done]. split; [done|].
    apply create_look in E as (H1 & H2 & H3 & _). split; [done|]. intros ->. split; [by apply H3|by apply H2; [apply H3|]]. }
  { intros w1 Hs1 _. by apply (unpub_staged _ w w1 (so_unpub _ _ _ Hs)). }
  intros x w1 Hs1 [Ho Hx]. destruct x as [e|[]]; [done|]. destruct (Hx eq_refl) as [Hn Hd].
  assert (Hf1 : session_frame (ss_id s) target t0 w1) by (split; [by apply (unpub_staged _ w w1 (so_unpub _ _ _ Hs))|done]).
  apply wp_bindE. eapply wp_wand; [apply (add_loop_wp _ _ _ _ _ t0 ""); [done|done|change (slen "") with 0%Z; lia]|].
  intros [e|[wr si]] w2 [Hf2 Hr]; [done|]. destruct (Hr _ _ eq_refl) as [Hl2 Hwr]. cbn [append] in Hl2, Hwr.
  assert (Hok2 : session_ok s parts w2) by (eapply session_frame_ok; [exact Hs|exact Hn|done]).
  apply wp_orE, (wp_within idle); [apply idle_sync|intros w3 Hi; by eapply idle_Inv; [|apply Hf2]|].
  intros [e|[]] w3 Hi3; [done|].
  apply wp_orE, (wp_within idle); [apply idle_sync|intros w4 Hi; eapply idle_Inv; [|apply Hf2]; by etrans|].
  intros [e|[]] w4 Hi4; [done|]. assert (Hi : idle w2 w4) by (by etrans).
  apply record_part_wp; [by eapply session_idle|done|done|done|].
  destruct Hi as (_ & E2 & _). by rewrite E2.
Qed.

(** *** Committing a session *)

Lemma payload_path_plain p : plain p = true -> payload_path p = [PayloadDir; p].
Proof. intros Hp. unfold payload_path. apply plain_spec in Hp as (_ & _ & _ & Hp). by rewrite split_no_sep. Qed.

Lemma parts_member s parts w e : session_ok s parts w -> e ∈ ss_entries s ->
  exists part, simple_entry (tree_of (staging w) (ss_id s)) e part.
Proof.
  intros [_ _ B _ _] He. apply list_elem_of_lookup in He as [i Hi].
  destruct (Forall2_lookup_l _ _ _ _ _ B Hi) as (part & _ & Hp). eauto.
Qed.

Lemma session_held now s parts w : session_ok s parts w ->
  manifest_held (tree_of (staging w) (ss_id s)) (session_manifest now s).
Proof.
  intros Hs. split; cbn [session_manifest Entries Segments].
  - apply Forall_forall. intros e He. destruct (parts_member _ _ _ _ Hs He) as [part [A B C D _ _ _ H _ K]].
    split; [unfold is_dir; by rewrite C|]. intros _. exists (snd part). rewrite payload_path_plain by done. by split_and!.
  - rewrite (so_segments _ _ _ Hs). apply Forall_map, Forall_forall. intros e He.
    destruct (parts_member _ _ _ _ Hs He) as [part [A B C D _ _ _ H [_ I] K]].
    unfold segment_held. cbn [raw_segment seg_ID seg_StoragePath seg_WireSize seg_Digest]. split; [done|].
    assert (Hsp : split "/" (PayloadDir ++ "/" ++ e_Path e)%string = [PayloadDir; e_Path e]).
    { rewrite split_slash by done. by rewrite <- (payload_path_plain _ B). }
    rewrite Hsp. split_and!; [by repeat constructor|cbn; lia|]. by exists (snd part).
Qed.

Lemma digest_valid d : valid_utf8 (HashBytes d) = true.
Proof. apply lower_hex_valid, EncodeToString_lower, blake3_bytes. Qed.

Lemma session_json now s parts w : session_ok s parts w -> Manifest.Validate (session_manifest now s) = None ->
  json_ok (session_manifest now s).
Proof.
  intros Hs Hv. apply Validate_spec in Hv as (_ & _ & _ & _ & _ & Hnote & _ & _ & _ & _ & _ & _ & _ & Hents & _).
  rewrite Forall_forall in Hents.
  assert (Hpath : forall e, e ∈ ss_entries s -> valid_utf8 (e_Path e) = true).
  { intros e He. destruct (Hents e He) as (Hp & _). unfold ValidatePortablePath in Hp.
    destruct (valid_utf8 (e_Path e)); [done|]. cbn [negb] in Hp. by repeat case_match. }
  unfold json_ok. cbn [session_manifest SchemaVersion TransferID Note Roots m_DigestAlgorithm Segments Entries].
  conjs; [by vm_compute|apply (so_id _ _ _ Hs)|done| |done| |].
  - rewrite (so_roots _ _ _ Hs). by apply Forall_map, Forall_forall.
  - rewrite (so_segments _ _ _ Hs). apply Forall_map, Forall_forall. intros e He.
    destruct (parts_member _ _ _ _ Hs He) as [part [A B C D [E _] _ _ H [I _] _]].
    cbn [raw_segment seg_ID seg_Kind seg_WireSize seg_Digest seg_StoragePath]. rewrite H.
    conjs; [done|done|exact E|apply digest_valid|]. rewrite !valid_utf8_prefix by done. by apply Hpath.
  - apply Forall_forall. intros e He. destruct (parts_member _ _ _ _ Hs He) as [part [A B C D [E1 E2] F G H [I _] _]].
    rewrite C, F, G, H. conjs; [by apply Hpath|done|exact E1|exact E2|done|by vm_compute|apply digest_valid|done|by vm_compute].
Qed.

(** A live directory that holds every part under its name. *)
Definition holds_parts (parts : list (string * string)) (t : tree) : Prop :=
  Forall (fun p => look t [PayloadDir; fst p] = Some (CFile (snd p))) parts.

Lemma session_Commit_wp s parts w : session_ok s parts w ->
  wp Inv (session_Commit s) (fun (r : ecode + CommitResponse) (w1 : world) => forall resp, r = inr resp ->
    answered w1 (ss_id s) (ss_ttlMinutes s) resp /\ exists m, Entries m = ss_entries s /\
      live_sealed (holds_parts parts) w1 (ss_id s) m) w.
Proof.
  intros Hs. unfold session_Commit. case_match; [|done].
  apply wp_bind, (wp_within idle); [apply idle_Now|intros w1 Hi; by eapply idle_Inv; [|apply Hs]|].
  intros now w1 Hi. pose proof (session_idle _ _ _ _ Hs Hi) as Hs1.
  destruct (Manifest.Validate (session_manifest now s)) eqn:Hv; [done|].
  eapply wp_wand; [apply (publish_wp (holds_parts parts))|].
  - intros t t' Hf. intros Hp. eapply Forall_impl; [exact Hp|]. intros p Hl. cbn beta in *. rewrite Hf; [done|]. unfold deep. cbn. lia.
  - apply Hs1.
  - apply Hs1.
  - by eapply session_held.
  - apply Forall_forall. intros p Hp. apply list_elem_of_lookup in Hp as [i Hi'].
    destruct (Forall2_lookup_r _ _ _ _ _ (so_entries _ _ _ Hs1) Hi') as (e & _ & He).
    rewrite <- (se_path _ _ _ He). apply He.
  - by eapply session_json.
  - done.
  - cbn. intros r w2 Hr resp Hresp. destruct (Hr resp Hresp). split; [done|]. by exists (session_manifest now s).
Qed.

(** *** A whole request *)

Lemma wp_unpub {A B : Type} id (p : prog world A) (f : A -> prog world B) (Q : B -> world -> Prop) w :
  stable (unpub id) p -> unpub id w -> (forall a w1, unpub id w1 -> wp Inv (f a) Q w1) -> wp Inv (bind p f) Q w.
Proof.
  intros Hp Hw Hf. apply wp_bind. eapply wp_mono; [| |by apply wp_inv, Hp].
  - by intros w1 [].
  - intros a w1 [Hw1 _]. by apply Hf.
Qed.

Lemma transfer_id_valid w n k : valid_utf8 ("t-" ++ EncodeToString (bytes_at w n k))%string = true.
Proof. rewrite valid_utf8_prefix by done. apply lower_hex_valid, EncodeToString_lower, bytes_at_range. Qed.

#[local] Hint Resolve stable_in_staging stable_still : stable.

Lemma BeginSimple_wp w : Inv w -> fresh_next w ->
  wp Inv (BeginSimple cfg) (fun (r : ecode + SimpleSession) (w1 : world) => forall s, r = inr s -> session_ok s [] w1) w.
Proof.
  intros Hw Hf. unfold BeginSimple. apply wp_idle; [done|apply idle_CheckStreaming|]. intros [e|] w1 Hw1 Hi; [done|].
  destruct (idle_fresh _ _ Hi) as [_ Hfr]. destruct (Hfr Hf) as [Hf1 Hf2].
  unfold ids_Transfer, New. apply wp_bind, wp_rand_keeps; [done|]. intros Hw2 _. cbn [wp]. fold (next_id w1).
  destruct (next_id_plain w1) as [P1 P2].
  assert (Hu : unpub (next_id w1) (set_rpos (rpos w1 + 16) w1)) by done.
  assert (Hval : valid_utf8 (next_id w1) = true) by apply transfer_id_valid.
  revert P1 P2 Hu Hval. generalize (set_rpos (rpos w1 + 16) w1). generalize (next_id w1). intros id w2 P1 P2 Hu Hval.
  unfold orE. apply (wp_unpub id); [apply stable_in_staging|done|]. intros [e|[]] w3 Hw3; [done|].
  apply (wp_unpub id); [apply stable_still, within_idle_still, idle_Now|done|]. intros now w4 Hw4.
  apply (wp_unpub id); [by apply stable_new_transfer|done|]. intros [e|[]] w5 Hw5.
  - apply (wp_unpub id); [apply stable_still, still_RemoveStaging|done|]. done.
  - cbn. intros s [= <-]. by split.
Qed.

Definition received (ps : list part) : list (string * string) :=
  omap (fun p => match p with
                 | PartFile name r => Some (sanitizeUploadName name, join "" (chunks r))
                 | _ => None
                 end) ps.
Definition bounded_part (p : part) : Prop :=
  match p with PartFile _ r => (slen (join "" (chunks r)) < 2^63)%Z | _ => True end.

Lemma do_part_wp s got p w : session_ok s got w -> bounded_part p ->
  wp Inv (do_part cfg s p) (fun (r : ecode + SimpleSession) (w1 : world) => forall s', r = inr s' ->
    session_ok s' (got ++ received [p]) w1) w.
Proof.
  intros Hs Hb. destruct p as [name r|note|m|e]; cbn [do_part received omap list_omap]; rewrite ?app_nil_r.
  - eapply wp_wand; [by apply AddFile_wp|]. intros x w1 Hx s' E. by apply Hx.
  - cbn. unfold SetNote. destruct (CheckNote cfg note); [done|]. intros s' [= <-]. by destruct Hs.
  - cbn. unfold SetTTL. destruct (ResolveTTL cfg m); [done|]. intros s' [= <-]. by destruct Hs.
  - done.
Qed.

Lemma parts_wp s ps w : session_ok s [] w -> Forall bounded_part ps ->
  wp Inv (loop (do_part cfg) s ps) (fun (r : ecode + SimpleSession) (w1 : world) => forall s', r = inr s' ->
    session_ok s' (received ps) w1) w.
Proof.
  intros Hs Hb. apply (wp_loop _ _ (fun l s' w' => exists done, ps = (done ++ l)%list /\ session_ok s' (received done) w')).
  - by exists [].
  - intros s' w' (done & -> & Hs'). rewrite app_nil_r. by intros s2 [= <-].
  - intros p l s' w' (done & Hps & Hs'). eapply wp_wand; [apply do_part_wp; [done|]|].
    + rewrite Hps in Hb. apply Forall_app in Hb as [_ Hb]. by inversion Hb.
    + intros [e|s2] w2 Hs2; [done|]. exists (done ++ [p])%list. rewrite <- app_assoc. split; [done|].
      unfold received in *. rewrite omap_app. by apply Hs2.
Qed.

Lemma stable_Abort s : stable Inv (session_Abort s).
Proof. unfold session_Abort. stable_solve. Qed.

Lemma request_entries (t : tree) es parts : Forall2 (simple_entry t) es parts ->
  map (fun e => (e_Path e, e_Size e, e_Digest e)) es = map (fun p => (fst p, slen (snd p), HashBytes (snd p))) parts.
Proof. induction 1 as [|e p es ps He _ IH]; cbn; [done|]. by rewrite IH, (se_path _ _ _ He), (se_size _ _ _ He), (se_digest _ _ _ He). Qed.

Lemma simple_session_wp forget ps w : within still forget -> Inv w -> fresh_next w -> Forall bounded_part ps ->
  wp Inv (simple_session cfg forget ps) (fun (r : ecode + string * CommitResponse) (w1 : world) =>
    forall id resp, r = inr (id, resp) ->
    exists ttl m, answered w1 id ttl resp /\ live_sealed (holds_parts (received ps)) w1 id m /\
      map (fun e => (e_Path e, e_Size e, e_Digest e)) (Entries m) =
      map (fun p => (fst p, slen (snd p), HashBytes (snd p))) (received ps)) w.
Proof.
  intros Hforget Hw Hf Hb. assert (Hfail : forall s e (Q : ecode + string * CommitResponse -> world -> Prop) w1, Inv w1 ->
      (forall w2, Q (inl e) w2) -> wp Inv (forget ;;; session_Abort s ;;; Ret (inl e)) Q w1).
  { intros s e Q w1 Hw1 HQ. eapply wp_calm; [done|by apply within_still_calm|]. intros [] w2 Hw2 _.
    apply wp_bind. eapply wp_wand; [by apply stable_Abort|]. intros a w3 _. apply HQ. }
  unfold simple_session. apply wp_bind. eapply wp_wand; [apply wp_inv; [done|by apply BeginSimple_wp]|].
  intros [e|s] w1 [Hw1 Hs].
  { eapply wp_calm; [done|by apply within_still_calm|]. done. }
  specialize (Hs s eq_refl). apply wp_bind.
  eapply wp_wand; [apply wp_inv; [done|by apply parts_wp]|]. intros [e|s'] w2 [Hw2 Hs2]; [by apply Hfail|].
  specialize (Hs2 s' eq_refl). apply wp_bind. eapply wp_wand; [apply wp_inv; [done|by apply session_Commit_wp]|].
  intros [e|resp] w3 [Hw3 Hr]; [by apply Hfail|].
  cbn. intros id resp' [= <- <-]. destruct (Hr resp eq_refl) as (Ha & m & He & Hl).
  exists (ss_ttlMinutes s'), m. split_and!; [done|done|]. rewrite He.
  eapply request_entries, (so_entries _ _ _ Hs2).
Qed.
End simple_proofs.
