(* ===== verification/JanitorProofs.v ===== *)
(** * Cleanup and reconciliation keep the invariant, and what cleanup spares *)
From S2P Require Import Prelude GoStrings GoTime Errors Code Paths Manifest Wire Prog Tree Integrity.
From S2P Require Import Materialize Store Config World Service Commit Janitor Safety ServiceProofs.
From S2P Require Import CommitProofs.
Local Open Scope prog_scope.

Section janitor_proofs.
Context {ST : Strictness} {UC : Unicode} {EX : Externals} {MC : ManifestCodec}.
Context (cfg : Server).

(** ** Moving a transfer's directories away *)

(** Calls that touch the trash directory only. *)
Definition trash_only (w w' : world) : Prop :=
  db w' = db w /\ staging w' = staging w /\ live w' = live w /\ cache w' = cache w /\ clock w' = clock w.
#[export] Instance trash_only_preorder : PreOrder trash_only.
Proof. split; [done|]. unfold trash_only. intros w1 w2 w3. intuition congruence. Qed.

Lemma trash_stat area id : within trash_only (stat_dir area id).
Proof. apply within_act; [done|]. by intros f n w [= <-]. Qed.
Lemma trash_list area : within trash_only (list_dir area).
Proof. apply within_act; [done|]. by intros f n w [= <-]. Qed.
Lemma trash_remove_all id : within trash_only (remove_all trash set_trash id).
Proof.
  unfold remove_all. apply within_bind; [apply _|apply trash_stat|]. intros e.
  assert (G : within trash_only (_ <-? act (fun w => (inr tt : oserr + unit, set_trash (put_tree id (MakeTreeWritable (tree_of (trash w) id)) (trash w)) w))
              (Some (fun _ w => (inl ErrOther, w))) ;;
    act (fun w => (inr tt, set_trash (delete id (trash w)) w))
        (Some (fun n w => (inl ErrOther,
           set_trash (put_tree id (list_to_map (take n (map_to_list (tree_of (trash w) id)))) (trash w)) w))))).
  { within_solve; (apply within_act; [done|]; by intros f n w [= <-]). }
  case_match; [case_match|]; try exact G. apply within_ret; apply _.
Qed.
#[local] Hint Resolve trash_stat trash_list trash_remove_all : within.
Lemma trash_EmptyTrash : within trash_only EmptyTrash.
Proof. unfold EmptyTrash. within_solve. Qed.

Lemma trash_only_still w w' : trash_only w w' -> still w w'.
Proof. intros (E1 & E2 & E3 & E4 & _). split; [done|]. by apply Inv_same. Qed.

(** A transfer whose directories may go: its row does not promise them, no manifest of it
    is cached. *)
Record doomed (id : string) (w : world) : Prop := {
  dm_inv : Inv w; dm_cache : cache_items (cache w) !! id = None;
  dm_row : strict -> forall r, transfers (db w) !! id = Some r -> c_state r <> StateCommitted }.

Lemma doomed_trash id w w' : trash_only w w' -> doomed id w -> doomed id w'.
Proof.
  intros Ht [Hi Hc Hr]. pose proof (trash_only_still _ _ Ht) as [_ HI]. destruct Ht as (E1 & _ & _ & E4 & _).
  split; [auto|by rewrite E4|by rewrite E1].
Qed.

Lemma doomed_drop_live id w : doomed id w -> doomed id (set_live (delete id (live w)) w).
Proof.
  intros [[H1 H2 H2s H3 H4 H5 H6] Hc Hr]. split; [split; cbn; try done|done|done].
  - intros j t [_ Hj]%lookup_delete_Some. by apply (H3 j).
  - intros Hst j r Hj Hs. destruct (decide (j = id)) as [->|Hne]; [by destruct (Hr Hst r Hj)|].
    rewrite lookup_delete_ne by done. by eapply H4.
  - intros j m Hj. destruct (H5 j m Hj) as (t & Ht & Hm). exists t. rewrite lookup_delete_ne by congruence. done.
  - intros j t [_ Hj]%lookup_delete_Some. by apply (H6 j t).
Qed.

Lemma doomed_drop_staging id w : doomed id w -> doomed id (set_staging (delete id (staging w)) w).
Proof.
  intros [Hi Hc Hr]. split; [|done|done]. apply Inv_set_staging; [done|]. intros j Hn.
  destruct (decide (j = id)) as [->|Hj]; unfold tree_of; [|by rewrite lookup_delete_ne].
  rewrite lookup_delete_eq. intros s d. unfold look. cbn [default]. by rewrite lookup_empty.
Qed.

Lemma doomed_set_trash id w a : doomed id w -> doomed id (set_trash a w).
Proof. by apply doomed_trash. Qed.

Lemma stable_trash id {A : Type} (p : prog world A) : within trash_only p -> stable (doomed id) p.
Proof.
  intros Hp w Hw. apply (wp_within trash_only); [done| |]; intros; by eapply doomed_trash.
Qed.

Lemma stable_rename (area : world -> gmap string tree) (set : gmap string tree -> world -> world) id :
  (forall w, doomed id w -> doomed id (set (delete id (area w)) w)) ->
  stable (doomed id) (act (rename_to_trash area set id) (Some (fun _ w => (inl ErrOther, w)))).
Proof.
  intros Hset w Hw. apply wp_act. intros r w' [E|(f & n & [= <-] & [= <- <-])]; [|done].
  unfold rename_to_trash in E. destruct (exists_dir _ _); cbn [negb] in E; [|by injection E as <- <-].
  destruct (can_replace _); cbn [negb] in E; injection E as <- <-; [|done].
  split; apply doomed_set_trash, Hset, Hw.
Qed.

Lemma stable_trash_one area set id :
  (forall w, doomed id w -> doomed id (set (delete id (area w)) w)) ->
  stable (doomed id) (trash_one area set id).
Proof.
  intros Hset. unfold trash_one. pose proof (stable_rename area set id Hset) as Hren.
  apply stable_bind; [apply stable_trash, trash_stat|]. intros [e|[]]; [apply stable_ret|].
  apply stable_bind; [apply stable_trash, trash_stat|]. intros dst.
  apply stable_bindE; [|done]. destruct dst; [apply stable_ret|apply stable_trash, trash_remove_all].
Qed.

Lemma stable_ToTrash id : stable (doomed id) (ToTrash id).
Proof.
  unfold ToTrash. apply stable_bindE; [apply stable_trash_one, doomed_drop_live|]. intros _.
  apply stable_trash_one, doomed_drop_staging.
Qed.

Lemma wp_doomed {A B : Type} id (p : prog world A) (f : A -> prog world B) (Q : B -> world -> Prop) w :
  stable (doomed id) p -> doomed id w -> (forall a w1, doomed id w1 -> wp Inv (f a) Q w1) -> wp Inv (bind p f) Q w.
Proof.
  intros Hp Hw Hf. apply wp_bind. eapply wp_mono; [| |by apply wp_inv, Hp].
  - by intros w1 [].
  - intros a w1 [Hw1 _]. by apply Hf.
Qed.

(** ** Sweep *)

Lemma stable_delete_one n t : stable Inv (delete_one n t).
Proof.
  intros w Hw. unfold delete_one. set (id := t_ID t).
  assert (HI : Inv (set_db (snd (SetState id StateDeleting (db w))) w)) by (apply safe_SetState; [done|by intros [|]|done]).
  apply wp_bind, (wp_tx Inv (SetState id StateDeleting)); [done|done|done|done|]. cbn [fst SetState].
  apply wp_bind, wp_act. intros [] w1 [[= <-]|(? & ? & [=] & _)].
  assert (Hd : doomed id (set_cache (cache_drop id (cache w)) (set_db (snd (SetState id StateDeleting (db w))) w))).
  { split; [exact (Inv_cache_drop id _ HI)|cbn; by rewrite lookup_delete_eq|]. intros _ r. cbn. rewrite lookup_alter_eq.
    by intros (r0 & _ & ->)%fmap_Some. }
  split; [apply Hd|]. apply (wp_doomed id); [apply stable_ToTrash|exact Hd|].
  intros [e|[]] w1 Hw1; [apply Hw1|]. apply wp_bind.
  apply (wp_within still); [apply still_tx, safe_Purge|intros w2 [_ H2]; apply H2, Hw1|].
  intros a w2 [_ H2]. apply H2, Hw1.
Qed.

Lemma stable_abandon n t : stable Inv (abandon n t).
Proof.
  unfold abandon. apply stable_bind; [|intros ?; apply stable_ret].
  apply stable_keeps, within_calm_keeps, within_still_calm, still_tx, safe_SetState; [done|by intros [|]].
Qed.

Lemma stable_trash_Inv {A : Type} (p : prog world A) : within trash_only p -> stable Inv p.
Proof.
  intros Hp. apply stable_keeps, within_calm_keeps, within_still_calm. eapply within_mono; [|exact Hp].
  apply trash_only_still.
Qed.

#[local] Hint Resolve stable_delete_one stable_abandon : stable.
Lemma stable_Sweep : stable Inv (Sweep cfg).
Proof.
  unfold Sweep. pose proof (stable_trash_Inv EmptyTrash trash_EmptyTrash) as HE. stable_solve.
Qed.

(** ** Startup reconciliation *)

(** A process that just started: nothing cached. *)
Record startup (w : world) : Prop := { su_inv : Inv w; su_cache : cache_items (cache w) = ∅ }.

(** Calls that cache nothing. *)
Definition uncached (w w' : world) : Prop := cache_items (cache w) = ∅ -> cache_items (cache w') = ∅.
#[export] Instance uncached_preorder : PreOrder uncached.
Proof. split; [intros w H; exact H|]. unfold uncached. auto. Qed.

Lemma uncached_eq w w' : cache w' = cache w -> uncached w w'.
Proof. unfold uncached. by intros ->. Qed.

Lemma startup_stable {A : Type} (p : prog world A) : stable Inv p -> within uncached p -> stable startup p.
Proof.
  intros Hp Hu w [Hw Hc]. eapply wp_mono; [| |apply (wp_and Inv (uncached w)); [by apply Hp|by apply Hu]].
  - intros w1 [Hi H1]. split; [exact Hi|exact (H1 Hc)].
  - intros a w1 [Hi H1]. split; [exact Hi|exact (H1 Hc)].
Qed.

Lemma uncached_tx {A : Type} (f : txn A) : within uncached (tx f).
Proof.
  assert (G : forall w, uncached w (snd (tx_step f w))) by (intros w; apply uncached_eq; unfold tx_step; by destruct (f (db w))).
  apply within_act; [exact G|]. intros g n w [= <-]. destruct n; [by apply uncached_eq|apply G].
Qed.
Lemma uncached_idle {A : Type} (p : prog world A) : within idle p -> within uncached p.
Proof. apply within_mono. intros w w' (_ & _ & _ & E & _). by apply uncached_eq. Qed.
Lemma uncached_in_live {A : Type} id (p : prog tree A) : within uncached (in_live id p).
Proof. apply within_lift; [apply _|]. intros t w. by apply uncached_eq. Qed.
Lemma uncached_in_staging {A : Type} id (p : prog tree A) : within uncached (in_staging id p).
Proof. apply within_lift; [apply _|]. intros t w. by apply uncached_eq. Qed.
Lemma uncached_Invalidate id : within uncached (InvalidateManifest id).
Proof. apply within_act; [|done]. intros w E. cbn in *. by rewrite E, delete_empty. Qed.
Lemma uncached_store_Publish id now ttl dg b : within uncached (store_Publish id now ttl dg b).
Proof.
  assert (G : forall w, uncached w (snd (Publish_step id now ttl dg b w))).
  { intros w. apply uncached_eq. unfold Publish_step, tx_step. by destruct (Publish _ _ _ _ _ _ _). }
  apply within_act; [exact G|]. intros g n w [= <-]. destruct n; [by apply uncached_eq|apply G].
Qed.
Lemma uncached_trash {A : Type} (p : prog world A) : within trash_only p -> within uncached p.
Proof. apply within_mono. intros w w' (_ & _ & _ & E & _). by apply uncached_eq. Qed.
Lemma uncached_trash_one area set id : (forall a w, cache (set a w) = cache w) -> within uncached (trash_one area set id).
Proof.
  intros Hset. unfold trash_one. assert (Hr : within uncached (act (rename_to_trash area set id) (Some (fun _ w => (inl ErrOther : oserr + unit, w))))).
  { apply within_act; [|intros f n w [= <-]; by apply uncached_eq]. intros w. apply uncached_eq. unfold rename_to_trash.
    destruct (negb _); [done|]. destruct (negb _); [done|]. apply Hset. }
  pose proof (uncached_trash _ (trash_stat area id)) as H1. pose proof (uncached_trash _ (trash_stat trash id)) as H2.
  pose proof (uncached_trash _ (trash_remove_all id)) as H3. within_solve.
Qed.
Lemma uncached_ToTrash id : within uncached (ToTrash id).
Proof. unfold ToTrash. pose proof uncached_trash_one. within_solve. Qed.
Lemma uncached_RemoveStaging id : within uncached (RemoveStaging id).
Proof.
  unfold RemoveStaging, remove_all. apply within_bind; [apply _|apply uncached_trash, trash_stat|]. intros e.
  assert (G : within uncached (_ <-? act (fun w => (inr tt : oserr + unit, set_staging (put_tree id (MakeTreeWritable (tree_of (staging w) id)) (staging w)) w))
              (Some (fun _ w => (inl ErrOther, w))) ;;
    act (fun w => (inr tt, set_staging (delete id (staging w)) w))
        (Some (fun n w => (inl ErrOther,
           set_staging (put_tree id (list_to_map (take n (map_to_list (tree_of (staging w) id)))) (staging w)) w))))).
  { within_solve; (apply within_act; [intros w; by apply uncached_eq|]; intros f n w [= <-]; by apply uncached_eq). }
  case_match; [case_match|]; try exact G. apply within_ret; apply _.
Qed.
#[local] Hint Resolve uncached_tx uncached_idle uncached_in_live uncached_in_staging uncached_Invalidate
  uncached_store_Publish uncached_ToTrash uncached_RemoveStaging : within.

Lemma completeInterrupted_wp t w : Inv w ->
  wp Inv (completeInterruptedPublish cfg t) (fun _ w1 => Inv w1) w.
Proof.
  intros Hw. unfold completeInterruptedPublish. apply wp_orE.
  apply (wp_in_live (t_ID t) ReadManifest Inv (fun r _ => forall m, r = inr m ->
        manifest_of (tree_of (live w) (t_ID t)) = Some m)).
  { eapply wp_wand; [by apply ReadManifest_wp|]. cbn. by intros r t' [_ Hr]. }
  { intros w1 Hl. by eapply Inv_live. }
  intros [e|m] w1 Hl Hr; [by eapply Inv_live|]. specialize (Hr m eq_refl).
  assert (Hlm : live_manifest w1 (t_ID t) m).
  { destruct (calm_live _ _ _ Hl Hw) as [Hw1 Hst]. apply (live_manifest_stays w); [done|].
    destruct (live w !! t_ID t) as [tr|] eqn:E.
    - rewrite (tree_of_Some _ _ _ E) in Hr. by eapply live_manifest_intro.
    - unfold tree_of in Hr. by rewrite E in Hr. }
  pose proof (Inv_live _ _ _ Hw Hl) as Hw1. clear Hl Hr Hw w.
  destruct (json_Marshal m); [|done]. unfold orE.
  apply wp_calm; [done|apply calm_in_live, quiet_SealPayload|]. intros [e|[]] w2 Hw2 Hs2; [done|].
  apply wp_calm; [done|apply within_still_calm, within_idle_still, idle_Now|]. intros now w3 Hw3 Hs3.
  apply wp_bind. eapply wp_store_Publish; [done|do 2 (eapply live_manifest_stays; [done|])|done|]; [exact Hlm|].
  intros t' w4 Hw4 _ _ _. done.
Qed.

Section lenient.
Context (Hlenient : ~ strict).

Lemma startup_ToTrash id : stable startup (ToTrash id).
Proof.
  intros w [Hw Hc]. assert (Hd : doomed id w) by (split; [done|by rewrite Hc|by intros ?%Hlenient]).
  eapply wp_mono; [| |apply (wp_and (doomed id) (uncached w)); [by apply stable_ToTrash|by apply uncached_ToTrash]].
  - intros w1 [[Hi _ _] H1]. split; [exact Hi|exact (H1 Hc)].
  - intros a w1 [[Hi _ _] H1]. split; [exact Hi|exact (H1 Hc)].
Qed.
Lemma startup_still {A : Type} (p : prog world A) : within still p -> within uncached p -> stable startup p.
Proof. intros Hp. apply startup_stable, stable_keeps, within_calm_keeps, within_still_calm, Hp. Qed.
Lemma startup_idle {A : Type} (p : prog world A) : within idle p -> stable startup p.
Proof. intros Hp. apply startup_still; auto with within. Qed.
Lemma startup_tx {A : Type} (f : txn A) : safe_txn f -> stable startup (tx f).
Proof. intros Hf. apply startup_still; auto with within. Qed.
Lemma startup_in_live {A : Type} id (p : prog tree A) : quiet p -> stable startup (in_live id p).
Proof. intros Hp. apply startup_stable; [apply stable_keeps, within_calm_keeps, calm_in_live, Hp|auto with within]. Qed.
Lemma startup_trash {A : Type} (p : prog world A) : within trash_only p -> stable startup p.
Proof. intros Hp. apply startup_stable; [by apply stable_trash_Inv|by apply uncached_trash]. Qed.
Lemma startup_Invalidate id : stable startup (InvalidateManifest id).
Proof. apply startup_stable; [apply stable_cache_drop|apply uncached_Invalidate]. Qed.
Lemma startup_RemoveStaging id : stable startup (RemoveStaging id).
Proof. apply startup_still; [apply still_RemoveStaging|apply uncached_RemoveStaging]. Qed.
Lemma uncached_complete t : within uncached (completeInterruptedPublish cfg t).
Proof. unfold completeInterruptedPublish. pose proof idle_Now. within_solve. Qed.
Lemma startup_complete t : stable startup (completeInterruptedPublish cfg t).
Proof.
  apply startup_stable; [|apply uncached_complete]. intros w Hw. by apply completeInterrupted_wp.
Qed.

Lemma quiet_live_valid root : quiet (live_valid root).
Proof. unfold live_valid, entry_usable. within_solve. Qed.

#[local] Hint Resolve startup_ToTrash startup_idle startup_tx startup_in_live startup_trash startup_Invalidate
  startup_RemoveStaging startup_complete : stable.
#[local] Hint Resolve quiet_live_valid idle_list_dir trash_EmptyTrash : within.

Lemma startup_livePayloadValid id : stable startup (livePayloadValid cfg id).
Proof. apply startup_in_live, quiet_live_valid. Qed.
Lemma startup_in_staging_ReadManifest id : stable startup (in_staging id ReadManifest).
Proof.
  apply startup_stable; [|apply uncached_in_staging]. intros w Hw.
  apply (wp_in_staging id _ _ (same (tree_of (staging w) id)) (fun _ => same (tree_of (staging w) id))).
  - apply (wp_within same); [apply quiet_ReadManifest|done|done].
  - intros w1 Hs Hsame. apply (Inv_checked id w w1 Hw). split; [done|]. by apply fixes_same.
  - intros a w1 Hs Hsame. apply (Inv_checked id w w1 Hw). split; [done|]. by apply fixes_same.
Qed.
Lemma startup_stagingExists id : stable startup (stagingExists id).
Proof. unfold stagingExists, ListStagingIDs. stable_solve. Qed.
Lemma startup_range {A : Type} (f : world -> list A) : stable startup (range_map f).
Proof.
  apply startup_still; (apply within_act; [|done]); intros w.
  - apply still_intro; [done|]. by apply Inv_same.
  - by apply uncached_eq.
Qed.
#[local] Hint Resolve startup_livePayloadValid startup_in_staging_ReadManifest startup_stagingExists startup_range : stable.

Lemma startup_one rep p : stable startup (reconcile_one cfg rep p).
Proof.
  destruct p as [id []]; cbn [reconcile_one]; unfold reconcile_committed, reconcile_precommit; stable_solve.
Qed.
#[local] Hint Resolve startup_one : stable.

Lemma startup_reconcile : stable startup (reconcile_Run cfg).
Proof. unfold reconcile_Run, orphan_live, orphan_staging, ListLiveIDs, ListStagingIDs. stable_solve. Qed.
End lenient.
End janitor_proofs.

(** ** What a cleanup pass spares *)

Section spares.
Context {UC : Unicode} {EX : Externals} {MC : ManifestCodec}.
Context (cfg : Server) (id : string) (now : Z).

(** A claim that still holds its lease pins its transfer. *)
Definition pinned (d : DB) : Prop :=
  is_Some (transfers d !! id) /\ exists k c, claims d !! k = Some c /\ c_transfer_id c = id /\ active now c = true.
(** A COMMITTED row whose instant has not come. *)
Definition unexpired (r : trow) (d : DB) : Prop :=
  transfers d !! id = Some r /\ c_state r = StateCommitted /\ due now r = false.

(** Either reason, as the sweep sees it: what keeps it true, and that it keeps the
    transfer out of the deletion list. *)
Record kept (G : DB -> Prop) : Prop := {
  kp_row d : G d -> is_Some (transfers d !! id);
  kp_expire d : G d -> G (snd (ExpireDue now d));
  kp_stale before d l t : G d -> StaleStaging before d = inr l -> t ∈ l ->
    forall d', G d' -> G (snd (SetState (t_ID t) StateAbandoned d'));
  kp_listed d l t : G d -> UnpinnedExpired now d = inr l -> t ∈ l -> t_ID t <> id;
  kp_other j s d : j <> id -> G d -> G (snd (SetState j s d));
  kp_purge j d : j <> id -> G d -> G (snd (Purge j d));
  kp_idem d : G d -> G (snd (PurgeExpiredIdempotency now d)) }.

Lemma selected f (d : DB) t : t ∈ select_transfers f d ->
  exists r, transfers d !! t_ID t = Some r /\ f (t_ID t) r = true.
Proof.
  unfold select_transfers. intros Ht. apply list_elem_of_fmap in Ht as ([j r] & -> & Hin).
  rewrite list_elem_of_In, filter_In, <- list_elem_of_In, elem_of_map_to_list in Hin. exists r. exact Hin.
Qed.

Lemma update_is_Some j f (d : DB) : is_Some (transfers d !! id) -> is_Some (transfers (update_transfer j f d) !! id).
Proof. rewrite update_transfer_lookup. destruct (decide _); [by rewrite fmap_is_Some|done]. Qed.

Lemma kept_pinned : kept pinned.
Proof.
  split; unfold pinned.
  - by intros d [].
  - intros d [Hr Hc]. split; [|done]. cbn. rewrite lookup_fmap. by apply fmap_is_Some.
  - intros before d l t _ _ _ d' [Hr Hc]. split; [by apply update_is_Some|done].
  - intros d l t [_ (k & c & Hk & Hid & Ha)] [= <-] Ht E. apply selected in Ht as (r & _ & Hf).
    apply andb_true_iff in Hf as [_ Hf]. apply bool_decide_eq_true in Hf.
    assert (Hin : (k, c) ∈ active_claims now (fun c => c_transfer_id c =? t_ID t)%string d).
    { unfold active_claims. rewrite list_elem_of_In, filter_In, <- list_elem_of_In, elem_of_map_to_list. split; [done|].
      cbn. by rewrite Hid, E, String.eqb_refl, Ha. }
    rewrite Hf in Hin. by apply elem_of_nil in Hin.
  - intros j s d _ [Hr Hc]. split; [by apply update_is_Some|done].
  - intros j d Hj [Hr (k & c & Hk & Hid & Ha)]. cbn. rewrite lookup_delete_ne by done. split; [done|].
    exists k, c. split; [|done]. apply map_lookup_filter_Some. cbn. split; [done|congruence].
  - done.
Qed.

Lemma kept_unexpired r : kept (unexpired r).
Proof.
  split; unfold unexpired.
  - intros d (Hr & _). by rewrite Hr.
  - intros d (Hr & Hs & Hd). split_and!; [|done|done]. cbn. by rewrite lookup_fmap, Hr; cbn; rewrite Hd.
  - intros before d l t (Hr & Hs & _) [= <-] Ht d' (Hr' & Hs' & Hd'). split_and!; [|done|done].
    apply selected in Ht as (r0 & Hr0 & Hf). cbn [SetState snd]. rewrite update_transfer_lookup, decide_False; [done|].
    intros E. rewrite E, Hr in Hr0. injection Hr0 as <-. by rewrite Hs in Hf.
  - intros d l t (Hr & Hs & _) [= <-] Ht E. apply selected in Ht as (r0 & Hr0 & Hf). rewrite E, Hr in Hr0.
    injection Hr0 as <-. by rewrite Hs in Hf.
  - intros j s d Hj (Hr & Hs & Hd). split_and!; [|done|done]. cbn [SetState snd]. by rewrite update_transfer_lookup, decide_False.
  - intros j d Hj (Hr & Hs & Hd). cbn. by rewrite lookup_delete_ne.
  - done.
Qed.

Context (G : DB -> Prop) (HG : kept G) (L : option tree).

(** The world while the sweep runs. *)
Record sparing (w : world) : Prop := { sp_clock : clock w = now; sp_live : live w !! id = L; sp_db : G (db w) }.

Lemma sparing_tx {A : Type} (f : txn A) : (forall d, G d -> G (snd (f d))) -> stable sparing (tx f).
Proof.
  intros Hf. assert (E : forall w, sparing w -> sparing (snd (tx_step f w))).
  { intros w [H1 H2 H3]. unfold tx_step. specialize (Hf _ H3). destruct (f (db w)). by split. }
  intros w Hw. apply wp_act. intros r w1 [Hr|(g & n & [= <-] & [= <- <-])].
  - pose proof (E w Hw) as H. rewrite Hr in H. done.
  - destruct n; [done|]. split; by apply E.
Qed.

Lemma sparing_trash {A : Type} (p : prog world A) : within trash_only p -> stable sparing p.
Proof.
  intros Hp w Hw. assert (H : forall w', trash_only w w' -> sparing w').
  { intros w' (E1 & _ & E3 & _ & E5). destruct Hw. split; congruence. }
  apply (wp_within trash_only); auto.
Qed.

(** Moving other directories. *)
Lemma sparing_rename area set j : (forall w, sparing w -> sparing (set (delete j (area w)) w)) ->
  stable sparing (act (rename_to_trash area set j) (Some (fun _ w => (inl ErrOther, w)))).
Proof.
  intros Hset w Hw. apply wp_act. intros r w' [E|(f & n & [= <-] & [= <- <-])]; [|done].
  unfold rename_to_trash in E. destruct (exists_dir _ _); cbn [negb] in E; [|by injection E as <- <-].
  destruct (can_replace _); cbn [negb] in E; injection E as <- <-; [|done].
  specialize (Hset w Hw). destruct Hset. by split; split.
Qed.

Lemma sparing_trash_one area set j : (forall w, sparing w -> sparing (set (delete j (area w)) w)) ->
  stable sparing (trash_one area set j).
Proof.
  intros Hset. unfold trash_one. pose proof (sparing_rename area set j Hset) as Hren.
  apply stable_bind; [apply sparing_trash, trash_stat|]. intros [e|[]]; [apply stable_ret|].
  apply stable_bind; [apply sparing_trash, trash_stat|]. intros dst.
  apply stable_bindE; [|done]. destruct dst; [apply stable_ret|apply sparing_trash, trash_remove_all].
Qed.

Lemma sparing_delete n t : t_ID t <> id -> stable sparing (delete_one n t).
Proof.
  intros Hne. unfold delete_one, ToTrash, InvalidateManifest.
  assert (Hlive : stable sparing (trash_one live set_live (t_ID t))).
  { apply sparing_trash_one. intros w [H1 H2 H3]. split; [done| |done]. cbn. by rewrite lookup_delete_ne. }
  assert (Hst : stable sparing (trash_one staging set_staging (t_ID t))).
  { apply sparing_trash_one. by intros w [H1 H2 H3]. }
  assert (Hinv : stable sparing (act_ (fun w => (tt, set_cache (cache_drop (t_ID t) (cache w)) w)))).
  { intros w [H1 H2 H3]. apply wp_act. by intros r w1 [[= <- <-]|(? & ? & [=] & _)]. }
  pose proof (sparing_tx (SetState (t_ID t) StateDeleting) (fun d => kp_other G HG (t_ID t) StateDeleting d Hne)) as H1.
  pose proof (sparing_tx (Purge (t_ID t)) (fun d => kp_purge G HG (t_ID t) d Hne)) as H2.
  stable_solve.
Qed.

Lemma sparing_abandon n t : (forall d, G d -> G (snd (SetState (t_ID t) StateAbandoned d))) -> stable sparing (abandon n t).
Proof. intros Ht. unfold abandon. pose proof (sparing_tx _ Ht). stable_solve. Qed.

Lemma permutations_in {A : Type} (l l' : list A) k x : permutations l !! k = Some l' -> x ∈ l' -> x ∈ l.
Proof.
  intros Hk Hx. apply list_elem_of_lookup_2 in Hk. apply permutations_Permutation in Hk. by rewrite Hk.
Qed.

(** A list query: only rows it selects are returned, in some order. *)
Lemma wp_ask_rows {A B : Type} (q : query (list A)) (f : serr + list A -> prog world B) (Q : B -> world -> Prop) w :
  sparing w -> (forall e, wp sparing (f (inl e)) Q w) ->
  (forall l, (forall x, x ∈ l -> exists l0, q (db w) = inr l0 /\ x ∈ l0) -> wp sparing (f (inr l)) Q w) ->
  wp sparing (bind (ask_rows q) f) Q w.
Proof.
  intros Hw He Hl. apply wp_bind, wp_act. intros r w1 [[= <- <-]|(g & n & [= <-] & [= <- <-])]; (split; [done|]).
  - destruct (q (db w)) as [e|l] eqn:E; [apply He|]. apply Hl. intros x Hx. by exists l.
  - destruct n as [|k]; [apply He|]. destruct (q (db w)) as [e|l] eqn:E; [apply He|].
    destruct (permutations l !! k) as [l'|] eqn:Ek; [|apply He]. apply Hl. intros x Hx. exists l.
    split; [done|]. by eapply permutations_in.
Qed.

Lemma wp_sparing {A B : Type} (p : prog world A) (f : A -> prog world B) (Q : B -> world -> Prop) w :
  stable sparing p -> sparing w -> (forall a w1, sparing w1 -> wp sparing (f a) Q w1) -> wp sparing (bind p f) Q w.
Proof. intros Hp Hw Hf. apply wp_bind. eapply wp_wand; [by apply Hp|]. done. Qed.

Lemma stable_each_in {W X S : Type} (I : W -> Prop) (body : S -> X -> prog W S) l s :
  (forall s x, x ∈ l -> stable I (body s x)) -> stable I (each body s l).
Proof.
  revert s. induction l as [|x l IH]; intros s Hb; cbn; [apply stable_ret|].
  apply stable_bind; [apply Hb; by left|]. intros s'. apply IH. intros s2 y Hy. apply Hb. by right.
Qed.

(** The sweep once its clock is read. *)
Lemma sweep_from_wp w : sparing w ->
  wp sparing (expired <-? tx (ExpireDue now) ;;
    stale <-? ask_rows (StaleStaging (staging_deadline cfg now)) ;;
    abandoned <- each abandon 0%Z stale ;;
    unpinned <-? ask_rows (UnpinnedExpired now) ;;
    deleted <- each delete_one 0%Z unpinned ;;
    emptied <- EmptyTrash ;;
    tx (PurgeExpiredIdempotency now) ;;;
    Ret (inr (mkCleanup expired deleted abandoned (fst emptied))))
    (fun (_ : serr + CleanupResult) (w1 : world) => sparing w1) w.
Proof.
  intros Hw. unfold bindE.
  apply wp_sparing; [apply sparing_tx, HG|done|]. intros [e|n] w1 Hw1; [done|].
  apply wp_ask_rows; [done|done|]. intros stale Hstale.
  apply wp_sparing; [|done|].
  { apply stable_each_in. intros s t Ht. apply sparing_abandon. destruct (Hstale t Ht) as (l0 & Hl0 & Hin).
    eapply (kp_stale G HG); [apply Hw1|exact Hl0|exact Hin]. }
  intros ab w2 Hw2. apply wp_ask_rows; [done|done|]. intros unp Hunp.
  apply wp_sparing; [|done|].
  { apply stable_each_in. intros s t Ht. apply sparing_delete. destruct (Hunp t Ht) as (l0 & Hl0 & Hin).
    eapply (kp_listed G HG); [apply Hw2|exact Hl0|exact Hin]. }
  intros del w3 Hw3. apply wp_sparing; [apply sparing_trash, trash_EmptyTrash|done|]. intros em w4 Hw4.
  apply wp_sparing; [apply sparing_tx, HG|done|]. done.
Qed.
End spares.

Section sweep.
Context {UC : Unicode} {EX : Externals} {MC : ManifestCodec}.
Context (cfg : Server).

(** After the first reading the clock is not read again. *)
Definition same_clock (w w' : world) : Prop := clock w' = clock w.
#[export] Instance same_clock_preorder : PreOrder same_clock.
Proof. split; [done|]. unfold same_clock. intros w1 w2 w3. congruence. Qed.

Lemma clock_tx {A : Type} (f : txn A) : within same_clock (tx f).
Proof.
  assert (G : forall w, same_clock w (snd (tx_step f w))) by (intros w; unfold tx_step; by destruct (f (db w))).
  apply within_act; [exact G|]. intros g n w [= <-]. destruct n; [done|apply G].
Qed.
Lemma clock_trash {A : Type} (p : prog world A) : within trash_only p -> within same_clock p.
Proof. apply within_mono. by intros w w' (_ & _ & _ & _ & E). Qed.
Lemma clock_ask_rows {A : Type} (q : query (list A)) : within same_clock (ask_rows q).
Proof. apply within_act; [done|]. by intros g n w [= <-]. Qed.
Lemma clock_trash_one area set id : (forall a w, clock (set a w) = clock w) -> within same_clock (trash_one area set id).
Proof.
  intros Hset. unfold trash_one. assert (Hr : within same_clock (act (rename_to_trash area set id) (Some (fun _ w => (inl ErrOther : oserr + unit, w))))).
  { apply within_act; [|by intros f n w [= <-]]. intros w. unfold rename_to_trash.
    destruct (negb _); [done|]. destruct (negb _); [done|]. apply Hset. }
  pose proof (clock_trash _ (trash_stat area id)) as H1. pose proof (clock_trash _ (trash_stat trash id)) as H2.
  pose proof (clock_trash _ (trash_remove_all id)) as H3. within_solve.
Qed.
Lemma clock_ToTrash id : within same_clock (ToTrash id).
Proof. unfold ToTrash. pose proof clock_trash_one. within_solve. Qed.
Lemma clock_Invalidate id : within same_clock (InvalidateManifest id).
Proof. by apply within_act. Qed.

(** What holds after a sweep for the instant it read: nothing pinned or unexpired went. *)
Definition spared (w w' : world) : Prop :=
  forall id, pinned id (clock w') (db w) \/ (exists r, unexpired id (clock w') r (db w)) ->
    live w' !! id = live w !! id /\ is_Some (transfers (db w') !! id) /\
    (forall r, unexpired id (clock w') r (db w) -> transfers (db w') !! id = Some r).

(** The reasons a transfer may have, each seen by its own run of [sweep_from_wp]. *)
Definition reason (now : Z) (d : DB) : Type := {x : string * (DB -> Prop) | kept (fst x) now (snd x) /\ snd x d}.
Definition sparing_for {now d} (w : world) (x : reason now d) (w' : world) : Prop :=
  sparing (fst (proj1_sig x)) now (snd (proj1_sig x)) (live w !! fst (proj1_sig x)) w'.

Lemma spared_all now w w1 w2 : db w1 = db w -> clock w2 = now ->
  (forall x : reason now (db w1), sparing_for w x w2) -> spared w w2.
Proof.
  intros Ed <- Hall id Hid. rewrite <- Ed in Hid |- *.
  pose proof (fun G HG Hd => Hall (exist _ (id, G) (conj HG Hd))) as Huse. unfold sparing_for in Huse. cbn in Huse.
  split_and!.
  - destruct Hid as [Hp|(r & Hr)]; [by destruct (Huse _ (kept_pinned id _) Hp)|by destruct (Huse _ (kept_unexpired id _ r) Hr)].
  - destruct Hid as [Hp|(r & Hr)].
    + by destruct (Huse _ (kept_pinned id _) Hp) as [_ _ [? _]].
    + destruct (Huse _ (kept_unexpired id _ r) Hr) as [_ _ [E _]]. by rewrite E.
  - intros r Hr. by destruct (Huse _ (kept_unexpired id _ r) Hr) as [_ _ [? _]].
Qed.

Lemma sweep_wp w : wp (fun w' => spared w w') (Sweep cfg) (fun _ w' => spared w w') w.
Proof.
  unfold Sweep. apply wp_bind, wp_act. intros now w1 Hnow.
  assert (E1 : db w1 = db w /\ live w1 = live w /\ clock w1 = now).
  { by destruct Hnow as [[= <- <-]|(? & ? & [= <-] & [= <- <-])]. }
  destruct E1 as (Ed & El & Ek). clear Hnow.
  split.
  { intros id Hid. rewrite El, Ed. split_and!; [done| |by intros r []].
    destruct Hid as [[? _]|(r & Hr & _)]; [done|by rewrite Hr]. }
  eapply wp_mono; [| |apply (wp_and (same_clock w1) (fun w2 => forall x : reason now (db w1), sparing_for w x w2) _
    (fun _ => same_clock w1) (fun _ w2 => forall x : reason now (db w1), sparing_for w x w2))].
  - intros w2 [Hk Hall]. apply (spared_all now w w1 w2); [done|by rewrite <- Ek|done].
  - intros a w2 [Hk Hall]. apply (spared_all now w w1 w2); [done|by rewrite <- Ek|done].
  - apply (wp_within same_clock); [|done|done]. unfold abandon, delete_one.
    pose proof (clock_trash _ trash_EmptyTrash). pose proof clock_Invalidate. pose proof clock_ToTrash.
    pose proof @clock_tx. pose proof @clock_ask_rows. within_solve.
  - apply wp_forall. intros [[id G] [HG Hd]]. cbn in *. apply sweep_from_wp; [done|]. by split; [|rewrite El|].
Qed.
End sweep.
