(* ===== verification/ReconcileProofs.v ===== *)
(** * Startup reconciliation when no call fails

    Between crashes, as long as no call of reconciliation itself fails, a COMMITTED
    transfer never loses its live directory. *)
From S2P Require Import Prelude GoStrings GoTime Errors Code Paths Manifest Wire Prog Tree Integrity.
From S2P Require Import Materialize Store Config World Service Commit Janitor Safety ServiceProofs.
From S2P Require Import CommitProofs JanitorProofs.
Local Open Scope prog_scope.

Section valid.
Context {UC : Unicode} {EX : Externals} {MC : ManifestCodec}.
Context (root : list string) (Hroot : Forall (fun c => plain c = true) root).

Lemma wp0_Stat (t : tree) p n : t !! p = Some n -> wp0 (eq t) (Stat p) (fun r t' => r = inr n /\ t = t') t.
Proof. intros E. unfold Stat, act. cbn [wp0]. by rewrite E. Qed.
Lemma wp0_ReadFile (t : tree) p d a b : t !! p = Some (NFile d a b) ->
  wp0 (eq t) (ReadFile p) (fun r t' => r = inr d /\ t = t') t.
Proof. intros E. unfold ReadFile, act. cbn [wp0]. by rewrite E. Qed.

Lemma entry_usable_held m (t : tree) e : manifest_ok m -> e ∈ Entries m -> entry_held t e ->
  wp0 (eq t) (entry_usable root tt e) (fun r t' => r = inr tt /\ t = t') t.
Proof.
  intros Hm He [Hd Hf]. unfold entry_usable.
  destruct Hm as (_ & _ & _ & _ & _ & _ & _ & _ & _ & _ & _ & _ & _ & Hent & _).
  rewrite Forall_forall in Hent. destruct (Hent e He) as (Hp & _ & _ & _ & Hcase).
  rewrite SafeJoinIn_payload by done.
  destruct Hcase as [(Hdir & _)|(Hfile & _)].
  - specialize (Hd Hdir). unfold look in Hd. cbn. destruct (t !! payload_path (e_Path e)) as [n|]; [|done].
    cbn. rewrite (dir_not_file e Hdir). by cbn.
  - destruct (Hf Hfile) as (d & Hl & Hsz & _). unfold look in Hl. cbn.
    destruct (t !! payload_path (e_Path e)) as [[a b|x a b]|]; cbn in Hl; [done| |done].
    injection Hl as ->. rewrite Hfile. cbn. rewrite Hsz, Z.eqb_refl. by cbn.
Qed.

Lemma manifest_of_node (t : tree) m : manifest_of t = Some m ->
  exists d a b, t !! [ManifestFile] = Some (NFile d a b) /\ parse_manifest d = inr m.
Proof.
  unfold manifest_of. destruct (look t [ManifestFile]) as [[|d]|] eqn:E; [done| |done].
  destruct (parse_manifest d) as [|m'] eqn:Ep; [done|]. intros [= ->]. unfold look in E.
  apply fmap_Some in E as ([|x a b] & E & [= ->]). eauto.
Qed.

Lemma live_valid_complete (t : tree) : live_complete t ->
  wp0 (eq t) (live_valid root) (fun b t' => b = true /\ t = t') t.
Proof.
  intros (_ & m & Hm & He & _). destruct (manifest_of_node t m Hm) as (d & a & b & E & Ep).
  unfold live_valid, ManifestExists, ReadManifest.
  assert (Hok : manifest_ok m).
  { apply Validate_spec. unfold parse_manifest in Ep. destruct (json_Unmarshal d) as [x|]; [|done].
    destruct (Manifest.Validate x) eqn:Ev; [done|]. by injection Ep as ->. }
  apply wp0_bind, wp0_bind. eapply wp0_wand; [by apply wp0_Stat|]. intros r t1 [-> <-]. cbn [wp0 negb].
  apply wp0_bind, wp0_bind. eapply wp0_wand; [by eapply wp0_ReadFile|]. intros r t1 [-> <-]. cbn [wp0]. rewrite Ep.
  apply wp0_bind. assert (G : forall es, (forall e, e ∈ es -> e ∈ Entries m) -> 
    wp0 (eq t) (loop (entry_usable root) tt es) (fun r t' => r = inr tt /\ t = t') t).
  { induction es as [|e es IH]; intros Hin; [done|]. cbn [loop]. apply wp0_bind.
    eapply wp0_wand; [apply (entry_usable_held m); [done|apply Hin; by left|]|].
    - rewrite Forall_forall in He. apply He, Hin. by left.
    - intros r t' [-> <-]. apply IH. intros x Hx. apply Hin. by right. }
  eapply wp0_wand; [by apply G|]. intros r t' [-> <-]. done.
Qed.
End valid.

(** Calls that change no live directory, or no row. *)
#[export] Instance same_live_preorder : PreOrder (fun w w' : world => live w' = live w).
Proof. split; [done|]. intros w1 w2 w3 E1 E2. congruence. Qed.
#[export] Instance same_db_preorder : PreOrder (fun w w' : world => db w' = db w).
Proof. split; [done|]. intros w1 w2 w3 E1 E2. congruence. Qed.

Lemma live_tx {A : Type} (f : txn A) : within (fun w w' => live w' = live w) (tx f).
Proof.
  assert (G : forall w, live (snd (tx_step f w)) = live w) by (intros w; unfold tx_step; by destruct (f (db w))).
  apply within_act; [exact G|]. intros g n w [= <-]. destruct n; [done|apply G].
Qed.

(** Calls that change at most the row of [id], and create none. *)
Definition touches (id : string) (w w' : world) : Prop :=
  forall j, (j <> id -> transfers (db w') !! j = transfers (db w) !! j) /\
    (transfers (db w) !! j = None -> transfers (db w') !! j = None).
#[export] Instance touches_preorder id : PreOrder (touches id).
Proof.
  split; [by intros w j|]. intros w1 w2 w3 T1 T2 j. destruct (T1 j) as [A1 B1], (T2 j) as [A2 B2].
  split; [intros Hj; by rewrite A2, A1|auto].
Qed.

Lemma touches_db id w w' : db w' = db w -> touches id w w'.
Proof. intros E j. by rewrite E. Qed.
Lemma touches_idle {A : Type} id (p : prog world A) : within idle p -> within (touches id) p.
Proof. apply within_mono. intros w w' (E & _). by apply touches_db. Qed.
Lemma touches_trash {A : Type} id (p : prog world A) : within trash_only p -> within (touches id) p.
Proof. apply within_mono. intros w w' (E & _). by apply touches_db. Qed.
Lemma touches_in_live {A : Type} id j (p : prog tree A) : within (touches id) (in_live j p).
Proof. apply within_lift; [apply _|]. intros t w. by apply touches_db. Qed.
Lemma touches_in_staging {A : Type} id j (p : prog tree A) : within (touches id) (in_staging j p).
Proof. apply within_lift; [apply _|]. intros t w. by apply touches_db. Qed.
Lemma touches_Invalidate id j : within (touches id) (InvalidateManifest j).
Proof. apply within_act; [|done]. intros w. by apply touches_db. Qed.
Lemma touches_tx {A : Type} id (f : txn A) : (forall d j, (j <> id -> transfers (snd (f d)) !! j = transfers d !! j) /\
    (transfers d !! j = None -> transfers (snd (f d)) !! j = None)) -> within (touches id) (tx f).
Proof.
  intros Hf. assert (G : forall w, touches id w (snd (tx_step f w))).
  { intros w j. unfold tx_step. specialize (Hf (db w) j). by destruct (f (db w)). }
  apply within_act; [exact G|]. intros g n w [= <-]. destruct n; [by apply touches_db|apply G].
Qed.
Lemma touches_update id f (d : DB) j : (j <> id -> transfers (update_transfer id f d) !! j = transfers d !! j) /\
    (transfers d !! j = None -> transfers (update_transfer id f d) !! j = None).
Proof.
  rewrite update_transfer_lookup. destruct (decide (id = j)) as [->|]; [|done]. split; [done|by intros ->].
Qed.
Lemma touches_Fail id e : within (touches id) (tx (Fail id e)).
Proof. apply touches_tx. intros d j. apply touches_update. Qed.
Lemma touches_Purge id : within (touches id) (tx (Purge id)).
Proof.
  apply touches_tx. intros d j. cbn. split; [intros Hj; by rewrite lookup_delete_ne|].
  intros Hn. by apply lookup_delete_None; right.
Qed.
Lemma touches_store_Publish id now ttl dg b : within (touches id) (store_Publish id now ttl dg b).
Proof.
  assert (G : forall w, touches id w (snd (Publish_step id now ttl dg b w))).
  { intros w j. unfold Publish_step, tx_step. cbn [db set_rpos]. set (bufs := map _ _).
    assert (Hb : Forall (fun b => length b = 8%nat) bufs).
    { apply Forall_map, Forall_forall. intros k _. unfold bytes_at. by rewrite length_map, length_seq. }
    destruct (Publish bufs id now ttl dg b (db w)) as [r d'] eqn:E. apply Publish_spec in E; [|done]. cbn.
    destruct r as [e|t]; [by subst|]. destruct E as (row & _ & _ & _ & [(_ & _ & _ & ->)|(_ & _ & _ & _ & _ & _ & ->)]);
      [done|apply touches_update]. }
  apply within_act; [exact G|]. intros g n w [= <-]. destruct n; [by apply touches_db|apply G].
Qed.
Lemma touches_trash_one area set id j : (forall a w, db (set a w) = db w) -> within (touches id) (trash_one area set j).
Proof.
  intros Hset. unfold trash_one. assert (Hr : within (touches id) (act (rename_to_trash area set j) (Some (fun _ w => (inl ErrOther : oserr + unit, w))))).
  { apply within_act; [|intros f n w [= <-]; by apply touches_db]. intros w. apply touches_db. unfold rename_to_trash.
    destruct (negb _); [done|]. destruct (negb _); [done|]. apply Hset. }
  pose proof (touches_trash id _ (trash_stat area j)) as H1. pose proof (touches_trash id _ (trash_stat trash j)) as H2.
  pose proof (touches_trash id _ (trash_remove_all j)) as H3. within_solve.
Qed.
Lemma touches_ToTrash id j : within (touches id) (ToTrash j).
Proof. unfold ToTrash. pose proof touches_trash_one. within_solve. Qed.
#[export] Hint Resolve touches_idle touches_in_live touches_in_staging touches_Invalidate touches_Fail touches_Purge
  touches_store_Publish touches_ToTrash : within.

(** A query whose answers are known to satisfy [P]. *)
Lemma within_ask {A B : Type} (R : world -> world -> Prop) `{!PreOrder R} (q : query A) (P : A -> Prop)
    (f : serr + A -> prog world B) : (forall d a, q d = inr a -> P a) ->
  (forall e, within R (f (inl e))) -> (forall a, P a -> within R (f (inr a))) -> within R (bind (ask q) f).
Proof.
  intros HP He Ha I w HI. apply wp_bind, wp_act. intros r w1 Hr.
  assert (w1 = w) as -> by (destruct Hr as [[=]|(? & ? & [= <-] & [=])]; congruence).
  split; [by apply HI|]. destruct r as [e|a]; [by apply He|]. apply Ha; [|done].
  destruct Hr as [[= E]|(? & ? & [= <-] & [=])]. by eapply HP.
Qed.

Lemma GetTransfer_ID id (d : DB) t : GetTransfer id d = inr t -> t_ID t = id.
Proof. unfold GetTransfer. intros Hf%found_inr. by apply fmap_Some in Hf as (r & _ & ->). Qed.

Lemma touches_finish `{UC : Unicode, EX : Externals, MC : ManifestCodec} (cfg : Server) id rep :
  within (touches id) (t <- ask (GetTransfer id) ;;
    match t with
    | inl _ => Ret rep
    | inr t =>
      r <- completeInterruptedPublish cfg t ;;
      Ret (match r with inl _ => rep | inr _ => bump_completed rep end)
    end).
Proof.
  apply (within_ask _ (GetTransfer id) (fun t => t_ID t = id)); [by intros d t Ht%GetTransfer_ID|intros e; within_solve|].
  intros t <-. unfold completeInterruptedPublish. within_solve.
Qed.

Lemma touches_one `{UC : Unicode, EX : Externals, MC : ManifestCodec} (cfg : Server) id s rep :
  within (touches id) (reconcile_one cfg rep (id, s)).
Proof.
  pose proof (touches_finish cfg id rep).
  destruct s; cbn [reconcile_one]; unfold reconcile_committed, reconcile_precommit, livePayloadValid,
    stagingExists, ListStagingIDs; within_solve.
Qed.


Section strict.
#[local] Existing Instance strictly.
Context {UC : Unicode} {EX : Externals} {MC : ManifestCodec}.
Context (cfg : Server).

Notation running := (startup (ST := strictly)).

Lemma running_not_committed id w : Inv w -> live w !! id = None ->
  forall r, transfers (db w) !! id = Some r -> c_state r <> StateCommitted.
Proof. intros Hw Hl r Hr Hc. destruct (inv_committed w Hw I id r Hr Hc) as [t Ht]. congruence. Qed.

(** A check of a complete live directory answers yes. *)
Lemma live_check_wp0 id (p : prog tree bool) w : quiet p ->
  (forall t, live_complete t -> wp0 (eq t) p (fun b t' => b = true /\ t = t') t) -> running w ->
  wp0 running (in_live id p) (fun b w1 => running w1 /\ (b = false -> live w1 !! id = None)) w.
Proof.
  intros Hq Hp Hw. destruct (live w !! id) as [t|] eqn:El.
  - eapply wp0_mono; [| |apply (wp0_and running (fun _ => True) _ (fun _ w1 => running w1) (fun b _ => b = true))].
    + by intros w1 [].
    + intros b w1 [H1 ->]. done.
    + apply wp_wp0, startup_in_live; [done|done].
    + eapply wp0_wand; [apply (wp0_lift _ _ (fun _ => True) (eq t) (fun w1 => tree_of (live w1) id = t) p (fun b _ => b = true))|].
      * intros v w1 _ <-. split; [done|]. cbn. apply tree_of_put.
      * intros v w1. cbn. apply tree_of_put.
      * by apply tree_of_Some.
      * rewrite (tree_of_Some _ _ _ El). eapply wp0_wand; [apply Hp|by intros b t' [-> _]].
        apply (inv_live w (su_inv w Hw) id t El).
      * by intros b w1 [_ ->].
  - apply wp_wp0. eapply wp_mono; [| |apply (wp_and running (fun w1 => live w1 !! id = None) _ (fun _ w1 => running w1) (fun _ w1 => live w1 !! id = None))].
    + by intros w1 [].
    + by intros b w1 [].
    + by apply startup_in_live.
    + apply (wp_in_live id p _ (fun _ _ => True)); [by apply (wp_within same)| |]; intros; by eapply lf_none.
Qed.

Lemma manifest_exists_complete t : live_complete t ->
  wp0 (eq t) ManifestExists (fun b t' => b = true /\ t = t') t.
Proof.
  intros (_ & m & Hm & _). destruct (manifest_of_node t m Hm) as (d & a & b & E & Ep).
  unfold ManifestExists. apply wp0_bind. eapply wp0_wand; [by apply wp0_Stat|]. by intros r t1 [-> <-].
Qed.

Lemma livePayloadValid_wp0 id w : plain id = true -> plain (Shard id) = true -> running w ->
  wp0 running (livePayloadValid cfg id) (fun b w1 => running w1 /\ (b = false -> live w1 !! id = None)) w.
Proof.
  intros P1 P2. apply live_check_wp0; [apply quiet_live_valid|]. intros t. apply live_valid_complete.
  by apply live_root_plain.
Qed.

Lemma running_ToTrash id w : running w -> (forall r, transfers (db w) !! id = Some r -> c_state r <> StateCommitted) ->
  wp0 running (ToTrash id) (fun _ w1 => running w1) w.
Proof.
  intros [Hw Hc] Hr. apply wp_wp0.
  eapply wp_mono; [| |apply (wp_and (doomed id) (uncached w)); [apply stable_ToTrash; split; [done|by rewrite Hc|done]|by apply uncached_ToTrash]].
  - intros w1 [[Hi _ _] H1]. split; [exact Hi|exact (H1 Hc)].
  - intros a w1 [[Hi _ _] H1]. split; [exact Hi|exact (H1 Hc)].
Qed.

Lemma wp0_running {A B : Type} (p : prog world A) (f : A -> prog world B) (Q : B -> world -> Prop) w :
  stable running p -> running w -> (forall a w1, running w1 -> wp0 running (f a) Q w1) -> wp0 running (bind p f) Q w.
Proof. intros Hp Hw Hf. apply wp0_bind. eapply wp0_wand; [apply wp_wp0; by apply Hp|]. auto. Qed.

Lemma committed_wp0 id rep w : plain id = true -> plain (Shard id) = true -> running w ->
  wp0 running (reconcile_committed cfg id rep) (fun _ w1 => running w1) w.
Proof.
  intros P1 P2 Hw. unfold reconcile_committed. apply wp0_bind.
  eapply wp0_wand; [by apply livePayloadValid_wp0|]. intros [] w1 [Hw1 Hl]; [done|]. specialize (Hl eq_refl).
  unfold InvalidateManifest. cbn [bind act_ act wp0].
  assert (Hw2 : running (set_cache (cache_drop id (cache w1)) w1)).
  { split; [apply Inv_cache_drop, Hw1|]. cbn. by rewrite (su_cache _ Hw1), delete_empty. }
  split; [done|]. apply wp0_bind. eapply wp0_wand; [apply running_ToTrash; [done|]|].
  - by apply (running_not_committed id _ (su_inv _ Hw1)).
  - intros a w2 Hw3. apply wp0_running; [apply startup_tx, safe_Purge|done|]. done.
Qed.

Lemma precommit_wp0 id s rep w : plain id = true -> plain (Shard id) = true -> running w ->
  wp0 running (reconcile_precommit cfg id s rep) (fun _ w1 => running w1) w.
Proof.
  intros P1 P2 Hw. unfold reconcile_precommit. apply wp0_bind.
  eapply wp0_wand; [apply live_check_wp0; [apply quiet_ManifestExists|apply manifest_exists_complete|done]|].
  intros ex w1 [Hw1 Hex]. apply wp0_bind.
  eapply (wp0_wand _ _ (fun b w2 => running w2 /\ (b = false -> live w2 !! id = None))).
  { destruct ex; [by apply livePayloadValid_wp0|]. cbn. split; [done|]. intros _. by apply Hex. }
  intros v w2 [Hw2 Hv]. destruct v.
  - apply wp0_running; [apply startup_idle, idle_ask|done|]. intros [e|t] w3 Hw3; [done|].
    apply wp0_running; [apply startup_complete|done|]. done.
  - specialize (Hv eq_refl). case_match.
    + apply wp0_bind. apply (wp0_wand _ _ (fun _ w3 => running w3 /\ live w3 !! id = None)).
      { apply wp_wp0. eapply wp_mono; [| |apply (wp_and running (fun w3 => live w3 !! id = None) _ (fun _ w3 => running w3) (fun _ w3 => live w3 !! id = None))].
        - by intros w3 [].
        - done.
        - apply startup_tx; [apply safe_Fail|done].
        - apply (wp_within (fun w w' => live w' = live w)); [apply live_tx|by intros w3 ->|by intros a w3 ->]. }
      intros a w3 [Hw3 Hl3]. apply wp0_bind. eapply wp0_wand; [apply running_ToTrash; [done|]|done].
      by apply (running_not_committed id _ (su_inv _ Hw3)).
    + apply wp0_running; [apply startup_in_staging_ReadManifest|done|]. intros [e|mf] w3 Hw3; [|done].
      apply wp0_running; [apply startup_stagingExists|done|]. intros [] w4 Hw4; [done|].
      apply wp0_running; [apply startup_tx, safe_Fail|done|]. done.
Qed.

Lemma reconcile_one_wp0 id s rep w : running w -> c_state <$> transfers (db w) !! id = Some s ->
  wp0 running (reconcile_one cfg rep (id, s)) (fun _ w1 => running w1) w.
Proof.
  intros Hw Hs. apply fmap_Some in Hs as (r & Hr & ->).
  destruct (inv_ids w (su_inv w Hw) id r Hr) as [P1 P2].
  cbn [reconcile_one]. destruct (c_state r) eqn:Es; try done; try (by apply committed_wp0); try (by apply precommit_wp0).
  apply wp0_bind. eapply wp0_wand; [apply running_ToTrash; [done|]|].
  - intros r'. rewrite Hr. intros [= <-]. by rewrite Es.
  - intros a w1 Hw1. apply wp0_running; [apply startup_tx, safe_Purge|done|]. done.
Qed.

(** The rows of the identifiers still to visit are as the snapshot says. *)
Definition visits (known : gmap string tstate) (todo : list (string * tstate)) (w : world) : Prop :=
  running w /\ (forall j, known !! j = None -> transfers (db w) !! j = None) /\
  forall id s, (id, s) ∈ todo -> c_state <$> transfers (db w) !! id = Some s.

Lemma visit_wp0 known rep w todo : NoDup (map fst todo) -> visits known todo w ->
  wp0 running (each (reconcile_one cfg) rep todo) (fun _ w1 => visits known [] w1) w.
Proof.
  revert rep w. induction todo as [|[id s] todo IH]; intros rep w Hnd (Hw & Hk & Hs); cbn [each].
  { split_and!; [done|done|]. by intros id s ?%elem_of_nil. }
  apply NoDup_cons in Hnd as [Hn Hnd]. apply wp0_bind.
  eapply wp0_mono; [| |apply (wp0_and running (fun _ => True) _ (fun _ w1 => running w1) (fun _ w1 => touches id w w1))].
  - by intros w1 [].
  - intros rep1 w1 [Hw1 Ht]. apply IH; [done|]. split_and!; [done| |].
    + intros j Hj. apply Ht, Hk, Hj.
    + intros j s' Hin. rewrite (proj1 (Ht j)); [apply Hs; by right|]. intros ->. apply Hn.
      apply list_elem_of_fmap. by exists (id, s').
  - apply reconcile_one_wp0; [done|]. apply Hs. by left.
  - apply wp_wp0, (wp_within (touches id)); [apply touches_one|done|done].
Qed.

Lemma orphans_wp0 known rep w ids : visits known [] w ->
  wp0 running (each (orphan_live known) rep ids) (fun _ w1 => running w1) w.
Proof.
  revert rep w. induction ids as [|id ids IH]; intros rep w Hv; cbn [each]; [apply Hv|].
  apply wp0_bind. unfold orphan_live. destruct (known !! id) eqn:E; [by apply IH|]. apply wp0_bind.
  destruct Hv as (Hw & Hk & _).
  eapply wp0_mono; [| |apply (wp0_and running (fun _ => True) _ (fun _ w1 => running w1) (fun _ w1 => touches id w w1))].
  - by intros w1 [].
  - intros a w1 [Hw1 Ht]. apply IH. split_and!; [done| |by intros j s ?%elem_of_nil]. intros j Hj. apply Ht, Hk, Hj.
  - apply running_ToTrash; [done|]. rewrite Hk by done. done.
  - apply wp_wp0, (wp_within (touches id)); [apply touches_ToTrash|done|done].
Qed.

Lemma permutations_pick {A : Type} (l l' : list A) k : permutations l !! k = Some l' -> l' ≡ₚ l.
Proof. intros Hk%list_elem_of_lookup_2. symmetry. by apply permutations_Permutation. Qed.

Lemma reconcile_wp0 w : running w -> wp0 running (reconcile_Run cfg) (fun _ w1 => running w1) w.
Proof.
  intros Hw. unfold reconcile_Run, AllTransferIDs, ask, act. cbn [bind wp0]. split; [done|].
  set (known := c_state <$> transfers (db w)). unfold range_map, act_, act. cbn [bind wp0].
  set (w1 := set_rpos _ w). set (order := match permutations (map_to_list known) !! _ with Some l => l | None => _ end).
  assert (Hord : order ≡ₚ map_to_list known).
  { unfold order. destruct (permutations _ !! _) eqn:E; [by eapply permutations_pick|done]. }
  clearbody order. assert (Hw1 : running w1) by (split; [apply (Inv_same w); [done..|apply Hw]|apply Hw]).
  split; [done|]. apply wp0_bind.
  eapply wp0_wand; [apply (visit_wp0 known)|].
  - rewrite (Permutation_map fst Hord). apply NoDup_fst_map_to_list.
  - split_and!; [done| |].
    + intros j. unfold known. rewrite lookup_fmap. by intros ?%fmap_None.
    + intros id s Hin. rewrite Hord in Hin. apply elem_of_map_to_list in Hin. unfold known in Hin.
      by rewrite lookup_fmap in Hin.
  - intros rep w2 Hv. unfold ListLiveIDs, list_dir at 1, act. cbn [bind wp0]. split; [apply Hv|].
    apply wp0_bind. eapply wp0_wand; [by apply orphans_wp0|]. intros rep2 w3 Hw3.
    unfold ListStagingIDs. apply wp0_running; [apply startup_idle, idle_list_dir|done|].
    intros [e|sids] w4 Hw4; [done|]. apply wp0_running; [|done|].
    + unfold orphan_staging. pose proof startup_RemoveStaging. stable_solve.
    + intros rep3 w5 Hw5. apply wp0_running; [apply startup_trash, trash_EmptyTrash|done|]. done.
Qed.
End strict.
