(* ===== verification/ApiProofs.v ===== *)
(** * Every HTTP handler keeps the server's invariant *)
From S2P Require Import Prelude GoStrings GoTime GoHttp Errors Code Paths Manifest Wire Admission Prog Tree Integrity.
From S2P Require Import Materialize Archive Store Config World Service Upload Commit Simple Janitor Api Safety.
From S2P Require Import ServiceProofs UploadProofs CommitProofs SimpleProofs JanitorProofs.
Local Open Scope prog_scope.

Section api_proofs.
Context {ST : Strictness} {UC : Unicode} {EX : Externals} {MC : ManifestCodec}.
Context (cfg : Server).

(** ** Idempotency keys *)

(** Calls that change idempotency keys, and otherwise only let time pass. *)
Definition keyed (w w' : world) : Prop :=
  (Inv w -> Inv w') /\ (clock w <= clock w')%Z /\ transfers (db w') = transfers (db w) /\
  live w' = live w /\ rnd w' = rnd w /\ rpos w' = rpos w.
#[export] Instance keyed_preorder : PreOrder keyed.
Proof.
  split; [by intros w; split_and!|].
  intros w1 w2 w3 (I1 & C1 & T1 & L1 & R1 & P1) (I2 & C2 & T2 & L2 & R2 & P2). split_and!; [auto|lia|congruence..].
Qed.

Lemma keyed_still w w' : keyed w w' -> still w w'.
Proof. intros (HI & _ & _ & El & _). by split. Qed.
Lemma within_keyed_still {A : Type} (p : prog world A) : within keyed p -> within still p.
Proof. apply within_mono, keyed_still. Qed.
Lemma keyed_fresh w w' : keyed w w' -> fresh_next w -> fresh_next w'.
Proof. intros (_ & _ & Et & El & Er & Ep). unfold fresh_next, next_id, bytes_at. by rewrite Et, El, Er, Ep. Qed.

Lemma keyed_Now : within keyed Now.
Proof.
  apply within_act; [done|]. intros f n w [= <-]. split_and!; try done; [by apply Inv_same|cbn; lia].
Qed.

Definition key_txn {A : Type} (f : txn A) : Prop := forall d, exists m, snd (f d) = set_idem m d.
Lemma keyed_tx {A : Type} (f : txn A) : key_txn f -> within keyed (tx f).
Proof.
  intros Hf. assert (G : forall w, keyed w (snd (tx_step f w))).
  { intros w. unfold tx_step. destruct (Hf (db w)) as [m Hm]. destruct (f (db w)) as [r d]. cbn in *. subst d.
    split_and!; try done. intros Hw. apply Inv_db_same_transfers; [done|apply db_ok_set_idem, Hw|apply Hw|done]. }
  apply within_act; [done|]. intros g n w [= <-]. cbn. destruct n; [done|apply G].
Qed.
Lemma key_Remember rec : key_txn (RememberIdempotency rec).
Proof.
  intros d. unfold RememberIdempotency. destruct (_ !! _); [|by eexists]. exists (idempotency_keys d). by destruct d.
Qed.
Lemma key_Complete k t c : key_txn (CompleteIdempotency k t c).
Proof. intros d. by eexists. Qed.
Lemma key_Forget k : key_txn (ForgetIdempotency k).
Proof. intros d. by eexists. Qed.
#[local] Hint Resolve keyed_Now keyed_tx key_Remember key_Complete key_Forget : within.

Lemma keyed_begin q op : within keyed (beginIdempotent q op).
Proof. unfold beginIdempotent. within_solve. Qed.
Lemma keyed_complete h t c : within keyed (completeIdempotent h t c).
Proof. unfold completeIdempotent. within_solve. Qed.
Lemma keyed_forget h : within keyed (forget h).
Proof. unfold forget. within_solve. Qed.
Lemma still_begin q op : within still (beginIdempotent q op).
Proof. apply within_keyed_still, keyed_begin. Qed.
Lemma still_complete h t c : within still (completeIdempotent h t c).
Proof. apply within_keyed_still, keyed_complete. Qed.
Lemma still_forget h : within still (forget h).
Proof. apply within_keyed_still, keyed_forget. Qed.
#[local] Hint Resolve keyed_begin keyed_complete keyed_forget still_begin still_complete still_forget : within.

(** A handler's first call: the key. *)
Lemma wp_begin {B : Type} q op (f : ecode + string * string -> prog world B) (Q : B -> world -> Prop) w :
  Inv w -> (forall r w1, Inv w1 -> keyed w w1 -> wp Inv (f r) Q w1) -> wp Inv (bind (beginIdempotent q op) f) Q w.
Proof.
  intros Hw Hf. apply wp_bind, (wp_within keyed); [apply keyed_begin|by intros w1 [HI _]; apply HI|].
  intros r w1 Hk. apply Hf; [|done]. by apply Hk.
Qed.

(** ** Handlers *)

(** What the rest of the world guarantees of a request: 128 random bits are no identifier
    in use, a decoded JSON manifest has UTF-8 strings and machine integers, a file is
    smaller than 2^63 bytes. *)
Definition admissible (r : request) (w : world) : Prop :=
  match r with
  | PostTransfers _ _ => fresh_next w
  | PostSimple _ form => fresh_next w /\ match form with Some form => Forall bounded_part (form_parts form) | None => True end
  | PostRaw _ data => fresh_next w /\ (slen (join "" (chunks data)) < 2^63)%Z
  | PostCommit _ _ m => match m with Some m => json_ok m | None => True end
  | _ => True
  end.

Context {EL : ExternalsLaws} {ML : ManifestCodecLaws}.

Lemma raw_bounded q minutes name data : (slen (join "" (chunks data)) < 2^63)%Z -> Forall bounded_part (raw_parts q minutes name data).
Proof.
  intros Hb. unfold raw_parts. cbn zeta. destruct (_ =? "")%string; repeat apply Forall_cons_2; first [apply Forall_nil_2|done].
Qed.

Definition stays {A : Type} (_ : A) (w : world) : Prop := Inv w.

Lemma wp_still_ret {A B : Type} (p : prog world A) (b : B) w : Inv w -> within still p -> wp Inv (p ;;; Ret b) (fun _ w' => Inv w') w.
Proof. intros Hw Hp. apply wp_bind, (wp_within still); [done|by intros w1 [_ HI]; apply HI|]. intros a w1 [_ HI]. by apply HI. Qed.

(** Answering after an operation that keeps the invariant. *)
Lemma wp_then_answer {A : Type} (p : prog world A) Q (g : A -> prog world response) w :
  Inv w -> wp Inv p Q w -> (forall a, stable Inv (g a)) -> wp Inv (bind p g) (fun _ w' => Inv w') w.
Proof. intros Hw Hp Hg. eapply wp_then; [done|exact Hp|]. intros a w1 Hw1 _. by apply Hg. Qed.

Lemma upload_session_wp q h ps w : Inv w -> fresh_next w -> Forall bounded_part ps ->
  wp Inv (upload_session cfg q h ps) (fun _ w' => Inv w') w.
Proof.
  intros Hw Hf Hb. unfold upload_session. eapply wp_then_answer; [done|by apply simple_session_wp; [apply still_forget|..]|].
  intros [e|[id resp]]; [apply stable_ret|]. stable_solve.
Qed.

Lemma handleSimpleUpload_wp q form w : Inv w -> admissible (PostSimple q form) w ->
  wp Inv (handleSimpleUpload cfg q form) (fun _ w' => Inv w') w.
Proof.
  intros Hw [Hf Hb]. unfold handleSimpleUpload. apply wp_begin; [done|]. intros [e|[h replay]] w1 Hw1 Hk; [done|].
  destruct (negb _); [done|]. destruct form as [form|]; [|apply wp_still_ret; auto with within].
  apply upload_session_wp; [done|by eapply keyed_fresh|done].
Qed.

Lemma handleRawUpload_wp q data w : Inv w -> admissible (PostRaw q data) w ->
  wp Inv (handleRawUpload cfg q data) (fun _ w' => Inv w') w.
Proof.
  intros Hw [Hf Hb]. unfold handleRawUpload. apply wp_begin; [done|]. intros [e|[h replay]] w1 Hw1 Hk; [done|].
  destruct (negb _); [done|]. destruct (_ =? "")%string; [apply wp_still_ret; auto with within|].
  destruct (SimpleRawTTL cfg _) as [e|m]; [apply wp_still_ret; auto with within|].
  apply upload_session_wp; [done|by eapply keyed_fresh|by apply raw_bounded].
Qed.

Lemma handleCreateTransfer_wp q req w : Inv w -> fresh_next w ->
  wp Inv (handleCreateTransfer cfg q req) (fun _ w' => Inv w') w.
Proof.
  intros Hw Hf. unfold handleCreateTransfer. apply wp_begin; [done|]. intros [e|[h replay]] w1 Hw1 Hk; [done|].
  destruct (negb _); [done|]. destruct req as [req|]; [|apply wp_still_ret; auto with within].
  eapply wp_then_answer; [done|apply CreateTransfer_safe; [done|by eapply keyed_fresh]|]. intros [e|resp]; stable_solve.
Qed.

Lemma quiet_stream root tar m : quiet (stream root tar m).
Proof. unfold stream, stream_entry, copyEntry. within_solve. Qed.
#[local] Hint Resolve quiet_stream : within.

Lemma stable_handleDownload q code format : stable Inv (handleDownload cfg q code format).
Proof.
  pose proof (stable_OpenDownload cfg code). unfold handleDownload, serveRawFile, AcquireDownload. stable_solve.
Qed.
Lemma stable_handleInfo : stable Inv (handleInfo cfg).
Proof. unfold handleInfo, service_Info, adm_Status. stable_solve. Qed.
Lemma stable_handleStatus q : stable Inv (handleStatus cfg q).
Proof. unfold handleStatus, service_Status, adm_Status. stable_solve. Qed.

Lemma stable_answer {A : Type} (p : prog world A) (g : A -> prog world response) :
  stable Inv p -> (forall a, stable Inv (g a)) -> stable Inv (bind p g).
Proof. apply stable_bind. Qed.

Lemma stable_claims q c s : stable Inv (handleClaimSegment cfg q c s) /\ stable Inv (handleClaimOutboard q c s) /\
  stable Inv (handleClaimComplete q c).
Proof.
  pose proof (fun t => stable_ClaimSegmentFile cfg c t s). pose proof (fun t => stable_ClaimOutboardFile c t s).
  pose proof (fun t => stable_CompleteClaim c t).
  split_and!; [unfold handleClaimSegment, AcquireDownload|unfold handleClaimOutboard|unfold handleClaimComplete]; stable_solve.
Qed.

Lemma handle_wp r w : Inv w -> admissible r w -> wp Inv (handle cfg r) (fun _ w' => Inv w') w.
Proof.
  intros Hw Ha. assert (G : forall p : prog world response, stable Inv p -> wp Inv p (fun _ w' => Inv w') w) by auto.
  destruct r; cbn [handle admissible] in *; try (by apply G, stable_ret).
  - apply G, stable_handleInfo.
  - by apply handleSimpleUpload_wp.
  - by apply handleRawUpload_wp.
  - apply G, stable_handleDownload.
  - apply G. unfold handleMetadata. apply stable_answer; [apply stable_Metadata|intros a; apply stable_ret].
  - by apply handleCreateTransfer_wp.
  - unfold handleCommit. destruct m as [m|]; [|by apply G, stable_ret]. eapply wp_then_answer; [done|by apply service_Commit_wp|].
    intros a. apply stable_ret.
  - apply G. unfold handleUploadHead. apply stable_answer; [apply stable_UploadState|intros a; apply stable_ret].
  - unfold handleUploadPatch. cbv zeta. do 2 (destruct (_ && _); [by apply G, stable_ret|]).
    destruct (Atoi _) as [off|]; [|by apply G, stable_ret]. destruct (off <? 0)%Z; [by apply G, stable_ret|].
    eapply wp_then_answer; [done|by apply UploadPatch_safe|]. intros [n e]. apply stable_ret.
  - apply G. unfold handleCreateClaim. destruct code; [|apply stable_ret]. apply stable_answer; [apply stable_CreateClaim|intros a; apply stable_ret].
  - apply G, stable_claims.
  - apply G, stable_claims.
  - apply G. by eapply stable_claims.
  - apply G. unfold handleLocalReceive. apply stable_answer; [apply stable_LocalPath|intros a; apply stable_ret].
  - apply G, stable_handleStatus.
  - apply G. unfold handleCleanup. apply stable_answer; [apply stable_Sweep|intros a; apply stable_ret].
Qed.

(** ** What a simple upload publishes *)

(** The parts of a request that sends files. *)
Definition sent_parts (r : request) : list part :=
  match r with
  | PostSimple _ (Some form) => form_parts form
  | PostRaw q data => [PartFile (TrimSpace (header q "X-SSS-Filename")) data]
  | _ => []
  end.
Definition is_upload (r : request) : bool := match r with PostSimple _ _ | PostRaw _ _ => true | _ => false end.

(** The answer tells the code. *)
Definition tells (r : response) (resp : CommitResponse) : Prop :=
  r_Body r = BCommit resp \/ r_Body r = BText (co_Code resp ++ nl)%string.

Definition published (ps : list part) (w : world) (resp : CommitResponse) : Prop :=
  exists id ttl m, answered w id ttl resp /\ live_sealed (holds_parts (received ps)) w id m /\
    map (fun e => (e_Path e, e_Size e, e_Digest e)) (Entries m) =
    map (fun p => (fst p, slen (snd p), HashBytes (snd p))) (received ps).

Lemma error_status e : HTTPStatus (code_string e) <> 201%Z.
Proof. by destruct e. Qed.

Lemma published_keyed ps w w' resp : keyed w w' -> published ps w resp -> published ps w' resp.
Proof.
  intros (_ & _ & Et & El & _) (id & ttl & m & (t & (row & Hr & Hrow) & Hid & Hresp) & (tr & Htr & Hs) & He).
  exists id, ttl, m. split_and!; [|exists tr; by rewrite El|done]. exists t. split; [|done]. exists row. by rewrite Et.
Qed.

Definition publishes (ps : list part) (r : response) (w : world) : Prop :=
  r_Status r = 201%Z -> exists resp, tells r resp /\ published ps w resp.

Lemma publishes_not_201 ps r w : r_Status r <> 201%Z -> publishes ps r w.
Proof. by intros Hn Hr. Qed.

Lemma respond_tells q resp n : tells (respondCode q resp n) resp.
Proof. unfold respondCode. cbv zeta. destruct (contains _ _); [by left|by right]. Qed.
Lemma respond_status q resp n : r_Status (respondCode q resp n) = n.
Proof. unfold respondCode. cbv zeta. by destruct (contains _ _). Qed.

Lemma upload_session_publishes q h ps qs w : Inv w -> fresh_next w -> Forall bounded_part ps -> received qs = received ps ->
  wp Inv (upload_session cfg q h ps) (publishes qs) w.
Proof.
  intros Hw Hf Hb Eq. unfold upload_session. eapply wp_then; [done|by apply simple_session_wp; [apply still_forget|..]|].
  intros [e|[id resp]] w1 Hw1 Hr; [by apply publishes_not_201, error_status|].
  apply wp_bind, (wp_within keyed); [apply keyed_complete|by intros w2 [HI _]; apply HI|].
  intros a w2 Hk _. exists resp. split; [apply respond_tells|]. destruct (Hr id resp eq_refl) as (ttl & m & H).
  apply (published_keyed _ w1); [done|]. exists id, ttl, m. by rewrite Eq.
Qed.

Lemma received_raw q n name data : received [PartFile name data] = received (raw_parts q n name data).
Proof. unfold raw_parts. cbv zeta. by destruct (_ =? "")%string. Qed.

Lemma upload_publishes r w : Inv w -> is_upload r = true -> admissible r w ->
  wp Inv (handle cfg r) (publishes (sent_parts r)) w.
Proof.
  intros Hw Hu Ha. assert (Hfail : forall A (p : prog world A) q e w1, Inv w1 -> within still p ->
    wp Inv (p ;;; Ret (WriteError q [] e)) (publishes (sent_parts r)) w1).
  { intros A p q e w1 Hw1 Hp. apply wp_bind, (wp_within still); [done|by intros w2 [_ HI]; apply HI|].
    intros a w2 _. by apply publishes_not_201, error_status. }
  destruct r as [| | |q form|q data| | | | | | | | | | | | | |]; try done; destruct Ha as [Hf Hb]; cbn [handle].
  - unfold handleSimpleUpload. apply wp_begin; [done|]. intros [e|[h replay]] w1 Hw1 Hk; [by apply publishes_not_201, error_status|].
    destruct (negb _); [apply publishes_not_201; by rewrite respond_status|].
    destruct form as [form|]; [|apply Hfail; auto with within].
    apply upload_session_publishes; [done|by eapply keyed_fresh|done|done].
  - unfold handleRawUpload. apply wp_begin; [done|]. intros [e|[h replay]] w1 Hw1 Hk; [by apply publishes_not_201, error_status|].
    destruct (negb _); [apply publishes_not_201; by rewrite respond_status|].
    destruct (_ =? "")%string; [apply Hfail; auto with within|].
    destruct (SimpleRawTTL cfg _) as [e|n]; [apply Hfail; auto with within|].
    apply upload_session_publishes; [done|by eapply keyed_fresh|by apply raw_bounded|apply received_raw].
Qed.
End api_proofs.
#[export] Hint Resolve keyed_Now keyed_tx key_Remember key_Complete key_Forget keyed_begin keyed_complete keyed_forget
  still_begin still_complete still_forget quiet_stream : within.
