(* ===== verification/System.v ===== *)
(** * The whole server as a transition system

    One request at a time through its HTTP handler (a pass of the janitor's timer is the
    sweep of the cleanup request), each under any schedule of faults and crashes; restarts run
    startup reconciliation first, as app.Server.Run does (internal/app/serve.go); between
    requests time passes and the disk gauge moves.  The invariant of [Safety] holds in every
    reachable state. *)
From S2P Require Import Prelude GoStrings GoTime Errors Paths Manifest Wire Admission Prog Tree Integrity.
From S2P Require Import Materialize Store Config World Service Upload Commit Simple Janitor Api Safety.
From S2P Require Import ServiceProofs UploadProofs CommitProofs SimpleProofs JanitorProofs ReconcileProofs ApiProofs.
Local Open Scope prog_scope.

Section system.
Context {UC : Unicode} {EX : Externals} {MC : ManifestCodec}.
Context (cfg : Server).

(** A server process: its world, and whether it is serving. *)
Record server := mkRunning { sv_world : world; sv_up : bool }.

Definition finished {A} (r : option A) : bool := match r with Some _ => true | None => false end.

Inductive step (restarts : list event -> Prop) : server -> server -> Prop :=
| step_serve r es w : admissible r w ->
    step restarts (mkRunning w true) (mkRunning (snd (run (handle cfg r) es w)) (finished (fst (run (handle cfg r) es w))))
| step_env t u w b : (clock w <= t)%Z -> step restarts (mkRunning w b) (mkRunning (set_disk u (set_clock t w)) b)
| step_kill w : step restarts (mkRunning w true) (mkRunning w false)
| step_restart es w : restarts es ->
    step restarts (mkRunning w false)
      (mkRunning (snd (run (reconcile_Run cfg) es (reboot w)))
         (match fst (run (reconcile_Run cfg) es (reboot w)) with Some (_, b) => b | None => false end)).

(** A server installed for the first time. *)
Definition installed (limit : nat) (now : Z) (u : DiskUsage) (r : nat -> Z) : server :=
  mkRunning (mkWorld empty_db ∅ ∅ ∅ (newManifestCache limit) now u r 0) false.

Definition reachable (restarts : list event -> Prop) (s : server) : Prop :=
  exists limit now u r, rtc (step restarts) (installed limit now u r) s.

(** ** Every request keeps the invariant *)

Context {EL : ExternalsLaws} {ML : ManifestCodecLaws}.

Lemma handle_Inv {ST : Strictness} r es w : Inv w -> admissible r w -> Inv (snd (run (handle cfg r) es w)).
Proof. intros Hw Ha. apply (wp_sound Inv _ (fun _ w' => Inv w')); [done|by apply handle_wp]. Qed.

Lemma reboot_startup {ST : Strictness} w : Inv w -> startup (reboot w).
Proof. intros [H1 H2 H2s H3 H4 H5 H6]. by split; [split|]. Qed.

Lemma installed_Inv {ST : Strictness} limit now u r : Inv (sv_world (installed limit now u r)).
Proof. by split; [apply empty_db_ok|..]. Qed.

(** A kind of restart that keeps the invariant gives an invariant of every execution. *)
Lemma step_Inv {ST : Strictness} restarts s s' :
  (forall es w, restarts es -> startup w -> Inv (snd (run (reconcile_Run cfg) es w))) ->
  step restarts s s' -> Inv (sv_world s) -> Inv (sv_world s').
Proof.
  intros Hre Hst H0. destruct Hst as [q es w Ha|t v w b Ht|w|es w He]; cbn [sv_world] in *.
  - by apply handle_Inv.
  - by apply (Inv_same w).
  - done.
  - apply Hre; [done|by apply reboot_startup].
Qed.
Lemma reachable_Inv {ST : Strictness} restarts s :
  (forall es w, restarts es -> startup w -> Inv (snd (run (reconcile_Run cfg) es w))) ->
  reachable restarts s -> Inv (sv_world s).
Proof.
  intros Hre (limit & now & u & r & Hs). revert Hs. generalize (installed_Inv limit now u r).
  generalize (installed limit now u r). intros s0 H0 Hs. induction Hs as [|s1 s2 s3 Hst _ IH]; [done|].
  apply IH. by eapply step_Inv.
Qed.

Lemma any_restart es (w : world) : startup (ST := leniently) w -> Inv (ST := leniently) (snd (run (reconcile_Run cfg) es w)).
Proof.
  intros Hw. eapply su_inv, proj1, (wp_sound startup _ (fun _ => startup) es); [done|].
  by apply (startup_reconcile cfg (fun F : False => F)).
Qed.

Lemma faultless_restart es (w : world) : faultless es -> startup (ST := strictly) w ->
  Inv (ST := strictly) (snd (run (reconcile_Run cfg) es w)).
Proof.
  intros He Hw. eapply su_inv, proj1, (wp0_sound startup _ (fun _ => startup) es); [done|done|].
  by apply reconcile_wp0.
Qed.

Lemma reachable_lenient restarts s : reachable restarts s -> Inv (ST := leniently) (sv_world s).
Proof. apply reachable_Inv. intros es w _. apply any_restart. Qed.

Lemma reachable_strict s : reachable faultless s -> Inv (ST := strictly) (sv_world s).
Proof. apply reachable_Inv, faultless_restart. Qed.
End system.
