(* ===== verification/Durability.v ===== *)
(** * What happens to published transfers

    A COMMITTED transfer whose instant has not come keeps its row and its files through
    every request, cleanup, crash and restart, and its code can be downloaded. *)
From S2P Require Import Prelude GoStrings GoTime Errors Code Paths Manifest Wire Admission Prog Tree.
From S2P Require Import Integrity Materialize Store Config World Service Upload Commit Simple Janitor Api.
From S2P Require Import Safety ServiceProofs UploadProofs CommitProofs SimpleProofs JanitorProofs.
From S2P Require Import ReconcileProofs ApiProofs System.
Local Open Scope prog_scope.

(** ** Calls that leave other transfers alone *)

Definition live_kept (j : string) (w w' : world) : Prop :=
  same (tree_of (live w) j) (tree_of (live w') j).

(** [besides X w w']: time went forward, and of the transfers other than [X] no row and no
    live directory changed. *)
Definition besides (X : string) (w w' : world) : Prop :=
  (clock w <= clock w')%Z /\
  forall j, j <> X -> transfers (db w') !! j = transfers (db w) !! j /\ live_kept j w w'.

#[export] Instance besides_preorder X : PreOrder (besides X).
Proof.
  split; [intros w; split; [lia|]; by intros j _|].
  intros w1 w2 w3 [C1 H1] [C2 H2]. split; [lia|]. intros j Hj.
  destruct (H1 j Hj) as [E1 L1], (H2 j Hj) as [E2 L2]. split; [congruence|]. unfold live_kept in *. by etrans.
Qed.

(** Calls that change no row and no live directory at all. *)
Definition harmless (w w' : world) : Prop :=
  (clock w <= clock w')%Z /\ transfers (db w') = transfers (db w) /\ live w' = live w.
#[export] Instance harmless_preorder : PreOrder harmless.
Proof. split; [by intros w|]. intros w1 w2 w3 (? & ? & ?) (? & ? & ?). split; [lia|]. split; congruence. Qed.

Lemma live_kept_eq j w w' : live w' = live w -> live_kept j w w'.
Proof. intros E. unfold live_kept. by rewrite E. Qed.
Lemma harmless_besides X w w' : harmless w w' -> besides X w w'.
Proof. intros (Hc & E & El). split; [done|]. intros j _. rewrite E. split; [done|]. by apply live_kept_eq. Qed.
Lemma within_besides {A : Type} X (p : prog world A) : within harmless p -> within (besides X) p.
Proof. apply within_mono. intros w w'. apply harmless_besides. Qed.

Lemma harmless_act {R : Type} (step : world -> R * world) alts :
  (forall w, harmless w (snd (step w))) -> (forall f n w, alts = Some f -> harmless w (snd (f n w))) ->
  within harmless (act step alts).
Proof. apply within_act. Qed.

Lemma harmless_ask {A : Type} (q : query A) : within harmless (ask q).
Proof. apply harmless_act; [done|]. by intros f n w [= <-]. Qed.
Lemma harmless_ask_rows {A : Type} (q : query (list A)) : within harmless (ask_rows q).
Proof. apply harmless_act; [done|]. by intros f n w [= <-]. Qed.
Lemma harmless_Now : within harmless Now.
Proof. apply harmless_act; [done|]. intros f n w [= <-]. split; [cbn; lia|done]. Qed.
Lemma harmless_Usage : within harmless Usage.
Proof. apply harmless_act; [done|]. intros f [|n] w [= <-]; done. Qed.
Lemma harmless_sync : within harmless world_sync.
Proof. apply harmless_act; [done|]. by intros f n w [= <-]. Qed.
Lemma harmless_stat area id : within harmless (stat_dir area id).
Proof. apply harmless_act; [done|]. by intros f n w [= <-]. Qed.
Lemma harmless_list area : within harmless (list_dir area).
Proof. apply harmless_act; [done|]. by intros f n w [= <-]. Qed.
Lemma harmless_rand n : within harmless (rand_Read n).
Proof. by apply harmless_act. Qed.
Lemma harmless_memory {A : Type} (f : world -> A * manifestCache) :
  within harmless (act_ (fun w => (fst (f w), set_cache (snd (f w)) w))).
Proof. by apply harmless_act. Qed.
Lemma harmless_in_staging {A : Type} id (p : prog tree A) : within harmless (in_staging id p).
Proof. apply within_lift; [apply _|]. by intros t w. Qed.
Lemma harmless_RemoveStaging id : within harmless (RemoveStaging id).
Proof.
  unfold RemoveStaging, remove_all. pose proof (harmless_stat staging id).
  assert (H1 : forall (R : Type) (f g : world -> gmap string tree) (r : R) (e : oserr), within harmless
    (act (fun w => (inr r : oserr + R, set_staging (f w) w)) (Some (fun n w => (inl e, set_staging (g w) w))))).
  { intros. apply harmless_act; [done|]. by intros f' n w [= <-]. }
  within_solve; apply harmless_act; try done; by intros f n w [= <-].
Qed.

(** Transactions on other tables. *)
Lemma harmless_tx {A : Type} (f : txn A) : (forall d, transfers (snd (f d)) = transfers d) -> within harmless (tx f).
Proof.
  intros Hf. assert (G : forall w, harmless w (snd (tx_step f w))).
  { intros w. unfold tx_step. specialize (Hf (db w)). destruct (f (db w)). by split. }
  apply harmless_act; [done|]. intros g n w [= <-]. by destruct n; [|apply G].
Qed.
Lemma harmless_InsertSegment s : within harmless (tx (InsertSegment s)).
Proof. apply harmless_tx. intros d. unfold InsertSegment. by repeat case_match. Qed.
Lemma harmless_SetSegmentProgress t i n s : within harmless (tx (SetSegmentProgress t i n s)).
Proof. by apply harmless_tx. Qed.
Lemma harmless_CreateClaim c : within harmless (tx (CreateClaim c)).
Proof. apply harmless_tx. intros d. unfold CreateClaim. by repeat case_match. Qed.
Lemma harmless_RenewClaim i u : within harmless (tx (RenewClaim i u)).
Proof. by apply harmless_tx. Qed.
Lemma harmless_CompleteClaim i u : within harmless (tx (CompleteClaim i u)).
Proof. by apply harmless_tx. Qed.

(** Transactions on one row. *)
Lemma besides_tx {A : Type} X (f : txn A) :
  (forall d j, j <> X -> transfers (snd (f d)) !! j = transfers d !! j) -> within (besides X) (tx f).
Proof.
  intros Hf. assert (G : forall w, besides X w (snd (tx_step f w))).
  { intros w. unfold tx_step. specialize (Hf (db w)). destruct (f (db w)). split; [done|]. intros j Hj. split; [by apply Hf|].
    by apply live_kept_eq. }
  apply within_act; [exact G|]. intros g n w [= <-]. by destruct n; [|apply G].
Qed.
Lemma besides_touch {A : Type} X (f : txn A) : (forall d j, (j <> X -> transfers (snd (f d)) !! j = transfers d !! j) /\
    (transfers d !! j = None -> transfers (snd (f d)) !! j = None)) -> within (besides X) (tx f).
Proof. intros Hf. apply besides_tx. intros d j. apply Hf. Qed.
Lemma besides_SetState X s : within (besides X) (tx (SetState X s)).
Proof. apply besides_touch. intros d j. apply touches_update. Qed.
Lemma besides_Fail X e : within (besides X) (tx (Fail X e)).
Proof. apply besides_touch. intros d j. apply touches_update. Qed.
Lemma besides_SetNote X n t : within (besides X) (tx (SetNoteAndTTL X n t)).
Proof. apply besides_touch. intros d j. apply touches_update. Qed.
Lemma besides_AddWire X n : within (besides X) (tx (AddWireBytes X n)).
Proof. apply besides_touch. intros d j. apply touches_update. Qed.
Lemma besides_Purge X : within (besides X) (tx (Purge X)).
Proof. apply besides_tx. intros d j Hj. cbn. by rewrite lookup_delete_ne. Qed.
Lemma besides_CreateTransfer X t : t_ID t = X -> within (besides X) (tx (CreateTransfer t)).
Proof.
  intros <-. apply besides_tx. intros d j Hj. unfold CreateTransfer. repeat case_match; cbn; try done; by rewrite lookup_insert_ne.
Qed.
Lemma besides_store_Publish X now ttl dg b : within (besides X) (store_Publish X now ttl dg b).
Proof.
  assert (G : forall w, besides X w (snd (Publish_step X now ttl dg b w))).
  { intros w. unfold Publish_step, tx_step. cbn [db set_rpos]. set (bufs := map _ _).
    assert (Hb : Forall (fun b => length b = 8%nat) bufs).
    { apply Forall_map, Forall_forall. intros k _. unfold bytes_at. by rewrite length_map, length_seq. }
    destruct (Publish bufs X now ttl dg b (db w)) as [r d'] eqn:E. apply Publish_spec in E; [|done].
    split; [done|]. intros j Hj. split; [|by apply live_kept_eq]. cbn.
    destruct r as [e|t]; [by subst|]. destruct E as (row & _ & _ & _ & [(_ & _ & _ & ->)|(_ & _ & _ & _ & _ & _ & ->)]);
      [done|by apply touches_update]. }
  apply within_act; [exact G|]. intros g n w [= <-]. by destruct n; [|apply G].
Qed.

(** Directory calls in one live directory, and its creation. *)
Lemma besides_in_live {A : Type} X id (p : prog tree A) : quiet p -> within (besides X) (in_live id p).
Proof.
  intros Hq I w HI. assert (G : forall w1, live_from id w w1 -> besides X w w1).
  { intros w1 Hl. split; [destruct (lf_clock _ _ _ Hl) as (_ & _ & ->); lia|]. intros j _.
    split; [by rewrite (lf_db _ _ _ Hl)|]. destruct (decide (j = id)) as [->|Hj]; [by apply (lf_same _ _ _ Hl)|].
    unfold live_kept, tree_of. by rewrite (lf_live _ _ _ Hl). }
  apply (wp_in_live id p I (fun _ _ => True)); [by apply (wp_within same)| |]; intros; [apply HI|]; by apply G.
Qed.

Lemma besides_layout_Publish X : within (besides X) (layout_Publish X).
Proof.
  unfold layout_Publish. pose proof (within_besides X _ harmless_sync). pose proof (within_besides X _ (harmless_stat live X)).
  within_solve. apply within_act; [|by intros f n w [= <-]].
  intros w. unfold rename_to_live. case_match; [done|]. case_match; [done|]. split; [cbn; lia|].
  intros j Hj. split; [done|]. unfold live_kept, tree_of. cbn. by rewrite lookup_insert_ne.
Qed.

(** ** What an operation may do to published transfers *)

(** Nothing to a COMMITTED transfer that is not due when it ends. *)
Definition guarded (w w' : world) : Prop :=
  (clock w <= clock w')%Z /\
  forall id r, transfers (db w) !! id = Some r -> c_state r = StateCommitted -> due (clock w') r = false ->
    transfers (db w') !! id = Some r /\ live_kept id w w'.

Lemma Unix_mono a b : (a <= b)%Z -> (Unix a <= Unix b)%Z.
Proof. unfold Unix. intros. by apply Z.div_le_mono. Qed.

Lemma due_later now now' r : (now <= now')%Z -> due now' r = false -> due now r = false.
Proof.
  unfold due. intros Hn. destruct (bool_decide _); [|done]. cbn. destruct (c_expires_at r) as [e|]; [|done].
  pose proof (Unix_mono _ _ Hn). rewrite !Z.leb_gt. lia.
Qed.

#[export] Instance guarded_preorder : PreOrder guarded.
Proof.
  split; [intros w; split; [lia|]; by intros id r Hr _ _|]. intros w1 w2 w3 [C1 H1] [C2 H2]. split; [lia|].
  intros id r Hr Hc Hd. destruct (H1 id r Hr Hc) as [Hr2 L1]; [by eapply due_later|].
  destruct (H2 id r Hr2 Hc Hd) as [Hr3 L2]. split; [done|]. unfold live_kept in *. by etrans.
Qed.

Lemma besides_guarded X w w' : (forall r, transfers (db w) !! X = Some r -> c_state r <> StateCommitted) ->
  besides X w w' -> guarded w w'.
Proof.
  intros HX [Hc H]. split; [done|]. intros id r Hr Hcr _. destruct (decide (id = X)) as [->|Hne]; [by apply HX in Hr|].
  destruct (H id Hne) as [E L]. by rewrite E.
Qed.
Lemma harmless_guarded w w' : harmless w w' -> guarded w w'.
Proof. intros (Hc & E & El). split; [done|]. intros id r Hr _ _. rewrite E. split; [done|]. by apply live_kept_eq. Qed.
Lemma within_guarded {A : Type} (p : prog world A) : within harmless p -> within guarded p.
Proof. apply within_mono. intros w w'. apply harmless_guarded. Qed.
Lemma guarded_in_live {A : Type} id (p : prog tree A) : quiet p -> within guarded (in_live id p).
Proof.
  intros Hq I w HI. assert (G : forall w1, live_from id w w1 -> guarded w w1).
  { intros w1 Hl. split; [destruct (lf_clock _ _ _ Hl) as (_ & _ & ->); lia|]. intros j r Hr _ _.
    split; [by rewrite (lf_db _ _ _ Hl)|]. destruct (decide (j = id)) as [->|Hj]; [by apply (lf_same _ _ _ Hl)|].
    unfold live_kept, tree_of. by rewrite (lf_live _ _ _ Hl). }
  apply (wp_in_live id p I (fun _ _ => True)); [by apply (wp_within same)| |]; intros; [apply HI|]; by apply G.
Qed.

(** A program that works on a transfer which is not published. *)
Lemma wp_besides {A : Type} X (p : prog world A) w0 w : guarded w0 w ->
  (forall r, transfers (db w) !! X = Some r -> c_state r <> StateCommitted) ->
  within (besides X) p -> wp (guarded w0) p (fun _ => guarded w0) w.
Proof.
  intros Hg HX Hp. assert (H : forall w', besides X w w' -> guarded w0 w').
  { intros w' Hb. etrans; [exact Hg|]. by eapply besides_guarded. }
  by apply (wp_within (besides X)).
Qed.

#[local] Hint Resolve within_besides within_guarded harmless_ask harmless_ask_rows harmless_Now harmless_Usage harmless_sync
  harmless_stat harmless_list harmless_rand harmless_in_staging harmless_RemoveStaging harmless_InsertSegment
  harmless_SetSegmentProgress harmless_CreateClaim harmless_RenewClaim harmless_CompleteClaim besides_SetState
  besides_Fail besides_SetNote besides_AddWire besides_Purge besides_store_Publish besides_in_live
  besides_layout_Publish guarded_in_live : within.

Lemma harmless_New p : within harmless (New p).
Proof. unfold New. within_solve. Qed.
Lemma harmless_Upload : within harmless ids_Upload.
Proof. apply harmless_New. Qed.
Lemma harmless_Segment : within harmless ids_Segment.
Proof. apply harmless_New. Qed.
Lemma harmless_Claim : within harmless ids_Claim.
Proof. apply harmless_New. Qed.
Lemma harmless_Token : within harmless ids_Token.
Proof. unfold ids_Token. within_solve. Qed.
Lemma harmless_cache {A : Type} (f : world -> A * manifestCache) (step : world -> A * world) :
  (forall w, step w = (fst (f w), set_cache (snd (f w)) w)) -> within harmless (act_ step).
Proof. intros Hs. apply harmless_act; [|done]. intros w. by rewrite Hs. Qed.
#[local] Hint Resolve harmless_New harmless_Upload harmless_Segment harmless_Claim harmless_Token : within.

Section operations.
Context {UC : Unicode} {EX : Externals} {MC : ManifestCodec}.
Context (cfg : Server).

(** *** Receivers *)

Lemma harmless_cache_get id : within harmless (act_ (fun w => (cache_get id (cache w), w))).
Proof. by apply harmless_act. Qed.
Lemma harmless_cache_put id m : within harmless (act_ (fun w => (tt, set_cache (cache_put id m (cache w)) w))).
Proof. by apply harmless_act. Qed.
Lemma harmless_Invalidate id : within harmless (InvalidateManifest id).
Proof. by apply harmless_act. Qed.
#[local] Hint Resolve harmless_cache_get harmless_cache_put harmless_Invalidate : within.

Lemma guarded_Manifest t : within guarded (service_Manifest t).
Proof. unfold service_Manifest. pose proof quiet_ReadManifest. within_solve. Qed.
Lemma guarded_authorize c t : within guarded (authorizeClaim c t).
Proof. unfold authorizeClaim. within_solve. Qed.
Lemma guarded_renew c : within guarded (renew c).
Proof. unfold renew. within_solve. Qed.
#[local] Hint Resolve guarded_Manifest guarded_authorize guarded_renew : within.
Lemma guarded_claimSegment c t s : within guarded (claimSegment c t s).
Proof. unfold claimSegment. within_solve. Qed.
#[local] Hint Resolve guarded_claimSegment : within.

(** A row that lookupCommitted expires is due. *)
Lemma guarded_lookup code : within guarded (lookupCommitted code).
Proof.
  intros I w HI. unfold lookupCommitted. destruct (NormalizeCode code) as [c|]; [|cbn; done].
  apply wp_bind, wp_act. intros r w0 Hr. assert (w0 = w) as -> by (destruct Hr as [[=]|(? & ? & [= <-] & [=])]; congruence).
  split; [by apply HI|]. destruct r as [[]|t]; try done.
  destruct (claimable (t_State t)); [done|]. destruct (IsZero (t_ExpiresAt t)) eqn:Ez; [done|].
  assert (Hrow : exists row, transfers (db w) !! t_ID t = Some row /\ t = scanTransfer (t_ID t) row).
  { destruct Hr as [[= E]|(? & ? & [= <-] & [=])]. unfold GetTransferByCode in E. apply found_inr in E.
    apply fmap_Some in E as ([id r] & E & ->). apply row_by_code_Some in E as [E1 _]. cbn. eauto. }
  destruct Hrow as (row & Hrow & Et). apply wp_bind, wp_act. intros now w1 Hnow.
  assert (E1 : db w1 = db w /\ live w1 = live w /\ clock w1 = now /\ (clock w <= now)%Z).
  { destruct Hnow as [[= <- <-]|(? & n & [= <-] & [= <- <-])]; cbn; split_and!; try done; lia. }
  destruct E1 as (Ed & El & Ek & Hle).
  assert (Hg : guarded w w1) by (apply harmless_guarded; split_and!; [lia|by rewrite Ed|done]).
  split; [by apply HI|]. unfold Before. destruct (Z.ltb_spec now (t_ExpiresAt t)) as [|Hx]; cbn [negb]; [done|].
  assert (G : forall w2, besides (t_ID t) w1 w2 -> guarded w w2).
  { intros w2 [Hc H]. split; [lia|]. intros j rj Hj Hcj Hd. destruct (decide (j = t_ID t)) as [->|Hne].
    - exfalso. assert (rj = row) as -> by congruence. revert Hd. unfold due. rewrite (bool_decide_eq_true_2 _ Hcj). cbn.
      rewrite Et in Hx, Ez. cbn in Hx, Ez. unfold IsZero, time_from_null in Hx, Ez.
      destruct (c_expires_at row) as [e|]; [|done]. rewrite Z.leb_gt. unfold from_unix, Unix in *.
      assert (e <= now / second)%Z by (apply Z.div_le_lower_bound; [done|lia]).
      pose proof (Unix_mono now (clock w2) ltac:(lia)). unfold Unix in *. lia.
    - destruct (H j Hne) as [E L]. rewrite E, Ed. split; [done|]. unfold live_kept in *. by rewrite <- El. }
  apply wp_bind. apply (wp_within (besides (t_ID t))); [auto with within|intros w2 H2; by apply HI, G|].
  intros a w2 H2. cbn. by apply G.
Qed.
#[local] Hint Resolve guarded_lookup : within.

Lemma guarded_receive :
  (forall code, within guarded (Metadata code)) /\ (forall code, within guarded (OpenDownload cfg code)) /\
  (forall code, within guarded (service_CreateClaim code)) /\
  (forall c t s, within guarded (ClaimSegmentFile cfg c t s)) /\
  (forall c t s, within guarded (ClaimOutboardFile c t s)) /\
  (forall c t, within guarded (service_CompleteClaim c t)) /\ (forall code, within guarded (LocalPath cfg code)).
Proof.
  split_and!; intros; unfold Metadata, OpenDownload, service_CreateClaim, ClaimSegmentFile, ClaimOutboardFile,
    service_CompleteClaim, LocalPath, outboardsPresent; within_solve.
Qed.

(** *** Senders *)

(** Idle calls, with the clock going forward: the next identifier stays the same. *)
Definition idler (w w' : world) : Prop := idle w w' /\ harmless w w'.
#[local] Instance idler_preorder : PreOrder idler.
Proof. split; [by intros w|]. intros w1 w2 w3 [? ?] [? ?]. split; by etrans. Qed.

Lemma idler_ask {A : Type} (q : query A) : within idler (ask q).
Proof. apply within_act; [done|]. by intros f n w [= <-]. Qed.
Lemma idler_Usage : within idler Usage.
Proof. apply within_act; [done|]. intros f [|n] w [= <-]; done. Qed.
#[local] Hint Resolve idler_ask idler_Usage : within.
Lemma idler_Admit n : within idler (adm_Admit cfg n).
Proof. unfold adm_Admit. within_solve. Qed.
Lemma idler_CheckStreaming : within idler (adm_CheckStreaming cfg).
Proof. unfold adm_CheckStreaming. within_solve. Qed.
Lemma harmless_CheckStreaming : within harmless (adm_CheckStreaming cfg).
Proof. unfold adm_CheckStreaming. within_solve. Qed.
#[local] Hint Resolve harmless_CheckStreaming : within.

(** A transfer is created under the next identifier, which has no row. *)
Lemma wp_created {B : Type} (p : prog world (option ecode)) (f : option ecode -> prog world (ecode + B)) w :
  within idler p -> (forall e w1, guarded w w1 -> wp (guarded w) (f (Some e)) (fun _ => guarded w) w1) ->
  (forall w1, guarded w w1 -> next_id w1 = next_id w -> transfers (db w1) = transfers (db w) ->
     wp (guarded w) (f None) (fun _ => guarded w) w1) ->
  wp (guarded w) (bind p f) (fun _ => guarded w) w.
Proof.
  intros Hp He Hf. apply wp_bind. apply (wp_within idler); [done|by intros w1 [_ H]; apply harmless_guarded|].
  intros [e|] w1 [Hi Hh]; [by apply He, harmless_guarded|]. apply Hf; [by apply harmless_guarded| |apply Hh].
  apply (idle_fresh _ _ Hi).
Qed.

Lemma wp_new_transfer {B : Type} (f : string -> prog world B) w0 w : guarded w0 w ->
  (forall w1, guarded w0 w1 -> transfers (db w1) = transfers (db w) ->
     wp (guarded w0) (f (next_id w)) (fun _ => guarded w0) w1) ->
  wp (guarded w0) (bind ids_Transfer f) (fun _ => guarded w0) w.
Proof.
  intros Hg Hf. unfold ids_Transfer, New, rand_Read, act_, act. cbn [bind wp].
  assert (G : guarded w0 (set_rpos (rpos w + 16) w)) by (etrans; [exact Hg|]; by apply harmless_guarded).
  split; [|done]. split; [done|]. by apply Hf.
Qed.

Lemma besides_insert_plan id ups seg : within (besides id) (insert_plan id ups seg).
Proof. unfold insert_plan. within_solve. Qed.
#[local] Hint Resolve besides_insert_plan : within.

Lemma guarded_CreateTransfer req w : fresh_next w ->
  wp (guarded w) (service_CreateTransfer cfg req) (fun _ => guarded w) w.
Proof.
  intros [Hf _]. unfold service_CreateTransfer. assert (Hr : guarded w w) by done.
  destruct (ResolveTTL cfg _) as [e|ttl]; [done|]. destruct (CheckNote cfg _); [done|].
  destruct (negb _); [|done]. destruct (negb _); [|done]. destruct (check_plans _ _ _) as [e|declared]; [done|].
  apply wp_created; [apply idler_Admit|done|]. intros w1 Hg1 Hid Ht. apply wp_new_transfer; [done|].
  intros w2 Hg2 Ht2. rewrite Hid. apply (wp_besides (next_id w)); [done| |].
  - intros r. rewrite Ht2, Ht, Hf. done.
  - unfold PrepareStaging. pose proof (fun t => besides_CreateTransfer (next_id w) t) as Hc. within_solve.
Qed.

Lemma besides_finishPatch seg n : within (besides (s_TransferID seg)) (finishPatch seg n).
Proof. unfold finishPatch. within_solve. Qed.
#[local] Hint Resolve besides_finishPatch : within.

Lemma besides_patch_loop seg p offset remaining failing cs written since :
  within (besides (s_TransferID seg)) (patch_loop cfg seg p offset remaining failing cs written since).
Proof.
  revert written since. induction cs as [|c cs IH]; intros written since; cbn [patch_loop]; within_solve.
Qed.
#[local] Hint Resolve besides_patch_loop : within.

(** A query that answered from the database it was asked of. *)
Lemma wp_guarded_ask {A B : Type} (q : query A) (f : serr + A -> prog world B) w0 w : guarded w0 w ->
  (forall e, wp (guarded w0) (f (inl e)) (fun _ => guarded w0) w) ->
  (forall a, q (db w) = inr a -> wp (guarded w0) (f (inr a)) (fun _ => guarded w0) w) ->
  wp (guarded w0) (bind (ask q) f) (fun _ => guarded w0) w.
Proof.
  intros Hg He Ha. apply wp_bind, wp_act. intros r w1 [[= <- <-]|(? & ? & [= <-] & [= <- <-])]; (split; [done|]); [|done].
  destruct (q (db w)) eqn:E; auto.
Qed.

Lemma GetTransfer_row id (d : DB) t : GetTransfer id d = inr t ->
  exists row, transfers d !! id = Some row /\ t = scanTransfer id row.
Proof. unfold GetTransfer. intros Hf%found_inr. by apply fmap_Some in Hf. Qed.

Lemma guarded_UploadPatch uploadID offset body w :
  wp (guarded w) (UploadPatch cfg uploadID offset body) (fun _ => guarded w) w.
Proof.
  unfold UploadPatch, acquireUpload. apply wp_bind, (wp_within guarded); [auto with within|done|].
  intros [e|[]] w1 Hg; [done|]. apply wp_guarded_ask; [done|by intros []|]. intros seg _.
  apply wp_guarded_ask; [done|done|]. intros t Ht. apply GetTransfer_row in Ht as (row & Hrow & ->).
  cbn [scanTransfer t_State t_ID]. destruct (bool_decide _ || bool_decide _) eqn:Est; cbn [negb]; [|done].
  apply (wp_besides (s_TransferID seg)); [done| |within_solve].
  intros r Hr. assert (r = row) as -> by congruence. intros Ec. by rewrite Ec in Est.
Qed.

Lemma besides_temp_name X : within (besides X) temp_name.
Proof. unfold temp_name. within_solve. Qed.
#[local] Hint Resolve besides_temp_name : within.
Lemma besides_publish id m ttl note b : within (besides id) (publish id m ttl note b).
Proof. unfold publish, writeAndDigestManifest. within_solve. Qed.
#[local] Hint Resolve besides_publish : within.
Lemma besides_check_segment id byID u s : within (besides id) (check_segment id byID u s).
Proof. unfold check_segment. within_solve. Qed.
#[local] Hint Resolve besides_check_segment : within.

Lemma guarded_Commit id m w : wp (guarded w) (service_Commit cfg id m) (fun _ => guarded w) w.
Proof.
  unfold service_Commit. apply wp_guarded_ask; [done|by intros []|]. intros t Ht.
  apply GetTransfer_row in Ht as (row & Hrow & ->). destruct (Committed_ _); [done|].
  destruct (precommit _) eqn:Ep; [|done]. apply (wp_besides id); [done| |within_solve].
  intros r Hr Hc. assert (r = row) as -> by congruence. cbn in Ep. by rewrite Hc in Ep.
Qed.

(** *** Simple uploads: the session keeps its transfer *)

Definition keeps_session (X : string) (w0 : world) (r : ecode + SimpleSession) (w : world) : Prop :=
  besides X w0 w /\ forall s, r = inr s -> ss_id s = X.

Lemma besides_add_loop X t b failing cs n since : within (besides X) (add_loop cfg X t b failing cs n since).
Proof. revert n since. induction cs as [|c cs IH]; intros n since; cbn [add_loop]; within_solve. Qed.
#[local] Hint Resolve besides_add_loop : within.

(** A call of which only the frame matters, before the answer is built. *)
Lemma wp_besides_step {A B : Type} X w0 (p : prog world A) (f : A -> prog world B) (Q : B -> world -> Prop) w :
  besides X w0 w -> within (besides X) p ->
  (forall a w1, besides X w0 w1 -> wp (besides X w0) (f a) Q w1) -> wp (besides X w0) (bind p f) Q w.
Proof.
  intros Hb Hp Hf. apply wp_bind. apply (wp_within (besides X)); [done|intros w1 H1; by etrans|].
  intros a w1 H1. apply Hf. by etrans.
Qed.

Lemma AddFile_session X name r s w0 w : besides X w0 w -> ss_id s = X ->
  wp (besides X w0) (AddFile cfg name r s) (keeps_session X w0) w.
Proof.
  intros Hb Hid. unfold AddFile. assert (He : forall e w1, besides X w0 w1 -> keeps_session X w0 (inl e) w1) by done.
  rewrite Hid. unfold bindE, orE. repeat (case_match; [by apply He|]). destruct (negb _); [|by apply He].
  destruct (negb _); [|by apply He]. destruct (SafeJoinIn _ _ _); [|by apply He].
  apply wp_besides_step; [done|auto with within|]. intros [e|[]] w1 H1; [by apply He|].
  apply wp_besides_step; [done|auto with within|]. intros [e|[n since]] w2 H2; [by apply He|].
  do 2 (apply wp_besides_step; [done|auto with within|]; intros [?|[]] ? ?; [by apply He|]).
  do 2 (apply wp_besides_step; [done|auto with within|]; intros ? ? ?).
  split; [done|]. by intros s' [= <-].
Qed.

Lemma do_part_session X s p w0 w : besides X w0 w -> ss_id s = X ->
  wp (besides X w0) (do_part cfg s p) (keeps_session X w0) w.
Proof.
  intros Hb Hid. destruct p as [name r|note|m|e]; cbn [do_part].
  - by apply AddFile_session.
  - split; [done|]. unfold SetNote. destruct (CheckNote cfg note); [done|]. by intros s' [= <-].
  - split; [done|]. unfold SetTTL. destruct (ResolveTTL cfg m); [done|]. by intros s' [= <-].
  - done.
Qed.

Lemma besides_session_Commit s : within (besides (ss_id s)) (session_Commit s).
Proof. unfold session_Commit. within_solve. Qed.
Lemma besides_session_Abort s : within (besides (ss_id s)) (session_Abort s).
Proof. unfold session_Abort. within_solve. Qed.
Lemma besides_parts (forget : prog world unit) parts s : within (besides (ss_id s)) forget -> within (besides (ss_id s)) (
    r <- loop (do_part cfg) s parts ;;
    match r with
    | inl e => forget ;;; session_Abort s ;;; Ret (inl e)
    | inr s' =>
      c <- session_Commit s' ;;
      match c with
      | inl e => forget ;;; session_Abort s' ;;; Ret (inl e)
      | inr resp => Ret (inr (ss_id s', resp))
      end
    end : prog world (ecode + string * CommitResponse)).
Proof.
  intros Hforget I w HI. assert (H : forall w', besides (ss_id s) w w' -> I w') by done. clear HI.
  eapply (wp_mono (besides (ss_id s) w) I _ (fun _ => besides (ss_id s) w)); [done|done|].
  assert (Hfail : forall e s' w1, besides (ss_id s) w w1 -> ss_id s' = ss_id s ->
    wp (besides (ss_id s) w) (forget ;;; session_Abort s' ;;; Ret (inl e : ecode + string * CommitResponse))
      (fun _ => besides (ss_id s) w) w1).
  { intros e s' w1 Hb Hid. apply wp_besides_step; [done|done|]. intros [] w2 H2. rewrite <- Hid in *.
    apply wp_besides_step; [done|apply besides_session_Abort|done]. }
  apply wp_bind. eapply wp_wand.
  - apply (wp_loop _ _ (fun _ s' w' => besides (ss_id s) w w' /\ ss_id s' = ss_id s) (keeps_session (ss_id s) w)).
    + done.
    + intros s' w' [Hb Hid]. split; [done|]. by intros s2 [= <-].
    + intros p l s' w' [Hb Hid]. eapply wp_wand; [by apply do_part_session|]. intros [e|s2] w2 [Hb2 Hs2]; [done|].
      split; [done|]. by apply Hs2.
  - intros [e|s'] w1 [Hb Hid]; [by apply Hfail|]. specialize (Hid s' eq_refl). rewrite <- Hid in Hb |- *.
    apply wp_besides_step; [done|apply besides_session_Commit|]. intros [e|resp] w2 H2; [|done].
    rewrite Hid in H2 |- *. by apply Hfail.
Qed.

Lemma BeginSimple_session w : wp (besides (next_id w) w) (BeginSimple cfg) (keeps_session (next_id w) w) w.
Proof.
  unfold BeginSimple. set (X := next_id w). apply wp_bind. apply (wp_within idler); [apply idler_CheckStreaming| |].
  { intros w1 [_ H]. by apply harmless_besides. }
  intros [e|] w1 [Hi Hh]; [split; [by apply harmless_besides|done]|].
  assert (Hid : next_id w1 = X) by apply (idle_fresh _ _ Hi). apply (harmless_besides X) in Hh.
  unfold ids_Transfer at 1, New, rand_Read, act_, act at 1. cbn [bind wp]. fold (next_id w1). rewrite Hid.
  set (w2 := set_rpos _ w1). assert (H2 : besides X w w2) by (etrans; [exact Hh|]; by apply harmless_besides).
  split; [|done]. split; [done|]. clearbody w2. unfold PrepareStaging, orE.
  apply wp_besides_step; [done|auto with within|]. intros [e|[]] w3 H3; [done|].
  apply wp_besides_step; [done|auto with within|]. intros now w4 H4.
  apply wp_besides_step; [done|by apply besides_CreateTransfer|]. intros [e|[]] w5 H5.
  - apply wp_besides_step; [done|auto with within|]. intros ? w6 H6. split; [done|]. done.
  - split; [done|]. by intros s [= <-].
Qed.

Lemma guarded_simple (forget : prog world unit) parts w0 w : guarded w0 w -> within harmless forget -> fresh_next w ->
  wp (guarded w0) (simple_session cfg forget parts) (fun _ => guarded w0) w.
Proof.
  intros Hg Hforget [Hf _]. assert (HX : forall w', besides (next_id w) w w' -> guarded w0 w').
  { intros w' Hb. etrans; [exact Hg|]. eapply besides_guarded; [|exact Hb]. intros r. by rewrite Hf. }
  eapply (wp_mono (besides (next_id w) w) _ _ (fun _ => besides (next_id w) w)); [done|by intros a; apply HX|].
  unfold simple_session. apply wp_bind. eapply wp_wand; [apply BeginSimple_session|].
  intros [e|s] w1 [Hb Hid]; [apply wp_besides_step; [done|by apply within_besides|done]|]. rewrite <- (Hid s eq_refl) in *.
  apply (wp_within (besides (ss_id s))); [by apply besides_parts, within_besides|intros w2 H2; by etrans|intros a w2 H2; by etrans].
Qed.

(** *** Cleanup *)

Definition later (w w' : world) : Prop := (clock w <= clock w')%Z.
#[local] Instance later_preorder : PreOrder later.
Proof. split; [intros w; unfold later; lia|]. unfold later. intros w1 w2 w3. lia. Qed.
Lemma later_same_clock {A : Type} (p : prog world A) : within same_clock p -> within later p.
Proof. apply within_mono. unfold later, same_clock. lia. Qed.
Lemma later_Sweep : within later (Sweep cfg).
Proof.
  unfold Sweep, abandon, delete_one. pose proof (clock_trash _ trash_EmptyTrash). pose proof clock_Invalidate.
  pose proof clock_ToTrash. pose proof @clock_tx. pose proof @clock_ask_rows. pose proof @later_same_clock.
  assert (within later Now) by (apply (within_mono harmless); [by intros w w' (? & _)|auto with within]).
  within_solve.
Qed.

Lemma spared_guarded w w' : later w w' -> spared w w' -> guarded w w'.
Proof.
  intros Hl Hs. split; [done|]. intros id r Hr Hc Hd.
  destruct (Hs id) as (El & _ & Hrow); [right; by exists r|]. split; [by apply Hrow|]. unfold live_kept, tree_of. by rewrite El.
Qed.

Lemma guarded_Sweep w : wp (guarded w) (Sweep cfg) (fun _ => guarded w) w.
Proof.
  eapply (wp_mono (fun w' => later w w' /\ spared w w') _ _ (fun _ w' => later w w' /\ spared w w')).
  - intros w' []. by apply spared_guarded.
  - intros a w' []. by apply spared_guarded.
  - apply wp_and; [|apply sweep_wp]. by apply (wp_within later _ _ _ _ later_Sweep).
Qed.

(** ** Every request *)

Lemma keyed_harmless w w' : keyed (ST := leniently) w w' -> harmless w w'.
Proof. by intros (_ & ? & ? & ? & _). Qed.
Lemma within_keyed_harmless {A : Type} (p : prog world A) : within (keyed (ST := leniently)) p -> within harmless p.
Proof. apply within_mono, keyed_harmless. Qed.
Lemma harmless_complete h t c : within harmless (completeIdempotent h t c).
Proof. apply within_keyed_harmless, keyed_complete. Qed.
Lemma harmless_forget h : within harmless (forget h).
Proof. apply within_keyed_harmless, keyed_forget. Qed.
#[local] Hint Resolve harmless_complete harmless_forget : within.

Lemma wp_guarded_begin {B : Type} q op (f : ecode + string * string -> prog world B) w :
  (forall r w1, guarded w w1 -> (fresh_next w -> fresh_next w1) -> wp (guarded w) (f r) (fun _ => guarded w) w1) ->
  wp (guarded w) (bind (beginIdempotent q op) f) (fun _ => guarded w) w.
Proof.
  intros Hf. assert (Hk : forall w1, keyed (ST := leniently) w w1 -> guarded w w1) by (intros w1 H; by apply harmless_guarded, keyed_harmless).
  apply wp_bind, (wp_within (keyed (ST := leniently))); [apply keyed_begin|done|]. intros r w1 H1. apply Hf; [by apply Hk|].
  by apply (keyed_fresh (ST := leniently)).
Qed.

(** An operation and calls that only look or change keys. *)
Lemma wp_guarded_then {A B : Type} (p : prog world A) (f : A -> prog world B) w0 w :
  wp (guarded w0) p (fun _ => guarded w0) w -> (forall a, within guarded (f a)) ->
  wp (guarded w0) (bind p f) (fun _ => guarded w0) w.
Proof.
  intros Hp Hf. apply wp_bind. eapply wp_wand; [exact Hp|]. intros a w1 Hg. cbn beta in Hg.
  apply (wp_within guarded); [by apply Hf|intros w2 H2; by etrans|intros b w2 H2; by etrans].
Qed.
Lemma guarded_upload q h ps w0 w : guarded w0 w -> fresh_next w ->
  wp (guarded w0) (upload_session cfg q h ps) (fun _ => guarded w0) w.
Proof.
  intros Hg Hf. apply wp_guarded_then; [by apply guarded_simple; [|apply harmless_forget|]|]. intros [e|[id resp]]; within_solve.
Qed.
Lemma wp_guarded_calls {A : Type} (p : prog world A) w0 w : guarded w0 w -> within guarded p ->
  wp (guarded w0) p (fun _ => guarded w0) w.
Proof. intros Hg Hp. apply (wp_within guarded); [done|intros w2 H2; by etrans|intros b w2 H2; by etrans]. Qed.

Lemma guarded_PostSimple q form w : fresh_next w -> wp (guarded w) (handleSimpleUpload cfg q form) (fun _ => guarded w) w.
Proof.
  intros Hf. unfold handleSimpleUpload. apply wp_guarded_begin. intros [e|[h replay]] w1 Hg Hf1; [done|].
  destruct (negb _); [done|]. destruct form as [form|]; [by apply guarded_upload; [|apply Hf1]|].
  apply wp_guarded_calls; [done|within_solve].
Qed.
Lemma guarded_PostRaw q data w : fresh_next w -> wp (guarded w) (handleRawUpload cfg q data) (fun _ => guarded w) w.
Proof.
  intros Hf. unfold handleRawUpload. apply wp_guarded_begin. intros [e|[h replay]] w1 Hg Hf1; [done|].
  destruct (negb _); [done|]. destruct (_ =? "")%string; [apply wp_guarded_calls; [done|within_solve]|].
  destruct (SimpleRawTTL cfg _); [apply wp_guarded_calls; [done|within_solve]|by apply guarded_upload; [|apply Hf1]].
Qed.
Lemma guarded_from {A : Type} (p : prog world A) w0 w : guarded w0 w -> wp (guarded w) p (fun _ => guarded w) w ->
  wp (guarded w0) p (fun _ => guarded w0) w.
Proof. intros Hg. apply wp_mono; [intros w1 H1; by etrans|intros a w1 H1; by etrans]. Qed.
Lemma guarded_PostTransfers q req w : fresh_next w -> wp (guarded w) (handleCreateTransfer cfg q req) (fun _ => guarded w) w.
Proof.
  intros Hf. unfold handleCreateTransfer. apply wp_guarded_begin. intros [e|[h replay]] w1 Hg Hf1; [done|].
  destruct (negb _); [done|]. destruct req as [req|]; [|apply wp_guarded_calls; [done|within_solve]].
  apply wp_guarded_then; [apply guarded_from; [done|by apply guarded_CreateTransfer, Hf1]|]. intros [e|resp]; within_solve.
Qed.
Lemma guarded_GetDownload q code format : within guarded (handleDownload cfg q code format).
Proof.
  destruct guarded_receive as (_ & H & _). unfold handleDownload, serveRawFile, AcquireDownload. within_solve.
Qed.

Lemma handle_guarded r w : admissible r w -> wp (guarded w) (handle cfg r) (fun _ => guarded w) w.
Proof.
  intros Ha. assert (Hg : guarded w w) by done.
  assert (W' : forall p : prog world response, within guarded p -> wp (guarded w) p (fun _ => guarded w) w)
    by (intros p Hp; by apply (wp_within guarded)).
  destruct guarded_receive as (H1 & H2 & H3 & H4 & H5 & H6 & H7).
  destruct r; cbn [handle admissible] in *; try (by apply W').
  - apply W'. unfold handleInfo, service_Info, adm_Status. within_solve.
  - destruct Ha. by apply guarded_PostSimple.
  - destruct Ha. by apply guarded_PostRaw.
  - apply W', guarded_GetDownload.
  - apply W'. unfold handleMetadata. within_solve.
  - by apply guarded_PostTransfers.
  - unfold handleCommit. destruct m as [m|]; [|done]. apply wp_guarded_then; [by apply guarded_Commit|]. intros a. within_solve.
  - apply W'. unfold handleUploadHead, UploadState. within_solve.
  - unfold handleUploadPatch. cbv zeta. do 2 (destruct (_ && _); [done|]). destruct (Atoi _); [|done].
    destruct (_ <? 0)%Z; [done|]. apply wp_guarded_then; [by apply guarded_UploadPatch|]. intros [n e]. within_solve.
  - apply W'. unfold handleCreateClaim. within_solve.
  - apply W'. unfold handleClaimSegment, AcquireDownload. within_solve.
  - apply W'. unfold handleClaimOutboard. within_solve.
  - apply W'. unfold handleClaimComplete. within_solve.
  - apply W'. unfold handleLocalReceive. within_solve.
  - apply W'. unfold handleStatus, service_Status, adm_Status. within_solve.
  - unfold handleCleanup. apply wp_guarded_then; [apply guarded_Sweep|]. intros a. within_solve.
Qed.
End operations.

(** ** Restarts without I/O errors *)
Section restart.
#[local] Existing Instance strictly.
Context {UC : Unicode} {EX : Externals} {MC : ManifestCodec}.
Context (cfg : Server).
Notation running := (startup (ST := strictly)).

Lemma trash_harmless {A : Type} (p : prog world A) : within trash_only p -> within harmless p.
Proof. apply within_mono. intros w w' (E & _ & El & _ & Ek). split; [lia|]. by rewrite E, El. Qed.

Lemma besides_trash_one area set id : (forall (a : gmap string tree) w, clock (set a w) = clock w /\ db (set a w) = db w) ->
  (forall w, forall j, j <> id -> live_kept j w (set (delete id (area w)) w)) -> within (besides id) (trash_one area set id).
Proof.
  intros Hset Hlive. unfold trash_one.
  assert (Hr : within (besides id) (act (rename_to_trash area set id) (Some (fun _ w => (inl ErrOther : oserr + unit, w))))).
  { apply within_act; [|by intros f n w [= <-]]. intros w. unfold rename_to_trash.
    destruct (negb _); [done|]. destruct (negb _); [done|]. destruct (Hset (delete id (area w)) w) as [E1 E2].
    split; [cbn; lia|]. intros j Hj. split; [cbn; by rewrite E2|]. by apply (Hlive w). }
  pose proof (within_besides id _ (trash_harmless _ (trash_stat area id))).
  pose proof (within_besides id _ (trash_harmless _ (trash_stat trash id))).
  pose proof (within_besides id _ (trash_harmless _ (trash_remove_all id))). within_solve.
Qed.

Lemma besides_ToTrash id : within (besides id) (ToTrash id).
Proof.
  unfold ToTrash.
  assert (H1 : within (besides id) (trash_one live set_live id)).
  { apply besides_trash_one; [done|]. intros w j Hj. unfold live_kept, tree_of. cbn. by rewrite lookup_delete_ne. }
  assert (H2 : within (besides id) (trash_one staging set_staging id)) by by apply besides_trash_one.
  within_solve.
Qed.

Lemma besides_finish id rep : within (besides id) (t <- ask (GetTransfer id) ;;
    match t with
    | inl _ => Ret rep
    | inr t =>
      r <- completeInterruptedPublish cfg t ;;
      Ret (match r with inl _ => rep | inr _ => bump_completed rep end)
    end).
Proof.
  apply (within_ask _ (GetTransfer id) (fun t => t_ID t = id)); [by intros d t Ht%GetTransfer_ID|intros e; within_solve|].
  intros t <-. unfold completeInterruptedPublish. pose proof quiet_ReadManifest.
  pose proof quiet_SealPayload. within_solve.
Qed.

Lemma besides_one id s rep : s <> StateCommitted -> within (besides id) (reconcile_one cfg rep (id, s)).
Proof.
  intros Hs. pose proof (besides_finish id rep). pose proof (besides_ToTrash id). pose proof quiet_ManifestExists.
  pose proof (quiet_live_valid (live_root cfg id)).
  destruct s; try done; cbn [reconcile_one]; unfold reconcile_precommit, livePayloadValid, stagingExists, ListStagingIDs;
    within_solve.
Qed.

(** A COMMITTED row passes its check, so nothing happens to it. *)
Lemma committed_guarded id rep r w : running w -> transfers (db w) !! id = Some r -> c_state r = StateCommitted ->
  wp0 (guarded w) (reconcile_committed cfg id rep) (fun _ => guarded w) w.
Proof.
  intros Hw Hr Hc. destruct (inv_ids w (su_inv w Hw) id r Hr) as [P1 P2]. unfold reconcile_committed. apply wp0_bind.
  eapply wp0_mono; [| |apply (wp0_and running (fun w1 => guarded w w1 /\ db w1 = db w) _
    (fun b w1 => running w1 /\ (b = false -> live w1 !! id = None)) (fun _ w1 => guarded w w1 /\ db w1 = db w))].
  - by intros w1 [_ [? _]].
  - intros b w1 [[Hw1 Hl] [Hg Ed]]. destruct b; [done|]. exfalso.
    eapply (running_not_committed id w1 (su_inv _ Hw1) (Hl eq_refl)); [|exact Hc]. by rewrite Ed.
  - by apply livePayloadValid_wp0.
  - apply wp_wp0, wp_and; [apply (wp_within guarded); [|done|done]|apply (wp_within (fun w w' => db w' = db w)); [|done|done]].
    + apply guarded_in_live, quiet_live_valid.
    + apply within_lift; [apply _|]. by intros t w1.
Qed.

Lemma one_guarded id s rep w : running w -> c_state <$> transfers (db w) !! id = Some s ->
  wp0 (guarded w) (reconcile_one cfg rep (id, s)) (fun _ => guarded w) w.
Proof.
  intros Hw Hs. apply fmap_Some in Hs as (r & Hr & ->). destruct (decide (c_state r = StateCommitted)) as [Hc|Hc].
  - rewrite Hc. cbn [reconcile_one]. by eapply committed_guarded.
  - apply wp_wp0, (wp_besides id); [done| |by apply besides_one]. intros r'. rewrite Hr. by intros [= <-].
Qed.

Lemma guarded_mono {A : Type} (p : prog world A) w0 w : guarded w0 w -> wp0 (guarded w) p (fun _ => guarded w) w ->
  wp0 (guarded w0) p (fun _ => guarded w0) w.
Proof. intros Hg. apply wp0_mono; intros; by etrans. Qed.

Lemma visit_guarded known rep w0 w todo : NoDup (map fst todo) -> visits known todo w -> guarded w0 w ->
  wp0 (guarded w0) (each (reconcile_one cfg) rep todo) (fun _ w1 => guarded w0 w1 /\ visits known [] w1) w.
Proof.
  intros Hnd Hv Hg. revert rep w Hnd Hv Hg. induction todo as [|[id s] todo IH]; intros rep w Hnd Hv Hg; cbn [each].
  { split; [done|]. destruct Hv as (Hw & Hk & _). split_and!; [done|done|]. by intros id s ?%elem_of_nil. }
  destruct Hv as (Hw & Hk & Hs).
  apply NoDup_cons in Hnd as [Hn Hnd]. apply wp0_bind.
  eapply wp0_mono; [| |apply (wp0_and (guarded w0) running _ (fun _ => guarded w0) (fun _ w1 => running w1 /\ touches id w w1))].
  - by intros w1 [].
  - intros rep1 w1 [Hg1 [Hw1 Ht]]. apply IH; [done| |done]. split_and!; [done| |].
    + intros j Hj. apply Ht, Hk, Hj.
    + intros j s' Hin. rewrite (proj1 (Ht j)); [apply Hs; by right|]. intros ->. apply Hn.
      apply list_elem_of_fmap. by exists (id, s').
  - apply guarded_mono; [done|]. apply one_guarded; [done|]. apply Hs. by left.
  - eapply wp0_mono; [| |apply (wp0_and running (fun _ => True) _ (fun _ w1 => running w1) (fun _ w1 => touches id w w1))].
    + by intros w1 [].
    + by intros a w1.
    + apply reconcile_one_wp0; [done|]. apply Hs. by left.
    + apply wp_wp0, (wp_within (touches id)); [apply touches_one|done|done].
Qed.

Lemma known_visits w w1 order : running w1 -> db w1 = db w -> order ≡ₚ map_to_list (c_state <$> transfers (db w)) ->
  visits (c_state <$> transfers (db w)) order w1.
Proof.
  intros Hw1 E Hord. split_and!; [done| |]; rewrite E.
  - intros j. rewrite lookup_fmap. by intros ?%fmap_None.
  - intros id s Hin. rewrite Hord in Hin. apply elem_of_map_to_list in Hin. by rewrite lookup_fmap in Hin.
Qed.

Lemma orphans_guarded known rep w0 w ids : visits known [] w -> guarded w0 w ->
  wp0 (guarded w0) (each (orphan_live known) rep ids) (fun _ => guarded w0) w.
Proof.
  revert rep w. induction ids as [|id ids IH]; intros rep w Hv Hg; cbn [each]; [done|].
  apply wp0_bind. unfold orphan_live. destruct (known !! id) eqn:E; [by apply IH|]. apply wp0_bind.
  destruct Hv as (Hw & Hk & _).
  eapply wp0_mono; [| |apply (wp0_and (guarded w0) running _ (fun _ => guarded w0) (fun _ w1 => running w1 /\ touches id w w1))].
  - by intros w1 [].
  - intros a w1 [Hg1 [Hw1 Ht]]. apply IH; [|done]. split_and!; [done| |by intros j s ?%elem_of_nil]. intros j Hj. apply Ht, Hk, Hj.
  - apply wp_wp0, (wp_besides id); [done| |apply besides_ToTrash]. rewrite Hk by done. done.
  - eapply wp0_mono; [| |apply (wp0_and running (fun _ => True) _ (fun _ w1 => running w1) (fun _ w1 => touches id w w1))].
    + by intros w1 [].
    + by intros b w1.
    + apply running_ToTrash; [done|]. rewrite Hk by done. done.
    + apply wp_wp0, (wp_within (touches id)); [apply touches_ToTrash|done|done].
Qed.

Lemma wp0_guarded {A B : Type} (p : prog world A) (f : A -> prog world B) w0 w : guarded w0 w -> within harmless p ->
  (forall a w1, guarded w0 w1 -> wp0 (guarded w0) (f a) (fun _ => guarded w0) w1) ->
  wp0 (guarded w0) (bind p f) (fun _ => guarded w0) w.
Proof.
  intros Hg Hp Hf. apply wp0_bind. assert (H : forall w1, harmless w w1 -> guarded w0 w1).
  { intros w1 H1. etrans; [exact Hg|by apply harmless_guarded]. }
  eapply wp0_wand; [apply wp_wp0, (wp_within harmless _ _ (fun _ => guarded w0)); [done|done|by intros a; apply H]|]. auto.
Qed.

Lemma restart_guarded w : running w -> wp0 (guarded w) (reconcile_Run cfg) (fun _ => guarded w) w.
Proof.
  intros Hw. unfold reconcile_Run, AllTransferIDs, ask, act. cbn [bind wp0]. split; [done|].
  set (known := c_state <$> transfers (db w)). unfold range_map, act_, act. cbn [bind wp0].
  set (w1 := set_rpos _ w). set (order := match permutations (map_to_list known) !! _ with Some l => l | None => _ end).
  assert (Hord : order ≡ₚ map_to_list known).
  { unfold order. destruct (permutations _ !! _) eqn:E; [by eapply permutations_pick|done]. }
  clearbody order. assert (Hw1 : running w1) by (split; [apply (Inv_same w); [done..|apply Hw]|apply Hw]).
  assert (Hg1 : guarded w w1) by by apply harmless_guarded. split; [done|]. apply wp0_bind.
  eapply wp0_wand; [apply (visit_guarded known _ w w1); [|by apply known_visits|done]|].
  { rewrite (Permutation_map fst Hord). apply NoDup_fst_map_to_list. }
  intros rep w2 [Hg2 Hv]. unfold ListLiveIDs, list_dir at 1, act. cbn [bind wp0]. split; [done|].
  apply wp0_bind. eapply wp0_wand; [by apply orphans_guarded|]. intros rep2 w3 Hg3. unfold ListStagingIDs.
  apply wp0_guarded; [done|apply harmless_list|]. intros [e|sids] w4 Hg4; [done|].
  apply wp0_guarded; [done|unfold orphan_staging; within_solve|].
  intros rep3 w5 Hg5. apply wp0_guarded; [done|apply trash_harmless, trash_EmptyTrash|]. done.
Qed.

(** ** Any execution *)
Context {EL : ExternalsLaws} {ML : ManifestCodecLaws}.

Lemma step_guarded s s' : Inv (sv_world s) -> step cfg faultless s s' -> guarded (sv_world s) (sv_world s').
Proof.
  intros Hw Hst. destruct Hst as [q es w Ha|t v w b Ht|w|es w He]; cbn [sv_world] in *.
  - apply (wp_sound (guarded w) _ (fun _ => guarded w) es w); [done|by apply handle_guarded].
  - by apply harmless_guarded.
  - done.
  - apply (transitivity (y := reboot w)); [by apply harmless_guarded|].
    apply (wp0_sound (guarded (reboot w)) _ (fun _ => guarded (reboot w)) es (reboot w)); [done|done|].
    apply restart_guarded, (reboot_startup w Hw).
Qed.

Lemma execution_from s s' : Inv (sv_world s) -> rtc (step cfg faultless) s s' ->
  guarded (sv_world s) (sv_world s') /\ Inv (sv_world s').
Proof.
  intros Hw Hs. induction Hs as [s|s1 s2 s3 Hst _ IH]; [done|]. destruct IH as [Hg Hr3].
  { by eapply (step_Inv cfg); [apply (faultless_restart cfg)|exact Hst|]. }
  split; [|done]. etrans; [by apply step_guarded|done].
Qed.
Lemma execution_guarded s s' : reachable cfg faultless s -> rtc (step cfg faultless) s s' ->
  guarded (sv_world s) (sv_world s') /\ reachable cfg faultless s'.
Proof.
  intros Hr Hs. split; [by apply execution_from; [apply (reachable_strict cfg)|]|].
  destruct Hr as (l & n & u & r & H). exists l, n, u, r. by etrans.
Qed.

(** ** A published code can be downloaded *)

Lemma GetTransferByCode_row (d : DB) id r c : db_ok d -> transfers d !! id = Some r -> c_code r = Some c ->
  GetTransferByCode c d = inr (scanTransfer id r).
Proof. intros Hd Hr Hc. unfold GetTransferByCode. by rewrite (row_by_code_unique d id r c Hd Hr Hc). Qed.

(** A row that is not due passes lookupCommitted's own comparison of instants. *)
Lemma not_due_before now r e : c_state r = StateCommitted -> c_expires_at r = Some e -> due now r = false ->
  (now < from_unix e)%Z.
Proof.
  intros Hc He. unfold due. rewrite (bool_decide_eq_true_2 _ Hc), He. cbn. rewrite Z.leb_gt. unfold Unix, from_unix.
  intros Hlt. assert (now / second < e)%Z by done. pose proof (Z.mod_pos_bound now second ltac:(done)).
  pose proof (Z.div_mod now second ltac:(done)). unfold second in *. lia.
Qed.

Lemma lookup_available w id r c code : Inv w -> transfers (db w) !! id = Some r -> c_state r = StateCommitted ->
  c_code r = Some c -> due (clock w) r = false -> NormalizeCode code = Some c ->
  exec (lookupCommitted code) w = (inr (scanTransfer id r), w).
Proof.
  intros Hw Hr Hc Hcode Hd Hn. unfold lookupCommitted. rewrite Hn. unfold ask, act. cbn [bind exec].
  rewrite (GetTransferByCode_row _ _ _ _ (inv_db w Hw) Hr Hcode). cbn [scanTransfer t_State t_ExpiresAt t_ID]. rewrite Hc. cbn [claimable].
  destruct (rows_ok _ (inv_db w Hw) id r Hr) as (_ & Hrow & _). destruct (Hrow Hc) as (_ & _ & [e He]).
  rewrite He. cbn [time_from_null]. destruct (IsZero (from_unix e)); [done|].
  unfold Now, act. cbn [bind exec]. unfold Before.
  rewrite (proj2 (Z.ltb_lt _ _) (not_due_before _ _ _ Hc He Hd)). done.
Qed.

Lemma ReadManifest_available tr m : manifest_of tr = Some m -> exec ReadManifest tr = (inr m, tr).
Proof.
  intros Hm. destruct (manifest_of_node tr m Hm) as (d & a & b & E & Ep).
  assert (Er : exec (ReadFile [ManifestFile]) tr = (inr d, tr)) by (cbn; rewrite (E : lookup (M := tree) ([ManifestFile] : path) tr = _); done).
  unfold ReadManifest. rewrite exec_bind, Er. cbn. by rewrite Ep.
Qed.

Lemma exec_in_live {A : Type} id (p : prog tree A) w :
  exists w', exec (in_live id p) w = (fst (exec p (tree_of (live w) id)), w').
Proof.
  unfold in_live. generalize (eq_refl (tree_of (live w) id)). generalize (tree_of (live w) id) at 1 3. revert w.
  induction p as [a|R st alts k IH]; intros w t Et; cbn; [by eexists|].
  unfold lift_step. rewrite <- Et. destruct (st t) as [r v]. apply IH. cbn. by rewrite tree_of_put.
Qed.

Lemma manifest_available w t : Inv w -> is_Some (live w !! t_ID t) ->
  exists m w', exec (service_Manifest t) w = (inr m, w') /\ live_manifest w (t_ID t) m.
Proof.
  intros Hw [tr Htr]. unfold service_Manifest, act_, act. cbn [bind exec].
  destruct (inv_live w Hw _ _ Htr) as (_ & m & Hm & Hh).
  destruct (cache_get (t_ID t) (cache w)) as [m0|] eqn:Ec.
  { exists m0, w. split; [done|]. destruct (inv_cache w Hw _ _ Ec) as (t0 & Ht0 & Hm0).
    assert (t0 = tr) as -> by congruence. exists tr. split_and!; [done|done|]. by assert (m0 = m) as -> by congruence. }
  rewrite exec_bind. destruct (exec_in_live (t_ID t) ReadManifest w) as [w' ->].
  rewrite (tree_of_Some _ _ _ Htr), (ReadManifest_available tr m Hm). cbn. eexists m, _. split; [done|]. by exists tr.
Qed.

Lemma download_available w id r c code : Inv w -> transfers (db w) !! id = Some r -> c_state r = StateCommitted ->
  c_code r = Some c -> due (clock w) r = false -> NormalizeCode code = Some c ->
  exists m w', exec (OpenDownload cfg code) w =
      (inr (mkDownload (scanTransfer id r) m (service_PayloadDir cfg id)), w') /\ live_manifest w id m.
Proof.
  intros Hw Hr Hc Hcode Hd Hn. unfold OpenDownload, bindE. rewrite exec_bind.
  rewrite (lookup_available w id r c code) by done. rewrite exec_bind.
  destruct (manifest_available w (scanTransfer id r) Hw) as (m & w' & E & Hm); [by apply (inv_committed w Hw I id r)|].
  rewrite E. by exists m, w'.
Qed.
End restart.

Lemma live_manifest_kept `{UC : Unicode, EX : Externals, MC : ManifestCodec} w w' id m : live_kept id w w' -> live_manifest w id m -> live_manifest w' id m.
Proof.
  intros Hk (t & Ht & Hm & Hh). unfold live_kept in Hk. rewrite (tree_of_Some _ _ _ Ht) in Hk.
  destruct (live w' !! id) as [t'|] eqn:E.
  - rewrite (tree_of_Some _ _ _ E) in Hk. exists t'. rewrite <- (manifest_of_same _ _ Hk).
    split_and!; [done|done|]. by eapply manifest_held_same.
  - exfalso. unfold tree_of in Hk. rewrite E in Hk. rewrite (manifest_of_same _ _ Hk) in Hm. by vm_compute in Hm.
Qed.

Lemma live_manifest_unique `{UC : Unicode, EX : Externals, MC : ManifestCodec} w id m m' : live_manifest w id m -> live_manifest w id m' -> m = m'.
Proof. intros (t & Ht & Hm & _) (t' & Ht' & Hm' & _). congruence. Qed.
