(* ===== verification/Resume.v ===== *)
(** * Interrupted uploads resume: internal/transfer/advanced.go, UploadPatch

    A client sends the bytes [S] of a segment in as many requests as it takes.  Whatever
    interrupts them, the offset the server reports is backed by that many bytes of [S]. *)
From S2P Require Import Prelude GoStrings GoTime Errors Paths Manifest Wire Admission Prog Tree Integrity.
From S2P Require Import Materialize Store Config World Service Upload Safety UploadProofs CommitProofs SimpleProofs.
Local Open Scope prog_scope.

Definition sprefix (d s : string) : Prop := exists r, s = (d ++ r)%string.
#[export] Instance sprefix_preorder : PreOrder sprefix.
Proof.
  split; [intros s; exists ""; by rewrite string_app_nil_r|]. intros a b c [r1 ->] [r2 ->]. exists (r1 ++ r2)%string.
  by rewrite string_app_assoc.
Qed.
Lemma sprefix_app d c : sprefix d (d ++ c)%string.
Proof. by exists c. Qed.
Lemma sprefix_empty s : sprefix "" s.
Proof. by exists s. Qed.
Lemma sprefix_grow d c s : sprefix (d ++ c)%string s -> sprefix d s.
Proof. intros H. etrans; [apply sprefix_app|exact H]. Qed.

Lemma substring_prefix d r : substring 0 (String.length d) (d ++ r) = d.
Proof. induction d as [|a d IH]; cbn; [by destruct r|]. by f_equal. Qed.
Lemma truncate_prefix d r : truncate (slen d) (d ++ r) = d.
Proof.
  unfold truncate, stake, slen. rewrite Nat2Z.id, substring_prefix, string_length_app.
  replace (Z.to_nat _) with 0%nat by lia. cbn [zeros]. apply string_app_nil_r.
Qed.
Lemma stake_app n s : exists r, s = (stake n s ++ r)%string.
Proof.
  unfold stake. generalize (Z.to_nat n) as k. clear n. induction s as [|a s IH]; intros [|k]; cbn; try by eexists.
  destruct (IH k) as [r Hr]. exists r. by rewrite <- Hr.
Qed.

Lemma segment_by_upload_row u (d : DB) k row : segment_by_upload u d = Some (k, row) -> segments d !! k = Some row.
Proof.
  unfold segment_by_upload. intros H%head_Some_elem_of. rewrite list_elem_of_In, filter_In, <- list_elem_of_In in H.
  destruct H as [Hin _]. by apply elem_of_map_to_list in Hin.
Qed.

Section resume.
Context {UC : Unicode} {EX : Externals}.
Context (cfg : Server).
Context (S id sid uid : string).
Notation target := [SegmentsDir; sid].

(** The file holds at least [d]; exactly [d]. *)
Definition file_has (d : string) (t : tree) : Prop := d = "" \/ exists c, look t target = Some (CFile c) /\ sprefix d c.
Definition file_is (d : string) (t : tree) : Prop := look t target = Some (CFile d).

(** The row of upload [uid] declares the length of [S] and acknowledges [d], a beginning of
    it, and the file has [d]. *)
Definition acknowledged (d : string) (w : world) : Prop :=
  exists row, segments (db w) !! (id, sid) = Some row /\ c_upload_id row = Some uid /\
    c_expected_length row = slen S /\ c_received_length row = slen d.
Definition staged_prefix (d : string) (w : world) : Prop :=
  acknowledged d w /\ sprefix d S /\ file_has d (tree_of (staging w) id).

(** At least [d] is kept. *)
Definition kept (d : string) (w : world) : Prop := exists d', sprefix d d' /\ staged_prefix d' w.

Lemma file_has_is d d' t : sprefix d d' -> file_is d' t -> file_has d t.
Proof. intros Hp Hf. right. by exists d'. Qed.
Lemma file_has_less d d' t : sprefix d d' -> file_has d' t -> file_has d t.
Proof.
  intros Hp [->|(c & Hc & Hs)]; [|right; exists c; split; [done|by etrans]].
  destruct Hp as [r Hr]. destruct d; [by left|done].
Qed.

Lemma acknowledged_idle d w w1 : db w1 = db w -> acknowledged d w -> acknowledged d w1.
Proof. unfold acknowledged. by intros ->. Qed.

(** Inside one request: the row acknowledges [d0] and the file is [d]. *)
Record sending (d0 d : string) (w : world) : Prop := {
  sd_row : acknowledged d0 w; sd_prefix : sprefix d0 d; sd_sent : sprefix d S;
  sd_file : file_is d (tree_of (staging w) id) }.

Lemma sending_kept d0 d w : sending d0 d w -> kept d0 w.
Proof.
  intros [Hr Hp Hs Hf]. exists d0. split; [done|]. split_and!; [done|by etrans|by eapply file_has_is].
Qed.
Lemma sending_idle d0 d w w1 : idle w w1 -> sending d0 d w -> sending d0 d w1.
Proof.
  intros (Ed & Es & _) [Hr Hp Hs Hf]. split; [by eapply acknowledged_idle|done|done|by rewrite Es].
Qed.

(** A row update that records [d], which the file has. *)
Lemma acknowledge_wp d0 d d' st w Q : sending d0 d' w -> sprefix d0 d -> sprefix d d' ->
  (forall r w1, kept d0 w1 -> file_is d' (tree_of (staging w1) id) -> Q r w1) ->
  wp (kept d0) (tx (SetSegmentProgress id sid (slen d) st)) Q w.
Proof.
  intros Hs H0 Hd HQ. assert (G : kept d0 (snd (tx_step (SetSegmentProgress id sid (slen d) st) w))).
  { exists d. destruct Hs as [(row & Hrow & Hu & Hl & _) Hp Hsent Hf]. split; [done|].
    split_and!; [|by etrans|by apply (file_has_is d d')]. eexists. cbn. rewrite lookup_alter_eq, Hrow. by split_and!. }
  apply wp_act. intros r w1 [E|(f & n & [= <-] & [= <- <-])].
  - rewrite E in G. split; [done|]. apply HQ; [done|]. injection E as <- <-. apply Hs.
  - destruct n; [split; [|apply HQ; [|apply Hs]]; by eapply sending_kept|]. split; [done|]. apply HQ; [done|apply Hs].
Qed.

Lemma kept_wire d0 n w : kept d0 w -> kept d0 (snd (tx_step (AddWireBytes id n) w)).
Proof. intros (d & Hp & (row & Hrow) & Hs). exists d. split; [done|]. split; [by exists row|done]. Qed.

Lemma finishPatch_wp d0 d d' seg (Q : unit -> world -> Prop) w : s_TransferID seg = id -> s_ID seg = sid ->
  sending d0 d' w -> sprefix d0 d -> sprefix d d' ->
  (forall w1, kept d0 w1 -> file_is d' (tree_of (staging w1) id) -> Q tt w1) -> wp (kept d0) (finishPatch seg (slen d)) Q w.
Proof.
  intros E1 E2 Hs H0 Hd HQ. unfold finishPatch. rewrite E1, E2. apply wp_bind, (wp_within idle); [apply idle_sync| |].
  { intros w1 Hi. eapply sending_kept, sending_idle; done. }
  intros r w1 Hi. apply (sending_idle _ _ _ _ Hi) in Hs. cbv zeta. apply wp_bind, (acknowledge_wp d0 d d'); [done..|].
  intros r2 w2 Hk Hf. destruct (0 <? _)%Z; [|by apply HQ]. apply wp_bind, wp_act.
  intros r3 w3 [E|(f & n & [= <-] & [= <- <-])].
  - injection E as <- <-. split; [by apply kept_wire|]. by apply HQ; [apply kept_wire|].
  - destruct n; [by split; [|apply HQ]|]. split; [by apply kept_wire|]. by apply HQ; [apply kept_wire|].
Qed.

(** Writing the next bytes; an error leaves some of them. *)
Lemma write_next_wp d0 d c (Q : oserr + unit -> world -> Prop) w : sending d0 d w -> sprefix (d ++ c) S ->
  (forall w1, sending d0 (d ++ c) w1 -> Q (inr tt) w1) ->
  (forall e d' w1, sending d0 d' w1 -> sprefix d d' -> kept d0 w1 -> Q (inl e) w1) ->
  wp (kept d0) (in_staging id (WriteAt target (slen d) c)) Q w.
Proof.
  intros Hs Hc HQ He. pose proof Hs as [Hr Hp Hsent Hf].
  assert (G : forall x (t : tree), look t target = Some (CFile d) ->
    look (edit target (write_at (slen d) x) t) target = Some (CFile (d ++ x)%string)).
  { intros x t Ht. by rewrite look_edit, Ht, decide_True, write_at_end. }
  assert (K : forall x w1, staged_from id w w1 -> look (tree_of (staging w1) id) target = Some (CFile (d ++ x)%string) ->
    sprefix (d ++ x) S -> sending d0 (d ++ x) w1).
  { intros x w1 Hfr Hx Hxs. split; [eapply acknowledged_idle; [apply (sf_db _ _ _ Hfr)|done]|etrans; [exact Hp|apply sprefix_app]|done|done]. }
  apply (wp_in_staging id _ _ (fun t => exists x, sprefix x c /\ file_is (d ++ x) t)
    (fun r t => match r with inr _ => file_is (d ++ c) t | inl _ => exists x, sprefix x c /\ file_is (d ++ x) t end)).
  - apply wp_act. intros r t' [[= <- <-]|(f & n & [= <-] & [= <- <-])].
    + split; [exists c; split; [done|]|]; by apply G.
    + split; [|exists (stake (Z.of_nat n) c)]; [exists (stake (Z.of_nat n) c)|]; (split; [apply stake_app|by apply G]).
  - intros w1 Hfr (x & [y ->] & Hx). eapply sending_kept, (K x); [done|done|].
    rewrite <- string_app_assoc in Hc. by eapply sprefix_grow.
  - intros [e|[]] w1 Hfr Hx; [|by apply HQ, K]. destruct Hx as (x & [y ->] & Hx). rewrite <- string_app_assoc in Hc.
    pose proof (K x w1 Hfr Hx (sprefix_grow _ _ _ Hc)) as Hs1. apply (He e (d ++ x)%string); [done|apply sprefix_app|by eapply sending_kept].
Qed.

(** What an answer tells: the new offset, everything sent when there is no error. *)
Definition resumable (d0 body : string) (a : Z * option ecode) (w : world) : Prop :=
  kept d0 w /\ (snd a = None -> fst a = slen (d0 ++ body)%string /\ file_is (d0 ++ body) (tree_of (staging w) id)).

Lemma answer_error d0 body n e w : kept d0 w -> resumable d0 body (n, Some e) w.
Proof. intros Hk. by split. Qed.

(** Finishing with an error. *)
Lemma finish_error_wp d0 d d' seg n e (Q : Z * option ecode -> world -> Prop) w : s_TransferID seg = id -> s_ID seg = sid ->
  sending d0 d' w -> sprefix d0 d -> sprefix d d' -> (forall w1, kept d0 w1 -> Q (n, Some e) w1) ->
  wp (kept d0) (finishPatch seg (slen d) ;;; Ret (n, Some e)) Q w.
Proof.
  intros E1 E2 Hs H0 Hd HQ. apply wp_bind, (finishPatch_wp d0 d d'); [done..|]. intros w1 Hk _. by apply HQ.
Qed.

Lemma slen_stake n s : (0 <= n <= slen s)%Z -> slen (stake n s) = n.
Proof.
  unfold stake, slen. intros Hn. rewrite <- (Z2Nat.id n) at 2 by lia. f_equal. assert (Hk : (Z.to_nat n <= String.length s)%nat) by lia.
  revert Hk. generalize (Z.to_nat n) as k. clear. induction s as [|a s IH]; intros [|k] Hk; cbn in *; [done|lia|done|]. rewrite IH; lia.
Qed.

(** A body longer than what was declared: its valid part is kept. *)
Lemma overrun_wp d0 d c seg remaining written (Q : Z * option ecode -> world -> Prop) w :
  s_TransferID seg = id -> s_ID seg = sid -> sending d0 d w -> sprefix (d ++ c) S -> slen d = (slen d0 + written)%Z ->
  (remaining < written + slen c)%Z -> (forall n e w1 , kept d0 w1 -> Q (n, Some e) w1) ->
  wp (kept d0) (w' <- (if (0 <? remaining - written)%Z then
               r <- in_staging (s_TransferID seg) (WriteAt target (slen d) (stake (remaining - written) c)) ;;
               Ret (match r with inr _ => (written + (remaining - written))%Z | inl _ => written end)
             else Ret written) ;;
      finishPatch seg (slen d0 + w') ;;;
      Ret ((slen d0 + w')%Z, Some InvalidRequest)) Q w.
Proof.
  intros E1 E2 Hs Hc Hd Hov HQ. pose proof (sd_prefix _ _ _ Hs) as Hd0.
  assert (Herr : forall d' d2 w' w1, sending d0 d' w1 -> sprefix d0 d2 -> sprefix d2 d' -> slen d2 = (slen d0 + w')%Z ->
    wp (kept d0) (finishPatch seg (slen d0 + w') ;;; Ret ((slen d0 + w')%Z, Some InvalidRequest)) Q w1).
  { intros d' d2 w' w1 H1 H2 H3 <-. apply (finish_error_wp d0 d2 d'); [done..|apply HQ]. }
  destruct (Z.ltb_spec 0 (remaining - written)) as [Hpos|]; [|by apply wp_bind, (Herr d d)].
  destruct (stake_app (remaining - written) c) as [r Hr]. apply wp_bind, wp_bind. rewrite E1.
  apply (write_next_wp d0 d); [done| | |].
  - rewrite Hr, <- string_app_assoc in Hc. by eapply sprefix_grow.
  - intros w1 H1. set (d1 := (d ++ stake (remaining - written) c)%string) in *.
    apply (Herr d1 d1); [done|apply H1|done|]. unfold d1.
    rewrite slen_app, slen_stake by lia. lia.
  - intros e d' w1 H1 Hp _. by apply (Herr d' d).
Qed.

Lemma patch_loop_wp d0 d seg rest remaining failing cs written since body w :
  s_TransferID seg = id -> s_ID seg = sid -> sending d0 d w -> S = (d ++ join "" cs ++ rest)%string ->
  slen d = (slen d0 + written)%Z -> (d0 ++ body)%string = (d ++ join "" cs)%string ->
  wp (kept d0) (patch_loop cfg seg target (slen d0) remaining failing cs written since) (resumable d0 body) w.
Proof.
  intros E1 E2. revert d written since w. induction cs as [|c cs IH]; intros d written since w Hs HS Hd Hb; cbn [patch_loop]; rewrite <- Hd.
  { cbn in Hb. rewrite string_app_nil_r in Hb. apply wp_bind, (finishPatch_wp d0 d d); [done..|apply Hs|done|].
    intros w1 Hk Hf. split; [done|]. intros _. cbn [fst]. by rewrite Hb. }
  assert (HS1 : S = ((d ++ c) ++ join "" cs ++ rest)%string) by by rewrite HS, join_nil_cons, !string_app_assoc.
  assert (Hc : sprefix (d ++ c) S) by (rewrite HS1; apply sprefix_app).
  cbv zeta. destruct (Z.ltb_spec remaining (written + slen c)) as [Hov|Hok].
  { apply (overrun_wp d0 d c); [done..|]. intros n e w1. apply answer_error. }
  apply wp_bind. rewrite E1. apply (write_next_wp d0 d c); [done|done| |].
  - intros w1 Hs1. assert (Hd1 : slen (d ++ c)%string = (slen d0 + (written + slen c))%Z) by (rewrite slen_app; lia).
    assert (Hrec : forall s w2, sending d0 (d ++ c) w2 ->
      wp (kept d0) (patch_loop cfg seg target (slen d0) remaining failing cs (written + slen c) s) (resumable d0 body) w2).
    { intros s w2 H2. apply (IH (d ++ c)%string); [done..|]. by rewrite Hb, join_nil_cons, string_app_assoc. }
    destruct (_ <=? _)%Z; [|by apply Hrec].
    apply wp_bind, (wp_within idle); [apply idle_CheckStreaming|intros w2 Hi; eapply sending_kept, sending_idle; done|].
    intros [e|] w2 Hi; apply (sending_idle _ _ _ _ Hi) in Hs1; [|by apply Hrec].
    rewrite <- Hd1. apply (finish_error_wp d0 (d ++ c) (d ++ c)); [done..|apply Hs1|done|]. intros w3. apply answer_error.
  - intros e d' w1 Hs1 Hp _. apply (finish_error_wp d0 d d'); [done..|apply Hs|done|]. intros w3. apply answer_error.
Qed.

(** Opening the segment and dropping what was never acknowledged. *)
Definition align (n : Z) : prog tree (oserr + unit) := _ <-? OpenFile false target 416 ;; _ <-? Truncate target n ;; Sync.

Lemma align_tree d t : file_has d t ->
  wp (file_has d) (align (slen d)) (fun r t' => file_has d t' /\ (r = inr tt -> file_is d t')) t.
Proof.
  intros Hf. unfold align. apply wp_bindE, wp_act. intros r t1 Hr.
  assert (H1 : file_has d t1 /\ (r = inr tt -> exists c, look t1 target = Some (CFile c) /\ sprefix d c)).
  { destruct Hr as [E|(f & n & [= <-] & [= <- <-])]; [|done]. pose proof (create_look _ _ _ _ _ _ E) as (_ & Hn & _ & Hsame).
    destruct Hf as [->|(c & Hc & Hs)].
    - split; [by left|]. intros ->. destruct (look t target) as [[|c]|] eqn:El.
      + exfalso. revert E. unfold create. destruct (t !! (target : path)) as [[]|] eqn:Et; [done| |]; intros _; unfold look in El;
          rewrite Et in El; discriminate El.
      + rewrite Hsame by (right; eauto). exists c. by split; [|apply sprefix_empty].
      + exists "". by split; [apply Hn|].
    - rewrite Hsame by (right; eauto). split; [|intros _]; [right|]; by exists c. }
  destruct H1 as [H1 H2]. split; [done|]. destruct r as [e|[]]; [done|]. destruct (H2 eq_refl) as (c & Hc & r & ->).
  apply wp_bindE, wp_act. intros r1 t2 Hr1.
  assert (H3 : file_has d t2 /\ (r1 = inr tt -> file_is d t2)).
  { destruct Hr1 as [[= <- <-]|(f & n & [= <-] & [= <- <-])]; [|by split].
    assert (Hl : look (edit target (truncate (slen d)) t1) target = Some (CFile d)).
    { by rewrite look_edit, Hc, decide_True, truncate_prefix. }
    split; [right; by exists d|done]. }
  destruct H3 as [H3 H4]. split; [done|]. destruct r1 as [e|[]]; [done|].
  apply wp_act. intros r2 t3 [[= <- <-]|(f & n & [= <-] & [= <- <-])]; (split; [done|]); (split; [done|]); [|done]. intros _. by apply H4.
Qed.

Lemma kept_self d w : staged_prefix d w -> kept d w.
Proof. intros H. by exists d. Qed.
Lemma staged_idle d w w1 : idle w w1 -> staged_prefix d w -> staged_prefix d w1.
Proof. intros (Ed & Es & _) (Hr & Hs & Hf). split_and!; [by eapply acknowledged_idle|done|by rewrite Es]. Qed.

Lemma align_wp d (Q : oserr + unit -> world -> Prop) w : staged_prefix d w ->
  (forall e w1, staged_prefix d w1 -> Q (inl e) w1) -> (forall w1, sending d d w1 -> Q (inr tt) w1) ->
  wp (kept d) (in_staging id (align (slen d))) Q w.
Proof.
  intros (Hr & Hs & Hf) He HQ. assert (G : forall w1, staged_from id w w1 -> acknowledged d w1).
  { intros w1 Hfr. eapply acknowledged_idle; [apply (sf_db _ _ _ Hfr)|done]. }
  apply (wp_in_staging id _ _ _ _ _ _ (align_tree d _ Hf)).
  - intros w1 Hfr Hh. apply kept_self. split_and!; auto.
  - intros [e|[]] w1 Hfr [Hh Hi]; [apply He; split_and!; auto|]. apply HQ. split; [by apply G|done|done|by apply Hi].
Qed.

Lemma UploadPatch_wp d rest offset body w row : segment_by_upload uid (db w) = Some ((id, sid), row) ->
  staged_prefix d w -> S = (d ++ join "" (chunks body) ++ rest)%string ->
  wp (kept d) (UploadPatch cfg uid offset body) (resumable d (join "" (chunks body))) w.
Proof.
  intros Hup Hst HS. assert (He : forall n e w1, staged_prefix d w1 -> resumable d (join "" (chunks body)) (n, Some e) w1).
  { intros n e w1 H1. by apply answer_error, kept_self. }
  assert (Hidle : forall w1 w2, idle w1 w2 -> staged_prefix d w1 -> kept d w2) by (intros w1 w2 Hi H1; eapply kept_self, staged_idle; done).
  unfold UploadPatch, acquireUpload. apply wp_bind, wp_act. intros r w1 Hr.
  assert (w1 = w) as -> by (destruct Hr as [[=]|(? & ? & [= <-] & [=])]; congruence). split; [by apply kept_self|].
  destruct r as [e|[]]; [by apply He|].
  apply wp_bind, wp_act. intros r w1 Hr1. assert (w1 = w) as -> by (destruct Hr1 as [[=]|(? & ? & [= <-] & [=])]; congruence).
  split; [by apply kept_self|]. destruct r as [[]|seg]; try by apply He.
  assert (seg = scanSegment (id, sid) row) as ->.
  { destruct Hr1 as [[= E]|(? & ? & [= <-] & [=])]. unfold GetSegmentByUploadID in E. rewrite Hup in E. by injection E as <-. }
  cbn [scanSegment s_TransferID s_ReceivedLength s_ExpectedLength s_ID fst snd].
  apply wp_bind, wp_act. intros r w1 Hr2. assert (w1 = w) as -> by (destruct Hr2 as [[=]|(? & ? & [= <-] & [=])]; congruence).
  split; [by apply kept_self|]. destruct r as [e|t]; [by apply He|].
  assert (Hid : t_ID t = id).
  { destruct Hr2 as [[= E]|(? & ? & [= <-] & [=])]. unfold GetTransfer in E. apply found_inr in E.
    by apply fmap_Some in E as (r & _ & ->). }
  destruct (negb _); [by apply He|]. destruct (Z.eqb_spec offset (c_received_length row)) as [->|]; cbn [negb]; [|by apply He].
  destruct (_ <? _)%Z; [by apply He|].
  assert (Hlen : c_received_length row = slen d).
  { destruct Hst as ((row' & Hrow' & _ & _ & Hl) & _). apply segment_by_upload_row in Hup. congruence. }
  rewrite Hlen, Hid. apply wp_bind, (wp_within idle); [apply idle_CheckStreaming|intros w1 Hi; by eapply Hidle|].
  intros [e|] w1 Hi; pose proof (staged_idle _ _ _ Hi Hst) as Hst1; [by apply He|].
  apply wp_bind, align_wp; [done|intros e w2 H2; by apply He|]. intros w2 H2.
  assert (Hloop : forall w3, sending d d w3 -> wp (kept d) (patch_loop cfg (scanSegment (id, sid) row) target (slen d)
      (c_expected_length row - slen d) (fails body) (chunks body) 0 0) (resumable d (join "" (chunks body))) w3).
  { intros w3 H3. apply (patch_loop_wp d d _ rest); [done..|lia|done]. }
  destruct (bool_decide _); [|by apply Hloop]. apply wp_bind, wp_bind, wp_act. intros r w3 Hr3.
  assert (H3 : sending d d w3).
  { destruct H2 as [A B C D]. destruct Hr3 as [E|(f & [|n] & [= <-] & [= <- <-])]; [injection E as <- <-|..]; by split. }
  split; [by eapply sending_kept|]. by apply Hloop.
Qed.
End resume.
