(* ===== verification/Demo.v ===== *)
(** * Concrete instances

    Small executable stand-ins for the code of other projects, a configuration, and a
    server that received files, on which the theorems of the development are exercised. *)
From S2P Require Import Prelude GoStrings GoTime Errors Paths Manifest Wire Admission Prog Tree Integrity.
From S2P Require Import Materialize Store Config World Service Upload Commit Simple Janitor Api UploadProofs.
From S2P Require Import SimpleProofs ApiProofs System.

(** A digest of 32 bytes: length, sum of the bytes and a position-weighted sum. *)
Fixpoint weigh (i acc sum : Z) (s : string) : Z * Z :=
  match s with
  | EmptyString => (acc mod 256, sum mod 256)%Z
  | String a s => weigh (i + 1) (acc + i * byte_val a) (sum + byte_val a) s
  end.
Definition digest32 (s : string) : list Z :=
  let '(a, b) := weigh 1 0 0 s in
  ((slen s mod 256)%Z :: a :: b :: repeat 0%Z 29).

(** An archive stream with one member, or none that can be read. *)
Definition unpack_demo (s : string) : list tar_item :=
  if (s =? "PACK")%string then [TarEntry "docs/b.txt" 2 true "hi" false] else [TarUnreadable].

#[export] Instance demo_externals : Externals := {|
  blake3 := digest32; bao_encode := fun d => ("TREE"%string, digest32 d); EncodedSize := fun n => (n / 8)%Z;
  VerifyChunk := fun _ _ _ _ => true; sha256 := digest32; unpack := unpack_demo; dir_size := 4096 |}.
#[export] Instance demo_unicode : Unicode := {| ulower r := r |}.

Lemma weigh_range i acc sum s : (0 <= fst (weigh i acc sum s) < 256)%Z /\ (0 <= snd (weigh i acc sum s) < 256)%Z.
Proof. revert i acc sum. induction s as [|a s IH]; intros i acc sum; cbn [weigh]; [|apply IH].
  split; by apply Z.mod_pos_bound. Qed.

#[export] Instance demo_laws : ExternalsLaws.
Proof.
  split; [|done]. intros d. unfold blake3, demo_externals, digest32.
  pose proof (weigh_range 1 0 0 d) as [H1 H2]. destruct (weigh 1 0 0 d) as [a b]. split; [done|].
  do 3 (apply Forall_cons_2; [done || by apply Z.mod_pos_bound|]).
  by apply Forall_forall; intros b' ->%list_elem_of_In%repeat_spec.
Qed.

(** ** A manifest codec: the fields one after the other, as a string of bits *)
Fixpoint bits (p : positive) : string :=
  match p with xH => "" | xO p => String "0" (bits p) | xI p => String "1" (bits p) end.
Fixpoint unbits (s : string) : positive :=
  match s with
  | EmptyString => xH
  | String a s => if (a =? "0")%char then xO (unbits s) else if (a =? "1")%char then xI (unbits s) else xH
  end.
Lemma unbits_bits p : unbits (bits p ++ nl)%string = p.
Proof. induction p as [p IH|p IH|]; cbn; by rewrite ?IH. Qed.

Definition get {A} `{Countable A} (l : list positive) : option (A * list positive) :=
  match l with p :: l => a ← decode p; Some (a, l) | [] => None end.
Fixpoint get_n {A} (f : list positive -> option (A * list positive)) (n : nat) (l : list positive)
    : option (list A * list positive) :=
  match n with
  | O => Some ([], l)
  | S n => f l ≫= fun '(a, l) => get_n f n l ≫= fun '(r, l) => Some (a :: r, l)
  end.
Definition get_list {A} (f : list positive -> option (A * list positive)) (l : list positive)
    : option (list A * list positive) :=
  get (A := nat) l ≫= fun '(n, l) => get_n f n l.
Definition put_list {A} (f : A -> list positive) (l : list A) : list positive :=
  encode (length l) :: concat (map f l).

Lemma get_put {A} `{Countable A} (a : A) l : get (encode a :: l) = Some (a, l).
Proof. cbn. by rewrite decode_encode. Qed.

Lemma get_put_list {A} (f : A -> list positive) g (l : list A) r :
  (forall a r, g (f a ++ r)%list = Some (a, r)) -> get_list g (put_list f l ++ r)%list = Some (l, r).
Proof.
  intros Hg. unfold get_list, put_list. rewrite <- app_comm_cons, get_put. cbn.
  induction l as [|a l IH]; cbn; [done|]. rewrite <- app_assoc, Hg. cbn. by rewrite IH.
Qed.

Definition put_string (s : string) : list positive := [encode s].
Definition put_segment (s : Segment) : list positive :=
  [encode (seg_ID s); encode (seg_Kind s); encode (seg_WireSize s); encode (seg_Digest s); encode (seg_StoragePath s)].
Definition get_segment (l : list positive) : option (Segment * list positive) :=
  get l ≫= fun '(a, l) => get l ≫= fun '(b, l) => get l ≫= fun '(c, l) => get l ≫= fun '(d, l) =>
  get l ≫= fun '(e, l) => Some (mkSegment a b c d e, l).
Definition put_entry (e : Entry) : list positive :=
  [encode (e_Path e); encode (e_Type e); encode (e_Size e); encode (e_MTimeUnixNS e); encode (e_Mode e);
   encode (e_Digest e); encode (e_SegmentID e); encode (e_SegmentOffset e)].
Definition get_entry (l : list positive) : option (Entry * list positive) :=
  get l ≫= fun '(a, l) => get l ≫= fun '(b, l) => get l ≫= fun '(c, l) => get l ≫= fun '(d, l) =>
  get l ≫= fun '(e, l) => get l ≫= fun '(f, l) => get l ≫= fun '(g, l) => get l ≫= fun '(h, l) =>
  Some (mkEntry a b c d e f g h, l).
Definition put_manifest (m : Manifest) : list positive :=
  ([encode (SchemaVersion m); encode (TransferID m); encode (CreatedAt m); encode (Note m); encode (m_DigestAlgorithm m)]
   ++ put_list put_string (Roots m) ++ put_list put_segment (Segments m) ++ put_list put_entry (Entries m))%list.
Definition get_manifest (l : list positive) : option Manifest :=
  get l ≫= fun '(a, l) => get l ≫= fun '(b, l) => get l ≫= fun '(c, l) => get l ≫= fun '(d, l) =>
  get l ≫= fun '(e, l) => get_list get l ≫= fun '(roots, l) => get_list get_segment l ≫= fun '(segments, l) =>
  get_list get_entry l ≫= fun '(entries, l) => Some (mkManifest a b c d roots e segments entries).

Lemma get_put_segment s r : get_segment (put_segment s ++ r)%list = Some (s, r).
Proof. unfold get_segment, put_segment. cbn [app]. repeat (rewrite get_put; cbn [mbind option_bind]). by destruct s. Qed.
Lemma get_put_entry s r : get_entry (put_entry s ++ r)%list = Some (s, r).
Proof. unfold get_entry, put_entry. cbn [app]. repeat (rewrite get_put; cbn [mbind option_bind]). by destruct s. Qed.

Lemma get_put_manifest m : get_manifest (put_manifest m) = Some m.
Proof.
  unfold get_manifest, put_manifest. cbn [app]. repeat (rewrite get_put; cbn [mbind option_bind]).
  rewrite get_put_list by (intros; apply get_put). cbn [mbind option_bind].
  rewrite get_put_list by apply get_put_segment. cbn [mbind option_bind].
  rewrite <- (app_nil_r (put_list put_entry _)), get_put_list by apply get_put_entry. cbn. by destruct m.
Qed.

Definition demo_Marshal (m : Manifest) : option string := Some (bits (encode (put_manifest m))).
#[export] Instance demo_codec : ManifestCodec := {|
  json_Marshal := demo_Marshal; json_MarshalIndent := demo_Marshal;
  json_Unmarshal s := l ← decode (unbits s); get_manifest l |}.
#[export] Instance demo_codec_laws : ManifestCodecLaws.
Proof.
  split. intros m s _ [= <-]. unfold json_Unmarshal, demo_codec. rewrite unbits_bits, decode_encode. cbn.
  apply get_put_manifest.
Qed.

(** ** A server *)
Definition cfg : Server := DefaultServer.
Definition idle_disk : DiskUsage := mkDiskUsage 1000000000 900000000.
Definition noon : Z := 1700000000 * 10 ^ 9.
Definition first_install : server := installed 2 noon idle_disk (fun n => (Z.of_nat n * 7 + 3)%Z).

(** Reconciliation of an empty server, then requests. *)
Definition boot : world := snd (run (reconcile_Run cfg) [] (reboot (sv_world first_install))).
Definition after (r : request) (w : world) : world := snd (run (handle cfg r) [] w).

Definition plain_http (method path : string) (hs : list (string * string)) : http := mkHttp method path 0 hs.
Definition answer (r : request) (w : world) : option response := fst (run (handle cfg r) [] w).
(** The line a browser or curl is shown. *)
Definition shown (r : option response) : string :=
  match r with Some r => match r_Body r with BText s => TrimSpace s | _ => "" end | None => "" end.

(** A browser sends one file in two chunks, under an idempotency key. *)
Definition keyed_post : http := plain_http "POST" "/s" [("Idempotency-Key", "retry-me-1")]%string.
Definition two_chunks : list mpart :=
  [mkMpart "note" "" (mkReader ["greetings"] false); mkMpart "file" "a.txt" (mkReader ["hel"; "lo"] false)].
Definition post_chunks : request := PostSimple keyed_post (Some (two_chunks, false)).
Definition sent : world := after post_chunks boot.
Definition sent_code : string := shown (answer post_chunks boot).
Definition sent_id : string := next_id boot.

(** A client uploads a raw and a packed segment, then commits. *)
Definition plan : CreateTransferRequest :=
  mkCreateTransferRequest 30 "docs" 7 2
    [mkSegmentPlan "seg-a" SegmentRaw 5 "" None; mkSegmentPlan "seg-b" SegmentTarZstd 4 "" None].
Definition post_plan : request := PostTransfers (plain_http "POST" "/v1/transfers" []) (Some plan).
Definition created : world := after post_plan boot.
Definition plan_id : string := next_id boot.
Definition upload_of (sid : string) : string :=
  match answer post_plan boot with
  | Some r => match r_Body r with
              | BCreated r => match List.find (fun u => (ur_SegmentID u =? sid)%string) (cx_Uploads r) with
                              | Some u => ur_UploadID u | None => "" end
              | _ => "" end
  | None => ""
  end.
Definition patch (sid : string) (offset : string) (data : string) (broken : bool) : request :=
  PatchUpload (plain_http "PATCH" "/v1/uploads" [("Upload-Offset", offset)]%string) (upload_of sid) (mkReader [data] broken).
Definition uploaded : world :=
  after (patch "seg-b" "0" "PACK" false) (after (patch "seg-a" "3" "lo" false) (after (patch "seg-a" "0" "hel" true) created)).
Definition plan_manifest : Manifest :=
  mkManifest 1 plan_id noon "docs" ["a.txt"; "docs"] DigestAlgorithm
    [mkSegment "seg-a" SegmentRaw 5 (HashBytes "hello") ""; mkSegment "seg-b" SegmentTarZstd 4 (HashBytes "PACK") ""]
    [mkEntry "a.txt" EntryFile 5 7 420 (HashBytes "hello") "seg-a" 0;
     mkEntry "docs" EntryDirectory 0 7 493 "" "" 0;
     mkEntry "docs/b.txt" EntryFile 2 7 420 (HashBytes "hi") "seg-b" 0].
Definition post_commit : request := PostCommit (plain_http "POST" "/v1/transfers" []) plan_id (Some plan_manifest).
Definition committed : world := after post_commit uploaded.
