(* ===== verification/Guarantees.v ===== *)
(** * What the server guarantees

    The end-to-end theorems: they hold in every state the server can reach, whatever the
    operating system, the disk, the database and the clock answer to its calls and wherever
    it is stopped. *)
From S2P Require Import Prelude GoStrings GoTime Errors Code Paths Manifest Wire Admission Prog Tree.
From S2P Require Import Integrity Materialize Store Config World Service Upload Commit Simple Janitor Api Safety.
From S2P Require Import ServiceProofs UploadProofs CommitProofs SimpleProofs JanitorProofs ReconcileProofs.
From S2P Require Import ApiProofs System Durability Demo.

(** Restarts that may go wrong in any way. *)
Definition any_schedule (es : list event) : Prop := True.

(** What a run that answered satisfies. *)
Lemma run_answer {W A : Type} (I : W -> Prop) (p : prog W A) Q es w a w' :
  wp I p Q w -> I w -> run p es w = (Some a, w') -> Q a w'.
Proof. intros Hp Hw E. pose proof (wp_sound I p Q es w Hw Hp) as [_ H]. rewrite E in H. by apply H. Qed.

(** ** The demonstration server's states are reachable *)

Lemma boot_reachable restarts : restarts [] -> reachable cfg restarts (mkRunning boot true).
Proof.
  intros Hr. exists 2%nat, noon, idle_disk, (fun n => (Z.of_nat n * 7 + 3)%Z). apply rtc_once.
  exact (step_restart cfg restarts [] _ Hr).
Qed.

Lemma after_reachable restarts r w : admissible r w -> reachable cfg restarts (mkRunning w true) ->
  reachable cfg restarts (mkRunning (after r w) true).
Proof.
  intros Ha (limit & now & u & rn & Hs). exists limit, now, u, rn. eapply rtc_r; [exact Hs|].
  pose proof (step_serve cfg restarts r [] w Ha) as Hst. unfold after. by rewrite run_nil in Hst |- *.
Qed.

Lemma sent_reachable restarts : restarts [] -> reachable cfg restarts (mkRunning sent true).
Proof.
  intros Hr. apply after_reachable; [|by apply boot_reachable]. split; [by vm_compute|]. by repeat constructor.
Qed.

Lemma uploaded_reachable restarts : restarts [] -> reachable cfg restarts (mkRunning uploaded true).
Proof.
  intros Hr. do 3 (apply after_reachable; [done|]). apply after_reachable; [by vm_compute|by apply boot_reachable].
Qed.

Lemma plan_manifest_json : json_ok plan_manifest.
Proof.
  unfold json_ok. cbn [Roots Segments Entries plan_manifest]. rewrite !Forall_cons, !Forall_nil. conjs.
  all: lazymatch goal with
       | |- valid_utf8 _ = true => vm_compute; reflexivity
       | |- True => exact I
       | _ => unfold in_int64; vm_compute; by conjs
       end.
Qed.

Lemma committed_reachable restarts : restarts [] -> reachable cfg restarts (mkRunning committed true).
Proof. intros Hr. apply after_reachable; [apply plan_manifest_json|by apply uploaded_reachable]. Qed.

Section guarantees.
Context {UC : Unicode} {EX : Externals} {EL : ExternalsLaws} {MC : ManifestCodec} {ML : ManifestCodecLaws}.
Context (cfg : Server).
#[local] Existing Instance leniently.

Lemma reachable_world restarts w b : reachable cfg restarts (mkRunning w b) -> Inv w.
Proof. exact (reachable_lenient cfg restarts (mkRunning w b)). Qed.

(** C2: a COMMITTED transfer is complete, always.  In every state reachable with restarts
    that meet no I/O error (they may crash and be repeated), whatever happened during
    requests, the live directory of a COMMITTED row exists, carries a valid manifest, and
    holds every directory, file and segment the manifest declares, with its declared size
    and BLAKE3 digest. *)
Theorem committed_is_complete w b id r :
  reachable cfg faultless (mkRunning w b) -> transfers (db w) !! id = Some r -> c_state r = StateCommitted ->
  exists m, live_manifest w id m.
Proof.
  intros Hs Hr Hc. pose proof (reachable_strict cfg _ Hs) as Hw. cbn in Hw.
  destruct (inv_committed w Hw I id r Hr Hc) as [t Ht]. destruct (inv_live w Hw id t Ht) as (_ & m & Hm & Hh). by exists m, t.
Qed.

(** C3: an acknowledged transfer stays downloadable until it expires.  Once a row is
    COMMITTED, whatever requests, faults, crashes, cleanups, error-free restarts and
    waiting follow, as long as its expiry instant has not come the row is unchanged, the
    live directory carries the same manifest with everything it declares, and every
    spelling of its code downloads exactly that. *)
Theorem published_survives s s' id r c m code :
  reachable cfg faultless s -> transfers (db (sv_world s)) !! id = Some r -> c_state r = StateCommitted ->
  c_code r = Some c -> live_manifest (sv_world s) id m -> rtc (step cfg faultless) s s' ->
  due (clock (sv_world s')) r = false -> NormalizeCode code = Some c ->
  transfers (db (sv_world s')) !! id = Some r /\ live_manifest (sv_world s') id m /\
  fst (run (OpenDownload cfg code) [] (sv_world s')) =
    Some (inr (mkDownload (scanTransfer id r) m (service_PayloadDir cfg id))).
Proof.
  intros Hs Hr Hc Hcode Hm Hss Hd Hn. destruct (execution_guarded cfg s s' Hs Hss) as [[_ Hg] Hs'].
  destruct (Hg id r Hr Hc Hd) as [Hr' Hk]. pose proof (live_manifest_kept _ _ _ _ Hk Hm) as Hm'.
  split; [done|]. split; [done|].
  destruct (download_available cfg _ id r c code (reachable_strict cfg _ Hs') Hr' Hc Hcode Hd Hn) as (m' & w' & E & Hm2).
  rewrite run_nil, E. cbn. by rewrite (live_manifest_unique _ _ _ _ Hm' Hm2).
Qed.

(** A code never resolves to incomplete data.  In every reachable state, whatever
    restarts met, a download that OpenDownload grants names the COMMITTED row of the code,
    and its manifest is the one in the live directory, which holds everything it declares. *)
Theorem download_is_complete restarts w b code es dl w' :
  reachable cfg restarts (mkRunning w b) -> run (OpenDownload cfg code) es w = (Some (inr dl), w') ->
  resolves w code (dl_Transfer dl) /\
  dl_PayloadDir dl = service_PayloadDir cfg (t_ID (dl_Transfer dl)) /\
  live_manifest w' (t_ID (dl_Transfer dl)) (dl_Manifest dl).
Proof.
  intros Hs E. pose proof (reachable_world _ _ _ Hs) as Hw.
  destruct (run_answer _ _ _ _ _ _ _ (OpenDownload_wp cfg code w Hw) Hw E) as (_ & _ & H). by apply H.
Qed.

(** C18: a segment served to a receiver is authentic.  What ClaimSegmentFile opens has the
    size and the digest the live manifest declares for that segment, and the caller holds
    the token of an existing claim whose lease has not passed. *)
Theorem segment_is_authentic restarts w b claimID token segID es d n w' :
  reachable cfg restarts (mkRunning w b) ->
  run (ClaimSegmentFile cfg claimID token segID) es w = (Some (inr (d, n)), w') ->
  exists m c now seg, live_manifest w' (k_TransferID c) m /\ SegmentByID m segID = Some seg /\
    authorized w now claimID token c /\ slen d = seg_WireSize seg /\ HashBytes d = seg_Digest seg /\ n = slen d.
Proof.
  intros Hs E. pose proof (reachable_world _ _ _ Hs) as Hw.
  destruct (run_answer _ _ _ _ _ _ _ (ClaimSegmentFile_wp cfg claimID token segID w Hw) Hw E) as (_ & _ & H). by apply H.
Qed.
End guarantees.

(** ** Publishing *)
Section publishing.
Context {UC : Unicode} {EX : Externals} {EL : ExternalsLaws} {MC : ManifestCodec} {ML : ManifestCodecLaws}.
Context (cfg : Server).
#[local] Existing Instance leniently.

(** C19: a commit that answers has published exactly the manifest that was sent.  In every
    reachable state and under every schedule, when Commit of a JSON-representable manifest
    answers, the transfer existed; its row is COMMITTED with the code, instants and expiry
    of the answer; a fresh commit left in the live directory the sent manifest, with only
    the storage paths of its segments filled in, and everything it declares, verified; and
    an answer that is not fresh changed nothing. *)
Theorem commit_publishes restarts w b id m es resp fresh w' :
  reachable cfg restarts (mkRunning w b) -> json_ok m ->
  run (service_Commit cfg id m) es w = (Some (inr (resp, fresh)), w') ->
  exists row, transfers (db w) !! id = Some row /\
    answered w' id (effective_ttl cfg (scanTransfer id row)) resp /\
    (fresh = true -> live_manifest w' id (republished m)) /\ (fresh = false -> w' = w).
Proof.
  intros Hs Hj E. pose proof (reachable_world cfg _ _ _ Hs) as Hw.
  by apply (run_answer _ _ _ _ _ _ _ (service_Commit_wp cfg id m w Hw Hj) Hw E).
Qed.

(** C20: a simple upload that answers 201 has published exactly the parts that were sent.
    For both endpoints, whatever the schedule: the answer shows the code of a COMMITTED
    row, the live directory holds each received file, byte for byte, under its cleaned
    name, and the manifest lists them in order with their sizes and digests. *)
Theorem simple_upload_publishes restarts w b q es r w' :
  reachable cfg restarts (mkRunning w b) -> is_upload q = true -> admissible q w ->
  run (handle cfg q) es w = (Some r, w') -> r_Status r = 201%Z ->
  exists resp, tells r resp /\ published (sent_parts q) w' resp.
Proof.
  intros Hs Hu Ha E. pose proof (reachable_world cfg _ _ _ Hs) as Hw.
  by apply (run_answer _ _ _ _ _ _ _ (upload_publishes cfg q w Hw Hu Ha) Hw E).
Qed.

(** The state machine never leaves the invariant.  From any reachable state, every
    request under every schedule, stopped anywhere, followed by a restart that meets no
    I/O error, gives a world whose database satisfies its constraints, whose live
    directories are all complete, whose COMMITTED rows all have one, whose cache agrees
    with the live directories and whose published transfers accept no upload. *)
Theorem crash_and_restart_safe w r es es' :
  reachable cfg faultless (mkRunning w true) -> admissible r w -> faultless es' ->
  Inv (ST := strictly) (snd (run (reconcile_Run cfg) es' (reboot (snd (run (handle cfg r) es w))))).
Proof.
  intros Hs Ha He. apply (faultless_restart cfg); [done|]. apply reboot_startup.
  apply (handle_Inv cfg r es w (reachable_strict cfg _ Hs) Ha).
Qed.

(** C21: a cleanup pass never removes what it must keep.  Whatever its calls answer and
    wherever it stops, a transfer pinned by a claim whose lease runs, or COMMITTED and not
    due, at the instant the pass read, keeps its row and its live directory (its row
    unchanged in the second case). *)
Theorem sweep_spares w es : spared w (snd (run (Sweep cfg) es w)).
Proof.
  apply (wp_sound (fun w' => spared w w') (Sweep cfg) (fun _ w' => spared w w') es w); [|apply sweep_wp].
  intros id Hid. split; [done|]. split; [|by intros r []].
  destruct Hid as [[? _]|(r & Hr & _)]; [done|by rewrite Hr].
Qed.

(** A code stops working at its instant.  In every reachable state, a code that resolves
    has a COMMITTED row whose expiry instant lies after the clock reading, or none at all,
    and resolving changed no row. *)
Theorem code_resolves_only_unexpired restarts w b code es t w' :
  reachable cfg restarts (mkRunning w b) -> run (lookupCommitted code) es w = (Some (inr t), w') ->
  resolves w code t /\ db w' = db w /\ (t_ExpiresAt t = zero_time \/ (clock w' < t_ExpiresAt t)%Z).
Proof.
  intros Hs E. pose proof (reachable_world cfg _ _ _ Hs) as Hw.
  refine (run_answer Inv _ (fun r w1 => forall t, r = inr t -> resolves w code t /\ db w1 = db w /\
    (t_ExpiresAt t = zero_time \/ (clock w1 < t_ExpiresAt t)%Z)) _ _ _ _ _ Hw E _ eq_refl).
  apply lookupCommitted_wp; [done|]. intros r w1 _ _ Hr. exact Hr.
Qed.

(** C22: materialization produces what the manifest declares.  Started on a transfer
    directory where every segment of a valid manifest is staged with its declared size and
    digest, Run, under every schedule, either reports an error or leaves the payload with
    every declared directory and file, byte-identical to its digest, each segment at the
    storage path it publishes, and counts the declared bytes. *)
Theorem materialize_correct root m content (t : tree) es res t' :
  Forall (fun c => plain c = true) root -> manifest_ok m ->
  Forall (fun s => plain (seg_ID s) = true) (Segments m) ->
  Forall (fun s => slen (content (seg_ID s)) = seg_WireSize s /\ HashBytes (content (seg_ID s)) = seg_Digest s) (Segments m) ->
  Forall (staged_at content t) (Segments m) ->
  run (Materialize.Run root m) es t = (Some (inr res), t') ->
  Published res = with_segments m (map (published_segment m) (Segments m)) /\
  MaterializedBytes res = Manifest.TotalBytes m /\ manifest_held t' (Published res).
Proof.
  intros Hroot Hm Hp Hc Hst E.
  refine (run_answer (fun _ => True) _ (fun (r : ecode + Result) t1 => match r with inl _ => True | inr res =>
    Published res = with_segments m (map (published_segment m) (Segments m)) /\
    MaterializedBytes res = Manifest.TotalBytes m /\ manifest_held t1 (Published res) end) _ _ _ _ _ I E).
  eapply Run_wp; eauto.
Qed.
End publishing.

(** ** The guarantees on the demonstration server *)

Lemma answer_pair {W A : Type} (p : prog W A) es w a : fst (run p es w) = Some a ->
  run p es w = (Some a, snd (run p es w)).
Proof. destruct (run p es w). by intros [= ->]. Qed.

Definition sent_download : option Download :=
  match fst (run (OpenDownload cfg sent_code) [] sent) with Some (inr dl) => Some dl | _ => None end.

Lemma committed_is_complete_witness :
  exists r m, transfers (db sent) !! sent_id = Some r /\ c_state r = StateCommitted /\ live_manifest sent sent_id m.
Proof.
  destruct (transfers (db sent) !! sent_id) as [r|] eqn:E; [|by vm_compute in E].
  assert (Hc : c_state r = StateCommitted) by (vm_compute in E; by injection E as <-).
  destruct (committed_is_complete cfg sent true sent_id r (sent_reachable faultless (Forall_nil_2 _)) E Hc) as [m Hm].
  exact (ex_intro _ r (ex_intro _ m (conj eq_refl (conj Hc Hm)))).
Defined.

(** A cleanup pass dies half way, the server restarts, and 29 minutes go by. *)
Definition cleanup : request := LocalCleanup (plain_http "POST" "/local/cleanup" []).
Definition crashed : world := snd (run (handle cfg cleanup) [Fine; Fine; Crash] sent).
Definition restarted : world := snd (run (reconcile_Run cfg) [] (reboot crashed)).
Definition waited : world := set_disk idle_disk (set_clock (noon + minutes 29) restarted).

Lemma crash_and_wait : rtc (step cfg faultless) (mkRunning sent true) (mkRunning waited true).
Proof.
  apply (rtc_l _ _ (mkRunning crashed false)); [exact (step_serve cfg faultless cleanup [Fine; Fine; Crash] sent I)|].
  apply (rtc_l _ _ (mkRunning restarted true)); [exact (step_restart cfg faultless [] crashed (Forall_nil_2 _))|].
  apply rtc_once. apply step_env. by vm_compute.
Qed.

Lemma published_survives_witness : exists r c m,
  transfers (db waited) !! sent_id = Some r /\ c_code r = Some c /\ live_manifest waited sent_id m /\
  fst (run (OpenDownload cfg (FormatCode c)) [] waited) =
    Some (inr (mkDownload (scanTransfer sent_id r) m (service_PayloadDir cfg sent_id))).
Proof.
  destruct (transfers (db sent) !! sent_id) as [r|] eqn:E; [|by vm_compute in E].
  assert (Hc : c_state r = StateCommitted) by (vm_compute in E; by injection E as <-).
  destruct (c_code r) as [c|] eqn:Ec; [|vm_compute in E; by injection E as <-].
  assert (Hd : due (clock waited) r = false) by (vm_compute in E; injection E as <-; by vm_compute).
  assert (Hn : NormalizeCode (FormatCode c) = Some c) by (vm_compute in E; injection E as <-; injection Ec as <-; by vm_compute).
  pose proof (reachable_strict cfg _ (sent_reachable faultless (Forall_nil_2 _))) as Hw. cbn [sv_world] in Hw.
  destruct (inv_committed (ST := strictly) sent Hw I sent_id r E Hc) as [t Ht].
  destruct (inv_live (ST := strictly) sent Hw sent_id t Ht) as (_ & m & Hm & Hh).
  destruct (published_survives cfg (mkRunning sent true) (mkRunning waited true) sent_id r c m (FormatCode c)
    (sent_reachable faultless (Forall_nil_2 _)) E Hc Ec (ex_intro _ t (conj Ht (conj Hm Hh))) crash_and_wait Hd Hn)
    as (Hr & Hm' & Hdl).
  exact (ex_intro _ r (ex_intro _ c (ex_intro _ m (conj Hr (conj Ec (conj Hm' Hdl)))))).
Defined.

Lemma download_is_complete_witness :
  exists dl, sent_download = Some dl /\
    live_manifest (snd (run (OpenDownload cfg sent_code) [] sent)) sent_id (dl_Manifest dl).
Proof.
  destruct sent_download as [dl|] eqn:E; [|by vm_compute in E]. exists dl. split; [exact eq_refl|].
  assert (Hid : t_ID (dl_Transfer dl) = sent_id) by (vm_compute in E; by injection E as <-).
  unfold sent_download in E. destruct (fst (run _ _ _)) as [[e|dl']|] eqn:E'; [discriminate E| |discriminate E]. injection E as ->.
  rewrite <- Hid. eapply (download_is_complete cfg any_schedule sent true sent_code [] dl).
  - exact (sent_reachable any_schedule I).
  - exact (answer_pair _ _ _ _ E').
Defined.

(** A receiver with a claim fetches the only segment. *)
Definition sent_claim : option ClaimResponse :=
  match fst (run (service_CreateClaim sent_code) [] sent) with Some (inr c) => Some c | _ => None end.
Definition post_claim : request := PostClaims (plain_http "POST" "/v1/claims" []) (Some sent_code).
Definition claimed : world := after post_claim sent.
Definition fetch : option (option (ecode + string * Z)) :=
  c ← sent_claim; s ← head (cl_Segments c);
  Some (fst (run (ClaimSegmentFile cfg (cl_ClaimID c) (cl_Token c) (cs_ID s)) [] claimed)).

Lemma segment_is_authentic_witness : exists claimID token segID d n m c now seg w',
  run (ClaimSegmentFile cfg claimID token segID) [] claimed = (Some (inr (d, n)), w') /\ d = "hello"%string /\
  live_manifest w' (k_TransferID c) m /\ authorized claimed now claimID token c /\
  SegmentByID m segID = Some seg /\ HashBytes d = seg_Digest seg.
Proof.
  destruct sent_claim as [c|] eqn:Ec; [|by vm_compute in Ec]. destruct (cl_Segments c) as [|s ss] eqn:Es.
  { vm_compute in Ec. by injection Ec as <-. }
  assert (Hr : fst (run (ClaimSegmentFile cfg (cl_ClaimID c) (cl_Token c) (cs_ID s)) [] claimed) = Some (inr ("hello"%string, 5%Z))).
  { vm_compute in Ec. injection Ec as <-. injection Es as <- <-. by vm_compute. }
  apply answer_pair in Hr.
  destruct (segment_is_authentic cfg any_schedule claimed true _ _ _ [] _ _ _
    (after_reachable any_schedule post_claim sent I (sent_reachable any_schedule I)) Hr)
    as (m & k & now & seg & Hm & Hseg & Hauth & _ & Hd & _).
  do 10 eexists. exact (conj Hr (conj eq_refl (conj Hm (conj Hauth (conj Hseg Hd))))).
Defined.

Definition commit_answer : option (CommitResponse * bool) :=
  match fst (run (service_Commit cfg plan_id plan_manifest) [] uploaded) with Some (inr x) => Some x | _ => None end.

Lemma commit_publishes_witness : exists resp w',
  run (service_Commit cfg plan_id plan_manifest) [] uploaded = (Some (inr (resp, true)), w') /\
  answered w' plan_id 30 resp /\ live_manifest w' plan_id (republished plan_manifest).
Proof.
  destruct commit_answer as [[resp fresh]|] eqn:E; [|by vm_compute in E].
  assert (Hf : fresh = true) by (vm_compute in E; by injection E). subst fresh.
  unfold commit_answer in E. destruct (fst (run _ _ _)) as [[e|x]|] eqn:E'; [discriminate E| |discriminate E].
  injection E as ->. apply answer_pair in E'.
  destruct (commit_publishes cfg any_schedule uploaded true plan_id plan_manifest [] resp true _
    (uploaded_reachable any_schedule I) plan_manifest_json E') as (row & Hrow & Ha & Hl & _).
  assert (Ht : effective_ttl cfg (scanTransfer plan_id row) = 30%Z) by (vm_compute in Hrow; by injection Hrow as <-).
  rewrite Ht in Ha. exact (ex_intro _ resp (ex_intro _ _ (conj E' (conj Ha (Hl eq_refl))))).
Defined.

Lemma boot_fresh : fresh_next boot.
Proof. by vm_compute. Qed.
Lemma post_chunks_admissible : admissible post_chunks boot.
Proof. split; [exact boot_fresh|]. by repeat constructor. Qed.

Lemma simple_upload_publishes_witness : exists r w' resp,
  run (handle cfg post_chunks) [] boot = (Some r, w') /\ tells r resp /\ published (sent_parts post_chunks) w' resp /\
  received (sent_parts post_chunks) = [("a.txt", "hello")]%string.
Proof.
  destruct (answer post_chunks boot) as [r|] eqn:E; [|by vm_compute in E].
  assert (H201 : r_Status r = 201%Z) by (vm_compute in E; by injection E as <-).
  unfold answer in E. apply answer_pair in E.
  destruct (simple_upload_publishes cfg any_schedule boot true post_chunks [] r _
    (boot_reachable any_schedule I) eq_refl post_chunks_admissible E H201) as (resp & Ht & Hp).
  do 3 eexists. exact (conj E (conj Ht (conj Hp eq_refl))).
Defined.

(** The process dies in the middle of a commit, then restarts. *)
Definition dying : list event := (repeat Fine 25 ++ [Crash])%list.

Lemma crash_and_restart_safe_witness :
  fst (run (handle cfg post_commit) dying uploaded) = None /\
  Inv (ST := strictly) (snd (run (reconcile_Run cfg) []
    (reboot (snd (run (handle cfg post_commit) dying uploaded))))).
Proof.
  split; [by vm_compute|].
  exact (crash_and_restart_safe cfg uploaded post_commit dying []
    (uploaded_reachable faultless (Forall_nil_2 _)) plan_manifest_json (Forall_nil_2 _)).
Defined.

Lemma code_resolves_only_unexpired_witness : exists t w',
  run (lookupCommitted sent_code) [Fine; Alt 1800] sent = (Some (inr t), w') /\ (clock w' < t_ExpiresAt t)%Z /\
  fst (run (lookupCommitted sent_code) [] (set_clock (noon + minutes 30) sent)) = Some (inl TransferExpired).
Proof.
  destruct (fst (run (lookupCommitted sent_code) [Fine; Alt 1800] sent)) as [[e|t]|] eqn:E; [by vm_compute in E| |by vm_compute in E].
  pose proof (answer_pair _ _ _ _ E) as E'.
  destruct (code_resolves_only_unexpired cfg any_schedule sent true sent_code _ t _ (sent_reachable any_schedule I) E')
    as (_ & _ & Hx).
  assert (Ht : t_ExpiresAt t <> zero_time) by (vm_compute in E; injection E as <-; by vm_compute).
  exists t, (snd (run (lookupCommitted sent_code) [Fine; Alt 1800] sent)). split; [exact E'|]. split.
  { destruct Hx as [Hx|Hx]; [destruct (Ht Hx)|exact Hx]. }
  by vm_compute.
Defined.

Definition staged_tree : tree := tree_of (staging uploaded) plan_id.
Definition segment_bytes (sid : string) : string := if (sid =? "seg-a")%string then "hello" else "PACK".

Lemma materialize_correct_witness : exists res t',
  run (Materialize.Run ["srv"; "t"] plan_manifest) [] staged_tree = (Some (inr res), t') /\
  manifest_held t' (Published res) /\ look t' [PayloadDir; "docs"; "b.txt"]%string = Some (CFile "hi").
Proof.
  destruct (fst (run (Materialize.Run ["srv"; "t"] plan_manifest) [] staged_tree)) as [[e|res]|] eqn:E;
    [by vm_compute in E| |by vm_compute in E].
  pose proof (answer_pair _ _ _ _ E) as E'. exists res, (snd (run (Materialize.Run ["srv"; "t"] plan_manifest) [] staged_tree)).
  split; [exact E'|]. split; [|by vm_compute].
  assert (Hm : manifest_ok plan_manifest) by (apply Validate_spec; by vm_compute).
  assert (H1 : Forall (fun c => plain c = true) ["srv"; "t"]%string) by by repeat constructor.
  assert (H2 : Forall (fun s => plain (seg_ID s) = true) (Segments plan_manifest)) by by repeat constructor.
  assert (H3 : Forall (fun s => slen (segment_bytes (seg_ID s)) = seg_WireSize s /\
    HashBytes (segment_bytes (seg_ID s)) = seg_Digest s) (Segments plan_manifest)).
  { cbn [Segments plan_manifest]. rewrite !Forall_cons, Forall_nil. conjs; [vm_compute; reflexivity..|exact I]. }
  assert (H4 : Forall (staged_at segment_bytes staged_tree) (Segments plan_manifest)).
  { cbn [Segments plan_manifest]. rewrite !Forall_cons, Forall_nil. conjs; [vm_compute; reflexivity..|exact I]. }
  destruct (materialize_correct ["srv"; "t"] plan_manifest segment_bytes staged_tree [] res _ H1 Hm H2 H3 H4 E') as (_ & _ & Hh).
  exact Hh.
Defined.
