(* ===== verification/HttpGuarantees.v ===== *)
(** * What clients can rely on

    Downloads are authentic, retries under an idempotency key never create a second
    transfer, interrupted uploads resume, and names cannot escape from a header. *)
From S2P Require Import Prelude GoStrings GoTime GoHttp Errors Code Paths Manifest Wire Admission Prog Tree Integrity.
From S2P Require Import Materialize Archive Store Config World Service Upload Commit Simple Janitor Api Safety.
From S2P Require Import ServiceProofs UploadProofs CommitProofs SimpleProofs JanitorProofs ReconcileProofs.
From S2P Require Import ApiProofs System Durability Resume Demo Guarantees.
Local Open Scope prog_scope.

(** ** Downloads *)
Section downloads.
Context {UC : Unicode} {EX : Externals} {EL : ExternalsLaws} {MC : ManifestCodec} {ML : ManifestCodecLaws}.
Context (cfg : Server).
#[local] Existing Instance leniently.

(** A body a client received in full. *)
Definition authentic (m : Manifest) (b : body) : Prop :=
  match b with
  | BContent name d => exists e, SingleRootFile m = (e, true) /\ name = e_Path e /\ slen d = e_Size e /\ HashBytes d = e_Digest e
  | BArchive items true => exists tar, Forall2 (archived tar) (SortedEntries m) items
  | _ => True
  end.

Definition served (code : string) (w : world) (r : response) (w1 : world) : Prop :=
  r_Status r = 200%Z -> exists t m, resolves w code t /\ live_manifest w1 (t_ID t) m /\ authentic m (r_Body r).

Lemma error_not_200 e : HTTPStatus (code_string e) <> 200%Z.
Proof. by destruct e. Qed.
Lemma served_error q code w e w1 : served code w (WriteError q [] e) w1.
Proof. intros H. by destruct (error_not_200 e). Qed.

Lemma live_manifest_ok w id m : live_manifest w id m -> manifest_ok m.
Proof.
  intros (t & _ & Hm & _). unfold manifest_of in Hm. destruct (look t _) as [[]|]; try done.
  unfold parse_manifest in Hm. destruct (json_Unmarshal _) as [m'|]; [|done]. destruct (Manifest.Validate m') eqn:E; [done|].
  injection Hm as <-. by apply Validate_spec.
Qed.

Lemma single_root_spec es found count e : (0 <= count)%Z -> single_root_loop es found count = (e, true) ->
  es = [] /\ e = found /\ count = 1%Z \/ es = [e] /\ is_dir e = false /\ count = 0%Z.
Proof.
  revert found count. induction es as [|x es IH]; intros found count Hc; cbn.
  { intros [= <- Hx]. left. by apply Z.eqb_eq in Hx. }
  destruct (is_dir x) eqn:Ed; [done|]. destruct (has_byte _ _); [done|]. intros H.
  destruct (IH x (count + 1)%Z ltac:(lia) H) as [(-> & -> & Hx)|(_ & _ & Hx)]; [right|lia]. split_and!; [done|done|lia].
Qed.
Lemma single_root m e : SingleRootFile m = (e, true) -> Entries m = [e] /\ is_dir e = false.
Proof. intros H. destruct (single_root_spec _ _ _ _ ltac:(done) H) as [(_ & _ & ?)|(? & ? & _)]; [done|done]. Qed.

(** Reading in one live directory keeps everything a manifest declares. *)
Lemma wp_read_live {A : Type} id (p : prog tree A) (Q' : A -> Prop) (Q : A -> world -> Prop) w m :
  Inv w -> live_manifest w id m -> (forall t, live w !! id = Some t -> wp (eq t) p (fun a t' => t = t' /\ Q' a) t) ->
  (forall a w1, Inv w1 -> live_manifest w1 id m -> Q' a -> Q a w1) -> wp Inv (in_live id p) Q w.
Proof.
  intros Hw Hm Hp HQ. pose proof Hm as (t & Ht & _). specialize (Hp t Ht).
  apply (wp_in_live id p Inv (fun a _ => Q' a)).
  - rewrite (tree_of_Some _ _ _ Ht). eapply wp_mono; [| |exact Hp]; [by intros t' <-|by intros a t' []].
  - intros w1 Hl. by eapply Inv_live.
  - intros a w1 Hl Ha. destruct (calm_live _ _ _ Hl Hw) as [Hw1 Hs]. apply HQ; [done| |done]. by eapply live_manifest_stays.
Qed.

Lemma live_root_of w code t : Inv w -> resolves w code t ->
  Forall (fun c => plain c = true) (live_root cfg (t_ID t)) /\ live_root cfg (t_ID t) <> [].
Proof.
  intros Hw (c & r & _ & Hr & _). destruct (inv_ids w Hw _ _ Hr) as [P1 P2]. split; [by apply live_root_plain|].
  unfold live_root. by intros [_ E]%app_eq_nil.
Qed.

Lemma serveRawFile_wp q code dl e w0 w : Inv w0 -> Inv w -> resolves w0 code (dl_Transfer dl) ->
  live_manifest w (t_ID (dl_Transfer dl)) (dl_Manifest dl) -> SingleRootFile (dl_Manifest dl) = (e, true) ->
  wp Inv (serveRawFile cfg q dl e) (served code w0) w.
Proof.
  intros Hw0 Hw Hres Hm Hsingle. destruct (live_root_of _ _ _ Hw0 Hres) as [Hp Hne].
  destruct (single_root _ _ Hsingle) as [He Hd]. pose proof (live_manifest_ok _ _ _ Hm) as Hok.
  pose proof Hok as (_ & _ & _ & _ & _ & _ & _ & _ & _ & _ & _ & _ & _ & Hent & _).
  rewrite He, Forall_singleton in Hent. destruct Hent as (Hpath & _ & _ & _ & Hcase).
  unfold serveRawFile. rewrite SafeJoinIn_payload by done.
  apply wp_bind, (wp_read_live _ _ (fun r => forall d, r = inr d -> slen d = e_Size e /\ HashBytes d = e_Digest e) _ _ (dl_Manifest dl)); [done|done| |].
  - intros t Ht. apply wp_ReadFile; [done|]. intros r Hr. split; [done|]. intros d ->.
    destruct Hm as (t' & Ht' & _ & Hheld & _). assert (t' = t) as -> by congruence.
    rewrite He, Forall_singleton in Hheld. destruct Hheld as [_ Hf]. destruct Hcase as [[Hc _]|[Hf2 _]]; [congruence|].
    destruct (Hf Hf2) as (d' & Hd' & Hs & Hh). rewrite Hr in Hd'. by injection Hd' as ->.
  - intros [er|d] w1 Hw1 Hm1 Hr; [apply served_error|]. intros _. exists (dl_Transfer dl), (dl_Manifest dl).
    split_and!; [done|done|]. exists e. destruct (Hr d eq_refl). by split_and!.
Qed.

Lemma handleDownload_wp q code format w : Inv w -> wp Inv (handleDownload cfg q code format) (served code w) w.
Proof.
  intros Hw. unfold handleDownload. cbv zeta. set (f := if (format =? "")%string then "auto"%string else format). destruct (negb _); [apply served_error|].
  eapply wp_then; [done|by apply OpenDownload_wp|]. intros [e|dl] w1 Hw1 (_ & _ & Hdl); [apply served_error|].
  destruct (Hdl dl eq_refl) as (Hres & _ & Hm). unfold AcquireDownload.
  apply wp_bind, wp_orE, wp_act. intros r w2 Hr. assert (w2 = w1) as -> by (destruct Hr as [[=]|(? & ? & [= <-] & [=])]; congruence).
  split; [done|]. destruct r as [er|[]]; cbn [wp]; [apply served_error|].
  destruct (SingleRootFile (dl_Manifest dl)) as [e b] eqn:Es.
  assert (Hraw : b = true -> wp Inv (serveRawFile cfg q dl e) (served code w) w1) by (intros ->; by apply serveRawFile_wp).
  destruct (_ && negb b) eqn:E1; [apply served_error|].
  destruct (_ || _) eqn:E2; [apply Hraw; by destruct (_ =? "raw")%string, (_ =? "auto")%string, b|].
  destruct (q_Method q =? "HEAD")%string; [intros _; by exists (dl_Transfer dl), (dl_Manifest dl)|].
  destruct (live_root_of _ _ _ Hw Hres) as [Hp Hne].
  apply wp_bind, (wp_read_live _ _ (fun r => snd r = true -> Forall2 (archived (f =? "tar")%string) (SortedEntries (dl_Manifest dl)) (fst r)) _ _ (dl_Manifest dl)); [done|done| |].
  - intros t Ht. apply stream_wp; [done|done|by eapply live_manifest_ok|].
    destruct Hm as (t' & Ht' & _ & Hh). congruence.
  - intros [items [|]] w2 Hw2 Hm2 Hi _; exists (dl_Transfer dl), (dl_Manifest dl); (split_and!; [done|done|]); [|done].
    eexists. by apply Hi.
Qed.

(** C17: what a browser downloads is what was published.  In every reachable state and
    under every schedule, a download answered with status 200 names a COMMITTED row of the
    code; its body, unless the archive broke off, is the only file of the manifest, byte for
    byte of the declared size and digest, or the members of the whole manifest in order,
    each file with its declared digest. *)
Theorem download_is_authentic restarts w b q code format es r w' :
  reachable cfg restarts (mkRunning w b) -> run (handle cfg (GetDownload q code format)) es w = (Some r, w') ->
  r_Status r = 200%Z ->
  exists t m, resolves w code t /\ live_manifest w' (t_ID t) m /\ authentic m (r_Body r).
Proof.
  intros Hs E. pose proof (reachable_world cfg _ _ _ Hs) as Hw.
  exact (run_answer _ _ _ _ _ _ _ (handleDownload_wp q code format w Hw) Hw E).
Qed.
End downloads.

(** ** Retries *)
Section retries.
Context {UC : Unicode} {EX : Externals} {MC : ManifestCodec}.
Context (cfg : Server).

Definition anything (_ : world) : Prop := True.

(** Calls that leave the idempotency table alone. *)
Definition same_keys (w w' : world) : Prop := idempotency_keys (db w') = idempotency_keys (db w).
#[local] Instance same_keys_preorder : PreOrder same_keys.
Proof. split; [done|]. unfold same_keys. intros w1 w2 w3. congruence. Qed.

Lemma keys_db w w' : db w' = db w -> same_keys w w'.
Proof. unfold same_keys. by intros ->. Qed.
Lemma keys_idle {A : Type} (p : prog world A) : within idle p -> within same_keys p.
Proof. apply within_mono. intros w w' [E _]. by apply keys_db. Qed.
Lemma keys_tx {A : Type} (f : txn A) : (forall d, idempotency_keys (snd (f d)) = idempotency_keys d) -> within same_keys (tx f).
Proof.
  intros Hf. assert (G : forall w, same_keys w (snd (tx_step f w))).
  { intros w. unfold tx_step. specialize (Hf (db w)). by destruct (f (db w)). }
  apply within_act; [done|]. intros g n w [= <-]. by destruct n; [|apply G].
Qed.
Lemma keys_rand n : within same_keys (rand_Read n).
Proof. by apply within_act. Qed.
Lemma keys_staging {A : Type} id (p : prog tree A) : within same_keys (in_staging id p).
Proof. apply within_lift; [apply _|]. by intros t w. Qed.
Lemma keys_live {A : Type} id (p : prog tree A) : within same_keys (in_live id p).
Proof. apply within_lift; [apply _|]. by intros t w. Qed.
Lemma keys_New p : within same_keys (New p).
Proof. unfold New. pose proof keys_rand. within_solve. Qed.
Lemma keys_files (step : world -> (oserr + unit) * world) (alts : nat -> world -> (oserr + unit) * world) :
  (forall w, db (snd (step w)) = db w) -> (forall n w, db (snd (alts n w)) = db w) -> within same_keys (act step (Some alts)).
Proof. intros H1 H2. apply within_act; [intros w; by apply keys_db|]. intros f n w [= <-]. by apply keys_db. Qed.
#[local] Hint Resolve keys_idle keys_rand keys_staging keys_live keys_New : within.

Lemma keys_RemoveStaging id : within same_keys (RemoveStaging id).
Proof. unfold RemoveStaging, remove_all. within_solve; by apply keys_files. Qed.
Lemma keys_CreateTransfer t : within same_keys (tx (CreateTransfer t)).
Proof. apply keys_tx. intros d. unfold CreateTransfer. by case_match. Qed.
Lemma keys_SetState id s : within same_keys (tx (SetState id s)).
Proof. by apply keys_tx. Qed.
Lemma keys_SetNote id n t : within same_keys (tx (SetNoteAndTTL id n t)).
Proof. by apply keys_tx. Qed.
Lemma keys_layout_Publish id : within same_keys (layout_Publish id).
Proof.
  unfold layout_Publish. within_solve. apply keys_files; [|done]. intros w. unfold rename_to_live. by repeat case_match.
Qed.
Lemma keys_store_Publish id now ttl dg b : within same_keys (store_Publish id now ttl dg b).
Proof.
  assert (G : forall w, same_keys w (snd (Publish_step id now ttl dg b w))).
  { intros w. unfold Publish_step, tx_step. cbn [db set_rpos]. set (bufs := map _ _).
    assert (Hb : Forall (fun b => length b = 8%nat) bufs).
    { apply Forall_map, Forall_forall. intros k _. unfold bytes_at. by rewrite length_map, length_seq. }
    destruct (Publish bufs id now ttl dg b (db w)) as [r d'] eqn:E. apply Publish_spec in E; [|done].
    unfold same_keys. cbn. destruct r as [e|t]; [by subst|].
    destruct E as (row & _ & _ & _ & [(_ & _ & _ & ->)|(_ & _ & _ & _ & _ & _ & ->)]); done. }
  apply within_act; [exact G|]. intros g n w [= <-]. by destruct n; [|apply G].
Qed.
Lemma keys_memory {A : Type} (f : world -> A) (g : world -> manifestCache) : within same_keys (act_ (fun w => (f w, set_cache (g w) w))).
Proof. by apply within_act. Qed.
Lemma keys_adm : within same_keys (adm_CheckStreaming cfg).
Proof. apply keys_idle, idle_CheckStreaming. Qed.
#[local] Hint Resolve keys_RemoveStaging keys_CreateTransfer keys_SetState keys_SetNote keys_layout_Publish
  keys_store_Publish keys_memory keys_adm : within.

Lemma keys_add_loop id t b failing cs n since : within same_keys (add_loop cfg id t b failing cs n since).
Proof. revert n since. induction cs as [|c cs IH]; intros n since; cbn [add_loop]; within_solve. Qed.
#[local] Hint Resolve keys_add_loop : within.
Lemma keys_do_part s p : within same_keys (do_part cfg s p).
Proof. destruct p; cbn [do_part]; unfold AddFile, ids_Segment; within_solve. Qed.
Lemma keys_BeginSimple : within same_keys (BeginSimple cfg).
Proof. unfold BeginSimple, ids_Transfer, PrepareStaging. within_solve. Qed.
Lemma keys_session_Commit s : within same_keys (session_Commit s).
Proof. unfold session_Commit, publish, writeAndDigestManifest, temp_name. within_solve. Qed.

(** What the table says of a key: the transfer and the code recorded for it. *)
Definition key_state (h fp : string) (P : string -> string -> Prop) (w : world) : Prop :=
  exists row, idempotency_keys (db w) !! h = Some row /\ from_null (c_request_fingerprint row) = fp /\
    P (from_null (c_idem_transfer_id row)) (from_null (c_response_code row)).
Lemma key_state_same h fp P w w' : same_keys w w' -> key_state h fp P w -> key_state h fp P w'.
Proof. unfold key_state. by intros ->. Qed.

Lemma nullString_from s : from_null (nullString s) = s.
Proof. unfold nullString. destruct (String.eqb_spec s "") as [->|]; done. Qed.

Definition pending (t c : string) : Prop := t = "" /\ c = "".
Definition key_of (q : http) (op : string) : string := keyHash op (TrimSpace (header q "Idempotency-Key")).
Definition has_key (q : http) : Prop := TrimSpace (header q "Idempotency-Key") <> "".

(** The first request with a key. *)
Lemma begin_first q op w : has_key q -> wp anything (beginIdempotent q op) (fun r w1 => forall h, r = inr (h, "") ->
  h = key_of q op /\ key_state h (requestFingerprint q) (fun t c => c = "") w1) w.
Proof.
  unfold has_key, beginIdempotent, key_of. cbv zeta. intros Hk. rewrite (proj2 (String.eqb_neq _ _) Hk).
  destruct (negb _); [|by intros h]. set (h := keyHash op _). set (fp := requestFingerprint q).
  apply wp_bind, (wp_within idle); [apply idle_Now|done|]. intros now w1 _.
  apply wp_orE, wp_act. intros r w2 Hr. split; [done|]. destruct r as [e|[rec|]]; [by intros h'| |].
  - assert (Hrec : exists row, idempotency_keys (db w2) !! h = Some row /\ rec = scanIdempotency h row).
    { destruct Hr as [E|(f & n & [= <-] & [=])]. unfold tx_step, RememberIdempotency in E. cbn [i_KeyHash] in E.
      destruct (idempotency_keys (db w1) !! h) as [row|] eqn:Er; [|done]. injection E as <- <-. exists row. by destruct w1. }
    destruct Hrec as (row & Hrow & ->). cbn [scanIdempotency i_RequestFingerprint i_ResponseCode i_TransferID].
    destruct (String.eqb_spec (from_null (c_request_fingerprint row)) fp) as [Ef|]; [|by intros h'].
    destruct (String.eqb_spec (from_null (c_response_code row)) "") as [Ec|]; cbn [negb]; [by destruct (_ =? "")%string|].
    cbn [wp]. intros h' [= <- Hc]. by rewrite Hc in *.
  - cbn [wp]. intros h' [= <-]. split; [done|]. destruct Hr as [E|(f & n & [= <-] & [=])].
    unfold tx_step, RememberIdempotency in E. cbn [i_KeyHash] in E.
    destruct (idempotency_keys (db w1) !! h) as [row|] eqn:Er; [done|]. injection E as <-. unfold key_state. cbn.
    rewrite lookup_insert_eq. eexists. split; [done|]. cbn. by rewrite nullString_from.
Qed.

Lemma simple_session_keys (forget : prog world unit) ps w :
  wp anything (simple_session cfg forget ps) (fun r w1 => forall id resp, r = inr (id, resp) -> same_keys w w1) w.
Proof.
  unfold simple_session. apply wp_bind, (wp_within same_keys); [apply keys_BeginSimple|done|].
  assert (Hfail : forall A (p : prog world A) e w1, wp anything (p ;;; Ret (inl e))
    (fun (r : ecode + string * CommitResponse) w2 => forall id resp, r = inr (id, resp) -> same_keys w w2) w1).
  { intros A p e w1. apply wp_bind. eapply wp_wand; [apply wp_trivial|]. by intros a w2 _. }
  assert (Habort : forall s e w1, wp anything (forget ;;; session_Abort s ;;; Ret (inl e))
    (fun (r : ecode + string * CommitResponse) w2 => forall id resp, r = inr (id, resp) -> same_keys w w2) w1).
  { intros s e w1. apply wp_bind. eapply wp_wand; [apply wp_trivial|]. intros a w2 _. apply Hfail. }
  intros [e|s] w1 H1; [apply Hfail|].
  apply wp_bind, (wp_within same_keys); [apply within_loop; [apply _|]; intros; apply keys_do_part|done|].
  intros [e|s'] w2 H2; [apply Habort|].
  apply wp_bind, (wp_within same_keys); [apply keys_session_Commit|done|]. intros [e|resp] w3 H3; [apply Habort|].
  intros id resp' _. etrans; [exact H1|]. by etrans.
Qed.

Definition told (h fp : string) (r : response) (w : world) : Prop :=
  r_Status r = 201%Z -> exists resp, tells r resp /\ key_state h fp (fun _ c => c = "" \/ c = co_Code resp) w.

Lemma upload_session_told q h fp ps w : key_state h fp (fun t c => c = "") w ->
  wp anything (upload_session cfg q h ps) (told h fp) w.
Proof.
  intros Hk. unfold upload_session. apply wp_bind. eapply wp_wand; [apply simple_session_keys|].
  intros [e|[id resp]] w1 Hs; [intros H; by destruct (error_status e)|].
  specialize (Hs id resp eq_refl). pose proof (key_state_same _ _ _ _ _ Hs Hk) as (row & Hrow & Hf & Hc).
  assert (Ht : forall w2, key_state h fp (fun _ c => c = "" \/ c = co_Code resp) w2 ->
    wp anything (Ret (respondCode q resp 201)) (told h fp) w2).
  { intros w2 H2 _. exists resp. split; [apply respond_tells|done]. }
  assert (Hold : key_state h fp (fun _ c => c = "" \/ c = co_Code resp) w1) by (exists row; auto).
  unfold completeIdempotent. destruct (h =? "")%string; [by apply Ht|]. apply wp_bind, wp_bind, wp_act.
  assert (Hnew : key_state h fp (fun _ c => c = "" \/ c = co_Code resp) (snd (tx_step (CompleteIdempotency h id (co_Code resp)) w1))).
  { eexists. cbn. rewrite lookup_alter_eq, Hrow. split; [done|]. cbn. rewrite !nullString_from. auto. }
  intros r w2 [E|(f & n & [= <-] & [= <- <-])]; (split; [done|]).
  - apply Ht. by rewrite E in Hnew.
  - apply Ht. by destruct n.
Qed.

(** *** The requests that send files *)
Definition http_of (r : request) : http :=
  match r with PostSimple q _ | PostRaw q _ => q | _ => mkHttp "" "" 0 [] end.
Definition operation_of (r : request) : string := match r with PostSimple _ _ => "simple-send" | _ => "raw-send" end.
Definition request_key (r : request) : string := key_of (http_of r) (operation_of r).
(** The same endpoint and head; nothing is said of the bodies. *)
Definition same_request (r r' : request) : Prop :=
  match r, r' with PostSimple q _, PostSimple q' _ => q' = q | PostRaw q _, PostRaw q' _ => q' = q | _, _ => False end.

Lemma first_told r w : is_upload r = true -> has_key (http_of r) ->
  wp anything (handle cfg r) (told (request_key r) (requestFingerprint (http_of r))) w.
Proof.
  intros Hu Hk. assert (He : forall A (p : prog world A) q e w1, wp anything (p ;;; Ret (WriteError q [] e))
    (told (request_key r) (requestFingerprint (http_of r))) w1).
  { intros A p q e w1. apply wp_bind. eapply wp_wand; [apply wp_trivial|]. intros a w2 _ H. by destruct (error_status e). }
  destruct r as [| | |q form|q data| | | | | | | | | | | | | |]; try done; cbn [handle http_of request_key operation_of] in *;
    [unfold handleSimpleUpload|unfold handleRawUpload]; apply wp_bind; (eapply wp_wand; [by apply begin_first|]);
    intros [e|[h replay]] w1 Hb; try (intros H; by destruct (error_status e));
    (destruct (String.eqb_spec replay "") as [->|]; cbn [negb]; [|intros H; by rewrite respond_status in H]);
    destruct (Hb h eq_refl) as [-> Hks].
  - destruct form as [form|]; [by apply upload_session_told|apply He].
  - destruct (_ =? "")%string; [apply He|]. destruct (SimpleRawTTL cfg _); [apply He|by apply upload_session_told].
Qed.

(** A later request with the same key and head. *)
Lemma begin_again q op code w : has_key q -> key_state (key_of q op) (requestFingerprint q) (fun _ c => c = "" \/ c = code) w ->
  wp (harmless w) (beginIdempotent q op) (fun r w1 => harmless w w1 /\
    ((exists e, r = inl e) \/ exists h, r = inr (h, code) /\ code <> "")) w.
Proof.
  unfold has_key, beginIdempotent, key_of. cbv zeta. intros Hk (row & Hrow & Hf & Hc). rewrite (proj2 (String.eqb_neq _ _) Hk).
  destruct (negb _); [|by split; [|left; eexists]]. set (h := keyHash op _) in *. set (fp := requestFingerprint q) in *.
  apply wp_bind, wp_act. intros now w1 Hn. assert (db w1 = db w /\ harmless w w1) as [Ed Hh].
  { destruct Hn as [[= <- <-]|(f & n & [= <-] & [= <- <-])]; [done|]. split; [done|]. split; [cbn; lia|done]. }
  split; [done|].
  set (rem := RememberIdempotency _). assert (Et : tx_step rem w1 = (inr (Some (scanIdempotency h row)), w1)).
  { unfold tx_step, rem, RememberIdempotency. cbn [i_KeyHash]. rewrite Ed, Hrow, <- Ed. by destruct w1. }
  apply wp_orE, wp_act. intros r w2 Hr. assert (w2 = w1 /\ forall x, r = inr x -> x = Some (scanIdempotency h row)) as [-> Hx].
  { destruct Hr as [E|(f & n & [= <-] & [= <- <-])]; rewrite Et in *; [injection E as <- <-; split; [done|by intros x [= <-]]|].
    by destruct n. }
  split; [done|]. destruct r as [e|x]; [by split; [|left; eexists]|]. rewrite (Hx x eq_refl).
  cbn [scanIdempotency i_RequestFingerprint i_ResponseCode i_TransferID]. rewrite Hf, String.eqb_refl.
  destruct (String.eqb_spec (from_null (c_response_code row)) "") as [E0|E0]; cbn [negb].
  - destruct (negb _); by split; [|left; eexists].
  - split; [done|]. right. destruct Hc as [?|Hc]; [done|]. exists h. by rewrite <- Hc.
Qed.

Definition replay_of (r : request) (code : string) (r' : response) : Prop :=
  tells r' (replayed code) /\ r_Status r' = 200%Z \/ exists e, r' = WriteError (http_of r) [] e.

Lemma again_wp r r' code w : same_request r r' -> has_key (http_of r) ->
  key_state (request_key r) (requestFingerprint (http_of r)) (fun _ c => c = "" \/ c = code) w ->
  wp (harmless w) (handle cfg r') (fun a w1 => harmless w w1 /\ replay_of r code a) w.
Proof.
  intros Hsame Hk Hks. destruct r as [| | |q form|q data| | | | | | | | | | | | | |]; try done; destruct r'; try done;
    cbn [same_request handle http_of request_key operation_of] in *; subst;
    [unfold handleSimpleUpload|unfold handleRawUpload]; apply wp_bind; (eapply wp_wand; [by apply begin_again|]);
    intros r1 w1 (Hh & [[e ->]|(h & -> & Hne)]); try (split; [done|right; by eexists]);
    (destruct (String.eqb_spec code "") as [->|]; [done|]; cbn [negb]; split; [done|]; left;
     split; [apply respond_tells|apply respond_status]).
Qed.

(** C15: a retry never creates a second transfer.  When an upload with an Idempotency-Key
    was answered 201, then whatever happened since, as long as the key's row is the one it
    left, repeating the request (same endpoint and headers, any body, any schedule) changes
    no transfer row and no live directory, and answers either the same code with status
    200 or an error. *)
Theorem retry_never_duplicates r r' es w a w1 w2 es2 o w3 :
  is_upload r = true -> same_request r r' -> has_key (http_of r) ->
  run (handle cfg r) es w = (Some a, w1) -> r_Status a = 201%Z ->
  idempotency_keys (db w2) !! request_key r = idempotency_keys (db w1) !! request_key r ->
  run (handle cfg r') es2 w2 = (o, w3) ->
  harmless w2 w3 /\ exists resp, tells a resp /\ forall a', o = Some a' -> replay_of r (co_Code resp) a'.
Proof.
  intros Hu Hsame Hk E1 H201 Ekey E2.
  destruct (run_answer anything _ _ _ _ _ _ (first_told r w Hu Hk) I E1 H201) as (resp & Ht & row & Hrow & Hf & Hc).
  assert (Hks : key_state (request_key r) (requestFingerprint (http_of r)) (fun _ c => c = "" \/ c = co_Code resp) w2).
  { exists row. by rewrite Ekey. }
  destruct (wp_sound (harmless w2) _ _ es2 w2 ltac:(done) (again_wp r r' (co_Code resp) w2 Hsame Hk Hks)) as [Hh Hr].
  rewrite E2 in Hh, Hr. split; [done|]. exists resp. split; [done|]. intros a' ->. by apply Hr.
Qed.
End retries.

(** ** Names in headers *)

(** The bytes a quoted-string may hold as they are, and those of a percent-encoded value. *)
Definition quotable (a : ascii) : bool :=
  ((32 <=? byte_val a) && (byte_val a <? 127) && negb (existsb (Z.eqb (byte_val a)) [34; 92; 47]))%Z.
Definition is_upper_hex (a : ascii) : bool :=
  ((48 <=? byte_val a) && (byte_val a <=? 57) || (65 <=? byte_val a) && (byte_val a <=? 70))%Z.
Definition extended (a : ascii) : bool := path_safe a || (a =? "%")%char.

(** url.PathUnescape, the receiving side's reading *)
Definition unhex (a : ascii) : Z := if (byte_val a <=? 57)%Z then (byte_val a - 48)%Z else (byte_val a - 55)%Z.
Fixpoint PathUnescape (s : string) : option string :=
  match s with
  | String "%" (String x (String y t)) =>
    if is_upper_hex x && is_upper_hex y then String (byte_of (unhex x * 16 + unhex y)) <$> PathUnescape t else None
  | String "%" _ => None
  | String a t => String a <$> PathUnescape t
  | EmptyString => Some EmptyString
  end.

Lemma upper_hex_digit_ok z : (0 <= z < 16)%Z ->
  is_upper_hex (upper_hex_digit z) = true /\ unhex (upper_hex_digit z) = z /\ path_safe (upper_hex_digit z) = true.
Proof.
  intros Hz. assert (Hc : z ∈ seqZ 0 16) by by apply elem_of_seqZ.
  repeat (apply elem_of_cons in Hc as [->|Hc]; [by vm_compute|]). by apply elem_of_nil in Hc.
Qed.
Lemma safe_not_percent a : path_safe a = true -> (a =? "%")%char = false.
Proof. intros Hs. destruct (Ascii.eqb_spec a "%") as [->|]; [by vm_compute in Hs|done]. Qed.

Lemma PathUnescape_safe a t : path_safe a = true -> PathUnescape (String a t) = String a <$> PathUnescape t.
Proof.
  intros Hs%safe_not_percent. cbn [PathUnescape]. destruct (Ascii.eqb_spec a "%") as [|Hne]; [done|].
  destruct a as [[] [] [] [] [] [] [] []]; done.
Qed.

Lemma PathUnescape_PathEscape s : PathUnescape (PathEscape s) = Some s.
Proof.
  induction s as [|a s IH]; [done|]. cbn [PathEscape]. destruct (path_safe a) eqn:Ea.
  { by rewrite PathUnescape_safe, IH. }
  pose proof (byte_val_range a) as Hr.
  assert (H1 : (0 <= byte_val a / 16 < 16)%Z) by (split; [apply Z.div_pos|apply Z.div_lt_upper_bound]; lia).
  pose proof (Z.mod_pos_bound (byte_val a) 16 ltac:(lia)) as H2.
  destruct (upper_hex_digit_ok _ H1) as (A1 & B1 & _), (upper_hex_digit_ok _ H2) as (A2 & B2 & _).
  cbn [PathUnescape]. rewrite A1, A2, B1, B2, IH. cbn. do 2 f_equal.
  rewrite <- (byte_of_val a) at 3. f_equal. pose proof (Z.div_mod (byte_val a) 16 ltac:(lia)). lia.
Qed.

Lemma PathEscape_extended s : sforall extended (PathEscape s) = true.
Proof.
  induction s as [|a s IH]; [done|]. cbn [PathEscape]. unfold extended in *. destruct (path_safe a) eqn:Ea; cbn [sforall].
  { by rewrite Ea. }
  pose proof (byte_val_range a) as Hr.
  assert (H1 : (0 <= byte_val a / 16 < 16)%Z) by (split; [apply Z.div_pos|apply Z.div_lt_upper_bound]; lia).
  pose proof (Z.mod_pos_bound (byte_val a) 16 ltac:(lia)) as H2.
  destruct (upper_hex_digit_ok _ H1) as (_ & _ & ->), (upper_hex_digit_ok _ H2) as (_ & _ & ->). by rewrite IH.
Qed.

Lemma header_rune_quotable r : sforall quotable (header_rune r) = true.
Proof.
  unfold header_rune. destruct (_ || _) eqn:E; [done|].
  rewrite !orb_false_iff, !Z.ltb_ge, !Z.eqb_neq in E. destruct E as [[[[[E1 E2] E3] E4] E5] E6].
  cbn [sforall]. rewrite andb_true_r. unfold quotable. rewrite byte_val_of by lia. cbn [existsb].
  rewrite !andb_true_iff, Z.leb_le, Z.ltb_lt, negb_true_iff, !orb_false_iff, !Z.eqb_neq. repeat split; lia.
Qed.
Lemma sforall_join f l : Forall (fun s => sforall f s = true) l -> sforall f (join "" l) = true.
Proof.
  induction 1 as [|s l Hs _ IH]; [done|]. by rewrite join_nil_cons, sforall_app, Hs, IH.
Qed.

(** A file name cannot escape from its header.  Whatever bytes a name has, the value
    of Content-Disposition is one quoted-string of printable ASCII without quotes,
    backslashes or slashes, never empty, followed by a percent-encoded UTF-8'' value of
    unreserved characters, which decodes back to exactly the name; so no byte of a name
    ends the value or the header line. *)
Theorem disposition_safe name : exists ascii ext,
  snd (disposition name) = ("attachment; filename=" ++ quote ++ ascii ++ quote ++ "; filename*=UTF-8''" ++ ext)%string /\
  ascii <> "" /\ sforall quotable ascii = true /\ sforall extended ext = true /\ PathUnescape ext = Some name.
Proof.
  exists (sanitizeHeaderFilename name), (PathEscape name). split; [done|].
  assert (H : sforall quotable (join "" (map header_rune (runes name))) = true).
  { apply sforall_join, Forall_map, Forall_forall. intros r _. apply header_rune_quotable. }
  unfold sanitizeHeaderFilename. split_and!; [|by destruct (_ =? "")%string|apply PathEscape_extended|apply PathUnescape_PathEscape].
  destruct (String.eqb_spec (join "" (map header_rune (runes name))) "") as [|Hne]; done.
Qed.

(** ** Interrupted uploads *)

(** C16: an interrupted upload resumes.  A client sends the bytes of a segment; the row
    declares their length and acknowledges
    the beginning [d], and the staged file has it.  A PATCH with any next piece,
    at whatever offset, under every schedule (write errors, a full disk, a broken stream, a
    crash), leaves a row that acknowledges [d] or more of the same bytes, all of them in the
    file; and an answer without error means that the whole piece was appended, its offset
    the exact length. *)
Theorem upload_resumes `{UC : Unicode, EX : Externals} (cfg : Server) bytes d rest uploadID offset body id sid row es w o w' :
  segment_by_upload uploadID (db w) = Some ((id, sid), row) -> staged_prefix bytes id sid uploadID d w ->
  bytes = (d ++ join "" (chunks body) ++ rest)%string -> run (UploadPatch cfg uploadID offset body) es w = (o, w') ->
  (exists d', sprefix d d' /\ staged_prefix bytes id sid uploadID d' w') /\
  forall n, o = Some (n, None) -> n = slen (d ++ join "" (chunks body))%string /\
    file_is sid (d ++ join "" (chunks body)) (tree_of (staging w') id).
Proof.
  intros Hup Hst Hb E. pose proof (UploadPatch_wp cfg bytes id sid uploadID d rest offset body w row Hup Hst Hb) as Hwp.
  destruct (wp_sound (kept bytes id sid uploadID d) _ _ es w (kept_self bytes id sid uploadID d w Hst) Hwp) as [Hk Ha]. rewrite E in Hk, Ha.
  split; [exact Hk|]. intros n ->. destruct (Ha _ eq_refl) as [_ H]. by apply H.
Qed.

(** ** On the demonstration server *)

Definition get_zip : request := GetDownload (plain_http "GET" "/r" []) (shown (answer post_commit uploaded)) "zip".

Lemma download_is_authentic_witness : exists r t m,
  answer (GetDownload (plain_http "GET" "/r" []) sent_code "") sent = Some r /\
  r_Body r = BContent "a.txt" "hello" /\ resolves sent sent_code t /\ authentic m (r_Body r).
Proof.
  destruct (answer (GetDownload (plain_http "GET" "/r" []) sent_code "") sent) as [r|] eqn:E; [|by vm_compute in E].
  assert (H200 : r_Status r = 200%Z /\ r_Body r = BContent "a.txt" "hello") by (vm_compute in E; by injection E as <-).
  destruct H200 as [H200 Hb]. unfold answer in E. pose proof (answer_pair _ _ _ _ E) as E'.
  destruct (download_is_authentic cfg any_schedule sent true _ sent_code "" [] r _ (sent_reachable any_schedule I) E' H200)
    as (t & m & Hres & _ & Ha).
  exists r, t, m. exact (conj eq_refl (conj Hb (conj Hres Ha))).
Defined.

(** The same browser tries again, its body cut short. *)
Definition post_again : request := PostSimple keyed_post (Some ([], true)).

Lemma retry_never_duplicates_witness : exists a a' resp,
  answer post_chunks boot = Some a /\ answer post_again sent = Some a' /\ tells a resp /\
  r_Status a' = 200%Z /\ replay_of post_chunks (co_Code resp) a' /\ transfers (db (after post_again sent)) = transfers (db sent).
Proof.
  destruct (answer post_chunks boot) as [a|] eqn:E; [|by vm_compute in E].
  destruct (answer post_again sent) as [a'|] eqn:E2; [|by vm_compute in E2].
  assert (H201 : r_Status a = 201%Z) by (vm_compute in E; by injection E as <-).
  assert (H200 : r_Status a' = 200%Z) by (vm_compute in E2; by injection E2 as <-).
  unfold answer in E, E2. pose proof (answer_pair _ _ _ _ E) as E'. pose proof (answer_pair _ _ _ _ E2) as E2'.
  assert (Hk : has_key keyed_post) by (by vm_compute).
  destruct (retry_never_duplicates cfg post_chunks post_again [] boot a sent sent [] (Some a') (after post_again sent)
    eq_refl eq_refl Hk E' H201 eq_refl E2') as ((_ & Ht & _) & resp & Htell & Hr).
  exists a, a', resp. exact (conj eq_refl (conj eq_refl (conj Htell (conj H200 (conj (Hr a' eq_refl) Ht))))).
Defined.

Definition plan_row : option ((string * string) * srow) := segment_by_upload (upload_of "seg-a") (db created).

Lemma upload_resumes_witness : exists row d' w',
  plan_row = Some ((plan_id, "seg-a"%string), row) /\
  run (UploadPatch cfg (upload_of "seg-a") 0 (mkReader ["hel"] true)) [] created = (Some (3%Z, Some Network), w') /\
  staged_prefix "hello" plan_id "seg-a" (upload_of "seg-a") d' w'.
Proof.
  destruct plan_row as [[k row]|] eqn:E; [|by vm_compute in E].
  assert (Hk : k = (plan_id, "seg-a"%string) /\ c_upload_id row = Some (upload_of "seg-a") /\
    c_expected_length row = 5%Z /\ c_received_length row = 0%Z) by (vm_compute in E; injection E as <- <-; by vm_compute).
  destruct Hk as [-> H0]. assert (Hst : staged_prefix "hello" plan_id "seg-a" (upload_of "seg-a") "" created).
  { split; [exists row; split; [by apply segment_by_upload_row in E|exact H0]|]. split; [apply sprefix_empty|by left]. }
  assert (Hr : fst (run (UploadPatch cfg (upload_of "seg-a") 0 (mkReader ["hel"] true)) [] created) = Some (3%Z, Some Network))
    by by vm_compute.
  apply answer_pair in Hr.
  destruct (upload_resumes cfg "hello" "" "lo" (upload_of "seg-a") 0 (mkReader ["hel"] true) plan_id "seg-a" row [] created _ _
    E Hst eq_refl Hr) as [(d' & _ & Hd') _].
  exists row, d'. eexists. exact (conj eq_refl (conj Hr Hd')).
Defined.
