(* ===== verification/Host.v ===== *)
(** * The receiving machine's file system

    The client works on absolute paths of its own machine: one tree whose root is [/].
    A directory of it can be handed to a program over a smaller tree ([in_dir]), which is
    how the materialization code, written for a transfer directory, runs on a host. *)
From S2P Require Import Prelude GoStrings Paths Prog Tree.
Local Open Scope prog_scope.

(** ** Directories of a tree as trees *)

Fixpoint strip (p q : path) : option path :=
  match p, q with
  | [], _ => Some q
  | x :: p, y :: q => if (x =? y)%string then strip p q else None
  | _ :: _, [] => None
  end.

(** The tree below [p], and [t] with the tree [s] in place of what is below [p]. *)
Definition sub (p : path) (t : tree) : tree :=
  list_to_map (omap (fun qn : path * node => r ← strip p (fst qn); Some (r, snd qn)) (map_to_list t)).
Definition graft (p : path) (s t : tree) : tree :=
  (kmap (app p) s : tree) ∪ filter (fun qn : path * node => strip p (fst qn) = None) t.
Definition in_dir {A : Type} (p : path) : prog tree A -> prog tree A := lift (sub p) (graft p).

(** ** Paths *)

(** The components of the file a path names, in the working directory [cwd]. *)
Definition host_path (cwd : path) (p : string) : path :=
  List.filter (fun c => negb (c =? "")%string) (split "/" (Abs (rooted cwd) p)).

(** ** Calls that move and remove directories *)

(** os.Rename of a directory: package os answers EEXIST when the target is a directory. *)
Definition rename_dir (src dst : path) (t : tree) : (oserr + unit) * tree :=
  match t !! src with
  | None => (inl ErrNotExist, t)
  | Some (NFile _ _ _) => (inl ErrOther, t)
  | Some (NDir _ _) =>
    match t !! dst with
    | Some _ => (inl ErrExist, t)
    | None =>
      if negb (is_dir_at t (parent dst)) then (inl ErrNotExist, t) else
      if bool_decide (src `prefix_of` dst) then (inl ErrOther, t)
      else (inr tt, touch (parent dst) (touch (parent src) (graft dst (sub src t) (graft src ∅ t))))
    end
  end.
Definition RenameDir (src dst : path) : prog tree (oserr + unit) := act (rename_dir src dst) (failing (fun t => t)).

(** platform.RemoveAllForce: an error may leave part of the directory. *)
Definition remove_below (p : path) (t : tree) : tree :=
  if decide (t !! p = None) then t else touch (parent p) (graft p ∅ t).
Definition RemoveAllForce (p : path) : prog tree (oserr + unit) :=
  act (fun t => (inr tt, remove_below p t))
      (Some (fun n t => (inl ErrOther, graft p (list_to_map (take n (map_to_list (sub p t)))) t))).

(** platform.UniqueDestination *)
Definition candidate (dst : string) (i : Z) : string := (dst ++ "-" ++ FormatInt i)%string.
Fixpoint unique_loop (cwd : path) (dst : string) (n : nat) (i : Z) : prog tree (oserr + string) :=
  match n with
  | O => Ret (inl ErrOther)
  | S n =>
    r <- Stat (host_path cwd (candidate dst i)) ;;
    match r with
    | inl ErrNotExist => Ret (inr (candidate dst i))
    | _ => unique_loop cwd dst n (i + 1)%Z
    end
  end.
Definition UniqueDestination (cwd : path) (dst : string) : prog tree (oserr + string) :=
  r <- Stat (host_path cwd dst) ;;
  match r with
  | inl ErrNotExist => Ret (inr dst)
  | inl e => Ret (inl e)
  | inr _ => unique_loop cwd dst 998 2
  end.

(** ** Lemmas *)

Lemma strip_Some p q r : strip p q = Some r <-> q = (p ++ r)%list.
Proof.
  revert q. induction p as [|x p IH]; intros [|y q]; cbn; try (split; congruence).
  destruct (String.eqb_spec x y) as [->|Hne]; [rewrite IH|]; split; congruence.
Qed.
Lemma strip_app p r : strip p (p ++ r)%list = Some r.
Proof. by apply strip_Some. Qed.
Lemma strip_None p q : strip p q = None <-> ~ p `prefix_of` q.
Proof.
  split.
  - intros Hn [r ->]. by rewrite strip_app in Hn.
  - intros Hn. destruct (strip p q) as [r|] eqn:E; [|done]. apply strip_Some in E as ->.
    destruct Hn. by exists r.
Qed.

Lemma lookup_sub p t r : sub p t !! r = t !! (p ++ r)%list.
Proof.
  unfold sub. set (f := fun qn : path * node => _). apply option_eq. intros n.
  assert (Hin : forall r n, (r, n) ∈ omap f (map_to_list t) <-> t !! (p ++ r)%list = Some n).
  { intros r' n'. rewrite list_elem_of_omap. split.
    - intros ([q m] & Hq & Hf). apply elem_of_map_to_list in Hq. unfold f in Hf. cbn in Hf.
      destruct (strip p q) eqn:E; cbn in Hf; [|done]. injection Hf as -> ->. by apply strip_Some in E as <-.
    - intros Ht. exists ((p ++ r')%list, n'). split; [by apply elem_of_map_to_list|]. unfold f. cbn. by rewrite strip_app. }
  rewrite <- Hin. symmetry. apply elem_of_list_to_map.
  assert (Hnd := NoDup_fst_map_to_list t). revert Hnd. generalize (map_to_list t). clear Hin.
  intros l. induction l as [|[q m] l IH]; cbn; [constructor|]. intros [Hq Hnd]%NoDup_cons.
  replace (f (q, m)) with (r ← strip p q; Some (r, m)) by done.
  destruct (strip p q) as [r'|] eqn:E; cbn; [|by apply IH]. apply NoDup_cons. split; [|by apply IH].
  intros Hr. apply Hq. apply list_elem_of_fmap in Hr as ([r2 m2] & -> & Hr). apply list_elem_of_omap in Hr as ([q2 m3] & Hl & Hf).
  unfold f in Hf. cbn in Hf. destruct (strip p q2) as [r3|] eqn:E2; cbn in Hf; [|done]. injection Hf as -> ->.
  apply strip_Some in E as ->. apply strip_Some in E2 as ->. by apply (list_elem_of_fmap_2 fst _ (_, m2)).
Qed.

Lemma lookup_graft p s t q : graft p s t !! q = match strip p q with Some r => s !! r | None => t !! q end.
Proof.
  unfold graft. destruct (strip p q) as [r|] eqn:E.
  - apply strip_Some in E as ->. rewrite lookup_union_l; [by apply lookup_kmap; apply _|].
    apply map_lookup_filter_None. right. intros n _. cbn. by rewrite strip_app.
  - rewrite lookup_union_r.
    + destruct (t !! q) eqn:Et; [by apply map_lookup_filter_Some|]. apply map_lookup_filter_None. by left.
    + apply lookup_kmap_None; [apply _|]. intros r ->. by rewrite strip_app in E.
Qed.

Lemma graft_sub p t : graft p (sub p t) t = t.
Proof.
  apply map_eq. intros q. rewrite lookup_graft. destruct (strip p q) as [r|] eqn:E; [|done].
  apply strip_Some in E as ->. by rewrite lookup_sub.
Qed.
Lemma sub_graft p s t : sub p (graft p s t) = s.
Proof. apply map_eq. intros r. by rewrite lookup_sub, lookup_graft, strip_app. Qed.
Lemma graft_graft p s s' t : graft p s (graft p s' t) = graft p s t.
Proof. apply map_eq. intros q. rewrite !lookup_graft. by destruct (strip p q). Qed.

Lemma look_sub p t r : look (sub p t) r = look t (p ++ r)%list.
Proof. unfold look. by rewrite lookup_sub. Qed.
Lemma look_graft p s t q : look (graft p s t) q = match strip p q with Some r => look s r | None => look t q end.
Proof. unfold look. rewrite lookup_graft. by destruct (strip p q). Qed.

(** A program over a directory leaves the rest of the machine alone. *)
Definition outside (p : path) (t t' : tree) : Prop := forall q, strip p q = None -> look t' q = look t q.
#[export] Instance outside_preorder p : PreOrder (outside p).
Proof. split; [by intros t q|]. intros t1 t2 t3 H1 H2 q Hq. by rewrite H2, H1. Qed.

Lemma in_dir_outside {A : Type} p (c : prog tree A) : within (outside p) (in_dir p c).
Proof. apply within_lift; [apply _|]. intros v w q Hq. by rewrite look_graft, Hq. Qed.
#[export] Hint Resolve in_dir_outside : within.

(** What holds of a program over the directory holds on the machine. *)
Lemma wp_in_dir {A : Type} p (c : prog tree A) (I : tree -> Prop) (Q' : A -> tree -> Prop) (Q : A -> tree -> Prop) t :
  wp (fun _ => True) c Q' (sub p t) -> (forall t', outside p t t' -> I t') ->
  (forall a t', outside p t t' -> Q' a (sub p t') -> Q a t') -> wp I (in_dir p c) Q t.
Proof.
  intros Hc HI HQ. apply (wp_wand _ _ (fun a t' => outside p t t' /\ Q' a (sub p t'))).
  - apply (wp_lift (sub p) (graft p) I (fun _ => True) (outside p t)); [|apply sub_graft|done|done].
    intros v w Hw _. assert (outside p t (graft p v w)); [|by auto]. intros q Hq. rewrite look_graft, Hq. by apply Hw.
  - intros a t' [? ?]. by apply HQ.
Qed.

(** ** The components of cleaned and joined paths *)

Definition start_of (cwd : path) (p : string) : path := if has_prefix "/" p then [] else cwd.

Lemma clean_comps_split r a b : clean_comps r (a ++ b) = rev (foldl (clean_step r) (rev (clean_comps r a)) b).
Proof. unfold clean_comps. by rewrite foldl_app, rev_involutive. Qed.

Lemma host_path_rooted cs : Forall (fun c => plain c = true) cs ->
  List.filter (fun c => negb (c =? "")%string) (split "/" (rooted cs)) = cs.
Proof.
  intros Hcs. destruct cs as [|c cs]; [done|]. rewrite split_rooted by done. exact (filter_plain _ Hcs).
Qed.

(** A relative path is read after the working directory; cleaning does not matter. *)
Lemma host_path_comps cwd p : Forall (fun c => plain c = true) cwd ->
  host_path cwd p = clean_comps true (start_of cwd p ++ split "/" p)%list /\
  Forall (fun c => plain c = true) (host_path cwd p).
Proof.
  intros Hcwd. assert (G : host_path cwd p = clean_comps true (start_of cwd p ++ split "/" p)%list /\
    Forall (fun c => has_byte "/" c = false) (start_of cwd p ++ split "/" p)%list).
  { unfold host_path, Abs, start_of. destruct (has_prefix "/" p) eqn:Ep.
    - rewrite Clean_rooted_comps by done. split; [|apply split_parts].
      apply host_path_rooted, clean_comps_rooted, split_parts.
    - assert (Hf : Forall (fun c => has_byte "/" c = false) (cwd ++ split "/" p)%list).
      { apply Forall_app. split; [by apply Forall_plain_slash|apply split_parts]. }
      split; [|done]. destruct (String.eqb_spec p "") as [->|Hp].
      + replace (Join [rooted cwd; ""%string]) with (Clean (rooted cwd)) by (unfold Join; cbn [List.filter]; by destruct cwd).
        rewrite Clean_rooted by done. rewrite host_path_rooted by done. rewrite clean_comps_split. cbn.
        rewrite clean_comps_plain by done. by rewrite rev_involutive.
      + rewrite Join_pair by (try done; by destruct cwd). rewrite Clean_rooted_comps by done.
        rewrite host_path_rooted.
        * change ("/" ++ p)%string with (String "/" p). rewrite split_app. destruct cwd as [|c cwd']; [done|].
          by rewrite split_rooted.
        * apply clean_comps_rooted, split_parts. }
  destruct G as [G1 G2]. split; [done|]. rewrite G1. by apply clean_comps_rooted.
Qed.

(** Cleaning a relative path first and putting it below another one later is the same as
    doing both at once. *)
Definition kept_comp (c : string) : Prop := c <> "" /\ c <> ".".
Lemma clean_step_skip r out c : c = "" \/ c = "." -> clean_step r out c = out.
Proof. by intros [->| ->]. Qed.
Lemma clean_step_push r out c : kept_comp c -> c <> ".." -> clean_step r out c = c :: out.
Proof.
  intros [Hc1%String.eqb_neq Hc2%String.eqb_neq] Hc3%String.eqb_neq. unfold clean_step. by rewrite Hc1, Hc2, Hc3.
Qed.
Lemma clean_step_up r out d : d <> ".." -> clean_step r (d :: out) ".." = out.
Proof. intros Hd%String.eqb_neq. cbn. by rewrite Hd. Qed.

Lemma clean_step_twice out st c : Forall kept_comp st ->
  Forall kept_comp (clean_step false st c) /\
  foldl (clean_step true) out (rev (clean_step false st c)) = clean_step true (foldl (clean_step true) out (rev st)) c.
Proof.
  intros Hst. destruct (decide (c = "" \/ c = "."))%string as [Hc|Hc]; [by rewrite !clean_step_skip|].
  assert (Hk : kept_comp c) by (split; intros ->; apply Hc; auto).
  destruct (decide (c = ".."))%string as [->|Hd].
  - destruct st as [|d st]; [split; [by constructor|done]|]. apply Forall_cons in Hst as [Hd Hst].
    destruct (decide (d = ".."))%string as [->|Hne].
    + split; [by repeat constructor|]. cbn. by rewrite !foldl_app.
    + rewrite clean_step_up by done. split; [done|]. cbn [rev]. rewrite foldl_app. cbn [foldl].
      by rewrite (clean_step_push _ _ d), clean_step_up.
  - rewrite clean_step_push by done. split; [by constructor|]. cbn [rev]. by rewrite foldl_app.
Qed.
Lemma clean_twice out cs :
  foldl (clean_step true) out (clean_comps false cs) = foldl (clean_step true) out cs.
Proof.
  unfold clean_comps. assert (G : forall st, Forall kept_comp st ->
    foldl (clean_step true) out (rev (foldl (clean_step false) st cs)) =
    foldl (clean_step true) (foldl (clean_step true) out (rev st)) cs); [|by apply (G [])].
  induction cs as [|c cs IH]; intros st Hst; cbn [foldl]; [done|].
  destruct (clean_step_twice out st c Hst) as [H1 H2]. by rewrite IH, H2.
Qed.

Lemma clean_kept cs : Forall (fun c => has_byte "/" c = false) cs ->
  Forall (fun c => kept_comp c /\ has_byte "/" c = false) (clean_comps false cs).
Proof.
  intros Hcs. unfold clean_comps. apply Forall_rev. assert (G : forall st,
    Forall (fun c => kept_comp c /\ has_byte "/" c = false) st ->
    Forall (fun c => kept_comp c /\ has_byte "/" c = false) (foldl (clean_step false) st cs)); [|by apply G].
  induction Hcs as [|c cs Hc _ IH]; intros st Hst; cbn; [done|]. apply IH. unfold clean_step.
  destruct ((c =? "") || (c =? "."))%string eqn:E1; [done|]. apply orb_false_iff in E1 as [Ea%String.eqb_neq Eb%String.eqb_neq].
  assert (Hcons : forall st, Forall (fun c => kept_comp c /\ has_byte "/" c = false) st ->
    Forall (fun c => kept_comp c /\ has_byte "/" c = false) (c :: st)) by (intros st' ?; by constructor).
  destruct (String.eqb_spec c "..") as [->|]; [|by apply Hcons]. destruct Hst as [|d st Hd Hst]; [by apply Hcons|].
  destruct (d =? "..")%string; [|done]. apply Hcons. by constructor.
Qed.

Lemma no_slash_prefix a c l : has_byte "/" (String a c) = false -> has_prefix "/" (join "/" (String a c :: l)) = false.
Proof.
  cbn [has_byte]. intros [Ha _]%orb_false_iff. destruct l; cbn [join String.concat has_prefix String.append];
    by rewrite Ascii.eqb_sym, Ha.
Qed.
Lemma has_prefix_comp c l : kept_comp c -> has_byte "/" c = false -> has_prefix "/" (join "/" (c :: l)) = false.
Proof.
  intros [Hc _] Hb. destruct c as [|a c]; [done|]. by apply no_slash_prefix.
Qed.

Section host_paths.
Context (cwd : path) (Hcwd : Forall (fun c => plain c = true) cwd).

Lemma host_path_plain p : Forall (fun c => plain c = true) (host_path cwd p).
Proof. by apply host_path_comps. Qed.

Lemma host_path_Clean p : host_path cwd (Clean p) = host_path cwd p.
Proof.
  destruct (host_path_comps cwd p Hcwd) as [-> _], (host_path_comps cwd (Clean p) Hcwd) as [-> _].
  unfold start_of. destruct (has_prefix "/" p) eqn:Ep.
  { rewrite (Clean_prefix p Ep), (Clean_rooted_comps p Ep). pose proof (clean_comps_rooted _ (split_parts "/" p)) as Hpl.
    cbn [app]. destruct (clean_comps true (split "/" p)) as [|c cs]; [done|]. rewrite split_rooted by done.
    by rewrite clean_comps_nil_cons, clean_comps_plain. }
  pose proof (clean_kept _ (split_parts "/" p)) as Hk. rewrite (clean_comps_split _ cwd (split "/" p)), <- clean_twice.
  unfold Clean. rewrite Ep. destruct (String.eqb_spec p "") as [->|Hp]; [by rewrite clean_comps_split|].
  destruct (clean_comps false (split "/" p)) as [|c cs] eqn:Ec; [by rewrite clean_comps_split|].
  apply Forall_cons in Hk as [[Hc1 Hc2] Hk]. destruct (String.eqb_spec (join "/" (c :: cs)) "") as [E|_].
  { pose proof (has_prefix_comp c cs Hc1 Hc2). destruct Hc1 as [Hc1 _]. destruct c; [done|]. by destruct cs. }
  rewrite has_prefix_comp by done. rewrite split_join; [by rewrite clean_comps_split|done|].
  constructor; [done|]. eapply Forall_impl; [exact Hk|]. by intros x [_ ?].
Qed.

Lemma start_of_app p x : p <> "" -> start_of cwd (p ++ x) = start_of cwd p.
Proof. destruct p; [done|]. reflexivity. Qed.

Lemma host_path_Join_comps p x : p <> "" -> x <> "" ->
  host_path cwd (Join [p; x]) = clean_comps true ((start_of cwd p ++ split "/" p) ++ split "/" x)%list.
Proof.
  intros Hp Hx. rewrite Join_pair; [|assumption|assumption]. rewrite host_path_Clean.
  destruct (host_path_comps cwd (p ++ "/" ++ x)%string Hcwd) as [-> _].
  rewrite start_of_app by done. change ("/" ++ x)%string with (String "/" x). by rewrite split_app, app_assoc.
Qed.
Lemma host_path_Join p c : p <> "" -> plain c = true -> host_path cwd (Join [p; c]) = (host_path cwd p ++ [c])%list.
Proof.
  intros Hp Hc. pose proof Hc as (Hc0 & _ & _ & Hcb)%plain_spec. rewrite host_path_Join_comps by done.
  destruct (host_path_comps cwd p Hcwd) as [-> _]. rewrite (split_no_sep _ c Hcb). apply clean_comps_app. by constructor.
Qed.

(** The parent directory: the components of a path without the last one. *)
Lemma host_path_Dir p cs b : split "/" p = (cs ++ [b])%list ->
  host_path cwd (Dir p) = clean_comps true (start_of cwd p ++ cs)%list.
Proof.
  intros Hs. pose proof (split_parts "/" p) as Hparts. rewrite Hs, Forall_app in Hparts. destruct Hparts as [Hcs Hb]. rewrite Forall_singleton in Hb.
  assert (Hpre : has_prefix "/" p = match cs with c :: _ => (c =? "")%string | [] => false end).
  { rewrite <- (join_split p), Hs. destruct cs as [|c cs].
    - destruct b as [|a b]; [done|]. by apply no_slash_prefix.
    - cbn [app]. apply Forall_cons in Hcs as [Hc _]. destruct c as [|a c]; [by destruct cs|].
      by apply no_slash_prefix. }
  unfold Dir. rewrite Hs, Hpre. replace (match (cs ++ [b])%list with [] => _ | _ => _ end) with
    (if match cs with c :: _ => (c =? "")%string | [] => false end && (join "/" cs =? "")%string then "/"%string else join "/" cs)
    by (destruct cs as [|c cs]; [done|]; pose proof (removelast_last (c :: cs) b) as E; cbn [app] in E |- *; by rewrite E).
  rewrite host_path_Clean. set (body := if (_ && _ : bool) then _ else _ : string). destruct (host_path_comps cwd body Hcwd) as [-> _].
  unfold start_of. rewrite Hpre in *. subst body. destruct cs as [|c cs].
  { cbn [andb join String.concat has_prefix split]. rewrite app_nil_r, clean_comps_split. cbn. by rewrite rev_involutive. }
  apply Forall_cons in Hcs as [Hc Hcs]. destruct (String.eqb_spec c "") as [->|Hne].
  - destruct cs as [|c cs]; [done|]. rewrite join_cons. change ("" ++ "/" ++ ?x)%string with (String "/" x). cbn [andb String.eqb].
    cbn [has_prefix]. rewrite Ascii.eqb_refl. cbn [andb app split]. rewrite split_join; [done|done|]. done.
  - cbn [andb]. assert (Hj : has_prefix "/" (join "/" (c :: cs)) = false).
    { destruct c as [|a c]; [done|]. by apply no_slash_prefix. }
    rewrite Hj, split_join; [done|done|by constructor].
Qed.
End host_paths.

(** ** What the calls change *)

Lemma elem_of_prefixes q p : q ∈ prefixes p -> exists r, p = (q ++ r)%list.
Proof.
  revert q. induction p as [|x p IH]; intros q; cbn.
  - intros ->%list_elem_of_singleton. by exists [].
  - intros [->|Hq]%elem_of_cons; [by eexists|]. apply list_elem_of_fmap in Hq as (y & -> & Hy).
    destruct (IH y Hy) as [r ->]. by exists r.
Qed.

Lemma strip_longer p q r : p = (q ++ r)%list -> r <> [] -> strip p q = None.
Proof.
  intros -> Hr. apply strip_None. intros [s Hs]. apply (f_equal length) in Hs. rewrite !length_app in Hs.
  destruct r; [done|]. cbn in Hs. lia.
Qed.
Lemma strip_sibling h b x r : b <> x -> strip (h ++ [b]) ((h ++ [x]) ++ r) = None.
Proof.
  intros Hne. apply strip_None. intros [s Hs]. rewrite <- !app_assoc in Hs. apply app_inv_head in Hs. by simplify_eq/=.
Qed.
Lemma strip_below p q r s : strip p q = Some r -> strip p (q ++ s) = Some (r ++ s)%list.
Proof. rewrite !strip_Some. intros ->. by rewrite app_assoc. Qed.

(** Creating a directory below [p] leaves everything else alone when [p]'s parents exist. *)
Lemma wp_MkdirAll_below p x mode (I : tree -> Prop) (Q : oserr + unit -> tree -> Prop) t :
  (forall q r, p = (q ++ r)%list -> r <> [] -> look t q = Some CDir) ->
  (forall r t', outside p t t' -> I t' /\ Q r t') -> wp I (MkdirAll (p ++ [x])%list mode) Q t.
Proof.
  intros Hup HQ. assert (G : forall qs r t', (forall q, q ∈ qs -> q ∈ prefixes (p ++ [x])%list) ->
    mkdirs mode qs t = (r, t') -> outside p t t').
  { intros qs r t' Hqs E. destruct (mkdirs_look _ _ _ _ _ E) as (H1 & H2 & _). intros q Hq.
    destruct (look t q) as [c|] eqn:Et; [by apply H1|]. destruct (look t' q) as [c|] eqn:Et'; [|done].
    destruct (H2 q c Et') as [?|[-> Hin]]; [congruence|]. exfalso. apply Hqs, elem_of_prefixes in Hin as [r' Hr].
    destruct (decide (r' = [])) as [->|Hr'].
    - rewrite app_nil_r in Hr. by rewrite <- Hr, strip_app in Hq.
    - destruct (exists_last Hr') as (r2 & y & ->). rewrite app_assoc in Hr. apply app_inj_tail in Hr as [Hp _].
      destruct (decide (r2 = [])) as [->|Hr2]; [rewrite app_nil_r in Hp; subst; by rewrite (proj2 (strip_Some q q []) (eq_sym (app_nil_r q))) in Hq|].
      by rewrite (Hup q r2 Hp Hr2) in Et. }
  apply wp_act. intros r t' [E|(f & n & [= <-] & [= <- <-])].
  - apply HQ. by apply (G _ _ _ (fun q Hq => Hq) E).
  - apply HQ. destruct (mkdirs mode (take n (prefixes (p ++ [x])%list)) t) as [r' t'] eqn:E. apply (G _ _ _) in E; [done|].
    intros q (i & Hi & _)%elem_of_take. by eapply list_elem_of_lookup_2.
Qed.

Lemma outside_graft p s t : outside p t (graft p s t).
Proof. intros q Hq. by rewrite look_graft, Hq. Qed.
Lemma outside_remove p t : outside p t (remove_below p t).
Proof.
  unfold remove_below. case_decide; [done|]. intros q Hq. by rewrite look_touch, outside_graft.
Qed.
Lemma outside_RemoveAllForce p : within (outside p) (RemoveAllForce p).
Proof.
  apply within_act; [intros t; apply outside_remove|]. intros f n t [= <-]. apply outside_graft.
Qed.

Lemma wp_RenameDir (I : tree -> Prop) src dst (Q : oserr + unit -> tree -> Prop) t :
  I t -> (forall e, Q (inl e) t) ->
  (forall t', look t dst = None -> look t src = Some CDir ->
    (forall q, look t' q = match strip dst q with
       | Some r => look t (src ++ r)%list
       | None => match strip src q with Some _ => None | None => look t q end
       end) -> I t' /\ Q (inr tt) t') ->
  wp I (RenameDir src dst) Q t.
Proof.
  intros HI He HQ. apply wp_act. intros r t' [E|(f & n & [= <-] & [= <- <-])]; [|by split].
  revert E. unfold rename_dir. destruct (t !! src) as [[m mt|]|] eqn:Es; [|intros [= <- <-]; by split..].
  destruct (t !! dst) eqn:Ed; [intros [= <- <-]; by split|].
  destruct (is_dir_at t (parent dst)); [|intros [= <- <-]; by split]. cbn [negb].
  destruct (bool_decide _); intros [= <- <-]; [by split|]. apply HQ; [by unfold look; rewrite Ed|by unfold look; rewrite Es|].
  intros q. rewrite !look_touch, look_graft. destruct (strip dst q); [by rewrite look_sub|].
  rewrite look_graft. by destruct (strip src q).
Qed.

(** Calls on one file below [p]. *)
Section below.
Context (p q r : path) (Hq : strip p q = Some r).

Lemma outside_one t t' : (forall x, x <> q -> look t' x = look t x) -> outside p t t'.
Proof. intros Hs x Hx. apply Hs. intros ->. congruence. Qed.
Lemma outside_edit f t : outside p t (edit q f t).
Proof.
  apply outside_one. intros x Hx. rewrite look_edit. destruct (look t x) as [[]|]; try done. by rewrite decide_False.
Qed.
Lemma outside_OpenFile excl mode : within (outside p) (OpenFile excl q mode).
Proof.
  apply within_act; [|by intros f n t [= <-]]. intros t. destruct (create excl q mode t) as [a t'] eqn:E. cbn.
  apply outside_one. by destruct (create_look _ _ _ _ _ _ E).
Qed.
Lemma outside_Truncate n : within (outside p) (Truncate q n).
Proof. apply within_act; [intros t; apply outside_edit|]. by intros f k t [= <-]. Qed.
Lemma outside_WriteAt off d : within (outside p) (WriteAt q off d).
Proof. apply within_act; [intros t; apply outside_edit|]. intros f k t [= <-]. apply outside_edit. Qed.
Lemma outside_Remove : within (outside p) (Remove q).
Proof.
  apply within_act; [|by intros f k t [= <-]]. intros t. destruct (remove q t) as [a t'] eqn:E. apply outside_one.
  intros x Hx. by eapply remove_look.
Qed.
End below.
Lemma outside_quiet {A : Type} p (c : prog tree A) : quiet c -> within (outside p) c.
Proof. apply within_mono. intros t t' Hs q _. by rewrite Hs. Qed.
#[export] Hint Resolve outside_quiet outside_RemoveAllForce : within.
#[export] Hint Extern 1 (within (outside _) (OpenFile _ _ _)) => eapply outside_OpenFile; eassumption : within.
#[export] Hint Extern 1 (within (outside _) (Truncate _ _)) => eapply outside_Truncate; eassumption : within.
#[export] Hint Extern 1 (within (outside _) (WriteAt _ _ _)) => eapply outside_WriteAt; eassumption : within.
#[export] Hint Extern 1 (within (outside _) (Remove _)) => eapply outside_Remove; eassumption : within.
