(* ===== verification/Net.v ===== *)
(** * Between the client and the handlers

    What net/http does on both sides: the routes that [Register] of internal/api/public and
    internal/api/local install on the server's mux, the ranges http.ServeContent cuts out of
    a file, and what may happen to a message on its way. *)
From S2P Require Import Prelude GoStrings GoHttp Errors Manifest Wire Prog Tree Integrity Store Config World Service.
From S2P Require Import Upload Api.
Local Open Scope prog_scope.

(** A request as a client sends it.  A JSON document travels as its value. *)
Inductive payload :=
| PNone | PBytes (r : reader) | PForm (form : list mpart * bool)
| PCreate (r : CreateTransferRequest) | PCommit (m : Manifest) | PClaim (code : string).
Record message := mkMessage { m_http : http; m_payload : payload }.

(** ** http.ServeMux *)

(** A path segment as the mux matches it. *)
Fixpoint unescape (s : string) : option string :=
  match s with
  | String "%" (String x (String y t)) =>
    match hex_val x, hex_val y with
    | Some a, Some b => String (byte_of (16 * a + b)) <$> unescape t
    | _, _ => None
    end
  | String "%" _ => None
  | String a t => String a <$> unescape t
  | EmptyString => Some EmptyString
  end.

Definition is_wildcard (s : string) : bool := has_prefix "{" s.
(** The values of the wildcards of a pattern; a wildcard matches one segment, not empty. *)
Fixpoint match_segments (pat segs : list string) : option (list string) :=
  match pat, segs with
  | [], [] => Some []
  | p :: pat, s :: segs =>
    if is_wildcard p then
      if (s =? "")%string then None else
      v ← unescape s; vs ← match_segments pat segs; Some (v :: vs)
    else if (p =? s)%string then match_segments pat segs else None
  | _, _ => None
  end.
Definition match_pattern (pattern url : string) : option (list string) :=
  match_segments (split "/" pattern) (split "/" (before "?" url)).
(** A GET route serves HEAD too. *)
Definition method_ok (want got : string) : bool :=
  (want =? got)%string || (want =? "GET")%string && (got =? "HEAD")%string.

(** r.URL.Query().Get(key) for keys and values that need no decoding *)
Definition query (key url : string) : string :=
  let after := sdrop (slen (before "?" url) + 1) url in
  match List.find (has_prefix (key ++ "=")) (split "&" after) with
  | Some kv => sdrop (slen key + 1) kv
  | None => ""
  end.

Notation route := (string * string * (list string -> request))%type.

Section mux.
Context (ready : bool) (m : message).
Notation q := (m_http m).
Notation arg n vs := (nth n vs ""%string).

(** Register *)
Definition public_routes : list route :=
  [ ("GET", "/healthz", fun _ => GetHealthz);
    ("GET", "/readyz", fun _ => GetReadyz ready);
    ("GET", "/v1/info", fun _ => GetInfo);
    ("POST", "/s", fun _ => PostSimple q (match m_payload m with PForm f => Some f | _ => None end));
    ("POST", "/s/raw", fun _ => PostRaw q (match m_payload m with PBytes r => r | _ => mkReader [] false end));
    ("GET", "/r/{code}", fun vs => GetDownload q (arg 0 vs) (query "format" (q_Path q)));
    ("GET", "/v1/transfers/{code}", fun vs => GetTransfer_ q (arg 0 vs));
    ("POST", "/v1/transfers", fun _ => PostTransfers q (match m_payload m with PCreate r => Some r | _ => None end));
    ("POST", "/v1/transfers/{transfer_id}/commit",
      fun vs => PostCommit q (arg 0 vs) (match m_payload m with PCommit r => Some r | _ => None end));
    ("HEAD", "/v1/uploads/{upload_id}", fun vs => HeadUpload q (arg 0 vs));
    ("PATCH", "/v1/uploads/{upload_id}",
      fun vs => PatchUpload q (arg 0 vs) (match m_payload m with PBytes r => r | _ => mkReader [] false end));
    ("POST", "/v1/claims", fun _ => PostClaims q (match m_payload m with PClaim c => Some c | _ => None end));
    ("GET", "/v1/claims/{claim_id}/segments/{segment_id}", fun vs => GetSegment_ q (arg 0 vs) (arg 1 vs));
    ("GET", "/v1/claims/{claim_id}/segments/{segment_id}/outboard", fun vs => GetOutboard q (arg 0 vs) (arg 1 vs));
    ("POST", "/v1/claims/{claim_id}/complete", fun vs => PostComplete q (arg 0 vs)) ]%string.
Definition local_routes : list route :=
  [ ("GET", "/local/r/{code}", fun vs => LocalReceive q (arg 0 vs));
    ("GET", "/local/status", fun _ => LocalStatus q);
    ("POST", "/local/cleanup", fun _ => LocalCleanup q);
    ("GET", "/local/healthz", fun _ => LocalHealthz ready) ]%string.

Fixpoint dispatch (routes : list route) : option request :=
  match routes with
  | [] => None
  | (method, pattern, f) :: routes =>
    match match_pattern pattern (q_Path q) with
    | Some vs => if method_ok method (q_Method q) then Some (f vs) else dispatch routes
    | None => dispatch routes
    end
  end.
End mux.

(** ** http.ServeContent *)

(** parseRange for one range: [None] is an invalid or unsatisfiable range. *)
Definition parse_range (spec : string) (size : Z) : option (Z * Z) :=
  let a := before "-" spec in
  let b := sdrop (slen a + 1) spec in
  if (a =? "")%string then
    match Atoi b with
    | Some n => if (n <? 0)%Z then None else let n := Z.min n size in Some (size - n, n)%Z
    | None => None
    end
  else
    match Atoi a with
    | None => None
    | Some start =>
      if ((start <? 0) || (size <=? start))%Z then None else
      if (b =? "")%string then Some (start, size - start)%Z else
      match Atoi b with
      | Some e => if (e <? start)%Z then None else Some (start, Z.min e (size - 1) - start + 1)%Z
      | None => None
      end
    end.

(** A file answered with status 200 is cut to the range the request names (the clients here
    name at most one); a range of an empty file is ignored. *)
Definition serve_range (q : http) (r : response) : response :=
  match r_Body r with
  | BContent name d =>
    let h := header q "Range" in
    if (h =? "")%string || (slen d =? 0)%Z || negb (r_Status r =? 200)%Z then r else
    match (if has_prefix "bytes=" h then parse_range (sdrop 6 h) (slen d) else None) with
    | Some (start, n) => mkResponse 206 (r_Header r) (BContent name (stake n (sdrop start d)))
    | None => mkResponse 416 [text_plain] (BText ("invalid range: failed to overlap" ++ nl)%string)
    end
  | _ => r
  end.

(** The answer to HEAD has no body. *)
Definition finish (q : http) (r : response) : response :=
  if (q_Method q =? "HEAD")%string then mkResponse (r_Status r) (r_Header r) BNone else serve_range q r.

Definition not_found : response := mkResponse 404 [text_plain] (BText ("404 page not found" ++ nl)%string).

Section server.
Context {UC : Unicode} {EX : Externals} {MC : ManifestCodec}.
Context (cfg : Server).

(** The server as a client sees it: the public and the local listener. *)
Definition serve (routes : message -> list route) (m : message) : prog world response :=
  match dispatch m (routes m) with
  | Some r => a <- handle cfg r ;; Ret (finish (m_http m) a)
  | None => Ret (finish (m_http m) not_found)
  end.
End server.

(** ** The network *)

(** Cuts a text into the pieces of the given lengths and one with the rest. *)
Fixpoint pieces (ns : list nat) (s : string) : list string :=
  match ns with
  | [] => if (s =? "")%string then [] else [s]
  | n :: ns => let n := Z.of_nat n in stake n s :: pieces ns (sdrop n s)
  end.

(** How a body arrives: cut into pieces, complete or broken off after them. *)
Definition arrival (cut : list nat * bool) (s : string) : reader :=
  let '(ns, broken) := cut in
  if broken then mkReader (take (length ns) (pieces ns s)) true else mkReader (pieces ns s) false.

(** The number of an outcome, decoded. *)
Definition cut_of (n : nat) : list nat * bool := default ([], true) (decode_nat n).

