(* ===== verification/Auth.v ===== *)
(** * Authentication: internal/auth and internal/api/middleware

    The base password is kept as an argon2id hash; failed attempts are rate-limited per
    client address.  argon2 is the parameter [IDKey]. *)
From Stdlib Require Import SpecFloat.
From S2P Require Import Prelude GoStrings GoTime GoBase64 Errors Prog Tree Integrity World Service Api Net.
Local Open Scope prog_scope.

(** ** Passwords: auth.go *)

Definition Username : string := "sss".
Definition argonTime : Z := 3.
Definition argonMemory : Z := 64 * 1024.
Definition argonThreads : Z := 2.
Definition argonKeyLen : Z := 32.
Definition argonSaltLen : Z := 16.
Definition argonVersion : Z := 19.

Record params := mkParams { p_memory : Z; p_time : Z; p_threads : Z; p_salt : list Z; p_key : list Z }.

(** golang.org/x/crypto/argon2.IDKey of a password, salt, time, memory, threads and length:
    [None] is its panic, which it documents for a time or thread count of zero. *)
Class Argon2 := { IDKey : string -> list Z -> Z -> Z -> Z -> Z -> option (list Z) }.
Class Argon2Laws `{Argon2} := {
  IDKey_defined pw salt time memory threads n : (1 <= time)%Z -> (1 <= threads)%Z -> (1 <= n)%Z ->
    exists key, IDKey pw salt time memory threads n = Some key /\ length key = Z.to_nat n /\ Forall (fun b => 0 <= b < 256)%Z key }.

Section passwords.
Context {A2 : Argon2} {EX : Externals}.

(** [salt] is what rand.Read gave, if anything. *)
Definition HashPassword (salt : option (list Z)) (password : string) : option string :=
  if (password =? "")%string then None else
  salt ← salt;
  key ← IDKey password salt argonTime argonMemory argonThreads argonKeyLen;
  Some ("$argon2id$v=" ++ FormatInt argonVersion ++ "$m=" ++ FormatInt argonMemory ++ ",t=" ++ FormatInt argonTime
    ++ ",p=" ++ FormatInt argonThreads ++ "$" ++ encode64 false salt ++ "$" ++ encode64 false key)%string.

Definition scan_version (s : string) : option Z :=
  s ← scan_text "v=" s; r ← scan_int s; Some (fst r).
Definition scan_params (s : string) : option (Z * Z * Z) :=
  s ← scan_text "m=" s; m ← scan_uint (2^32) s;
  s ← scan_text ",t=" (snd m); t ← scan_uint (2^32) s;
  s ← scan_text ",p=" (snd t); p ← scan_uint (2^8) s; Some (fst m, fst t, fst p).
Definition parseHash (encoded : string) : option params :=
  match split "$" encoded with
  | [a; b; v; ps; salt; key] =>
    if negb (a =? "")%string || negb (b =? "argon2id")%string then None else
    version ← scan_version v;
    if negb (version =? argonVersion)%Z then None else
    mtp ← scan_params ps;
    salt ← decode64 false salt;
    key ← decode64 false key;
    Some (mkParams (fst (fst mtp)) (snd (fst mtp)) (snd mtp) salt key)
  | _ => None
  end.
Definition NewVerifier (encodedHash : string) : option params := parseHash encodedHash.

(** *** Verify

    The state is the SHA-256 of the last accepted password; [None] is a panic of argon2. *)
Definition Verify (p : params) (accepted : option (list Z)) (password : string) : option bool * option (list Z) :=
  let sum := sha256 password in
  if bool_decide (accepted = Some sum) then (Some true, accepted) else
  match IDKey password (p_salt p) (p_time p) (p_memory p) (p_threads p) (Z.of_nat (length (p_key p))) with
  | None => (None, accepted)
  | Some key => if bool_decide (key = p_key p) then (Some true, Some sum) else (Some false, accepted)
  end.

(** *** r.BasicAuth and req.SetBasicAuth *)
Definition bytes_of (s : string) : list Z := map byte_val (list_ascii_of_string s).
Definition string_of_bytes (l : list Z) : string := string_of_list_ascii (map byte_of l).
(** strings.Cut *)
Fixpoint cut_at (c : ascii) (s : string) : option (string * string) :=
  match s with
  | EmptyString => None
  | String a s => if (a =? c)%char then Some (""%string, s) else xy ← cut_at c s; Some (String a (fst xy), snd xy)
  end.
Definition BasicAuth (q : http) : option (string * string) :=
  let h := header q "Authorization" in
  if negb (smap lower_byte (stake 6 h) =? "basic ")%string then None else
  l ← decode64 true (sdrop 6 h);
  cut_at ":" (string_of_bytes l).
Definition SetBasicAuth (user password : string) : string * string :=
  ("Authorization", "Basic " ++ encode64 true (bytes_of (user ++ ":" ++ password)))%string.

(** CheckBasic: [Some e] is the error it answers. *)
Definition CheckBasic (p : params) (accepted : option (list Z)) (q : http) : option (option ecode) * option (list Z) :=
  match BasicAuth q with
  | None => (Some (Some AuthRequired), accepted)
  | Some (user, pass) =>
    let '(r, accepted) := Verify p accepted pass in
    (ok ← r; Some (if (user =? Username)%string && ok then None else Some AuthInvalid), accepted)
  end.
End passwords.

(** ** Failed attempts *)

Definition fadd : float64 -> float64 -> float64 := SFadd 53 1024.
Definition fsub : float64 -> float64 -> float64 := SFsub 53 1024.
Definition float_min (a b : float64) : float64 := if SFltb a b then a else b.

Record bucket := mkBucket { tokens : float64; last : Z }.
Notation buckets := (gmap string bucket).

(** now.Sub(last) and Duration.Minutes *)
Definition Sub (a b : Z) : Z := Z.max min_int64 (Z.min max_int64 (a - b)).
Definition Minutes (d : Z) : float64 :=
  fadd (float64_of (Z.quot d minute)) (fdiv (float64_of (Z.rem d minute)) (float64_of minute)).

Definition NewLimiter (perMinute : Z) : Z := if (perMinute <=? 0)%Z then 20 else perMinute.

Section limiter.
Context (perMinute : Z).
Notation full := (float64_of perMinute).

Definition evictLocked (now : Z) (bs : buckets) : buckets :=
  filter (fun kb => negb (10 * minute <? Sub now (last (snd kb)))%Z = true) bs.
Definition Allow (now : Z) (key : string) (bs : buckets) : bool * buckets :=
  let '(b, bs) :=
    match bs !! key with
    | Some b => (b, bs)
    | None => (mkBucket full now, if (4096 <? Z.of_nat (size bs))%Z then evictLocked now bs else bs)
    end in
  let refill := fmul (Minutes (Sub now (last b))) full in
  let t := float_min full (fadd (tokens b) refill) in
  (SFleb (float64_of 1) t, <[key := mkBucket t now]> bs).
Definition Fail (now : Z) (key : string) (bs : buckets) : buckets :=
  let b := default (mkBucket full now) (bs !! key) in
  let t := fsub (tokens b) (float64_of 1) in
  <[key := mkBucket (if SFltb t (float64_of 0) then float64_of 0 else t) (last b)]> bs.
End limiter.

(** ** The client's address: middleware.go *)

Definition trim_left (s : string) : string :=
  string_of_list_ascii (drop_while (fun a => (a =? " ")%char || (byte_val a =? 9)%Z) (list_ascii_of_string s)).
Definition trim_right (s : string) : string :=
  string_of_list_ascii (rev (drop_while (fun a => (a =? " ")%char || (byte_val a =? 9)%Z) (rev (list_ascii_of_string s)))).
Definition trimSpace (s : string) : string := trim_right (trim_left s).
Definition firstAddress (l : string) : string := trimSpace (before "," l).

(** The host net.SplitHostPort answers. *)
Definition last_part (s : string) : string := List.last (split ":" s) ""%string.
Definition SplitHost (s : string) : option string :=
  if negb (has_byte ":" s) then None else
  if has_prefix "[" s then
    let inside := before "]" (sdrop 1 s) in
    let rest := sdrop (slen inside + 2) s in
    if negb (has_byte "]" s) || negb (has_prefix ":" rest) || has_byte ":" (sdrop 1 rest) then None else
    if has_byte "[" (sdrop 1 s) || has_byte "]" rest then None else Some inside
  else
    let host := before ":" s in
    if has_byte ":" (sdrop (slen host + 1) s) || has_byte "[" s || has_byte "]" s then None else Some host.
Definition clientKey (q : http) (remoteAddr : string) : string :=
  let fwd := header q "X-Forwarded-For" in
  if negb (fwd =? "")%string then default (firstAddress fwd) (SplitHost fwd)
  else default remoteAddr (SplitHost remoteAddr).

(** ** The public listener *)

(** The server behind its password. *)
Record gate := mkGate { g_world : world; g_accepted : option (list Z); g_buckets : buckets }.
Definition set_world (w : world) (g : gate) : gate := mkGate w (g_accepted g) (g_buckets g).
Definition set_accepted (a : option (list Z)) (g : gate) : gate := mkGate (g_world g) a (g_buckets g).
Definition set_buckets (b : buckets) (g : gate) : gate := mkGate (g_world g) (g_accepted g) b.
Definition behind {A : Type} : prog world A -> prog gate A := lift g_world set_world.

Section middleware.
Context {UC : Unicode} {EX : Externals} {MC : ManifestCodec} {A2 : Argon2}.
Context (p : params) (perMinute : Z).

(** A panic is [None]; the handlers have none. *)
Definition Auth (remote : string) (q : http) (next : prog world response) : prog gate (option response) :=
  let key := clientKey q remote in
  now <- behind Now ;;
  allowed <- act_ (fun g => let '(b, bs) := Allow perMinute now key (g_buckets g) in (b, set_buckets bs g)) ;;
  if negb allowed then Ret (Some (WriteError q [("Retry-After", "60")]%string RateLimited)) else
  r <- act_ (fun g => let '(r, a) := CheckBasic p (g_accepted g) q in (r, set_accepted a g)) ;;
  match r with
  | None => Ret None
  | Some (Some e) =>
    act_ (fun g => (tt, set_buckets (Fail perMinute now key (g_buckets g)) g)) ;;;
    Ret (Some (WriteError q [("WWW-Authenticate", "Basic realm=" ++ String (byte_of 34) ("sss" ++ String (byte_of 34)
      (", charset=" ++ String (byte_of 34) ("UTF-8" ++ String (byte_of 34) ""))))]%string e))
  | Some None => a <- behind next ;; Ret (Some a)
  end.

Definition Recover (q : http) (h : prog gate (option response)) : prog gate response :=
  r <- h ;; Ret (match r with Some a => a | None => WriteError q [] Internal end).

(** Register: the routes without the password. *)
Definition open_request (r : request) : bool :=
  match r with
  | GetHealthz | GetReadyz _ | GetSegment_ _ _ _ | GetOutboard _ _ _ | PostComplete _ _ => true
  | _ => false
  end.

Context (cfg : Config.Server) (ready : bool).
Definition serve_public (remote : string) (m : message) : prog gate response :=
  match dispatch m (public_routes ready m) with
  | Some r =>
    let q := m_http m in
    a <- Recover q (if open_request r then (a <- behind (handle cfg r) ;; Ret (Some a)) else Auth remote q (handle cfg r)) ;;
    Ret (finish q a)
  | None => Ret (finish (m_http m) not_found)
  end.
End middleware.
