(* ===== verification/AuthProofs.v ===== *)
(** * What the base password protects

    Hashing and parsing, the verifier with its cache, the limiter, and the public listener:
    without the password nothing happens, with it everything is as without the wrapper. *)
From Stdlib Require Import SpecFloat.
From S2P Require Import Prelude GoStrings GoTime GoBase64 Errors Paths Prog Tree Integrity Config World Service Api Net Auth.
From S2P Require Import Safety SimpleProofs Demo.
Local Open Scope prog_scope.

(** ** Hashes *)
Section hashes.
Context {A2 : Argon2} {AL : Argon2Laws} {EX : Externals}.

(** *** The verifier *)
Section verifier.
Context (p : params).
Definition accepts (password : string) : Prop :=
  IDKey password (p_salt p) (p_time p) (p_memory p) (p_threads p) (Z.of_nat (length (p_key p))) = Some (p_key p).
(** The remembered digest is one of a password that was accepted. *)
Definition remembers (accepted : option (list Z)) : Prop := forall s, accepted = Some s -> exists q, accepts q /\ sha256 q = s.

Lemma Verify_spec accepted password r accepted' : remembers accepted -> Verify p accepted password = (r, accepted') ->
  remembers accepted' /\ (r = Some true -> exists q, accepts q /\ sha256 q = sha256 password) /\ (accepts password -> r = Some true).
Proof.
  intros Ha. unfold Verify. destruct (bool_decide_reflect (accepted = Some (sha256 password))) as [E|E].
  { intros [= <- <-]. split; [done|]. split; [|done]. intros _. by apply Ha. }
  unfold accepts. destruct (IDKey password _ _ _ _ _) as [key|] eqn:Ek; [|by intros [= <- <-]].
  destruct (bool_decide_reflect (key = p_key p)) as [->|Hne].
  - intros [= <- <-]. assert (accepts password) by exact Ek. split; [|split; [|done]].
    + intros s [= <-]. by exists password.
    + intros _. by exists password.
  - intros [= <- <-]. split; [done|]. split; [done|]. intros [= ->]. done.
Qed.

(** The same without the cache. *)
Definition reference (password : string) : option bool :=
  key ← IDKey password (p_salt p) (p_time p) (p_memory p) (p_threads p) (Z.of_nat (length (p_key p)));
  Some (bool_decide (key = p_key p)).
Fixpoint answers (accepted : option (list Z)) (l : list string) : list (option bool) :=
  match l with
  | [] => []
  | password :: l => let '(r, accepted) := Verify p accepted password in r :: answers accepted l
  end.

(** The cache changes no answer.  A verifier asked for any passwords in any order answers
    each of them as argon2 does, when no two of them have the same SHA-256. *)
Theorem Verify_cache_transparent l : (forall a b, a ∈ l -> b ∈ l -> sha256 a = sha256 b -> a = b) -> answers None l = map reference l.
Proof.
  assert (G : forall l seen accepted, (forall a b, a ∈ seen ++ l -> b ∈ seen ++ l -> sha256 a = sha256 b -> a = b) ->
    (forall s, accepted = Some s -> exists q, q ∈ seen /\ reference q = Some true /\ sha256 q = s) -> answers accepted l = map reference l).
  { clear l. induction l as [|w l IH]; intros seen accepted Hinj Hacc; [done|]. cbn [answers map]. unfold Verify.
    assert (Hrest : forall acc, (forall s, acc = Some s -> exists q, q ∈ seen ++ [w] /\ reference q = Some true /\ sha256 q = s) ->
      answers acc l = map reference l) by (intros acc Hs; apply (IH (seen ++ [w])%list); [by rewrite <- app_assoc|done]).
    assert (Hkeep : forall s, accepted = Some s -> exists q, q ∈ seen ++ [w] /\ reference q = Some true /\ sha256 q = s).
    { intros s Hs. destruct (Hacc s Hs) as (q & Hq & ?). exists q. set_solver. }
    destruct (bool_decide_reflect (accepted = Some (sha256 w))) as [E|_].
    { destruct (Hacc _ E) as (q & Hq & Hr & Hs). rewrite (Hinj w q) by (set_solver || done). rewrite Hr. f_equal. by apply Hrest. }
    unfold reference at 1. destruct (IDKey w _ _ _ _ _) as [key|] eqn:Ek; cbn [mbind option_bind]; [|f_equal; by apply Hrest].
    destruct (bool_decide_reflect (key = p_key p)) as [Hk|]; f_equal; [|by apply Hrest].
    apply Hrest. intros s [= <-]. exists w. split; [set_solver|]. split; [|done]. unfold reference. rewrite Ek. cbn. by rewrite bool_decide_eq_true_2. }
  intros Hl. by apply (G l []).
Qed.
End verifier.

(** C33: a hash that was made is read back: the verifier made of what HashPassword wrote has
    its parameters, salt and key, and accepts the password. *)
Theorem HashPassword_verifies salt password enc : Forall (fun b => 0 <= b < 256)%Z salt ->
  HashPassword (Some salt) password = Some enc ->
  exists v, NewVerifier enc = Some v /\ p_salt v = salt /\ p_threads v = argonThreads /\ p_time v = argonTime /\
    p_memory v = argonMemory /\ length (p_key v) = 32%nat /\ fst (Verify v None password) = Some true.
Proof.
  intros Hs. unfold HashPassword. destruct (_ =? _)%string; [done|]. cbn [mbind option_bind].
  destruct (IDKey_defined password salt argonTime argonMemory argonThreads argonKeyLen) as (key & Hkey & Hl & Hk); [done..|].
  rewrite Hkey. cbn [mbind option_bind]. intros [= <-].
  pose proof (encode64_no_dollar _ Hs) as D1. pose proof (encode64_no_dollar _ Hk) as D2.
  pose proof (decode64_encode64 false _ Hs) as E1. pose proof (decode64_encode64 false _ Hk) as E2.
  revert D1 D2 E1 E2. generalize (encode64 false salt) (encode64 false key). intros a b D1 D2 E1 E2.
  match goal with |- exists v, NewVerifier ?x = _ /\ _ => replace x with ("$argon2id$v=19$m=65536,t=3,p=2" ++ String "$" (a ++ String "$" b))%string by (by vm_compute) end.
  unfold NewVerifier, parseHash. rewrite !split_app, (split_no_sep "$" a D1), (split_no_sep "$" b D2).
  change (split "$" "$argon2id$v=19$m=65536,t=3,p=2") with [""; "argon2id"; "v=19"; "m=65536,t=3,p=2"]%string.
  cbn [app]. rewrite E1, E2. eexists. split; [reflexivity|]. cbn [p_salt p_threads p_time p_memory p_key]. split_and!; try done.
  unfold Verify. rewrite bool_decide_eq_false_2 by done. cbn [p_salt p_time p_memory p_threads p_key]. rewrite Hl.
  replace (IDKey password salt 3 65536 2 (Z.of_nat 32)) with (Some key) by exact (eq_sym Hkey). by rewrite bool_decide_eq_true_2.
Qed.
End hashes.

(** ** Credentials in a request *)

Lemma bytes_of_range s : Forall (fun b => 0 <= b < 256)%Z (bytes_of s).
Proof.
  unfold bytes_of. apply Forall_forall. intros b (a & <- & _)%list_elem_of_In%List.in_map_iff. apply byte_val_range.
Qed.
Lemma string_of_bytes_of s : string_of_bytes (bytes_of s) = s.
Proof.
  unfold string_of_bytes, bytes_of. rewrite List.map_map. erewrite List.map_ext by apply byte_of_val. rewrite List.map_id. apply string_of_list_ascii_of_string.
Qed.
Lemma cut_at_app c a b : has_byte c a = false -> cut_at c (a ++ String c b) = Some (a, b).
Proof.
  induction a as [|x a IH]; cbn; [by rewrite Ascii.eqb_refl|]. destruct (x =? c)%char; [done|]. cbn. intros H. by rewrite IH.
Qed.

Lemma BasicAuth_SetBasicAuth q user password : has_byte ":" user = false ->
  header q "Authorization" = snd (SetBasicAuth user password) -> BasicAuth q = Some (user, password).
Proof.
  intros Hu Hh. unfold BasicAuth. rewrite Hh. unfold SetBasicAuth. cbn [snd].
  set (e := encode64 true _). change ("Basic " ++ e)%string with (String "B" (String "a" (String "s" (String "i" (String "c" (String " " e)))))).
  assert (He : stake 6 (String "B" (String "a" (String "s" (String "i" (String "c" (String " " e)))))) = "Basic "%string) by (by destruct e).
  assert (Hd : sdrop 6 (String "B" (String "a" (String "s" (String "i" (String "c" (String " " e)))))) = e).
  { unfold sdrop. change (Z.to_nat 6) with 6%nat. cbn [String.length Nat.sub substring]. rewrite Nat.sub_0_r. by apply substring_all. }
  rewrite He, Hd. unfold e. rewrite decode64_encode64 by apply bytes_of_range. cbn [mbind option_bind].
  rewrite string_of_bytes_of. by apply cut_at_app.
Qed.

(** ** The limiter *)
Section limiting.
Context (n : Z).

(** [k] failed attempts at one instant: which of them were let in. *)
Fixpoint guesses (k : nat) (now : Z) (key : string) (bs : buckets) : list bool * buckets :=
  match k with
  | O => ([], bs)
  | S k =>
    let '(ok, bs) := Allow n now key bs in
    let '(l, bs) := guesses k now key (if ok : bool then Fail n now key bs else bs) in (ok :: l, bs)
  end.

(** What one bucket goes through. *)
Definition refilled (d : Z) (t : float64) : float64 :=
  float_min (float64_of n) (fadd t (fmul (Minutes d) (float64_of n))).
Definition spent (t : float64) : float64 :=
  let t := fsub t (float64_of 1) in if SFltb t (float64_of 0) then float64_of 0 else t.
Fixpoint drained (k : nat) (t : float64) : bool :=
  match k with
  | O => negb (SFleb (float64_of 1) (refilled 0 t)) && SFleb (float64_of 1) (refilled minute (refilled 0 t))
  | S k => SFleb (float64_of 1) (refilled 0 t) && drained k (spent (refilled 0 t))
  end.

Lemma Allow_known now key bs b : bs !! key = Some b ->
  Allow n now key bs = (SFleb (float64_of 1) (refilled (Sub now (last b)) (tokens b)),
    <[key := mkBucket (refilled (Sub now (last b)) (tokens b)) now]> bs).
Proof. intros Hb. unfold Allow. by rewrite Hb. Qed.
Lemma Sub_same now : Sub now now = 0%Z.
Proof. unfold Sub. by rewrite Z.sub_diag. Qed.
Lemma Sub_minute now : Sub (now + minute) now = minute.
Proof. unfold Sub. replace (now + minute - now)%Z with minute by lia. done. Qed.
Lemma Fail_known now key bs b : bs !! key = Some b ->
  Fail n now key bs = <[key := mkBucket (spent (tokens b)) (last b)]> bs.
Proof. intros Hb. unfold Fail. by rewrite Hb. Qed.

Lemma drained_guesses k now key bs b : bs !! key = Some b -> last b = now -> drained k (tokens b) = true ->
  exists bs', guesses k now key bs = (repeat true k, bs') /\ fst (Allow n now key bs') = false /\
    fst (Allow n (now + minute) key (snd (Allow n now key bs'))) = true /\ forall key', key' <> key -> bs' !! key' = bs !! key'.
Proof.
  intros Hb <-. revert bs b Hb. induction k as [|k IH]; intros bs b Hb; cbn [drained].
  - intros [Hn Hy]%andb_true_iff. exists bs. split; [done|]. rewrite (Allow_known _ _ _ _ Hb), Sub_same. cbn [fst snd].
    split; [by apply negb_true_iff|]. split; [|done]. erewrite Allow_known by apply lookup_insert_eq. cbn [tokens last fst]. by rewrite Sub_minute.
  - intros [Hn Hy]%andb_true_iff. cbn [guesses]. rewrite (Allow_known _ _ _ _ Hb), Sub_same, Hn.
    erewrite Fail_known by apply lookup_insert_eq. cbn [tokens last]. rewrite insert_insert_eq.
    destruct (IH (<[key := mkBucket (spent (refilled 0 (tokens b))) (last b)]> bs) _ (lookup_insert_eq _ _ _) Hy) as (bs' & E & H1 & H2 & H3).
    cbn [last] in *. rewrite E. exists bs'. split_and!; [done..|]. intros key' Hk. rewrite H3 by done. by rewrite lookup_insert_ne.
Qed.

Lemma drained_fresh k now key bs : bs !! key = None -> (Z.of_nat (size bs) <= 4096)%Z -> drained (S k) (float64_of n) = true ->
  exists bs', guesses (S k) now key bs = (repeat true (S k), bs') /\ fst (Allow n now key bs') = false /\
    fst (Allow n (now + minute) key (snd (Allow n now key bs'))) = true /\ forall key', key' <> key -> bs' !! key' = bs !! key'.
Proof.
  intros Hb Hs Hd. set (bs1 := <[key := mkBucket (float64_of n) now]> bs).
  assert (E : forall k, guesses (S k) now key bs = guesses (S k) now key bs1).
  { intros j. assert (Ha : Allow n now key bs = Allow n now key bs1).
    { rewrite (Allow_known now key bs1 _ (lookup_insert_eq _ _ _)). unfold bs1, Allow. rewrite Hb.
      rewrite (proj2 (Z.ltb_ge _ _) Hs). cbn [tokens last]. by rewrite insert_insert_eq. }
    cbn [guesses]. by rewrite Ha. }
  rewrite E. destruct (drained_guesses (S k) now key bs1 _ (lookup_insert_eq _ _ _) eq_refl Hd) as (bs' & H1 & H2 & H3 & H4).
  exists bs'. split_and!; [done..|]. intros key' Hk. rewrite H4 by done. by apply lookup_insert_ne.
Qed.
End limiting.

Lemma drained_upto : forallb (fun k => drained (Z.of_nat (S k)) (S k) (float64_of (Z.of_nat (S k)))) (seq 0 120) = true.
Proof. by vm_compute. Qed.

(** C34: the limiter lets exactly the configured number of failures in at one instant: of any
    address it has not seen, the first [n] failed attempts are processed, the next is refused,
    and a minute later one is processed again; other addresses are not affected. *)
Theorem limiter_counts n now key bs : (1 <= n <= 120)%Z -> bs !! key = None -> (Z.of_nat (size bs) <= 4096)%Z ->
  exists bs', guesses (NewLimiter n) (Z.to_nat n) now key bs = (repeat true (Z.to_nat n), bs') /\
    fst (Allow (NewLimiter n) now key bs') = false /\
    fst (Allow (NewLimiter n) (now + minute) key (snd (Allow (NewLimiter n) now key bs'))) = true /\
    forall key', key' <> key -> bs' !! key' = bs !! key'.
Proof.
  intros Hn Hb Hs. unfold NewLimiter. rewrite (proj2 (Z.leb_gt _ _)) by lia.
  replace (Z.to_nat n) with (S (Z.to_nat (n - 1))) by lia. apply drained_fresh; [done..|].
  pose proof drained_upto as Hall. rewrite forallb_forall in Hall. specialize (Hall (Z.to_nat (n - 1))).
  replace (Z.of_nat (S (Z.to_nat (n - 1)))) with n in Hall by lia. apply Hall, in_seq. lia.
Qed.
Lemma limiter_counts_witness : exists bs', guesses (NewLimiter 20) (Z.to_nat 20) 0 "192.0.2.7" ∅ = (repeat true (Z.to_nat 20), bs') /\
  fst (Allow (NewLimiter 20) 0 "192.0.2.7" bs') = false.
Proof.
  destruct (limiter_counts 20 0 "192.0.2.7" ∅) as (bs' & H1 & H2 & _); [lia|reflexivity|vm_compute; discriminate|].
  exists bs'. split; [exact H1|exact H2].
Defined.

(** ** The public listener *)

Definition moved (w w' : world) : Prop := exists n : nat, w' = set_clock (clock w + Z.of_nat n) w.
Lemma moved_refl w : moved w w.
Proof. exists O. destruct w. unfold set_clock. cbn. by rewrite Z.add_0_r. Qed.
Lemma moved_idle w w' : moved w w' -> idle w w'.
Proof. by intros [n ->]. Qed.

Lemma run_Now es w o w' : run Now es w = (o, w') -> moved w w' /\ (o = None \/ exists t, o = Some t).
Proof.
  intros [[-> ->]|(t & -> & [[= <- <-]|(f & n & [= <-] & [= <- <-])])]%run_act; (split; [|eauto]); try apply moved_refl. by exists n.
Qed.

Section listener.
Context {UC : Unicode} {EX : Externals} {MC : ManifestCodec} {A2 : Argon2}.
Context (p : params) (perMinute : Z).

Lemma run_behind {A : Type} (c : prog world A) es g :
  run (behind c) es g = let '(o, w) := run c es (g_world g) in (o, set_world w g).
Proof. apply run_lift; [done..|]. by intros []. Qed.

(** The request carries a password that argon2 accepts, or one with the SHA-256 of such a one. *)
Definition permitted (q : http) : Prop :=
  exists password other, BasicAuth q = Some (Username, password) /\ accepts p other /\ sha256 other = sha256 password.

Lemma CheckBasic_spec accepted q r accepted' : remembers p accepted -> CheckBasic p accepted q = (r, accepted') ->
  remembers p accepted' /\ (r = Some None -> permitted q) /\
  (forall e, r = Some (Some e) -> e = AuthRequired \/ e = AuthInvalid) /\
  (forall password, BasicAuth q = Some (Username, password) -> accepts p password -> r = Some None).
Proof.
  intros Ha. unfold CheckBasic, permitted. destruct (BasicAuth q) as [[user pass]|].
  2: { intros [= <- <-]. split_and!; [done|done|intros e [= <-]; by left|done]. }
  destruct (Verify p accepted pass) as [rv acc] eqn:Ev. destruct (Verify_spec p _ _ _ _ Ha Ev) as (H1 & H2 & H3).
  intros [= <- <-]. split; [done|]. destruct rv as [ok|]; cbn [mbind option_bind].
  2: { split_and!; [done|done|]. intros pw [= -> ->] Hp. by specialize (H3 Hp). }
  split_and!.
  - destruct (String.eqb_spec user Username) as [->|]; [|done]. destruct ok; [|done]. intros _.
    destruct (H2 eq_refl) as (other & Ho & Hs). by exists pass, other.
  - intros e. destruct (_ && _); [done|]. intros [= <-]. by right.
  - intros pw [= -> ->] Hp. specialize (H3 Hp). injection H3 as ->. by rewrite String.eqb_refl.
Qed.

(** What a refused request is answered. *)
Definition refusal (o : option (option response)) : Prop :=
  forall r, o = Some (Some r) -> r_Status r = 401%Z \/ r_Status r = 429%Z.

Section one.
Context (remote : string) (q : http) (next : prog world response).

(** A run of a protected handler. *)
Inductive attempt (g : gate) : option (option response) -> gate -> Prop :=
| stopped g' : moved (g_world g) (g_world g') -> attempt g None g'
| refused r g' : moved (g_world g) (g_world g') ->
    (exists t, fst (Allow perMinute t (clientKey q remote) (g_buckets g)) = false) /\ r_Status r = 429%Z \/
    fst (CheckBasic p (g_accepted g) q) <> Some None /\ r_Status r = 401%Z -> attempt g (Some (Some r)) g'
| panicked g' : moved (g_world g) (g_world g') -> fst (CheckBasic p (g_accepted g) q) = None -> attempt g (Some None) g'
| admitted a w1 es1 g' : fst (CheckBasic p (g_accepted g) q) = Some None -> moved (g_world g) w1 ->
    run next es1 w1 = (a, g_world g') -> attempt g (Some <$> a) g'.

Lemma Auth_run es g o g' : remembers p (g_accepted g) -> run (Auth p perMinute remote q next) es g = (o, g') ->
  remembers p (g_accepted g') /\ attempt g o g'.
Proof.
  intros Ha. unfold Auth. cbv zeta. intros [[E ->]|(now & g1 & e0 & e1 & E & E1)]%run_bind; rewrite run_behind in E.
  { destruct (run Now _ _) as [o1 w1] eqn:En. injection E as -> <-. apply run_Now in En as [Hm _]. split; [done|by apply stopped]. }
  destruct (run Now _ _) as [o1 w1] eqn:En. injection E as -> <-. apply run_Now in En as [Hm _]. revert E1.
  destruct (CheckBasic p (g_accepted g) q) as [r acc] eqn:Ec. destruct (CheckBasic_spec _ _ _ _ Ha Ec) as (H1 & _ & H3 & _).
  intros [[[[_ ->]|(? & [=] & _)]%run_act ->]|(b & g2 & x2 & e2 & [[[=] _]|(b' & [= <-] & [E|(? & ? & [=] & _)])]%run_act & E2)]%run_bind.
  { split; [done|by apply stopped]. }
  cbn [g_buckets set_world] in E. destruct (Allow perMinute now (clientKey q remote) (g_buckets g)) as [ok bs] eqn:Eal. injection E as <- <-.
  destruct ok; cbn [negb] in E2.
  2: { injection E2 as <- <-. split; [done|]. apply refused; [done|]. left. split; [exists now; by rewrite Eal|done]. }
  revert E2. intros [[[[_ ->]|(? & [=] & _)]%run_act ->]|(b & g2 & x3 & e3 & [[[=] _]|(b' & [= <-] & [E|(? & ? & [=] & _)])]%run_act & E3)]%run_bind.
  { split; [done|by apply stopped]. }
  cbn [g_accepted set_world set_buckets] in E. rewrite Ec in E. injection E as <- <-. destruct r as [[e|]|].
  - revert E3. intros [[[[_ ->]|(? & [=] & _)]%run_act ->]|(b & g3 & x4 & e4 & [[[=] _]|(b' & [= <-] & [[= <- <-]|(? & ? & [=] & _)])]%run_act & E4)]%run_bind;
      [split; [done|by apply stopped]|]. injection E4 as <- <-. split; [done|]. apply refused; [done|]. right. rewrite Ec.
    split; [done|]. by destruct (H3 e eq_refl) as [-> | ->].
  - revert E3. intros [[E ->]|(a & g3 & e4 & e5 & E & E4)]%run_bind; rewrite run_behind in E; destruct (run next _ _) as [a' w3] eqn:En.
    + injection E as -> <-. split; [done|]. by eapply (admitted g None); [rewrite Ec|exact Hm|exact En].
    + injection E as -> <-. injection E4 as <- <-. split; [done|]. by eapply (admitted g (Some a)); [rewrite Ec|exact Hm|exact En].
  - injection E3 as <- <-. split; [done|]. apply panicked; [done|by rewrite Ec].
Qed.
End one.

Section server.
Context (cfg : Server) (ready : bool).

End server.

Lemma fresh_allowed : (1 <= perMinute <= 120)%Z -> forall now key bs, bs !! key = None -> fst (Allow perMinute now key bs) = true.
Proof.
  intros Hn now key bs Hb. unfold Allow. rewrite Hb. cbn [last tokens fst]. rewrite Sub_same.
  pose proof drained_upto as Hall. rewrite forallb_forall in Hall. specialize (Hall (Z.to_nat (perMinute - 1))).
  replace (Z.of_nat (S (Z.to_nat (perMinute - 1)))) with perMinute in Hall by lia.
  assert (Hin : In (Z.to_nat (perMinute - 1)) (seq 0 120)) by (apply in_seq; lia).
  specialize (Hall Hin). cbn [drained] in Hall. apply andb_true_iff in Hall as [Hall _]. exact Hall.
Qed.

End listener.

(** ** Guessing around the limiter *)
Section evading.
Context {UC : Unicode} {EX : Externals} {MC : ManifestCodec} {A2 : Argon2}.
Context (p : params) (perMinute : Z).

Definition forwarded (addr : string) (q : http) : http :=
  mkHttp (q_Method q) (q_Path q) (q_ContentLength q) (("X-Forwarded-For"%string, addr) :: q_Header q).
Fixpoint letters (n : nat) : string := match n with O => "" | S n => String "a" (letters n) end.

Lemma letters_length n : String.length (letters n) = n.
Proof. induction n; cbn; congruence. Qed.
Lemma letters_no_byte c n : ("a" =? c)%char = false -> has_byte c (letters n) = false.
Proof. intros Hc. induction n as [|n IH]; [done|]. cbn [letters has_byte]. by rewrite Hc. Qed.
Lemma clientKey_letters n q remote : clientKey (forwarded (letters (S n)) q) remote = letters (S n).
Proof.
  unfold clientKey. replace (header (forwarded (letters (S n)) q) "X-Forwarded-For") with (letters (S n)) by done.
  change (negb (letters (S n) =? "")%string) with true. cbn match. unfold SplitHost. rewrite letters_no_byte by done. cbn [negb default].
  unfold firstAddress. assert (Hb : forall k, before "," (letters k) = letters k) by (induction k as [|k IH]; cbn; congruence).
  rewrite Hb. unfold trimSpace, trim_right, trim_left. cbn [letters list_ascii_of_string drop_while].
  replace (("a" =? " ")%char || (byte_val "a" =? 9)%Z) with false by done.
  set (f := fun a => ((a =? " ")%char || (byte_val a =? 9)%Z)). cbn [string_of_list_ascii]. rewrite string_of_list_ascii_of_string.
  assert (Hr : forall l, Forall (fun a => f a = false) l -> drop_while f l = l) by (intros [|a l] Hl; [done|]; cbn; by rewrite (Forall_inv Hl)).
  rewrite Hr; [by rewrite rev_involutive, string_of_list_ascii_of_string|]. apply Forall_rev.
  clear. cbn. constructor; [done|]. induction n as [|n IH]; cbn; by constructor.
Qed.

Lemma unseen_letters {V : Type} (bs : gmap string V) : exists n, bs !! letters (S n) = None.
Proof.
  exists (max_list (map String.length (elements (dom bs)))). apply not_elem_of_dom. intros Hin.
  assert (Hl : String.length (letters (S (max_list (map String.length (elements (dom bs)))))) ∈ map String.length (elements (dom bs))).
  { apply list_elem_of_fmap_2, elem_of_elements, Hin. }
  apply max_list_elem_of_le in Hl. rewrite letters_length in Hl. lia.
Qed.

(** C35: the limiter does not limit a client that names its own address.  However many
    failures are on record, there is an X-Forwarded-For header with which the next guess is
    checked against the hash and not refused. *)
Theorem forwarded_for_evades_limit remote q next g : (1 <= perMinute <= 120)%Z -> remembers p (g_accepted g) -> ~ permitted p q ->
  exists addr, forall es r g', run (Auth p perMinute remote (forwarded addr q) next) es g = (Some (Some r), g') -> r_Status r = 401%Z.
Proof.
  intros Hn Ha Hp. destruct (unseen_letters (g_buckets g)) as [n Hu]. exists (letters (S n)). intros es r g' E.
  assert (Hc : CheckBasic p (g_accepted g) (forwarded (letters (S n)) q) = CheckBasic p (g_accepted g) q) by done.
  apply Auth_run in E as [_ H]; [|done]. inversion H as [|r1 ? Hm Hs| |a w1 es1 ? Hcb Hm Hr Ho]; subst.
  - destruct Hs as [[[t Ht] _]|[_ Hs]]; [|done]. by rewrite clientKey_letters, fresh_allowed in Ht.
  - rewrite Hc in Hcb. destruct Hp. destruct (CheckBasic p (g_accepted g) q) as [rc acc] eqn:Ec.
    destruct (CheckBasic_spec _ _ _ _ _ Ha Ec) as (_ & H2 & _). by apply H2.
Qed.
End evading.

(** ** Concrete instances *)

(** A derivation that pads the password to the length asked for. *)
#[export] Instance demo_argon2 : Argon2 := {|
  IDKey pw _ time _ threads n :=
    if (1 <=? time)%Z && (1 <=? threads)%Z && (1 <=? n)%Z then Some (take (Z.to_nat n) (bytes_of pw ++ repeat 0%Z (Z.to_nat n))) else None |}.
#[export] Instance demo_argon2_laws : Argon2Laws.
Proof.
  split. intros pw salt time memory threads n Ht Hh Hn. cbn. rewrite !(proj2 (Z.leb_le _ _)) by done. cbn [andb].
  eexists. split; [done|]. split; [rewrite length_take, length_app, repeat_length; lia|].
  apply Forall_take, Forall_app. split; [apply bytes_of_range|]. by apply Forall_forall; intros b ->%list_elem_of_In%repeat_spec.
Qed.

Definition demo_params : params := mkParams 65536 3 2 [] (bytes_of "hunter2").
Definition demo_gate : gate := mkGate boot None ∅.
Definition with_password (user password : string) (q : http) : http :=
  mkHttp (q_Method q) (q_Path q) (q_ContentLength q) (SetBasicAuth user password :: q_Header q).
Definition get_info : http := mkHttp "GET" "/v1/info" 0 [].

Lemma root_not_permitted : ~ permitted demo_params (with_password "root" "hunter2" get_info).
Proof.
  intros (pw & other & Hb & _). assert (Hpw : BasicAuth (with_password "root" "hunter2" get_info) = Some ("root", "hunter2")%string) by (by vm_compute).
  rewrite Hpw in Hb. discriminate Hb.
Qed.
Lemma remembers_none p : remembers p None.
Proof. done. Qed.

Lemma HashPassword_verifies_witness :
  exists enc v, HashPassword (Some (repeat 7%Z 16)) "hunter2" = Some enc /\ NewVerifier enc = Some v /\ fst (Verify v None "hunter2") = Some true.
Proof.
  destruct (HashPassword (Some (repeat 7%Z 16)) "hunter2") as [enc|] eqn:E; [|by vm_compute in E].
  destruct (HashPassword_verifies (repeat 7%Z 16) "hunter2" enc) as (v & Hv & _ & _ & _ & _ & _ & H).
  - apply Forall_forall. by intros b ->%list_elem_of_In%repeat_spec.
  - exact E.
  - exists enc, v. split; [reflexivity|]. split; [exact Hv|exact H].
Defined.
Lemma Verify_cache_transparent_witness :
  answers demo_params None ["hunter2"; "letmein"; "hunter2"]%string = map (reference demo_params) ["hunter2"; "letmein"; "hunter2"]%string.
Proof.
  apply Verify_cache_transparent. intros a b Ha Hb.
  repeat (apply elem_of_cons in Ha as [->|Ha]; [|]); try by apply not_elem_of_nil in Ha.
  all: repeat (apply elem_of_cons in Hb as [->|Hb]; [|]); try by apply not_elem_of_nil in Hb.
  all: intros E; first [reflexivity | exfalso; vm_compute in E; discriminate E].
Defined.
Lemma forwarded_for_evades_limit_witness : exists addr, forall es r g',
  run (Auth demo_params 20 "192.0.2.7:5000" (forwarded addr (with_password "root" "hunter2" get_info)) (handle cfg GetInfo)) es
    (mkGate boot None {[ "192.0.2.7"%string := mkBucket (float64_of 0) 0 ]}) = (Some (Some r), g') -> r_Status r = 401%Z.
Proof.
  apply forwarded_for_evades_limit; [lia|exact (remembers_none demo_params)|exact root_not_permitted].
Defined.

(** Guesses sent together are all checked: the limiter counts a failure only after the hash. *)
Definition one_left (password : string) : prog gate (option response) :=
  Auth demo_params 1 "192.0.2.7:5000" (with_password "sss" password get_info) (handle cfg GetInfo).
Definition statuses (r : option response * option response * gate) : list (option Z) :=
  map (fmap r_Status) [fst (fst r); snd (fst r)].

(** Guesses sent together are all checked.  With one failure a minute allowed, two wrong
    passwords one after the other are answered 401 and 429; when both requests pass the
    limiter before either is found wrong, both are checked. *)
Theorem parallel_guesses_are_checked :
  statuses (run2 [] (one_left "letmein") (one_left "secret") demo_gate) = [Some 401; Some 429]%Z /\
  statuses (run2 [true; true; false; false] (one_left "letmein") (one_left "secret") demo_gate) = [Some 401; Some 401]%Z.
Proof. split; vm_compute; reflexivity. Qed.
