(* ===== verification/Daemon.v ===== *)
(** * The daemon's life: internal/app/serve.go, LoadServer and runServe

    A machine where daemons may run: what they keep on disk, the TCP address and the path of
    the local socket in the configuration, and the processes that hold them.  A process that
    exits releases its listeners, but what it left at the socket path stays. *)
From S2P Require Import Prelude GoStrings Errors Paths Manifest Wire Prog Tree Integrity GoUrl Flags Store Config World.
From S2P Require Import Janitor Api Net Schema Auth.
Local Open Scope prog_scope.

Notation pid := nat.
(** What is at the path of the local socket; a socket has the process that bound it and its
    permissions. *)
Inductive socket_node := NoNode | OtherNode | SocketNode (owner : pid) (mode : Z).

Record site := mkSite {
  st_world : world; st_file : dbfile;
  st_listening : option pid;   (* who listens on the TCP address *)
  st_accepting : gset pid;     (* processes whose local listener is open *)
  st_socket : socket_node;
  st_ready : gset pid }.       (* processes whose readiness flag is set *)

Definition set_st_world (w : world) (s : site) : site := mkSite w (st_file s) (st_listening s) (st_accepting s) (st_socket s) (st_ready s).
Definition set_file (f : dbfile) (s : site) : site := mkSite (st_world s) f (st_listening s) (st_accepting s) (st_socket s) (st_ready s).
Definition set_listening (o : option pid) (s : site) : site := mkSite (st_world s) (st_file s) o (st_accepting s) (st_socket s) (st_ready s).
Definition set_accepting (a : gset pid) (s : site) : site := mkSite (st_world s) (st_file s) (st_listening s) a (st_socket s) (st_ready s).
Definition set_socket (n : socket_node) (s : site) : site := mkSite (st_world s) (st_file s) (st_listening s) (st_accepting s) n (st_ready s).
Definition set_ready (r : gset pid) (s : site) : site := mkSite (st_world s) (st_file s) (st_listening s) (st_accepting s) (st_socket s) r.

(** ** Calls *)

Notation fallible := (Some (fun _ s => (inl tt, s))).
Definition memory (f : site -> site) : prog site unit := act_ (fun s => (tt, f s)).
Definition syscall : prog site (unit + unit) := act (fun s => (inr tt, s)) fallible.

Section daemon.
Context {UC : Unicode} {EX : Externals} {MC : ManifestCodec} {A2 : Argon2}.
(** The permissions that the umask leaves a new socket. *)
Context (umasked : Z).
Context (cfg : Server) (p : pid).
Notation socket_path := (UnixSocket (sv_Server cfg)).

Definition listen_tcp : prog site (unit + unit) :=
  act (fun s => match st_listening s with None => (inr tt, set_listening (Some p) s) | Some _ => (inl tt, s) end) fallible.
Definition close_tcp : prog site unit :=
  memory (fun s => if bool_decide (st_listening s = Some p) then set_listening None s else s).
Definition listen_unix : prog site (unit + unit) :=
  act (fun s => match st_socket s with
                | NoNode => (inr tt, set_socket (SocketNode p umasked) (set_accepting ({[p]} ∪ st_accepting s) s))
                | _ => (inl tt, s)
                end) fallible.
(** Closing the listener unlinks the path, whatever is there. *)
Definition close_unix : prog site unit :=
  memory (fun s => if bool_decide (p ∈ st_accepting s) then set_socket NoNode (set_accepting (st_accepting s ∖ {[p]}) s) else s).
(** platform.ChmodSocket *)
Definition SocketMode : Z := 432.
Definition ChmodSocket : prog site (unit + unit) :=
  act (fun s => match st_socket s with
                | NoNode => (inl tt, s)
                | OtherNode => (inr tt, s)
                | SocketNode o _ => (inr tt, set_socket (SocketNode o SocketMode) s)
                end) fallible.
Definition remove_socket : prog site (unit + unit) :=
  act (fun s => match st_socket s with NoNode => (inl tt, s) | _ => (inr tt, set_socket NoNode s) end) fallible.
Definition stat_socket : prog site (oserr + socket_node) :=
  act (fun s => (match st_socket s with NoNode => inl ErrNotExist | n => inr n end, s)) (Some (fun _ s => (inl ErrOther, s))).
(** net.DialTimeout: a live listener may fail to answer in time. *)
Definition dial_socket : prog site bool :=
  act (fun s => (match st_socket s with SocketNode o _ => bool_decide (o ∈ st_accepting s) | _ => false end, s))
      (Some (fun _ s => (false, s))).

(** ** Listen *)

Definition removeStaleSocket : prog site (unit + unit) :=
  info <- stat_socket ;;
  match info with
  | inl ErrNotExist => Ret (inr tt)
  | inl _ => Ret (inl tt)
  | inr (SocketNode _ _) =>
    alive <- dial_socket ;;
    if alive : bool then Ret (inl tt) else remove_socket
  | inr _ => Ret (inl tt)
  end.

(** [if err != nil { cleanup; return err }] *)
Definition or_close {A : Type} (c : prog site unit) (q : prog site (unit + A)) (f : A -> prog site (unit + unit)) : prog site (unit + unit) :=
  r <- q ;; match r with inl _ => c ;;; Ret (inl tt) | inr a => f a end.
Definition Listen : prog site (unit + unit) :=
  _ <-? listen_tcp ;;
  if (socket_path =? "")%string then Ret (inr tt) else
  or_close close_tcp syscall (fun _ =>
  or_close close_tcp removeStaleSocket (fun _ =>
  or_close close_tcp listen_unix (fun _ =>
  or_close (close_tcp ;;; close_unix) ChmodSocket (fun _ => Ret (inr tt))))).

(** ** NewServer *)

(** files.New creates the three areas, which the world always has. *)
Definition files_New : prog site (unit + unit) :=
  _ <-? syscall ;; _ <-? syscall ;; syscall.
(** transfer.New: a process starts with an empty manifest cache, not ready. *)
Definition transfer_New : prog site unit := memory (fun s => set_st_world (reboot (st_world s)) s).
Definition NewServer : prog site (unit + params) :=
  _ <-? lift st_file set_file (store_Open migrations) ;;
  _ <-? files_New ;;
  transfer_New ;;;
  Ret (match NewVerifier (PasswordHash (Config.Auth cfg)) with None => inl tt | Some v => inr v end).

(** ** Run, up to the point where it serves, and what it does then *)

Definition SetReady (b : bool) : prog site unit :=
  memory (fun s => set_ready (if b then {[p]} ∪ st_ready s else st_ready s ∖ {[p]}) s).
Definition reconcile : prog site (unit + Report) :=
  r <- lift st_world set_st_world (reconcile_Run cfg) ;;
  Ret (if snd r then inr (fst r) else inl tt).
Definition Run_until_serving : prog site (unit + Report) :=
  _ <-? Listen ;;
  rep <-? reconcile ;;
  SetReady true ;;;
  Ret (inr rep).

(** Shutdown of an http.Server closes its listener at once and then waits for its requests;
    the wait may outlast the grace period. *)
Definition wait_requests : prog site (unit + unit) := syscall.
Definition public_Shutdown : prog site (unit + unit) := close_tcp ;;; wait_requests.
Definition local_Shutdown : prog site (unit + unit) := close_unix ;;; wait_requests.
Definition first_error (a b : unit + unit) : unit + unit := match a with inl _ => a | inr _ => b end.
Definition Shutdown : prog site (unit + unit) :=
  SetReady false ;;;
  e1 <- public_Shutdown ;;
  e2 <- local_Shutdown ;;
  (if (socket_path =? "")%string then Ret (inr tt) else remove_socket) ;;;
  e3 <- syscall ;;
  Ret (first_error (first_error e1 e2) e3).

(** Why Run stops to serve: a listener failed, or a signal, the context or Stop asked for it. *)
Inductive stop_reason := ServeFailed | Asked.
Definition Run_stopped (why : stop_reason) : prog site (unit + unit) :=
  match why with ServeFailed => Ret (inl tt) | Asked => Shutdown end.

(** The command, up to the point where it serves. *)
Definition start_server : prog site (unit + params) :=
  v <-? NewServer ;;
  _ <-? Run_until_serving ;;
  Ret (inr v).

(** What the operating system does when the process ends. *)
Definition exit_process (s : site) : site :=
  set_ready (st_ready s ∖ {[p]}) (set_accepting (st_accepting s ∖ {[p]})
    (if bool_decide (st_listening s = Some p) then set_listening None s else s)).

(** ** The two muxes *)
Definition is_ready (s : site) : bool := bool_decide (p ∈ st_ready s).
(** The public one is [serve_public], behind the password; the local one has every route. *)
Definition local_mux (ready : bool) (m : message) : list route := (public_routes ready m ++ local_routes ready m)%list.
Definition serve_local (ready : bool) (m : message) : prog world response := serve cfg (local_mux ready) m.
End daemon.

(** ** The configuration file and the command line *)

(** [toml.Decode] into a value with defaults, with the keys it did not know. *)
Class Toml := { toml_Decode : string -> Server -> option (Server * list string) }.
Definition absolute_url (s : string) : bool :=
  match url_Parse s with Some u => negb (u_Scheme u =? "")%string && negb (u_Host u =? "")%string | None => false end.

Section serve_command.
Context {UC : Unicode} {EX : Externals} {MC : ManifestCodec} {A2 : Argon2} {TL : Toml}.
Context (umasked : Z) (p : pid).

(** [data] is what os.ReadFile gave. *)
Definition LoadServer (data : option string) : option Server :=
  data ← data;
  r ← toml_Decode data DefaultServer;
  match snd r with
  | [] => match Validate absolute_url (fst r) with None => Some (fst r) | Some _ => None end
  | _ => None
  end.
Definition serve_flags : flag_set := [("config", KString); ("log-level", KString)]%string.
Definition serve_start (read_file : string -> option string) (args : list string) : prog site (Z + Server * params) :=
  match Parse serve_flags (<["config" := VString "/etc/sss/config.toml"]> (<["log-level" := VString "info"]> ∅))%string args with
  | inl _ => Ret (inl 2%Z)
  | inr (st, _) =>
    match LoadServer (read_file (flag_string st "config")) with
    | None => Ret (inl 2%Z)
    | Some cfg => v <-? start_server umasked cfg p orelse 8%Z ;; Ret (inr (cfg, v))
    end
  end.
Definition serve_end (cfg : Server) (why : stop_reason) : prog site Z :=
  r <- Run_stopped cfg p why ;; Ret (match r with inl _ => 8%Z | inr _ => 0%Z end).
End serve_command.
