(* ===== verification/DaemonProofs.v ===== *)
(** * The daemon refines the server of [System]

    Start-up, requests on both listeners, the janitor's passes, shutdown and kills of one
    daemon after another, as a transition system; every state of it is one of [System]'s,
    serving exactly when the process is ready. *)
From S2P Require Import Prelude GoStrings Errors Paths Manifest Wire Admission Prog Tree Integrity Store Config World Service.
From S2P Require Import Janitor Api Net Safety ApiProofs System Schema Auth AuthProofs Daemon.
Local Open Scope prog_scope.

Section life.
Context {UC : Unicode} {EX : Externals} {MC : ManifestCodec} {A2 : Argon2}.
Context (umasked : Z) (cfg : Server).
Notation perMinute := (FailedAttemptsPerMinute (Config.Auth cfg)).
Notation socket_path := (UnixSocket (sv_Server cfg)).

(** ** Daemons one after the other *)

Inductive phase := Down | Up (v : params) (accepted : option (list Z)) (bs : buckets).
(** [d_pid] is the process that runs or ran last. *)
Record daemon := mkDaemon { d_site : site; d_pid : pid; d_phase : phase }.
Definition is_up (d : daemon) : bool := match d_phase d with Up _ _ _ => true | Down => false end.

(** What the rest of the machine may do: time passes, the disk fills and empties, and other
    programs change what is at the socket path, open sockets of their own and take the TCP
    address when it is free. *)
Definition others (p : pid) (s s' : site) : Prop :=
  (exists t u, (clock (st_world s) <= t)%Z /\ st_world s' = set_disk u (set_clock t (st_world s))) /\ st_file s' = st_file s /\
  st_ready s' = st_ready s /\ (p ∈ st_accepting s -> p ∈ st_accepting s') /\ (st_listening s = Some p -> st_listening s' = Some p).

(** The started process either serves or has ended. *)
Definition started (p : pid) (r : option (unit + params)) (s : site) : daemon :=
  match r with Some (inr v) => mkDaemon s p (Up v None ∅) | _ => mkDaemon (exit_process p s) p Down end.
Definition served (p : pid) (answered : bool) (s : site) (ph : phase) : daemon :=
  if answered then mkDaemon s p ph else mkDaemon (exit_process p s) p Down.
Definition admissible_message (routes : list route) (m : message) (w : world) : Prop :=
  match dispatch m routes with Some r => admissible r w | None => True end.

Inductive life (starts : list event -> Prop) : daemon -> daemon -> Prop :=
| life_start es s n : starts es ->
    life starts (mkDaemon s n Down) (started (S n) (fst (run (start_server umasked cfg (S n)) es s)) (snd (run (start_server umasked cfg (S n)) es s)))
| life_public remote m es s n v a bs o g : admissible_message (public_routes (is_ready n s) m) m (st_world s) ->
    run (serve_public v perMinute cfg (is_ready n s) remote m) es (mkGate (st_world s) a bs) = (o, g) ->
    life starts (mkDaemon s n (Up v a bs)) (served n (finished o) (set_st_world (g_world g) s) (Up v (g_accepted g) (g_buckets g)))
| life_local m es s n v a bs o w : admissible_message (local_mux (is_ready n s) m) m (st_world s) ->
    run (serve_local cfg (is_ready n s) m) es (st_world s) = (o, w) ->
    life starts (mkDaemon s n (Up v a bs)) (served n (finished o) (set_st_world w s) (Up v a bs))
| life_sweep es s n v a bs o w : run (Sweep cfg) es (st_world s) = (o, w) ->
    life starts (mkDaemon s n (Up v a bs)) (served n (finished o) (set_st_world w s) (Up v a bs))
| life_others s s' n ph : others n s s' -> life starts (mkDaemon s n ph) (mkDaemon s' n ph)
| life_kill s n v a bs : life starts (mkDaemon s n (Up v a bs)) (mkDaemon (exit_process n s) n Down)
| life_stop why es s n v a bs :
    life starts (mkDaemon s n (Up v a bs)) (mkDaemon (exit_process n (snd (run (Run_stopped cfg n why) es s))) n Down).

(** A machine on which nothing ran yet. *)
Definition fresh_site (limit : nat) (now : Z) (u : DiskUsage) (r : nat -> Z) (node : socket_node) (o : option pid) : site :=
  mkSite (sv_world (installed limit now u r)) no_file o ∅ node ∅.
Definition lived (starts : list event -> Prop) (d : daemon) : Prop :=
  exists limit now u r node o, rtc (life starts) (mkDaemon (fresh_site limit now u r node o) O Down) d.

Lemma life_start_run starts es s n r s' : starts es -> run (start_server umasked cfg (S n)) es s = (r, s') ->
  life starts (mkDaemon s n Down) (started (S n) r s').
Proof. intros He E. pose proof (life_start starts es s n He) as H. by rewrite E in H. Qed.

(** ** Start-up *)

Context (starts : list event -> Prop).
Notation sys := (rtc (step cfg starts)).

(** The parts of a start that do not reach the world. *)
Definition same_world (s s' : site) : Prop := st_world s' = st_world s.
#[local] Instance same_world_order : PreOrder same_world.
Proof. split; [by intros s|]. intros a b c H1 H2. unfold same_world in *. by rewrite H2. Qed.
Lemma same_act {R : Type} (step : site -> R * site) alts : (forall s, st_world (snd (step s)) = st_world s) ->
  (forall f n s, alts = Some f -> st_world (snd (f n s)) = st_world s) -> within same_world (act step alts).
Proof. intros H1 H2. by apply within_act. Qed.
Ltac same_call := apply same_act; [intros s; cbn; repeat case_match; done|intros f k s [= <-]; done].
Lemma same_syscall : within same_world syscall. Proof. same_call. Qed.
Lemma same_listen_tcp p : within same_world (listen_tcp p). Proof. same_call. Qed.
Lemma same_listen_unix p : within same_world (listen_unix umasked p). Proof. same_call. Qed.
Lemma same_ChmodSocket : within same_world ChmodSocket. Proof. same_call. Qed.
Lemma same_remove : within same_world remove_socket. Proof. same_call. Qed.
Lemma same_stat : within same_world stat_socket. Proof. same_call. Qed.
Lemma same_dial : within same_world dial_socket. Proof. same_call. Qed.
Lemma same_close_tcp p : within same_world (close_tcp p). Proof. same_call. Qed.
Lemma same_close_unix p : within same_world (close_unix p). Proof. same_call. Qed.
Lemma same_SetReady p b : within same_world (SetReady p b). Proof. same_call. Qed.
#[local] Hint Resolve same_syscall same_listen_tcp same_listen_unix same_ChmodSocket same_remove same_stat same_dial same_close_tcp
  same_close_unix same_SetReady : within.
Lemma same_Open ms : within same_world (lift st_file set_file (store_Open ms)).
Proof. by apply within_lift; [apply _|]. Qed.
#[local] Hint Resolve same_Open : within.
Lemma same_Listen p : within same_world (Listen umasked cfg p).
Proof. unfold Listen, or_close, removeStaleSocket. within_solve. Qed.
Lemma same_Stopped p why : within same_world (Run_stopped cfg p why).
Proof. unfold Run_stopped, Shutdown, public_Shutdown, local_Shutdown, wait_requests. within_solve. Qed.
Lemma same_run {A : Type} (p : prog site A) es s o s' : within same_world p -> run p es s = (o, s') -> st_world s' = st_world s.
Proof.
  intros Hp E. assert (Hw : wp (same_world s) p (fun _ _ => True) s) by (eapply (wp_within same_world); [exact Hp|done|done]).
  destruct (wp_sound (same_world s) p (fun _ _ => True) es s) as [H _]; [done|exact Hw|]. by rewrite E in H.
Qed.

(** [Hdrop], [Hcrash]: the kind of schedule a start may have. *)
Context (Hdrop : forall k es, starts es -> starts (drop k es)) (Hcrash : starts [Crash]).

(** Stopped right after the manifest cache was made. *)
Lemma crashed_start w : step cfg starts (mkRunning w false) (mkRunning (reboot w) false).
Proof. exact (step_restart cfg starts [Crash] w Hcrash). Qed.

Lemma reconcile_steps es s o s' w : starts es -> st_world s = reboot w -> run (reconcile cfg) es s = (o, s') ->
  step cfg starts (mkRunning w false) (mkRunning (st_world s') (match o with Some (inr _) => true | _ => false end)).
Proof.
  intros He Hw E. unfold reconcile in E. rewrite run_map, run_lift in E; [|done..|by intros []]. rewrite Hw in E.
  pose proof (step_restart cfg starts es w He) as Hst. destruct (run (reconcile_Run cfg) es (reboot w)) as [r w'].
  injection E as <- <-. cbn [st_world set_st_world fst snd] in *. destruct r as [[rep []]|]; exact Hst.
Qed.

Lemma same_files_New : within same_world files_New.
Proof. unfold files_New. within_solve. Qed.
#[local] Hint Resolve same_files_New same_Listen : within.

(** The world is as it was, or as a new process finds it. *)
Definition begun (w : world) (s : site) : Prop := st_world s = w \/ st_world s = reboot w.
Lemma NewServer_world w s : st_world s = w -> wp (begun w) (NewServer cfg)
  (fun r s' => match r with inr v => st_world s' = reboot w /\ NewVerifier (PasswordHash (Config.Auth cfg)) = Some v | inl _ => begun w s' end) s.
Proof.
  intros Hs. assert (Hsame : forall s1 s2, st_world s1 = w -> same_world s1 s2 -> begun w s2) by (intros s1 s2 <- H; by left).
  unfold NewServer. apply wp_bindE, (wp_within same_world); [auto with within|intros s' H; by eapply Hsame|].
  intros [e|[]] s1 H1; [by eapply Hsame|]. assert (Hs1 : st_world s1 = w) by (rewrite <- Hs; exact H1).
  apply wp_bindE, (wp_within same_world); [auto with within|intros s' H; by eapply Hsame|].
  intros [e|[]] s2 H2; [by eapply Hsame|]. assert (Hs2 : st_world s2 = w) by (rewrite <- Hs1; exact H2).
  cbn. rewrite Hs2. split; [|done]. split; [by right|]. destruct (NewVerifier _) as [v|]; [done|by right].
Qed.
Lemma begun_steps w s : begun w s -> sys (mkRunning w false) (mkRunning (st_world s) false).
Proof. intros [-> | ->]; [done|]. apply rtc_once, crashed_start. Qed.

Lemma Run_until_steps es s p o s' w : starts es -> st_world s = reboot w -> run (Run_until_serving umasked cfg p) es s = (o, s') ->
  sys (mkRunning w false) (mkRunning (st_world s') (match o with Some (inr _) => true | _ => false end)).
Proof.
  intros He Hw. unfold Run_until_serving, bindE.
  intros [[E ->]|(r & s1 & k & E & E1)]%run_bind_drop; (apply same_run in E; [|by auto with within]); rewrite Hw in E.
  { apply begun_steps. by right. }
  destruct r as [[]|[]]; [injection E1 as <- <-; apply begun_steps; by right|].
  revert E1. intros [[E2 ->]|(r & s2 & k2 & E2 & E3)]%run_bind_drop; apply (reconcile_steps _ _ _ _ w) in E2; [by apply rtc_once|by auto|done| |by auto|done].
  destruct r as [[]|rep]; [injection E3 as <- <-; by apply rtc_once|].
  revert E3. intros [[E4 ->]|(r & s3 & k3 & E4 & [= <- <-])]%run_bind_drop; (apply same_run in E4; [|by auto with within]); rewrite E4.
  - eapply rtc_l; [exact E2|]. apply rtc_once, step_kill.
  - by apply rtc_once.
Qed.

Lemma start_steps es s p o s' : starts es -> run (start_server umasked cfg p) es s = (o, s') ->
  sys (mkRunning (st_world s) false) (mkRunning (st_world s') (match o with Some (inr _) => true | _ => false end)).
Proof.
  intros He. unfold start_server, bindE. intros E0. pose proof (NewServer_world (st_world s) s eq_refl) as Hnew.
  apply (wp_sound _ _ _ es s (or_introl eq_refl)) in Hnew as [Hb Hq].
  revert E0. intros [[E ->]|(r & s1 & k & E & E1)]%run_bind_drop; rewrite E in Hb, Hq; cbn [fst snd] in Hb, Hq.
  { by apply begun_steps. }
  specialize (Hq r eq_refl). destruct r as [[]|v]; [injection E1 as <- <-; by apply begun_steps|]. destruct Hq as [Hw _].
  revert E1. intros [[E2 ->]|(r & s2 & k2 & E2 & E3)]%run_bind_drop; apply (Run_until_steps _ _ _ _ _ (st_world s)) in E2; [done|by auto|done| |by auto|done].
  by destruct r as [[]|rep]; injection E3 as <- <-.
Qed.

(** ** Requests *)

Lemma admissible_moved r w w' : moved w w' -> admissible r w -> admissible r w'.
Proof. intros [n ->]. by destruct r. Qed.
Lemma moved_step w w' b : moved w w' -> step cfg starts (mkRunning w b) (mkRunning w' b).
Proof.
  intros [n ->]. pose proof (step_env cfg starts (clock w + Z.of_nat n)%Z (disk w) w b ltac:(lia)) as H. by destruct w.
Qed.
Lemma handled_steps r es w o w' : admissible r w -> run (handle cfg r) es w = (o, w') ->
  sys (mkRunning w true) (mkRunning w' (finished o)).
Proof. intros Ha E. apply rtc_once. pose proof (step_serve cfg starts r es w Ha) as H. by rewrite E in H. Qed.
Lemma stopped_steps w w' : moved w w' -> sys (mkRunning w true) (mkRunning w' false).
Proof. intros Hm. eapply rtc_l; [by apply moved_step|]. apply rtc_once, step_kill. Qed.

Lemma local_steps m es w o w' ready : admissible_message (local_mux ready m) m w -> run (serve_local cfg ready m) es w = (o, w') ->
  sys (mkRunning w true) (mkRunning w' (finished o)).
Proof.
  unfold admissible_message, serve_local, serve. destruct (dispatch m _) as [r|]; [|by intros _ [= <- <-]].
  intros Ha. rewrite run_map. destruct (run (handle cfg r) es w) as [a w1] eqn:E. intros [= <- <-].
  apply (handled_steps r es) in E; [|done]. by destruct a.
Qed.
Lemma sweep_steps es w o w' : run (Sweep cfg) es w = (o, w') -> sys (mkRunning w true) (mkRunning w' (finished o)).
Proof.
  intros E. assert (Ec : run (handle cfg (LocalCleanup (mkHttp "" "" 0 []))) es w =
    ((fun r => match r with inl _ => WriteError (mkHttp "" "" 0 []) [] Internal | inr c => mkResponse 200 [app_json] (BCleanup c) end) <$> o, w')).
  { cbn [handle]. unfold handleCleanup. by rewrite run_map, E. }
  apply handled_steps in Ec; [|done]. by destruct o.
Qed.

Lemma Auth_steps v remote q r es g o g' : remembers v (g_accepted g) -> admissible r (g_world g) ->
  run (Auth v perMinute remote q (handle cfg r)) es g = (o, g') ->
  remembers v (g_accepted g') /\ sys (mkRunning (g_world g) true) (mkRunning (g_world g') (finished o)).
Proof.
  intros Ha Hr E. apply Auth_run in E as [H1 H]; [|done]. split; [done|].
  inversion H as [? Hm|? ? Hm Hs|? Hm Hs|a w1 es1 ? Hc Hm Hn]; subst; cbn [finished].
  - by apply stopped_steps.
  - by apply rtc_once, moved_step.
  - by apply rtc_once, moved_step.
  - eapply rtc_l; [by apply moved_step|]. apply handled_steps in Hn; [|by eapply admissible_moved]. by destruct a.
Qed.
Lemma public_steps v remote m es g o g' ready : remembers v (g_accepted g) -> admissible_message (public_routes ready m) m (g_world g) ->
  run (serve_public v perMinute cfg ready remote m) es g = (o, g') ->
  remembers v (g_accepted g') /\ sys (mkRunning (g_world g) true) (mkRunning (g_world g') (finished o)).
Proof.
  unfold admissible_message, serve_public, Recover. intros Ha. destruct (dispatch m _) as [r|]; [|by intros _ [= <- <-]].
  intros Hr. cbv zeta. rewrite run_map, run_map. destruct (open_request r).
  - rewrite run_map, run_behind. destruct (run (handle cfg r) es (g_world g)) as [a w1] eqn:E. intros [= <- <-].
    split; [done|]. apply handled_steps in E; [|done]. by destruct a.
  - destruct (run (Auth _ _ _ _ _) _ _) as [a g1] eqn:E. intros [= <- <-]. apply Auth_steps in E as [H1 H2]; [|done..].
    split; [done|]. by destruct a.
Qed.

(** ** What a started process holds *)

(** Only the world and the socket path may change. *)
Definition kept_open (s s' : site) : Prop :=
  st_file s' = st_file s /\ st_ready s' = st_ready s /\ st_listening s' = st_listening s /\ st_accepting s' = st_accepting s.
#[local] Instance kept_open_order : PreOrder kept_open.
Proof. split; [by intros s|]. intros a b c (E1 & E2 & E3 & E4) (B1 & B2 & B3 & B4). unfold kept_open. by rewrite B1, B2, B3, B4. Qed.
Lemma kept_act {R : Type} (step : site -> R * site) alts : (forall s, kept_open s (snd (step s))) ->
  (forall f n s, alts = Some f -> kept_open s (snd (f n s))) -> within kept_open (act step alts).
Proof. intros H1 H2. by apply within_act. Qed.
Ltac kept_call := apply kept_act; [intros s; cbn; repeat case_match; done|intros f k s [= <-]; done].
Lemma kept_syscall : within kept_open syscall. Proof. kept_call. Qed.
Lemma kept_ChmodSocket : within kept_open ChmodSocket. Proof. kept_call. Qed.
Lemma kept_remove : within kept_open remove_socket. Proof. kept_call. Qed.
Lemma kept_stat : within kept_open stat_socket. Proof. kept_call. Qed.
Lemma kept_dial : within kept_open dial_socket. Proof. kept_call. Qed.
Lemma kept_New : within kept_open transfer_New. Proof. kept_call. Qed.
#[local] Hint Resolve kept_syscall kept_ChmodSocket kept_remove kept_stat kept_dial kept_New : within.
Lemma kept_stale : within kept_open removeStaleSocket.
Proof. unfold removeStaleSocket. within_solve. Qed.
Lemma kept_files_New : within kept_open files_New.
Proof. unfold files_New. within_solve. Qed.
Lemma kept_reconcile : within kept_open (reconcile cfg).
Proof. unfold reconcile. apply within_bind; [apply _|by apply within_lift; [apply _|]|intros r; apply within_ret; apply _]. Qed.
#[local] Hint Resolve kept_stale kept_files_New kept_reconcile : within.

(** What a process holds while it serves. *)
Definition holds (p : pid) (s : site) : Prop := st_listening s = Some p /\ (socket_path <> ""%string -> p ∈ st_accepting s).
Definition idle_site (f : dbfile) (r : gset pid) (s : site) : Prop := st_file s = f /\ st_ready s = r.
Lemma kept_idle f r s s' : idle_site f r s -> kept_open s s' -> idle_site f r s'.
Proof. intros [<- <-] (H1 & H2 & _). by split. Qed.
Lemma kept_holds p s s' : holds p s -> kept_open s s' -> holds p s'.
Proof. intros [H1 H2] (_ & _ & H3 & H4). unfold holds. by rewrite H3, H4. Qed.

(** A cleanup between an error and its return. *)
Lemma or_close_wp {A : Type} f r (c : prog site unit) (q : prog site (unit + A)) (k : A -> prog site (unit + unit)) Q s :
  (forall s, idle_site f r s -> wp (idle_site f r) c (fun _ s' => idle_site f r s') s) ->
  (forall s, idle_site f r s -> Q (inl tt) s) ->
  wp (idle_site f r) q (fun o s' => idle_site f r s' /\ forall a, o = inr a -> wp (idle_site f r) (k a) Q s') s ->
  wp (idle_site f r) (or_close c q k) Q s.
Proof.
  intros Hc Hq H. apply wp_bind. eapply wp_wand; [exact H|]. intros [e|a] s' [Hs Hk]; [|by apply Hk].
  apply wp_bind. eapply wp_wand; [by apply Hc|]. intros [] s2 Hs2. by apply Hq.
Qed.
Lemma close_tcp_idle p f r s : idle_site f r s -> wp (idle_site f r) (close_tcp p) (fun _ s' => idle_site f r s') s.
Proof. intros Hs. cbn. by case_bool_decide. Qed.
Lemma close_unix_idle p f r s : idle_site f r s -> wp (idle_site f r) (close_unix p) (fun _ s' => idle_site f r s') s.
Proof. intros Hs. cbn. by case_bool_decide. Qed.

Lemma Listen_wp p f r s : idle_site f r s ->
  wp (idle_site f r) (Listen umasked cfg p) (fun o s' => idle_site f r s' /\ (o = inr tt -> holds p s')) s.
Proof.
  intros Hs. assert (Hno : forall s, idle_site f r s -> idle_site f r s /\ (inl (B := unit) tt = inr tt -> holds p s)) by (by intros s1 H1).
  unfold Listen. apply wp_bindE, wp_act. intros o s1 [E|(g & n & [= <-] & E)]; [|injection E as <- <-; split; [done|by apply Hno]].
  destruct (st_listening s); injection E as <- <-; [split; [done|by apply Hno]|].
  assert (H1 : idle_site f r (set_listening (Some p) s)) by done. split; [done|].
  destruct (String.eqb_spec socket_path "") as [Hp|Hp]; [by cbn; unfold holds; rewrite Hp|].
  assert (Hl : st_listening (set_listening (Some p) s) = Some p) by done. revert H1 Hl. generalize (set_listening (Some p) s). intros s1 H1 Hl.
  apply or_close_wp; [by apply close_tcp_idle|done|]. apply (wp_within kept_open); [auto with within|intros s' ?; by eapply kept_idle|].
  intros o s2 K2. pose proof (kept_idle _ _ _ _ H1 K2) as H2. split; [done|]. intros _ _.
  apply or_close_wp; [by apply close_tcp_idle|done|]. apply (wp_within kept_open); [auto with within|intros s' ?; by eapply kept_idle|].
  intros o3 s3 K3. pose proof (kept_idle _ _ _ _ H2 K3) as H3. split; [done|]. intros _ _.
  assert (Hl3 : st_listening s3 = Some p) by (destruct K2 as (_ & _ & E2 & _), K3 as (_ & _ & E3 & _); by rewrite E3, E2).
  apply or_close_wp; [by apply close_tcp_idle|done|]. apply wp_act.
  intros o4 s4 [E|(g & n & [= <-] & E)]; [|by injection E as <- <-].
  destruct (st_socket s3); injection E as <- <-; [|done|done].
  assert (H4 : holds p (set_socket (SocketNode p umasked) (set_accepting ({[p]} ∪ st_accepting s3) s3))) by (split; [done|cbn; set_solver]).
  assert (H4i : idle_site f r (set_socket (SocketNode p umasked) (set_accepting ({[p]} ∪ st_accepting s3) s3))) by done.
  revert H4 H4i. generalize (set_socket (SocketNode p umasked) (set_accepting ({[p]} ∪ st_accepting s3) s3)). intros s4 H4 H4i.
  split; [done|]. split; [done|]. intros _ _. apply or_close_wp.
  - intros s5 H5. apply wp_bind. eapply wp_wand; [by apply close_tcp_idle|]. intros [] s6 H6. by apply close_unix_idle.
  - done.
  - apply (wp_within kept_open); [auto with within|intros s' ?; by eapply kept_idle|]. intros o5 s5 K5.
    split; [by eapply kept_idle|]. intros _ _. split; [by eapply kept_idle|]. intros _. by eapply kept_holds.
Qed.

Definition starting (p : pid) (s : site) : Prop := at_release migrations (st_file s) /\ st_ready s ⊆ {[p]}.
Lemma idle_starting p f s : at_release migrations f -> idle_site f ∅ s -> starting p s.
Proof. intros Hf [<- Hr]. split; [done|]. rewrite Hr. set_solver. Qed.
Lemma complete_release f : complete migrations f -> at_release migrations f.
Proof. intros H. by apply (at_release_stands migrations (length migrations)). Qed.

Lemma NewServer_wp p s : at_release migrations (st_file s) -> st_ready s = ∅ ->
  wp (starting p) (NewServer cfg) (fun o s' => match o with inl _ => starting p s' | inr v =>
    complete migrations (st_file s') /\ st_ready s' = ∅ /\ NewVerifier (PasswordHash (Config.Auth cfg)) = Some v end) s.
Proof.
  intros Hf Hr. unfold NewServer. apply wp_bindE.
  assert (Ho : forall f s, st_ready s = ∅ -> at_release migrations f -> starting p (set_file f s) /\ st_ready (set_file f s) = ∅).
  { intros f s1 H1 H2. split; [|done]. split; [done|]. cbn. rewrite H1. set_solver. }
  eapply wp_wand; [eapply (wp_lift st_file set_file (starting p) (at_release migrations) (fun s => st_ready s = ∅)); [|done|exact Hr|exact (proj1 (store_Open_wp migrations released_ok _ Hf))]|].
  { intros f s1 H1 H2. by apply Ho. }
  cbv beta. intros [e|[]] s1 [H1 H2]; [by apply (idle_starting p _ _ H2)|].
  pose proof (complete_release _ H2) as H2'.
  assert (Hk : forall s', kept_open s1 s' -> starting p s') by (intros s' K; apply (idle_starting p (st_file s1)); [done|by eapply kept_idle]).
  apply wp_bindE, (wp_within kept_open); [auto with within|done|]. intros [e|[]] s2 K2; [by apply Hk|].
  apply wp_bind, (wp_within kept_open); [auto with within|intros s' K; apply Hk; by etrans|]. intros [] s3 K3. cbn.
  destruct (NewVerifier _) as [v|]; [|apply Hk; by etrans].
  assert (idle_site (st_file s1) ∅ s3) as [Ef Er] by (eapply kept_idle; [by eapply kept_idle|done]). by rewrite Ef, Er.
Qed.

Lemma start_wp p s : at_release migrations (st_file s) -> st_ready s = ∅ ->
  wp (starting p) (start_server umasked cfg p) (fun o s' => starting p s' /\ forall v, o = inr v ->
    complete migrations (st_file s') /\ holds p s' /\ st_ready s' = {[p]} /\ NewVerifier (PasswordHash (Config.Auth cfg)) = Some v) s.
Proof.
  intros Hf Hr. unfold start_server. apply wp_bindE. eapply wp_wand; [by apply NewServer_wp|]. cbv beta.
  intros [e|v] s1; [by intros H1|]. intros (Hc & Hr1 & Hv). pose proof (complete_release _ Hc) as Hc'.
  assert (H1 : idle_site (st_file s1) ∅ s1) by done. assert (Hid : forall s', idle_site (st_file s1) ∅ s' -> starting p s') by (intros s'; by apply idle_starting).
  unfold Run_until_serving. apply wp_bindE, wp_bindE.
  eapply wp_wand; [exact (wp_mono _ _ _ _ _ _ Hid (fun _ _ H => H) (Listen_wp p _ _ _ H1))|]. cbv beta. intros [e|[]] s2 [H2 Hh]; [by split; [apply Hid|]|]. specialize (Hh eq_refl).
  apply wp_bindE, (wp_within kept_open); [auto with within|intros s' K; apply Hid; by eapply kept_idle|].
  intros [e|rep] s3 K3; pose proof (kept_idle _ _ _ _ H2 K3) as H3; [by split; [apply Hid|]|].
  cbn. rewrite (proj2 H3). assert (Hs : starting p (set_ready ({[p]} ∪ ∅) s3)) by (split; [cbn; by rewrite (proj1 H3)|cbn; set_solver]).
  split; [|done]. split; [done|]. split; [done|]. intros v' [= <-]. rewrite (proj1 H3). split; [done|].
  split; [exact (kept_holds _ _ _ Hh K3)|]. split; [set_solver|done].
Qed.

(** ** The refinement *)

Definition sound_daemon (d : daemon) : Prop :=
  let s := d_site d in at_release migrations (st_file s) /\
  match d_phase d with
  | Down => st_ready s = ∅
  | Up v a _ => NewVerifier (PasswordHash (Config.Auth cfg)) = Some v /\ remembers v a /\ st_ready s = {[d_pid d]} /\
                holds (d_pid d) s /\ complete migrations (st_file s)
  end.
Definition abstract (d : daemon) : server := mkRunning (st_world (d_site d)) (is_up d).

Lemma exit_world p s : st_world (exit_process p s) = st_world s.
Proof. unfold exit_process. by case_bool_decide. Qed.
Lemma exit_file p s : st_file (exit_process p s) = st_file s.
Proof. unfold exit_process. by case_bool_decide. Qed.
Lemma exit_ready p s : st_ready (exit_process p s) = st_ready s ∖ {[p]}.
Proof. done. Qed.
Lemma exit_sound p s : at_release migrations (st_file s) -> st_ready s ⊆ {[p]} -> sound_daemon (mkDaemon (exit_process p s) p Down).
Proof. intros Hf Hr. split; cbn [d_site d_phase]; [by rewrite exit_file|]. rewrite exit_ready. set_solver. Qed.

(** A served request leaves the process as it was, or ends it. *)
Lemma served_sound p answered s w v a a' bs bs' : sound_daemon (mkDaemon s p (Up v a bs)) -> remembers v a' ->
  sys (mkRunning (st_world s) true) (mkRunning w answered) ->
  sound_daemon (served p answered (set_st_world w s) (Up v a' bs')) /\
  sys (abstract (mkDaemon s p (Up v a bs))) (abstract (served p answered (set_st_world w s) (Up v a' bs'))).
Proof.
  intros (Hf & Hv & _ & Hr & Hh & Hc) Ha Hsys. cbn in Hf, Hr, Hh, Hc. destruct answered; cbn [served].
  - by split.
  - split; [apply exit_sound; [done|cbn; by rewrite Hr]|]. unfold abstract. cbn [d_site]. by rewrite exit_world.
Qed.

(** Shutdown keeps the database file, and takes readiness back. *)
Definition calmer (s s' : site) : Prop := st_file s' = st_file s /\ st_ready s' ⊆ st_ready s.
#[local] Instance calmer_order : PreOrder calmer.
Proof. split; [by intros s|]. intros x y z [H1 H2] [H3 H4]. split; [by rewrite H3|set_solver]. Qed.
Ltac calm_call := apply within_act; [intros s; cbn; repeat case_match; split; cbn; (done || set_solver)|intros f k s [= <-]; by split].
Lemma calm_syscall : within calmer syscall. Proof. calm_call. Qed.
Lemma calm_remove : within calmer remove_socket. Proof. calm_call. Qed.
Lemma calm_close_tcp p : within calmer (close_tcp p). Proof. calm_call. Qed.
Lemma calm_close_unix p : within calmer (close_unix p). Proof. calm_call. Qed.
Lemma calm_SetReady p : within calmer (SetReady p false). Proof. calm_call. Qed.
#[local] Hint Resolve calm_syscall calm_remove calm_close_tcp calm_close_unix calm_SetReady : within.
Lemma calm_Stopped p why : within calmer (Run_stopped cfg p why).
Proof. unfold Run_stopped, Shutdown, public_Shutdown, local_Shutdown, wait_requests. within_solve. Qed.

Lemma life_sound d d' : life starts d d' -> sound_daemon d -> sound_daemon d' /\ sys (abstract d) (abstract d').
Proof.
  intros Hl Hd. destruct Hl as [es s n He|remote m es s n v a bs o g Ha E|m es s n v a bs o w Ha E|es s n v a bs o w E|s s' n ph Ho|s n v a bs|why es s n v a bs].
  - destruct Hd as [Hf Hr]. cbn in Hf, Hr. destruct (run (start_server umasked cfg (S n)) es s) as [o s'] eqn:E. cbn [fst snd].
    assert (Hs : starting (S n) s) by (split; [exact Hf|rewrite Hr; apply empty_subseteq]).
    destruct (wp_sound _ _ _ es s Hs (start_wp (S n) s Hf Hr)) as [[Hf' Hr'] Hq].
    rewrite E in Hf', Hr', Hq. cbn [fst snd] in Hf', Hr', Hq. apply start_steps in E; [|done]. unfold started.
    destruct o as [[[]|v]|]; [|specialize (Hq _ eq_refl) as [_ Hq]; destruct (Hq v eq_refl) as (H1 & H2 & H3 & H4); done|];
      (split; [by apply exit_sound|]; unfold abstract; cbn [d_site]; by rewrite exit_world).
  - pose proof Hd as (_ & _ & Hm & _). apply (public_steps v remote m es (mkGate (st_world s) a bs)) in E as [H1 H2]; [|done..]. by apply served_sound.
  - pose proof Hd as (_ & _ & Hm & _). apply local_steps in E; [|done]. by apply served_sound.
  - pose proof Hd as (_ & _ & Hm & _). apply sweep_steps in E. by apply served_sound.
  - destruct Ho as ((t & u & Ht & Ew) & Ef & Er & Hacc & Hlis). split.
    + destruct Hd as [Hf Hp]. split; cbn in *; [by rewrite Ef|]. destruct ph as [|v a bs]; [by rewrite Er|].
      destruct Hp as (H1 & H2 & H3 & [H4 H5] & H6). rewrite Er, Ef. split_and!; [done..| |done]. split; auto.
    + unfold abstract. cbn [d_site d_phase is_up]. rewrite Ew. apply rtc_once, step_env. done.
  - pose proof Hd as (Hf & _ & _ & Hr & _). cbn in Hf, Hr. split; [apply exit_sound; [done|by rewrite Hr]|].
    unfold abstract. cbn [d_site]. rewrite exit_world. apply rtc_once, step_kill.
  - pose proof Hd as (Hf & _ & _ & Hr & _). cbn in Hf, Hr. destruct (run (Run_stopped cfg n why) es s) as [o s'] eqn:E. cbn [snd].
    pose proof (same_run _ _ _ _ _ (same_Stopped n why) E) as Ew.
    assert (Hw : wp (calmer s) (Run_stopped cfg n why) (fun _ _ => True) s) by (eapply (wp_within calmer); [apply calm_Stopped|done|done]).
    apply (wp_sound _ _ _ es s) in Hw as [[Hf' Hr'] _]; [|done]. rewrite E in Hf', Hr'. cbn [snd] in Hf', Hr'. rewrite Hr in Hr'. split.
    + apply exit_sound; [by rewrite Hf'|done].
    + unfold abstract. cbn [d_site]. rewrite exit_world, Ew. apply rtc_once, step_kill.
Qed.

Lemma lived_sound d : lived starts d -> sound_daemon d /\ reachable cfg starts (abstract d).
Proof.
  intros (limit & now & u & r & node & o & Hs).
  assert (H0 : sound_daemon (mkDaemon (fresh_site limit now u r node o) O Down) /\
    reachable cfg starts (abstract (mkDaemon (fresh_site limit now u r node o) O Down))).
  { split; [split; [by left|done]|]. exists limit, now, u, r. done. }
  revert Hs H0. generalize (mkDaemon (fresh_site limit now u r node o) O Down). intros d0 Hs. induction Hs as [|d1 d2 d3 Hl _ IH]; [done|].
  intros [H1 (l & t & uu & rr & H2)]. destruct (life_sound _ _ Hl H1) as [H3 H4]. apply IH. split; [done|].
  exists l, t, uu, rr. by etrans.
Qed.

(** C5: the daemon is the server the guarantees are about.  Take a machine where nothing ran
    yet, and let daemons be started there one after the other, any step of a start failing
    or stopped (with schedules of a kind that is closed under suffixes: all of them, or
    those without errors); let them serve requests on both listeners, the public ones
    behind the password, run cleanup passes, fail, be killed or shut down with a grace
    period that may run out, and let other programs take the address and change the socket
    path meanwhile.  Then the database and the directories are always in a state the server
    of [System] reaches, up when the daemon is, so that every theorem about reachable states
    holds; a process reports ready exactly while it serves, after a reconciliation that
    ended without an error; and it serves only when it holds its listeners, every migration
    was applied, its password hash was read, and it remembers no password argon2 did not
    accept. *)
Theorem daemon_refines_server d : lived starts d ->
  reachable cfg starts (mkRunning (st_world (d_site d)) (is_up d)) /\ is_ready (d_pid d) (d_site d) = is_up d /\
  forall v a bs, d_phase d = Up v a bs ->
    st_listening (d_site d) = Some (d_pid d) /\ (socket_path <> ""%string -> d_pid d ∈ st_accepting (d_site d)) /\
    complete migrations (st_file (d_site d)) /\ NewVerifier (PasswordHash (Config.Auth cfg)) = Some v /\ remembers v a.
Proof.
  intros Hd. destruct (lived_sound d Hd) as [[Hf H1] H2]. split; [exact H2|]. unfold is_ready, is_up. split.
  - destruct (d_phase d) as [|v a bs]; [rewrite H1|destruct H1 as (_ & _ & -> & _)]; [by apply bool_decide_eq_false_2; set_solver|by apply bool_decide_eq_true_2; set_solver].
  - intros v a bs E. rewrite E in H1. destruct H1 as (Hv & Ha & _ & [Hl Hacc] & Hc). done.
Qed.

(** ** A daemon can always be started again *)

Lemma reconcile_done w : snd <$> fst (run (reconcile_Run cfg) [] w) = Some true.
Proof.
  rewrite run_nil. cbn [fst fmap option_fmap option_map]. f_equal. unfold reconcile_Run.
  rewrite exec_bind. change (exec (ask AllTransferIDs) w) with (AllTransferIDs (db w), w). cbv iota beta. unfold AllTransferIDs at 1.
  rewrite exec_bind. destruct (exec (range_map _) w) as [order w1]. rewrite exec_bind.
  destruct (exec (each (reconcile_one cfg) _ order) w1) as [rep w2]. rewrite exec_bind.
  assert (Hl : exists l, exec ListLiveIDs w2 = (inr l, w2)) by by eexists. destruct Hl as [l ->]. rewrite exec_bind.
  destruct (exec (each _ rep l) w2) as [rep3 w3]. rewrite exec_bind.
  assert (Hs : exists l, exec ListStagingIDs w3 = (inr l, w3)) by by eexists. destruct Hs as [l3 ->]. rewrite exec_bind.
  destruct (exec (each _ rep3 l3) w3) as [rep4 w4]. rewrite exec_bind. by destruct (exec EmptyTrash w4).
Qed.

(** Nothing in the way of a new daemon: the address is free, and at the socket path is at
    most what a daemon left that is gone. *)
Definition unobstructed (s : site) : Prop :=
  st_listening s = None /\
  match st_socket s with NoNode => True | OtherNode => False | SocketNode o _ => o ∉ st_accepting s end.

Lemma exec_lift_file {A : Type} (p : prog dbfile A) s : exec (lift st_file set_file p) s = (fst (exec p (st_file s)), set_file (snd (exec p (st_file s))) s).
Proof. rewrite exec_lift; [by destruct (exec p (st_file s))|done..|by intros []]. Qed.

Lemma NewServer_done v s : at_release migrations (st_file s) -> NewVerifier (PasswordHash (Config.Auth cfg)) = Some v ->
  exists s', exec (NewServer cfg) s = (inr v, s') /\ st_listening s' = st_listening s /\ st_socket s' = st_socket s /\ st_accepting s' = st_accepting s.
Proof.
  intros Hf Hv. unfold NewServer. rewrite exec_bindE, exec_lift_file, (proj2 (store_Open_wp migrations released_ok _ Hf)).
  generalize (snd (exec (store_Open migrations) (st_file s))). intros f. rewrite exec_bindE.
  change (exec files_New (set_file f s)) with (inr (A := unit) tt, set_file f s). cbv iota beta. rewrite exec_bind, Hv.
  change (exec transfer_New (set_file f s)) with (tt, set_st_world (reboot (st_world s)) (set_file f s)). cbv iota beta.
  cbn [exec]. eexists. by split.
Qed.
Lemma Listen_done p s : socket_path <> ""%string -> unobstructed s ->
  exists s', exec (Listen umasked cfg p) s = (inr tt, s') /\ st_socket s' = SocketNode p SocketMode.
Proof.
  intros Hp [Hl Hn]. unfold Listen. rewrite exec_bindE. cbn [exec act listen_tcp]. rewrite Hl. cbv iota beta.
  rewrite (proj2 (String.eqb_neq _ _) Hp). unfold or_close. rewrite exec_bind. cbn [exec act syscall].
  rewrite exec_bind. unfold removeStaleSocket. rewrite exec_bind. cbn [exec act stat_socket st_socket set_listening].
  destruct (st_socket s) as [| |o mode] eqn:En; [|done|].
  - cbn. rewrite En. cbn. by eexists.
  - rewrite exec_bind. cbn [exec act dial_socket st_socket st_accepting set_listening]. rewrite En, bool_decide_eq_false_2 by done.
    cbn. rewrite En. cbn. by eexists.
Qed.
Lemma Run_until_done p s : socket_path <> ""%string -> unobstructed s ->
  exists rep s', exec (Run_until_serving umasked cfg p) s = (inr rep, s') /\ st_socket s' = SocketNode p SocketMode.
Proof.
  intros Hp Hu. destruct (Listen_done p s Hp Hu) as (s1 & E1 & Hs1). unfold Run_until_serving. rewrite exec_bindE, E1, exec_bindE.
  unfold reconcile. rewrite exec_bind, exec_lift; [|done..|by intros []].
  pose proof (reconcile_done (st_world s1)) as Hr. rewrite run_nil in Hr. destruct (exec (reconcile_Run cfg) (st_world s1)) as [[rep b] w2].
  cbn in Hr. injection Hr as ->. cbn. by eexists _, _.
Qed.

(** C6: whatever happened, the daemon comes back.  After any history of daemons, with any
    faults, kills and half-done starts, when none is running, the configured hash can be read,
    the TCP address is free and the socket path holds nothing, or a socket nobody answers
    on, a start that meets no error serves: the database is migrated, the stale socket
    replaced by one with mode 0660, reconciliation ends, and readiness is declared. *)
Theorem daemon_comes_back d v : lived starts d -> d_phase d = Down -> unobstructed (d_site d) -> socket_path <> ""%string ->
  NewVerifier (PasswordHash (Config.Auth cfg)) = Some v ->
  let '(r, s') := run (start_server umasked cfg (S (d_pid d))) [] (d_site d) in
  r = Some (inr v) /\ st_socket s' = SocketNode (S (d_pid d)) SocketMode /\
  (starts [] -> lived starts (mkDaemon s' (S (d_pid d)) (Up v None ∅))).
Proof.
  intros Hd Ed Hu Hp Hv. destruct (lived_sound d Hd) as [[Hf _] _]. destruct d as [s n ph]. cbn [d_site d_pid d_phase] in *. subst ph.
  destruct (NewServer_done v s Hf Hv) as (s1 & E1 & H1 & H2 & H3).
  assert (Hu1 : unobstructed s1) by (unfold unobstructed; by rewrite H1, H2, H3).
  destruct (Run_until_done (S n) s1 Hp Hu1) as (rep & s2 & E2 & Hs2).
  assert (E : run (start_server umasked cfg (S n)) [] s = (Some (inr v), s2)).
  { rewrite run_nil. unfold start_server. by rewrite exec_bindE, E1, exec_bindE, E2. }
  rewrite E. split; [done|]. split; [exact Hs2|]. intros Hn. destruct Hd as (l & t & u & r & node & o & Hd).
  exists l, t, u, r, node, o. eapply rtc_r; [exact Hd|]. exact (life_start_run starts [] s n _ _ Hn E).
Qed.
End life.
