(* ===== verification/DaemonHazards.v ===== *)
(** * Daemons on the demonstration machine

    A daemon is started, serves and is replaced; and what a shutdown does to a successor
    that did not wait for its end. *)
From S2P Require Import Prelude GoStrings Errors Paths Manifest Wire Admission Prog Tree Integrity Store Config World Service.
From S2P Require Import Janitor Api Net Safety ApiProofs System Demo Schema Auth AuthProofs Daemon DaemonProofs.

(** The demonstration configuration with a password hash. *)
Definition demo_hash : string := Eval vm_compute in default ""%string (HashPassword (Some (repeat 7%Z 16)) "hunter2").
Definition daemon_cfg : Server :=
  mkServer (sv_Server cfg) (mkAuthSection (Config.Username (Config.Auth cfg)) demo_hash (FailedAttemptsPerMinute (Config.Auth cfg))) (Storage cfg) (Limits cfg).
Definition daemon_params : params := Eval vm_compute in default demo_params (NewVerifier demo_hash).
Lemma daemon_verifier : NewVerifier (PasswordHash (Config.Auth daemon_cfg)) = Some daemon_params.
Proof. vm_compute. reflexivity. Qed.

(** A new machine with a stale socket file at the path. *)
Definition machine : site := fresh_site 2 noon idle_disk (fun n => (Z.of_nat n * 7 + 3)%Z) (SocketNode 7 448) None.
Definition not_started : daemon := mkDaemon machine O Down.
Lemma not_started_lived starts : lived 448 daemon_cfg starts not_started.
Proof. exists 2%nat, noon, idle_disk, (fun n => (Z.of_nat n * 7 + 3)%Z), (SocketNode 7 448), None. apply rtc_refl. Qed.

(** The daemon as it serves after its first start. *)
Definition first_start : option (unit + params) * site := run (start_server 448 daemon_cfg 1) [] machine.
Definition serving : site := snd first_start.
Definition up (s : site) : daemon := mkDaemon s 1 (Up daemon_params None ∅).
Lemma first_start_run : run (start_server 448 daemon_cfg 1) [] machine = (Some (inr daemon_params), serving).
Proof.
  assert (H : fst first_start = Some (inr daemon_params)) by (vm_compute; reflexivity). rewrite <- H. unfold serving, first_start.
  generalize (run (start_server 448 daemon_cfg 1) [] machine). intros r. apply surjective_pairing.
Qed.
Lemma serving_lived starts : starts [] -> lived 448 daemon_cfg starts (up serving).
Proof.
  intros Hs. exists 2%nat, noon, idle_disk, (fun n => (Z.of_nat n * 7 + 3)%Z), (SocketNode 7 448), None. apply rtc_once.
  exact (life_start_run 448 daemon_cfg starts [] machine O _ _ Hs first_start_run).
Qed.
Lemma faultless_drop k es : faultless es -> faultless (drop k es).
Proof. apply Forall_drop. Qed.
Lemma faultless_crash : faultless [Crash].
Proof. by repeat constructor. Qed.

Lemma daemon_refines_server_witness :
  reachable daemon_cfg faultless (mkRunning (st_world serving) true) /\ is_ready 1 serving = true /\
  complete migrations (st_file serving) /\ remembers daemon_params None.
Proof.
  assert (H : forall s, lived 448 daemon_cfg faultless (up s) -> reachable daemon_cfg faultless (mkRunning (st_world s) true) /\
    is_ready 1 s = true /\ complete migrations (st_file s) /\ remembers daemon_params None).
  { intros s Hs. destruct (daemon_refines_server 448 daemon_cfg faultless faultless_drop faultless_crash (up s) Hs) as (H1 & H2 & H3).
    destruct (H3 daemon_params None ∅ eq_refl) as (_ & _ & H4 & _ & H5). exact (conj H1 (conj H2 (conj H4 H5))). }
  exact (H serving (serving_lived faultless (Forall_nil_2 _))).
Defined.

(** It is killed, and started again over the socket it left. *)
Definition killed (s : site) : daemon := mkDaemon (exit_process 1 s) 1 Down.
Lemma killed_lived starts : starts [] -> lived 448 daemon_cfg starts (killed serving).
Proof.
  intros (l & t & u & r & node & o & H)%serving_lived. exists l, t, u, r, node, o. eapply rtc_r; [exact H|apply life_kill].
Qed.
Lemma killed_unobstructed : unobstructed (d_site (killed serving)).
Proof.
  assert (H : bool_decide (st_listening (d_site (killed serving)) = None) = true /\ st_socket (d_site (killed serving)) = SocketNode 1 SocketMode /\
    bool_decide (1%nat ∈ st_accepting (d_site (killed serving))) = false) by (vm_compute; repeat split).
  destruct H as (H1 & H2 & H3). unfold unobstructed. rewrite H2. split; [exact (bool_decide_eq_true_1 _ H1)|exact (bool_decide_eq_false_1 _ H3)].
Qed.
Lemma daemon_comes_back_witness : exists s', run (start_server 448 daemon_cfg 2) [] (exit_process 1 serving) = (Some (inr daemon_params), s') /\
  st_socket s' = SocketNode 2 SocketMode /\ lived 448 daemon_cfg faultless (mkDaemon s' 2 (Up daemon_params None ∅)).
Proof.
  assert (H : forall s, lived 448 daemon_cfg faultless (killed s) -> unobstructed (d_site (killed s)) ->
    exists s', run (start_server 448 daemon_cfg 2) [] (exit_process 1 s) = (Some (inr daemon_params), s') /\
    st_socket s' = SocketNode 2 SocketMode /\ lived 448 daemon_cfg faultless (mkDaemon s' 2 (Up daemon_params None ∅))).
  { intros s Hs Hu. pose proof (daemon_comes_back 448 daemon_cfg faultless faultless_drop faultless_crash (killed s) daemon_params
      Hs eq_refl Hu ltac:(discriminate) daemon_verifier) as H.
    change (d_site (killed s)) with (exit_process 1 s) in H. change (S (d_pid (killed s))) with 2%nat in H.
    destruct (run (start_server 448 daemon_cfg 2) [] (exit_process 1 s)) as [r s']. destruct H as (-> & H1 & H2).
    exists s'. split; [reflexivity|]. split; [exact H1|]. apply H2. apply Forall_nil_2. }
  exact (H serving (killed_lived faultless (Forall_nil_2 _)) killed_unobstructed).
Defined.

(** Process 1 is told to stop; its local listener is closed, and while it waits for a local
    request, process 2 is started.  Then the first one goes on. *)
Definition replaced : (unit + unit) * (unit + params) * site :=
  run2 (repeat true 5 ++ repeat false 200) (Shutdown daemon_cfg 1) (start_server 448 daemon_cfg 2) serving.

