(* ===== verification/Middleware.v ===== *)
(** * The log and the wrappers around every handler: internal/observability, internal/api/middleware

    Both listeners chain RequestID, Recover and LogRequests around their routes; the public
    one has the password between its routes and its handlers.  The state of a listener is
    its server's, with the lines the process wrote to its log.  Writing a line does not fail;
    the time a request took is any number of milliseconds. *)
From S2P Require Import Prelude GoStrings Errors Prog Tree Integrity Config World Service Api Net Auth AuthProofs Daemon Demo.
Local Open Scope prog_scope.

(** ** observability/log.go *)

(** The levels of log/slog *)
Definition LevelDebug : Z := -4.
Definition LevelInfo : Z := 0.
Definition LevelWarn : Z := 4.
Definition LevelError : Z := 8.

(** An attribute is a key and a value: a string, a number, or a value of another package. *)
Inductive value := VStr (s : string) | VInt (n : Z) | VAny.
Notation attr := (string * value)%type.
Record line := mkLogLine { l_Level : Z; l_Message : string; l_Attrs : list attr }.

Definition sensitiveKeys : list string :=
  ["authorization"; "password"; "password_hash"; "sss_password"; "token"; "claim_token"; "www-authenticate"]%string.

Section log.
Context {UC : Unicode}.

(** New: the level of the process's logger. *)
Definition log_level (level : string) : Z :=
  let l := ToLower level in
  if (l =? "debug")%string then LevelDebug else
  if (l =? "warn")%string then LevelWarn else
  if (l =? "error")%string then LevelError else LevelInfo.

Definition redact (a : attr) : attr :=
  if existsb (String.eqb (ToLower (fst a))) sensitiveKeys then (fst a, VStr "[redacted]") else a.

(** A server and the lines written so far. *)
Record logged (W : Type) := mkLogged { lg_server : W; lg_lines : list line }.
#[global] Arguments mkLogged {W} _ _.
#[global] Arguments lg_server {W} _.
#[global] Arguments lg_lines {W} _.
Definition set_server {W : Type} (v : W) (s : logged W) : logged W := mkLogged v (lg_lines s).
Definition plainly {W A : Type} : prog W A -> prog (logged W) A := lift lg_server set_server.

(** log.Info, log.Warn and log.Error with the handler New makes. *)
Definition log_at {W : Type} (min lvl : Z) (msg : string) (attrs : list attr) : prog (logged W) unit :=
  act_ (fun s => (tt, if (min <=? lvl)%Z then mkLogged (lg_server s) (lg_lines s ++ [mkLogLine lvl msg (map redact attrs)])%list else s)).

(** time.Since in milliseconds *)
Definition elapsed {W : Type} : prog (logged W) Z :=
  act (fun s => (0%Z, s)) (Some (fun n s => (Z.of_nat n, s))).

(** ** middleware.go *)

(** r.URL.Path *)
Definition url_path (q : http) : string := default (before "?" (q_Path q)) (unescape (before "?" (q_Path q))).
Definition with_header (h : string * string) (r : response) : response := mkResponse (r_Status r) (h :: r_Header r) (r_Body r).

(** A handler: the request's correlation ID, as the context carries it, to the answer;
    [None] is a panic. *)
Notation handler W := (string -> prog (logged W) (option response)).

Definition RequestID {W : Type} (draw : prog W string) (next : handler W) : handler W := fun _ =>
  id <- plainly draw ;;
  r <- next id ;;
  Ret (with_header ("X-Request-Id"%string, id) <$> r).

Definition LogPanics {W : Type} (min : Z) (q : http) (next : handler W) : handler W := fun id =>
  r <- next id ;;
  match r with
  | Some a => Ret (Some a)
  | None =>
    log_at min LevelError "panic while handling request"
      [("request_id", VStr id); ("path", VStr (url_path q)); ("panic", VAny)]%string ;;;
    Ret (Some (finish q (WriteError q [] Internal)))
  end.

(** The recorder between a handler and its client: the status and the bytes that passed. *)
Record recorder := mkRecorder { rec_status : Z; rec_written : Z }.
Definition rec_WriteHeader (status : Z) (r : recorder) : recorder := mkRecorder status (rec_written r).
Definition rec_Write (n : Z) (r : recorder) : recorder := mkRecorder (rec_status r) (int64 (rec_written r + n)).
(** After an answer; [size] is what encoding/json and the archive writers make of a body. *)
Definition rec_of_answer (size : body -> Z) (a : response) : recorder :=
  rec_Write (size (r_Body a)) (rec_WriteHeader (r_Status a) (mkRecorder 200 0)).

Definition LogRequests {W : Type} (size : body -> Z) (min : Z) (q : http) (next : handler W) : handler W := fun id =>
  r <- next id ;;
  match r with
  | None => Ret None
  | Some a =>
    ms <- elapsed ;;
    log_at min LevelInfo "request"
      [("request_id", VStr id); ("method", VStr (q_Method q)); ("path", VStr (url_path q));
       ("status", VInt (rec_status (rec_of_answer size a))); ("bytes", VInt (rec_written (rec_of_answer size a)));
       ("duration_ms", VInt ms)]%string ;;;
    Ret (Some a)
  end.

(** Chain: the first is the outermost. *)
Definition Chain {A : Type} (h : A) (mw : list (A -> A)) : A := foldl (fun h m => m h) h (rev mw).

(** The [common] wrappers of app.New *)
Definition common {W : Type} (draw : prog W string) (size : body -> Z) (min : Z) (q : http) : list (handler W -> handler W) :=
  [RequestID draw; LogPanics min q; LogRequests size min q].
End log.
Notation handler W := (string -> prog (logged W) (option response)).

Section listeners.
Context {UC : Unicode} {EX : Externals} {MC : ManifestCodec} {A2 : Argon2}.
Context (p : params) (perMinute : Z) (cfg : Config.Server) (ready : bool) (size : body -> Z) (min : Z).

(** Auth, with its line *)
Definition LogAuth (remote : string) (q : http) (next : prog world response) : handler gate := fun id =>
  let key := clientKey q remote in
  now <- plainly (behind Now) ;;
  allowed <- plainly (act_ (fun g => let '(b, bs) := Allow perMinute now key (g_buckets g) in (b, set_buckets bs g))) ;;
  if negb allowed then Ret (Some (WriteError q [("Retry-After", "60")]%string RateLimited)) else
  r <- plainly (act_ (fun g => let '(r, a) := CheckBasic p (g_accepted g) q in (r, set_accepted a g))) ;;
  match r with
  | None => Ret None
  | Some (Some e) =>
    plainly (act_ (fun g => (tt, set_buckets (Fail perMinute now key (g_buckets g)) g))) ;;;
    log_at min LevelWarn "authentication failed"
      [("request_id", VStr id); ("remote", VStr key); ("code", VStr (code_string e))]%string ;;;
    Ret (Some (WriteError q [("WWW-Authenticate", "Basic realm=" ++ String (byte_of 34) ("sss" ++ String (byte_of 34)
      (", charset=" ++ String (byte_of 34) ("UTF-8" ++ String (byte_of 34) ""))))]%string e))
  | Some None => a <- plainly (behind next) ;; Ret (Some a)
  end.

Definition public_handlers (remote : string) (m : message) : handler gate := fun id =>
  let q := m_http m in
  match dispatch m (public_routes ready m) with
  | Some r =>
    a <- (if open_request r then (a <- plainly (behind (handle cfg r)) ;; Ret (Some a)) else LogAuth remote q (handle cfg r) id) ;;
    Ret (finish q <$> a)
  | None => Ret (Some (finish q not_found))
  end.
Definition local_handlers (m : message) : handler world := fun _ =>
  a <- plainly (serve_local cfg ready m) ;; Ret (Some a).

Definition public_handler (remote : string) (m : message) : prog (logged gate) (option response) :=
  Chain (public_handlers remote m) (common (behind ids_RequestID) size min (m_http m)) "".
Definition local_handler (m : message) : prog (logged world) (option response) :=
  Chain (local_handlers m) (common ids_RequestID size min (m_http m)) "".
End listeners.

(** ** Programs that also log

    [shadows p q F]: whatever happens in a run of [p], the server is where a run of [q]
    leaves it, and when [p] answers, so does [q], with the answers and the new lines
    related by [F]. *)
Section shadows.
Context {W : Type}.

Definition shadows {A B : Type} (p : prog (logged W) A) (q : prog W B) (F : A -> B -> list line -> Prop) : Prop :=
  forall es s o s', run p es s = (o, s') -> exists es' o', run q es' (lg_server s) = (o', lg_server s') /\
    forall a, o = Some a -> exists b new, o' = Some b /\ lg_lines s' = (lg_lines s ++ new)%list /\ F a b new.

Lemma run_none_bind {A B : Type} (q : prog W A) (g : A -> prog W B) es w w1 : run q es w = (None, w1) -> run (bind q g) es w = (None, w1).
Proof.
  revert es w. induction q as [a|R step alts k IH]; intros es w; [done|]. cbn [bind]. destruct es as [|e es].
  - cbn. destruct (step w) as [r w']. apply IH.
  - assert (e = Crash \/ e <> Crash) as [->|He] by (destruct e; auto; by right); [cbn; by intros [= ->]|]. rewrite !run_step by done.
    destruct (outcome step alts e w) as [r w']. apply IH.
Qed.
Lemma run_join {A B : Type} (q : prog W A) (g : A -> prog W B) es1 es2 w b w1 : run q es1 w = (Some b, w1) ->
  exists es', run (bind q g) es' w = run (g b) es2 w1.
Proof.
  revert es1 w. induction q as [a|R step alts k IH]; intros es1 w; [by intros [= <- <-]; exists es2|]. cbn [bind].
  destruct es1 as [|e es].
  - cbn. destruct (step w) as [r w'] eqn:E. intros [es' H]%IH. exists (Fine :: es'). cbn. by rewrite E.
  - assert (e = Crash \/ e <> Crash) as [->|He] by (destruct e; auto; by right); [by cbn|]. rewrite run_step by done.
    destruct (outcome step alts e w) as [r w'] eqn:E. intros [es' H]%IH. exists (e :: es'). rewrite run_step by done. by rewrite E.
Qed.

Lemma shadows_ret {A B : Type} (a : A) (b : B) (F : A -> B -> list line -> Prop) : F a b [] -> shadows (Ret a) (Ret b) F.
Proof. intros HF es s o s' [= <- <-]. exists [], (Some b). split; [done|]. intros a' [= <-]. exists b, []. by rewrite app_nil_r. Qed.

Lemma shadows_bind {A B A' B' : Type} (p : prog (logged W) A) (q : prog W B) f g (F : A -> B -> list line -> Prop) (G : A' -> B' -> list line -> Prop) :
  shadows p q F -> (forall a b new, F a b new -> shadows (f a) (g b) (fun a' b' new' => G a' b' (new ++ new')%list)) ->
  shadows (bind p f) (bind q g) G.
Proof.
  intros Hp Hf es s o s' [[E ->]|(a & s1 & es1 & es2 & E1 & E2)]%run_bind.
  - destruct (Hp _ _ _ _ E) as (es' & [b|] & E' & _); [|by exists es', None; split; [by apply run_none_bind|]].
    destruct (run_join q g es' [Crash] _ _ _ E') as [es2 E2]. exists es2. rewrite E2.
    destruct (run (g b) [Crash] (lg_server s')) as [o' w'] eqn:Eg. exists o'. split; [|done]. f_equal.
    destruct (g b) as [b'|R step alts k]; cbn in Eg; congruence.
  - destruct (Hp _ _ _ _ E1) as (es' & o' & E' & Ha). destruct (Ha a eq_refl) as (b & new & -> & Hl & HF).
    destruct (Hf a b new HF _ _ _ _ E2) as (es3 & o3 & E3 & Hb). destruct (run_join q g es' es3 _ _ _ E') as [es4 E4].
    exists es4, o3. rewrite E4. split; [done|]. intros a' Ha'. destruct (Hb a' Ha') as (b' & new' & -> & Hl' & HG).
    exists b', (new ++ new')%list. split_and!; [done|by rewrite Hl', Hl, app_assoc|done].
Qed.
Lemma shadows_wand {A B : Type} (p : prog (logged W) A) (q : prog W B) (F G : A -> B -> list line -> Prop) :
  shadows p q F -> (forall a b new, F a b new -> G a b new) -> shadows p q G.
Proof.
  intros Hp HFG es s o s' E. destruct (Hp _ _ _ _ E) as (es' & o' & E' & H). exists es', o'. split; [done|].
  intros a Ha. destruct (H a Ha) as (b & new & ? & ? & ?). exists b, new. auto.
Qed.

Lemma shadows_plainly {A : Type} (q : prog W A) : shadows (plainly q) q (fun a b new => a = b /\ new = []).
Proof.
  intros es s o s'. unfold plainly. rewrite run_lift by (done || by intros []). destruct (run q es (lg_server s)) as [o' w'] eqn:E.
  intros [= <- <-]. exists es, o'. split; [done|]. intros a ->. exists a, []. by rewrite app_nil_r.
Qed.

(** A call that leaves the server alone. *)
Lemma shadows_aside {A B : Type} (p : prog (logged W) A) (b : B) (F : A -> B -> list line -> Prop) :
  (forall es s o s', run p es s = (o, s') -> lg_server s' = lg_server s /\
     forall a, o = Some a -> exists new, lg_lines s' = (lg_lines s ++ new)%list /\ F a b new) -> shadows p (Ret b) F.
Proof.
  intros H es s o s' E. destruct (H _ _ _ _ E) as [-> Ha]. exists [], (Some b). split; [done|]. intros a Ho.
  destruct (Ha a Ho) as (new & Hl & HF). by exists b, new.
Qed.
Lemma shadows_before {A B C : Type} (p : prog (logged W) A) (f : A -> prog (logged W) C) (q : prog W B)
    (F : A -> unit -> list line -> Prop) (G : C -> B -> list line -> Prop) :
  shadows p (Ret tt) F -> (forall a new, F a tt new -> shadows (f a) q (fun c b new' => G c b (new ++ new')%list)) ->
  shadows (bind p f) q G.
Proof. intros Hp Hf. apply (shadows_bind p (Ret tt) f (fun _ => q) F); [done|]. intros a []. apply Hf. Qed.
End shadows.

(** ** What is written about a request *)

Lemma run_assoc {W A B C : Type} (p : prog W A) (f : A -> prog W B) (g : B -> prog W C) es w :
  run (bind (bind p f) g) es w = run (bind p (fun a => bind (f a) g)) es w.
Proof.
  revert es w. induction p as [a|R step alts k IH]; intros es w; [done|]. cbn [bind]. destruct es as [|e es].
  - cbn. destruct (step w). apply IH.
  - assert (e = Crash \/ e <> Crash) as [->|He] by (destruct e; auto; by right); [by cbn|]. rewrite !run_step by done.
    destruct (outcome step alts e w). apply IH.
Qed.

(** The lines of one call of the logger. *)
Definition line_at (min lvl : Z) (msg : string) (attrs : list attr) : list line :=
  if (min <=? lvl)%Z then [mkLogLine lvl msg attrs] else [].
Definition request_account (size : body -> Z) (min : Z) (id : string) (q : http) (a : response) (ms : Z) : list line :=
  line_at min LevelInfo "request" [("request_id", VStr id); ("method", VStr (q_Method q)); ("path", VStr (url_path q));
    ("status", VInt (r_Status a)); ("bytes", VInt (int64 (size (r_Body a)))); ("duration_ms", VInt ms)]%string.
Definition panic_account (min : Z) (id : string) (q : http) : list line :=
  line_at min LevelError "panic while handling request" [("request_id", VStr id); ("path", VStr (url_path q)); ("panic", VAny)]%string.
Definition failure_account (min : Z) (id key : string) (e : ecode) : list line :=
  line_at min LevelWarn "authentication failed" [("request_id", VStr id); ("remote", VStr key); ("code", VStr (code_string e))]%string.

Section accounts.
Context {UC : Unicode}.

Lemma shadows_log {W : Type} min lvl msg attrs : map redact attrs = attrs ->
  shadows (W := W) (log_at min lvl msg attrs) (Ret tt) (fun _ _ new => new = line_at min lvl msg attrs).
Proof.
  intros Hr. apply shadows_aside. intros es s o s' [[-> ->]|(r & -> & [[= <- <-]|(? & ? & [=] & _)])]%run_act; [done|].
  rewrite Hr. unfold line_at. destruct (min <=? lvl)%Z; [by split; [|eexists]|]. split; [done|]. exists []. by rewrite app_nil_r.
Qed.
Lemma shadows_elapsed {W : Type} : shadows (W := W) elapsed (Ret tt) (fun ms _ new => (0 <= ms)%Z /\ new = []).
Proof.
  apply shadows_aside. intros es s o s' Hr%run_act. assert (Hn : forall ms, (0 <= ms)%Z -> lg_server s = lg_server s /\
    forall a, Some ms = Some a -> exists new, lg_lines s = (lg_lines s ++ new)%list /\ (0 <= a)%Z /\ new = []).
  { intros ms Hms. split; [done|]. intros ? [= <-]. exists []. by rewrite app_nil_r. }
  destruct Hr as [[-> ->]|(r & -> & [[= <- <-]|(f & n & [= <-] & [= <- <-])])]; [done|by apply Hn|apply Hn; lia].
Qed.

(** What Recover and LogRequests make of what the routes answered. *)
Definition recovered (q : http) (x : option response) : response :=
  match x with Some a => a | None => finish q (WriteError q [] Internal) end.
Definition accounted (size : body -> Z) (min : Z) (id : string) (q : http) (x : option response) (new : list line) : Prop :=
  match x with
  | Some a => exists ms, (0 <= ms)%Z /\ new = request_account size min id q a ms
  | None => new = panic_account min id q
  end.

Lemma shadows_wrappers {W : Type} size min q (next : handler W) (mux : prog W (option response)) id (P : option response -> list line -> Prop) :
  shadows (next id) mux (fun x y pre => x = y /\ P x pre) ->
  shadows (LogPanics min q (LogRequests size min q next) id) (x <- mux ;; Ret (recovered q x))
    (fun a b new => a = Some b /\ exists x pre fin, b = recovered q x /\ new = (pre ++ fin)%list /\ P x pre /\ accounted size min id q x fin).
Proof.
  intros Hn. unfold LogPanics, LogRequests. intros es s o s' E. rewrite run_assoc in E. revert es s o s' E.
  eapply shadows_bind; [exact Hn|]. intros x ? pre [<- HP]. cbn beta. destruct x as [a|]; cbn [bind].
  - intros es s o s' E. rewrite run_assoc in E. revert es s o s' E.
    eapply shadows_before; [apply shadows_elapsed|]. intros ms ? [Hms ->]. cbn beta.
    intros es s o s' E. rewrite run_assoc in E. revert es s o s' E.
    eapply shadows_before; [by apply shadows_log|]. intros [] fin ->. apply shadows_ret. split; [done|].
    exists (Some a), pre, (request_account size min id q a ms). rewrite app_nil_r. split_and!; [done|done|done|by exists ms].
  - eapply shadows_before; [by apply shadows_log|]. intros [] fin ->. apply shadows_ret. split; [done|].
    exists None, pre, (panic_account min id q). by rewrite app_nil_r.
Qed.
End accounts.

Section public.
Context {UC : Unicode} {EX : Externals} {MC : ManifestCodec} {A2 : Argon2}.
Context (p : params) (perMinute : Z) (cfg : Config.Server) (ready : bool) (size : body -> Z) (min : Z).

(** What the password check writes: nothing, or one line about the attempt it refused. *)
Definition challenged (id key : string) (q : http) (x : option response) (new : list line) : Prop :=
  new = [] \/ exists e hs, x = Some (finish q (WriteError q hs e)) /\ new = failure_account min id key e.

Lemma shadows_LogAuth remote q next id :
  shadows (LogAuth p perMinute min remote q next id) (Auth p perMinute remote q next)
    (fun x y new => x = y /\ challenged id (clientKey q remote) q (finish q <$> x) new).
Proof.
  assert (Hpl : forall (A B C : Type) (d : prog gate A) (f : A -> prog (logged gate) B) (g : A -> prog gate C) F,
    (forall a, shadows (f a) (g a) F) -> shadows (bind (plainly d) f) (bind d g) F).
  { intros A B C d f g F Hf. eapply shadows_bind; [apply shadows_plainly|]. intros a ? new [<- ->]. apply Hf. }
  unfold LogAuth, Auth. cbv zeta. apply Hpl. intros now. apply Hpl. intros allowed.
  destruct allowed; cbn [negb]; [|apply shadows_ret; by split; [|left]].
  apply Hpl. intros [[e|]|]; [| |apply shadows_ret; by split; [|left]].
  - apply Hpl. intros []. eapply shadows_before; [by apply shadows_log|]. intros [] new ->. apply shadows_ret.
    split; [done|]. rewrite app_nil_r. right. by do 2 eexists.
  - apply Hpl. intros a. apply shadows_ret. by split; [|left].
Qed.

(** The routes of the public listener, without the log. *)
Definition public_answer (remote : string) (m : message) : prog gate (option response) :=
  let q := m_http m in
  match dispatch m (public_routes ready m) with
  | Some r =>
    a <- (if open_request r then (a <- behind (handle cfg r) ;; Ret (Some a)) else Auth p perMinute remote q (handle cfg r)) ;;
    Ret (finish q <$> a)
  | None => Ret (Some (finish q not_found))
  end.

Lemma shadows_public remote m id :
  shadows (public_handlers p perMinute cfg ready min remote m id) (public_answer remote m)
    (fun x y new => x = y /\ challenged id (clientKey (m_http m) remote) (m_http m) x new).
Proof.
  unfold public_handlers, public_answer. cbv zeta. destruct (dispatch m _) as [r|]; [|apply shadows_ret; by split; [|left]].
  eapply (shadows_bind _ _ _ _ (fun x y new => x = y /\ challenged id (clientKey (m_http m) remote) (m_http m) (finish (m_http m) <$> x) new)).
  - destruct (open_request r); [|apply shadows_LogAuth].
    eapply shadows_bind; [apply shadows_plainly|]. intros a ? new [<- ->]. apply shadows_ret. by split; [|left].
  - intros x ? new [<- Hc]. apply shadows_ret. rewrite app_nil_r. by split.
Qed.

Lemma serve_public_answer remote m es g :
  run (serve_public p perMinute cfg ready remote m) es g =
  run (x <- public_answer remote m ;; Ret (recovered (m_http m) x)) es g.
Proof.
  unfold serve_public, public_answer, Recover. cbv zeta. destruct (dispatch m _) as [r|]; [|done].
  rewrite !run_assoc. generalize (if open_request r then (a <- behind (handle cfg r);; Ret (Some a)) else Auth p perMinute remote (m_http m) (handle cfg r)).
  intros h. revert es g. induction h as [x|R step alts k IH]; intros es g; [by destruct x|]. cbn [bind]. destruct es as [|e es].
  - cbn. destruct (step g). apply IH.
  - assert (e = Crash \/ e <> Crash) as [->|He] by (destruct e; auto; by right); [done|]. rewrite !run_step by done.
    destruct (outcome step alts e g). apply IH.
Qed.

(** What a listener leaves: the answer is the server's, with the request's identifier; the
    lines are those of a refused attempt and of the request or its panic. *)
Definition answer_and_account (id key : string) (q : http) (r : response) (b : response) (new : list line) : Prop :=
  r = with_header ("X-Request-Id"%string, id) b /\ exists x pre fin, b = recovered q x /\ new = (pre ++ fin)%list /\
  challenged id key q x pre /\ accounted size min id q x fin.

Lemma draw_run es (s : logged gate) o s1 : run (plainly (behind ids_RequestID)) es s = (o, s1) ->
  o = None /\ s1 = s \/ exists id, o = Some id /\ exec (behind ids_RequestID) (lg_server s) = (id, lg_server s1) /\ lg_lines s1 = lg_lines s.
Proof.
  destruct s as [[w a b] l]. cbn. destruct es as [|[|n|] es]; cbn; intros [= <- <-]; [right; eexists; by split_and!..|by left].
Qed.

End public.

(** ** On the demonstration server *)

(** A guess with the wrong user name. *)
Definition guess : message := mkMessage (with_password "root" "hunter2" get_info) PNone.
Definition guessed : option (option response) * logged gate :=
  run (public_handler demo_params 20 Demo.cfg true (fun b => match b with BText s => slen s | _ => 0%Z end) (log_level "warning")
    "192.0.2.7:5000" guess) [] (mkLogged demo_gate []).

