(* ===== verification/Client.v ===== *)
(** * The client's side of the HTTP contract: internal/client/client.go

    A client is a program over a machine of its own and a peer it exchanges messages with.
    The peer is any program that answers messages: the server of this repository, or
    something else.  Errors are the stable codes the client tells its caller. *)
From S2P Require Import Prelude GoStrings Errors Manifest Wire Prog Tree Integrity Store Service Upload Janitor Api Net.
Local Open Scope prog_scope.

(** The peer's state and the file system of the client's machine. *)
Record host (V : Type) := mkHost { peer : V; files : tree }.
Arguments mkHost {V} _ _.
Arguments peer {V} _.
Arguments files {V} _.
Definition set_peer {V} (v : V) (h : host V) : host V := mkHost v (files h).
Definition set_files {V} (t : tree) (h : host V) : host V := mkHost (peer h) t.

(** A call of package os on the client's machine. *)
Definition fs {V A} : prog tree A -> prog (host V) A := lift files set_files.

(** The client's error codes. *)
Definition err (c : ecode) : string := code_string c.

(** An answer whose status was expected, and how many bytes of its body arrive: [None] is
    all of them. *)
Record answer := mkAnswer { a_response : response; a_cut : option nat }.

Definition response_header (r : response) (name : string) : string :=
  match List.find (fun h => (fst h =? name)%string) (r_Header r) with Some h => snd h | None => "" end.

(** The code parseError extracts.  An envelope and a plain line both carry the code (that is
    [parseError_PlainLine]); a document that is no envelope leaves the status. *)
Definition error_code (r : response) : string :=
  match r_Body r with
  | BError _ e => code_string e
  | BText s | BContent _ s => Code (parseError (fun _ => None) (Errors.mkResponse s (r_Status r) "" ""))
  | _ => code_string (statusToCode (r_Status r))
  end.

(** strconv.ParseInt(s, 10, 64) with the error dropped: zero for no number, the nearest
    int64 for one out of range. *)
Definition ParseInt_ (s : string) : Z :=
  let value := match s with
    | String "-" (String _ _ as t) => option_map Z.opp (digits 0 t)
    | String "+" (String _ _ as t) => digits 0 t
    | String _ _ => digits 0 s
    | EmptyString => None
    end in
  match value with Some z => Z.max min_int64 (Z.min z max_int64) | None => 0 end.

Section client.
Context {V : Type} (serve : message -> prog V response).
Notation prog := (prog (host V)).

(** c.http.Do: the connection may fail before the request arrives or after it was handled,
    and the body of the answer may break off. *)
Definition Do (m : message) : prog (string + answer) :=
  reached <- act (fun h => (true, h)) (Some (fun _ h => (false, h))) ;;
  if negb reached then Ret (inl (err Network)) else
  r <- lift peer set_peer (serve m) ;;
  act (fun h => (inr (mkAnswer r None), h))
      (Some (fun n h => (match n with O => inl (err Network) | S k => inr (mkAnswer r (Some k)) end, h))).

(** do *)
Definition do_ (m : message) (expect : list Z) : prog (string + answer) :=
  a <-? Do m ;;
  let status := r_Status (a_response a) in
  ensure (existsb (Z.eqb status) expect) orelse (error_code (a_response a)) ;;
  Ret (inr a).

(** json.NewDecoder(resp.Body).Decode: a document that broke off or is another one cannot be
    decoded. *)
Definition decode {A} (f : body -> option A) (a : answer) : string + A :=
  match a_cut a, f (r_Body (a_response a)) with
  | None, Some x => inr x
  | _, _ => inl (err Network)
  end.

(** What a body delivers, and whether it breaks off. *)
Definition stream_of (a : answer) : string * bool :=
  let d := match r_Body (a_response a) with BText s | BContent _ s => s | _ => ""%string end in
  match a_cut a with None => (d, false) | Some k => (stake (Z.of_nat k) d, true) end.

Definition accept_json : string * string := ("Accept", "application/json")%string.
Definition json_headers : list (string * string) := [("Content-Type", "application/json")%string; accept_json].
Definition bearer (token : string) : string * string := ("Authorization", "Bearer " ++ token)%string.
Definition request_of (method path : string) (hs : list (string * string)) (len : Z) (p : payload) : message :=
  mkMessage (mkHttp method path len hs) p.
Definition get (path : string) (hs : list (string * string)) : message := request_of "GET" path hs 0 PNone.

(** postJSON; the length of the document is left open. *)
Definition postJSON {A} (path : string) (p : payload) (f : body -> option A) (hs : list (string * string))
    (expect : list Z) : prog (string + A) :=
  a <-? do_ (request_of "POST" path (json_headers ++ hs) (-1) p) expect ;;
  Ret (decode f a).
Definition getJSON {A} (path : string) (f : body -> option A) : prog (string + A) :=
  a <-? do_ (get path [accept_json]) [200%Z] ;; Ret (decode f a).

Definition client_Metadata (code : string) : prog (string + TransferMetadata) :=
  getJSON ("/v1/transfers/" ++ code) (fun b => match b with BMetadata m => Some m | _ => None end).

Definition client_CreateTransfer (req : CreateTransferRequest) (key : string) : prog (string + CreateTransferResponse) :=
  postJSON "/v1/transfers" (PCreate req) (fun b => match b with BCreated r => Some r | _ => None end)
    (if (key =? "")%string then [] else [("Idempotency-Key"%string, key)]) [201%Z].

Definition UploadOffset (path : string) : prog (string + Z * Z) :=
  a <-? do_ (request_of "HEAD" path [tus] 0 PNone) [200%Z] ;;
  let h := response_header (a_response a) in
  Ret (inr (ParseInt_ (h "Upload-Offset"%string), ParseInt_ (h "Upload-Length"%string))).

(** The transport sends [length] bytes of the file: fewer break the request off, and a file
    with more is an error once they are sent. *)
Definition send_body (data : string) (length : Z) : prog reader :=
  let sent := stake length data in
  let short := (slen data <? length)%Z in
  cut <- act (fun h => (([], false), h)) (Some (fun n h => (cut_of n, h))) ;;
  let r := arrival cut sent in
  Ret (mkReader (chunks r) (fails r || short)).
Definition patch_headers (offset : Z) : list (string * string) :=
  [("Content-Type", "application/offset+octet-stream")%string; tus; offset_header offset].
Definition client_UploadPatch (path : string) (offset : Z) (data : string) (length : Z) : prog (string + Z) :=
  r <- send_body data length ;;
  a <-? do_ (request_of "PATCH" path (patch_headers offset) length (PBytes r)) [204%Z] ;;
  ensure (slen data =? length)%Z orelse (err Network) ;;
  Ret (inr (ParseInt_ (response_header (a_response a) "Upload-Offset"))).

Definition client_Commit (transferID : string) (m : Manifest) : prog (string + CommitResponse) :=
  postJSON ("/v1/transfers/" ++ transferID ++ "/commit") (PCommit m)
    (fun b => match b with BCommit r => Some r | _ => None end) [] [200; 201]%Z.

Definition client_Claim (code : string) : prog (string + ClaimResponse) :=
  postJSON "/v1/claims" (PClaim code) (fun b => match b with BClaim c => Some c | _ => None end) [] [201%Z].

Definition range_from (offset : Z) : string * string := ("Range", "bytes=" ++ FormatInt offset ++ "-")%string.
Definition range_to (offset last : Z) : string * string :=
  ("Range", "bytes=" ++ FormatInt offset ++ "-" ++ FormatInt last)%string.

Definition SegmentReader (path token : string) (offset : Z) : prog (string + string * bool) :=
  let more := (0 <? offset)%Z in
  a <-? do_ (get path (bearer token :: if more then [range_from offset] else [])) (if more then [206; 200] else [200])%Z ;;
  ensure (negb (more && (r_Status (a_response a) =? 200)%Z)) orelse (err Network) ;;
  Ret (inr (stream_of a)).

Definition SegmentRangeReader (path token : string) (offset length : Z) : prog (string + string * bool) :=
  a <-? do_ (get path [bearer token; range_to offset (offset + length - 1)]) [206; 200]%Z ;;
  ensure (negb ((r_Status (a_response a) =? 200)%Z && (0 <? offset)%Z)) orelse (err Network) ;;
  Ret (inr (stream_of a)).

Definition OutboardBytes (path token : string) (max : Z) : prog (string + string) :=
  a <-? do_ (get path [bearer token]) [200%Z] ;;
  let '(d, broken) := stream_of a in
  ensure (negb (broken && (slen d <=? max)%Z)) orelse (err Network) ;;
  ensure (slen (stake (max + 1) d) =? max)%Z orelse (err HashMismatch) ;;
  Ret (inr (stake (max + 1) d)).

Definition client_CompleteClaim (claimID token : string) : prog (string + unit) :=
  _ <-? do_ (request_of "POST" ("/v1/claims/" ++ claimID ++ "/complete") [bearer token] 0 PNone) [204%Z] ;;
  Ret (inr tt).

Definition client_LocalPath (code : string) : prog (string + LocalClaim) :=
  getJSON ("/local/r/" ++ code) (fun b => match b with BLocal c => Some c | _ => None end).
Definition client_LocalStatus : prog (string + AdminStatus) :=
  getJSON "/local/status" (fun b => match b with BStatus s => Some s | _ => None end).
Definition client_LocalCleanup : prog (string + CleanupResult) :=
  postJSON "/local/cleanup" PNone (fun b => match b with BCleanup c => Some c | _ => None end) [] [200%Z].
End client.
