(* ===== verification/Recv.v ===== *)
(** * Receiving: internal/client/recv.go *)
From S2P Require Import Prelude GoStrings Errors Code Paths Manifest Wire Prog Tree Integrity Materialize Service.
From S2P Require Import Host Api Net Client.
Local Open Scope prog_scope.

Record RecvOptions := mkRecvOptions { ro_Code : string; ro_Destination : string }.
Record RecvResult := mkRecvResult {
  rr_Path : string; rr_Files : Z; rr_Bytes : Z; rr_Note : string; rr_ClaimID : string }.

Section recv.
Context {UC : Unicode} {EX : Externals} {V : Type} (serve : message -> prog V response).
Notation client := (prog (host V)).

(** info.Size() *)
Definition node_size (n : node) : Z := match n with NDir _ _ => dir_size | NFile d _ _ => slen d end.

(** *** repairGroup: the authentic bytes of one group *)
Definition repairGroup (token : string) (seg : ClaimSegment) (offset want : Z) (outboard : string)
    : client (string + string) :=
  r <-? SegmentRangeReader serve (cs_Path seg) token offset want ;;
  ensure (negb (slen (fst r) <? want)%Z) orelse (err Network) ;;
  let got := stake want (fst r) in
  ensure (VerifyGroup got outboard offset (cs_Digest seg)) orelse (err HashMismatch) ;;
  Ret (inr got).

(** *** fetchVerified

    The loop, one group at a time: [tries] counts the attempts a group has left, [body] is
    what the open stream still delivers.  The answer is the stream after the group. *)
Fixpoint fetch_group (tries : nat) (token : string) (seg : ClaimSegment) (p : path) (outboard : string)
    (offset want : Z) (body : option string) : client (string + option string) :=
  match tries with
  | O => Ret (inl (err HashMismatch))
  | S tries =>
    let again := fetch_group tries token seg p outboard offset want in
    b <- (match body with
          | Some s => Ret (inr s)
          | None => r <-? SegmentReader serve (cs_Path seg) token offset ;; Ret (inr (fst r))
          end) ;;
    match b with
    | inl e => if (e =? err Network)%string then again None else Ret (inl e)
    | inr s =>
      if (slen s <? want)%Z then again None else
      let got := stake want s in
      let rest := sdrop want s in
      g <- (if VerifyGroup got outboard offset (cs_Digest seg) then Ret (inr got)
            else repairGroup token seg offset want outboard) ;;
      match g with
      | inl _ => again (Some rest)
      | inr good =>
        _ <-? fs (WriteAt p offset good) orelse (err DestinationExists) ;;
        Ret (inr (Some rest))
      end
    end
  end.

Fixpoint fetch_groups (n : nat) (token : string) (seg : ClaimSegment) (p : path) (outboard : string)
    (offset : Z) (body : option string) : client (string + unit) :=
  match n with
  | O => Ret (inr tt)
  | S n =>
    if (cs_Length seg <=? offset)%Z then Ret (inr tt) else
    let want := Z.min (cs_Length seg - offset) GroupSize in
    body <-? fetch_group 3 token seg p outboard offset want body ;;
    fetch_groups n token seg p outboard (offset + want) body
  end.

(** How many groups are left from an offset. *)
Definition groups_left (length offset : Z) : nat := Z.to_nat ((length - offset + GroupSize - 1) / GroupSize).

(** The group boundary to resume from. *)
Definition resume_offset (length : Z) (info : oserr + node) : Z :=
  match info with
  | inl _ => 0
  | inr n =>
    let offset := (node_size n - Z.rem (node_size n) GroupSize)%Z in
    if (length <? offset)%Z then (length - Z.rem length GroupSize)%Z else offset
  end.

Definition fetchVerified (token : string) (seg : ClaimSegment) (p : path) (outboard : string)
    : client (string + unit) :=
  _ <-? fs (OpenFile false p 384) orelse (err DestinationExists) ;;
  info <- fs (Stat p) ;;
  let offset := resume_offset (cs_Length seg) info in
  ensure (0 <=? offset)%Z orelse (err DestinationExists) ;;
  _ <-? fs (Truncate p offset) orelse (err DestinationExists) ;;
  _ <-? fetch_groups (groups_left (cs_Length seg) offset) token seg p outboard offset None ;;
  _ <-? fs Sync orelse (err DestinationExists) ;;
  Ret (inr tt).

(** *** fetchSegment *)

(** What one attempt decides after its download. *)
Inductive next := Retry | Stop (e : string) | Compare.

Definition download_rest (last : bool) (token : string) (seg : ClaimSegment) (p : path) (offset : Z)
    : client next :=
  b <- SegmentReader serve (cs_Path seg) token offset ;;
  match b with
  | inl e => Ret (if (e =? err Network)%string && negb last then Retry else Stop e)
  | inr (s, broken) =>
    o <- fs (_ <-? OpenFile false p 384 ;; Sync) ;;
    match o with
    | inl _ => Ret (Stop (err DestinationExists))
    | inr _ =>
      w <- fs (WriteAt p offset s) ;;
      f <- fs Sync ;;
      Ret (if broken || (match w with inl _ => true | inr _ => false end)
           then if last then Stop (err Network) else Retry
           else match f with inl _ => Stop (err DestinationExists) | inr _ => Compare end)
    end
  end.

(** The bytes on disk to continue from; a file that is too long is removed. *)
Definition start_offset (seg : ClaimSegment) (p : path) : client Z :=
  info <- fs (Stat p) ;;
  match info with
  | inl _ => Ret 0%Z
  | inr n => if (cs_Length seg <? node_size n)%Z then fs (Remove p) ;;; Ret 0%Z else Ret (node_size n)
  end.

Fixpoint fetch_attempts (tries : nat) (token : string) (seg : ClaimSegment) (p : path) : client (string + unit) :=
  match tries with
  | O => Ret (inl (err HashMismatch))
  | S tries =>
    offset <- start_offset seg p ;;
    next <- (if (offset <? cs_Length seg)%Z then download_rest (tries =? 0)%nat token seg p offset else Ret Compare) ;;
    match next with
    | Retry => fetch_attempts tries token seg p
    | Stop e => Ret (inl e)
    | Compare =>
      h <-? fs (HashFile p) orelse (err DestinationExists) ;;
      if (snd h =? cs_Length seg)%Z && (fst h =? cs_Digest seg)%string then Ret (inr tt)
      else fs (Remove p) ;;; fetch_attempts tries token seg p
    end
  end.
Definition fetchSegment (token : string) (seg : ClaimSegment) (p : path) : client (string + unit) :=
  fetch_attempts 3 token seg p.

Definition fetchOneSegment (token : string) (seg : ClaimSegment) (p : path) : client (string + unit) :=
  if (cs_OutboardPath seg =? "")%string || (cs_OutboardLength seg <=? 0)%Z then fetchSegment token seg p else
  o <- OutboardBytes serve (cs_OutboardPath seg) token (cs_OutboardLength seg) ;;
  match o with
  | inl _ => fetchSegment token seg p
  | inr outboard => fetchVerified token seg p outboard
  end.

(** *** fetchSegments

    The workers take the segments in the order of the claim; they work on files of their
    own.  A cancelled context makes the dispatcher drop the segments not yet handed out. *)
Definition not_cancelled : client bool := act (fun h => (true, h)) (Some (fun _ h => (false, h))).

Definition fetchSegments (cwd : path) (claim : ClaimResponse) (segmentsDir : string) : client (string + unit) :=
  loop (fun _ seg =>
    go <- not_cancelled ;;
    if go : bool then fetchOneSegment (cl_Token claim) seg (host_path cwd (Join [segmentsDir; cs_ID seg]))
    else Ret (inr tt)) tt (cl_Segments claim).

(** *** Recv *)

Definition resolveDestination (cwd : path) (explicit canonicalCode : string) : client (string + string) :=
  if negb (explicit =? "")%string then
    let clean := Clean explicit in
    e <- fs (Stat (host_path cwd clean)) ;;
    match e with
    | inr _ => Ret (inl (err DestinationExists))
    | inl _ =>
      d <- fs (Stat (host_path cwd (Dir clean))) ;;
      match d with
      | inr (NDir _ _) => Ret (inr clean)
      | _ => Ret (inl (err DestinationExists))
      end
    end
  else
    let base := ("sss-" ++ FormatCode (smap upper_byte canonicalCode))%string in
    u <-? fs (UniqueDestination cwd base) orelse (err DestinationExists) ;;
    Ret (inr u).

Definition partial_of (dest : string) : string := Join [Dir dest; ("." ++ Base dest ++ ".sss-partial")%string].

(** Moving the finished payload to its destination. *)
Definition publish_payload (cwd : path) (dest partial : string) : client (string + unit) :=
  let payload := Join [partial; PayloadDir] in
  e <- fs (Stat (host_path cwd dest)) ;;
  match e with
  | inr _ => fs (RemoveAllForce (host_path cwd partial)) ;;; Ret (inl (err DestinationExists))
  | inl _ =>
    r <- fs (RenameDir (host_path cwd payload) (host_path cwd dest)) ;;
    match r with
    | inl _ => fs (RemoveAllForce (host_path cwd partial)) ;;; Ret (inl (err DestinationExists))
    | inr _ => fs (RemoveAllForce (host_path cwd partial)) ;;; Ret (inr tt)
    end
  end.

(** The steps from the claim to the payload in the working directory. *)
Definition receive_into (cwd : path) (claim : ClaimResponse) (partial : string) : client (string + Result) :=
  let segmentsDir := Join [partial; SegmentsDir] in
  _ <-? fs (MkdirAll (host_path cwd segmentsDir) 448) orelse (err DestinationExists) ;;
  _ <-? fetchSegments cwd claim segmentsDir ;;
  r <- fs (in_dir (host_path cwd partial) (Run (host_path cwd partial) (cl_Manifest claim))) ;;
  match r with
  | inl e => fs (RemoveAllForce (host_path cwd partial)) ;;; Ret (inl (err e))
  | inr result => Ret (inr result)
  end.

Definition Recv (cwd : path) (opts : RecvOptions) : client (string + RecvResult) :=
  claim <-? client_Claim serve (ro_Code opts) ;;
  let canonical := default "" (NormalizeCode (ro_Code opts)) in
  dest <-? resolveDestination cwd (ro_Destination opts) canonical ;;
  let partial := partial_of dest in
  result <-? receive_into cwd claim partial ;;
  _ <-? publish_payload cwd dest partial ;;
  client_CompleteClaim serve (cl_ClaimID claim) (cl_Token claim) ;;;
  Ret (inr (mkRecvResult (Abs (rooted cwd) dest) (FileCount (cl_Manifest claim)) (MaterializedBytes result)
    (Note (cl_Manifest claim)) (cl_ClaimID claim))).
End recv.
