(* ===== verification/RecvProofs.v ===== *)
(** * Proofs about receiving: internal/client/recv.go *)
From S2P Require Import Prelude GoStrings Errors Code Paths Manifest Wire Prog Tree Integrity Materialize Service.
From S2P Require Import Host Api Net Client Recv.
Local Open Scope prog_scope.

(** ** Names *)

Section destination.
Context (cwd : path) (Hcwd : Forall (fun c => plain c = true) cwd).

Lemma Base_no_slash d : Base d = "/" \/ has_byte "/" (Base d) = false.
Proof.
  unfold Base. destruct (d =? "")%string; [by right|]. destruct (trim_right_slash d) as [|a q]; [by left|right].
  destruct (last (split "/" (String a q))) as [b|] eqn:E; cbn.
  - pose proof (split_parts "/" (String a q)) as Hp. rewrite Forall_forall in Hp. apply Hp. apply last_Some in E as [l ->].
    apply elem_of_app. right. by left.
  - apply last_None in E. by destruct (split_cons_ne "/" (String a q)).
Qed.

Lemma trim_right_keeps s : last_byte s <> Some "/"%char -> trim_right_slash s = s.
Proof.
  induction s as [|a s IH]; [done|]. cbn. intros Hl. destruct s as [|b s].
  - cbn in Hl |- *. destruct (Ascii.eqb_spec a "/"); [congruence|done].
  - rewrite IH by exact Hl. done.
Qed.
Lemma last_byte_app a b : b <> "" -> last_byte (a ++ b) = last_byte b.
Proof.
  intros Hb. induction a as [|x a IH]; [done|]. cbn. destruct (a ++ b)%string eqn:E; [|exact IH].
  destruct a; [by cbn in E; subst|done].
Qed.
Lemma last_byte_no_slash b : has_byte "/" b = false -> last_byte b <> Some "/"%char.
Proof.
  induction b as [|x b IH]; [done|]. cbn. intros [Hx Hb]%orb_false_iff.
  destruct b; [intros [= ->]; by rewrite Ascii.eqb_refl in Hx|by apply IH].
Qed.

Lemma Base_last d cs b : split "/" d = (cs ++ [b])%list -> plain b = true -> Base d = b.
Proof.
  intros Hs (Hb & _ & _ & Hn)%plain_spec. assert (Hd : trim_right_slash d = d).
  { apply trim_right_keeps. assert (exists a, d = (a ++ b)%string) as [a ->].
    - rewrite <- (join_split d), Hs. destruct cs as [|c cs]; [by exists ""|].
      rewrite join_app by done. exists (join "/" (c :: cs) ++ "/")%string. by rewrite string_app_assoc.
    - rewrite last_byte_app by done. by apply last_byte_no_slash. }
  assert (Hne : d <> "") by (intros ->; cbn in Hs; destruct cs as [|? [|]]; [by injection Hs as <-|done..]).
  unfold Base. rewrite (proj2 (String.eqb_neq d "") Hne), Hd. destruct d; [done|]. by rewrite Hs, last_snoc.
Qed.

(** The destination is above its parent directory (then it exists), or one name below it;
    the hidden working directory is always one name below that parent. *)
Definition hidden_name (x : string) : Prop := exists b, x = (b ++ ".sss-partial")%string.

Lemma Clean_ne p : Clean p <> "".
Proof.
  unfold Clean. destruct (p =? "")%string; [done|].
  destruct (has_prefix "/" p); [done|]. by destruct (String.eqb_spec (join "/" (clean_comps false (split "/" p))) "").
Qed.
Lemma Dir_ne d : Dir d <> "".
Proof. apply Clean_ne. Qed.
Lemma Join_ne a b : a <> "" -> b <> "" -> Join [a; b] <> "".
Proof. intros Ha Hb. rewrite Join_pair by assumption. apply Clean_ne. Qed.

Lemma partial_path d : exists x, hidden_name x /\ host_path cwd (partial_of d) = (host_path cwd (Dir d) ++ [x])%list /\
  (has_byte "/" (Base d) = false -> x = ("." ++ Base d ++ ".sss-partial")%string).
Proof.
  unfold partial_of. destruct (Base_no_slash d) as [Hb|Hb].
  - rewrite Hb. exists ".sss-partial". split; [by exists ""|]. split; [|done]. rewrite host_path_Join_comps by (done || apply Dir_ne).
    destruct (host_path_comps cwd (Dir d) Hcwd) as [-> _]. rewrite clean_comps_split. cbn. by rewrite rev_involutive.
  - exists ("." ++ Base d ++ ".sss-partial")%string. split; [by exists ("." ++ Base d)%string; rewrite string_app_assoc|].
    split; [|done]. apply host_path_Join; [done|apply Dir_ne|]. apply plain_spec. split_and!; [done|by destruct (Base d)| |].
    + destruct (Base d) as [|a [|b s]]; [done|by cbn|]. done.
    + cbn. induction (Base d) as [|a s IH]; [done|]. cbn in Hb |- *. apply orb_false_iff in Hb as [-> Hb]. by apply IH.
Qed.

Lemma destination_cases d : exists x, hidden_name x /\
  host_path cwd (partial_of d) = (host_path cwd (Dir d) ++ [x])%list /\
  ((exists r, host_path cwd (Dir d) = (host_path cwd d ++ r)%list) \/
   (exists b, b <> x /\ host_path cwd d = (host_path cwd (Dir d) ++ [b])%list)).
Proof.
  destruct (partial_path d) as (x & Hx & Hp & Hb). exists x. split_and!; [done|done|].
  destruct (exists_last (split_cons_ne "/" d)) as (cs & b & Hs). destruct (host_path_comps cwd d Hcwd) as [Hd _].
  pose proof (host_path_Dir cwd Hcwd d cs b Hs) as HD. rewrite Hs, app_assoc in Hd. rewrite HD, Hd.
  pose proof (split_parts "/" d) as Hn. rewrite Hs in Hn. apply Forall_app in Hn as [_ Hn]. rewrite Forall_singleton in Hn.
  destruct (plain b) eqn:Hpl.
  - right. exists b. rewrite clean_comps_app by by constructor. split; [|done]. pose proof (Base_last d cs b Hs Hpl) as HB.
    rewrite HB in Hb. rewrite Hb by done. intros E. apply (f_equal String.length) in E. rewrite !string_length_app in E. cbn in E. lia.
  - left. rewrite (clean_comps_split true (start_of cwd d ++ cs)%list [b]). cbn [foldl]. unfold plain in Hpl. rewrite Hn in Hpl.
    unfold clean_step. destruct (b =? "")%string; cbn [orb]; [exists []; by rewrite rev_involutive, app_nil_r|].
    destruct (b =? ".")%string; cbn [orb]; [exists []; by rewrite rev_involutive, app_nil_r|].
    destruct (b =? "..")%string; [|done]. set (l := clean_comps true _).
    destruct (rev l) as [|y out] eqn:El; [exists l; done|].
    assert (Hl : l = (rev out ++ [y])%list) by (rewrite <- (rev_involutive l), El; done).
    destruct (y =? "..")%string eqn:Ey; [|exists [y]; by rewrite Hl].
    exfalso. assert (Hpl' : plain y = true); [|by apply String.eqb_eq in Ey as ->].
    assert (Hall : Forall (fun c => plain c = true) l).
    { unfold l. apply clean_comps_rooted, Forall_app. split; [unfold start_of; case_match; [done|by apply Forall_plain_slash]|].
      pose proof (split_parts "/" d) as Hps. rewrite Hs in Hps. by apply Forall_app in Hps as [? _]. }
    rewrite Hl, Forall_app in Hall. destruct Hall as [_ Hy]. by rewrite Forall_singleton in Hy.
Qed.
End destination.

(** ** Exchanges and file calls

    Whatever the peer answers, as long as it keeps its own invariant [J]; [Good] is what a
    claim it hands out satisfies. *)
Definition claim_message (code : string) : message :=
  request_of "POST" "/v1/claims" (json_headers ++ []) (-1) (PClaim code).

(** The messages of a receiver: it reads, or opens and completes a claim. *)
Definition asking (m : message) : Prop :=
  (m_payload m = PNone \/ exists c, m_payload m = PClaim c) /\
  (q_Method (m_http m) = "GET"%string \/
   q_Method (m_http m) = "POST"%string /\ exists x, q_Path (m_http m) = ("/v1/claims" ++ x)%string).
Lemma asking_get path hs : asking (get path hs).
Proof. split; left; done. Qed.
Lemma asking_complete id hs : asking (request_of "POST" ("/v1/claims/" ++ id ++ "/complete") hs 0 PNone).
Proof. split; [by left|right]. split; [done|]. by exists ("/" ++ id ++ "/complete")%string. Qed.
Lemma asking_claim hs n code : asking (request_of "POST" "/v1/claims" hs n (PClaim code)).
Proof. split; [right; by exists code|right]. split; [done|]. by exists "". Qed.
#[export] Hint Resolve asking_get asking_complete asking_claim : within.

Section peer.
Context {EX : Externals} {V : Type} (serve : message -> prog V response).
Context (J : V -> Prop) (Good : message -> ClaimResponse -> Prop).

Definition answers_well : Prop := forall m v, asking m -> J v ->
  wp J (serve m) (fun r v' => J v' /\ forall code c, m = claim_message code -> r_Body r = BClaim c -> Good m c) v.
Context (Hserve : answers_well).

Definition inv (F : tree -> Prop) (h : host V) : Prop := J (peer h) /\ F (files h).

(** The client's files move as [T] says. *)
Definition moving (T : tree -> tree -> Prop) (h h' : host V) : Prop :=
  J (peer h) -> J (peer h') /\ T (files h) (files h').
#[global] Instance moving_preorder T : PreOrder T -> PreOrder (moving T).
Proof.
  intros HT. split; [by intros h|]. intros h1 h2 h3 H12 H23 H1. destruct (H12 H1) as [H2 T12], (H23 H2) as [H3 T23].
  split; [done|]. by etrans.
Qed.

Lemma wp_peer {A : Type} (F : tree -> Prop) (p : prog V A) (Q' : A -> V -> Prop) (Q : A -> host V -> Prop) h :
  inv F h -> wp J p Q' (peer h) -> (forall a v, J v -> Q' a v -> Q a (set_peer v h)) ->
  wp (inv F) (lift peer set_peer p) Q h.
Proof.
  intros [HJ HF] Hp HQ. apply (wp_wand _ _ (fun a h' => files h' = files h /\ J (peer h') /\ Q' a (peer h'))).
  - apply (wp_lift peer set_peer (inv F) J (fun h' => files h' = files h) p
      (fun a v => J v /\ Q' a v)); [|done|done|by apply wp_inv].
    intros v h' Hh Hv. split; [|done]. split; [done|]. cbn. by rewrite Hh.
  - intros a [v t] (Ht & Hv & Ha). cbn in *. subst t. by apply HQ.
Qed.

(** An exchange: nothing is known when the connection failed, and else what the peer did. *)
Lemma wp_Do_at F m (R : response -> Prop) (Q : string + answer -> host V -> Prop) h : inv F h ->
  wp J (serve m) (fun r v => J v /\ R r) (peer h) ->
  (forall r v, J v -> (forall a, r = inr a -> R (a_response a)) -> Q r (set_peer v h)) -> wp (inv F) (Do serve m) Q h.
Proof.
  intros Hh Hm HQ. pose proof Hh as [HJ HF]. assert (He : set_peer (peer h) h = h) by by destruct h.
  unfold Do. apply wp_bind, wp_act. intros r h1 Hr.
  assert (h1 = h) as -> by (destruct Hr as [[=]|(? & ? & [= <-] & [=])]; congruence). split; [done|].
  destruct r; cbn [negb]; [|cbn; rewrite <- He; by apply HQ].
  apply wp_bind. apply (wp_peer F _ _ _ _ Hh Hm). intros a v Hv [_ Ha].
  apply wp_act. intros r h2 [[= <- <-]|(f & [|n] & [= <-] & [= <- <-])]; (split; [by split|]); apply HQ; try done; by intros a' [= <-].
Qed.
Lemma wp_Do F m (Q : string + answer -> host V -> Prop) h : asking m -> inv F h ->
  (forall r v, J v -> Q r (set_peer v h)) -> wp (inv F) (Do serve m) Q h.
Proof.
  intros Hm Hh HQ. apply (wp_Do_at F m (fun _ => True)); [done| |by intros r v Hv _; apply HQ].
  eapply wp_wand; [apply (Hserve m (peer h) Hm), Hh|]. by intros r v [Hv _].
Qed.

Lemma wp_imp {W A : Type} (P : Prop) (I : W -> Prop) (p : prog W A) (Q : A -> W -> Prop) w :
  (P -> wp I p Q w) -> wp (fun w => P -> I w) p (fun a w => P -> Q a w) w.
Proof. apply (wp_forall (X := P) (fun _ => I) p (fun _ => Q)). Qed.

Lemma moving_intro {A : Type} T (p : prog (host V) A) :
  (forall h, J (peer h) -> wp (inv (T (files h))) p (fun _ => inv (T (files h))) h) -> within (moving T) p.
Proof.
  intros Hp I h HI. apply (wp_mono (moving T h) I p (fun _ => moving T h)); [exact HI|done|].
  exact (wp_imp (J (peer h)) (inv (T (files h))) p (fun _ => inv (T (files h))) h (Hp h)).
Qed.

Lemma moving_Do T m : asking m -> Reflexive T -> within (moving T) (Do serve m).
Proof.
  intros Hm HT. apply moving_intro. intros h HJ. apply wp_Do; [done|by split|]. intros r v Hv. exact (conj Hv (HT (files h))).
Qed.

Lemma moving_fs {A : Type} T (c : prog tree A) : within T c -> within (moving T) (fs c).
Proof.
  intros Hc. apply moving_intro. intros h HJ.
  apply (wp_wand _ _ (fun a h' => peer h' = peer h /\ T (files h) (files h'))).
  - apply (wp_lift files set_files (inv (T (files h))) (T (files h)) (fun h' => peer h' = peer h) c
      (fun _ t => T (files h) t)); [|done|done|by apply Hc].
    intros t h' Hh Ht. split; [split; [cbn; by rewrite Hh|done]|done].
  - intros a h' [Hp Ht]. split; [by rewrite Hp|done].
Qed.

(** A file call and its result. *)
Lemma wp_fs {A : Type} (F : tree -> Prop) (c : prog tree A) (Q : A -> host V -> Prop) h :
  J (peer h) -> wp F c (fun a t => Q a (set_files t h)) (files h) -> wp (inv F) (fs c) Q h.
Proof.
  intros HJ Hc. apply (wp_wand _ _ (fun a h' => peer h' = peer h /\ Q a (set_files (files h') h))).
  - apply (wp_lift files set_files (inv F) F (fun h' => peer h' = peer h) c (fun a t => Q a (set_files t h))); [|done|done|done].
    intros t h' Hh Ht. split; [split; [cbn; by rewrite Hh|done]|done].
  - intros a [v t] [Hv Ha]. cbn in *. subst v. exact Ha.
Qed.
#[local] Hint Resolve moving_fs : within.

(** *** The calls of the client *)
Section moving.
Context (T : tree -> tree -> Prop) {HT : PreOrder T}.
Lemma moving_message m : asking m -> within (moving T) (Do serve m).
Proof. intros Hm. apply moving_Do; [done|apply _]. Qed.
#[local] Hint Resolve moving_message : within.

Lemma moving_do m expect : asking m -> within (moving T) (do_ serve m expect).
Proof. intros Hm. unfold do_. within_solve. Qed.
#[local] Hint Resolve moving_do : within.
Lemma moving_SegmentReader path token offset : within (moving T) (SegmentReader serve path token offset).
Proof. unfold SegmentReader. within_solve. Qed.
Lemma moving_SegmentRangeReader path token offset length : within (moving T) (SegmentRangeReader serve path token offset length).
Proof. unfold SegmentRangeReader. within_solve. Qed.
Lemma moving_OutboardBytes path token max : within (moving T) (OutboardBytes serve path token max).
Proof. unfold OutboardBytes. within_solve. Qed.
Lemma moving_CompleteClaim id token : within (moving T) (client_CompleteClaim serve id token).
Proof. unfold client_CompleteClaim. within_solve. Qed.
#[local] Hint Resolve moving_SegmentReader moving_SegmentRangeReader moving_OutboardBytes : within.
Lemma moving_repairGroup token seg offset want outboard : within (moving T) (repairGroup serve token seg offset want outboard).
Proof. unfold repairGroup. within_solve. Qed.
End moving.

(** *** Fetching stays below the working directory *)
Section fetching.
Context (P : path).
Notation here := (moving (outside P)).

Section file.
Context (p : path) (r : path) (Hp : strip P p = Some r).
#[local] Hint Resolve moving_SegmentReader moving_OutboardBytes moving_repairGroup outside_preorder : within.

Lemma here_write off d : within here (fs (WriteAt p off d)).
Proof. apply moving_fs. by eapply outside_WriteAt. Qed.
Lemma here_truncate n : within here (fs (Truncate p n)).
Proof. apply moving_fs. by eapply outside_Truncate. Qed.
Lemma here_open excl mode : within here (fs (OpenFile excl p mode)).
Proof. apply moving_fs. by eapply outside_OpenFile. Qed.
Lemma here_remove : within here (fs (Remove p)).
Proof. apply moving_fs. by eapply outside_Remove. Qed.
Lemma here_open_sync excl mode : within here (fs (_ <-? OpenFile excl p mode ;; Sync)).
Proof. apply moving_fs. apply within_bindE; [apply _|by eapply outside_OpenFile|]. intros _. auto with within. Qed.
Lemma here_hash : within here (fs (HashFile p)).
Proof. apply moving_fs, outside_quiet. unfold HashFile. within_solve. Qed.
#[local] Hint Resolve here_write here_truncate here_open here_remove here_open_sync here_hash : within.

Lemma here_fetch_group tries token seg outboard offset want body :
  within here (fetch_group serve tries token seg p outboard offset want body).
Proof.
  revert body. induction tries as [|tries IH]; intros body; cbn [fetch_group]; [within_solve|].
  destruct body; within_solve.
Qed.
#[local] Hint Resolve here_fetch_group : within.
Lemma here_fetch_groups n token seg outboard offset body :
  within here (fetch_groups serve n token seg p outboard offset body).
Proof.
  revert offset body. induction n as [|n IH]; intros offset body; cbn [fetch_groups]; within_solve.
Qed.
#[local] Hint Resolve here_fetch_groups : within.
Lemma here_fetchVerified token seg outboard : within here (fetchVerified serve token seg p outboard).
Proof. unfold fetchVerified. within_solve. Qed.
Lemma here_fetch_attempts tries token seg : within here (fetch_attempts serve tries token seg p).
Proof.
  induction tries as [|tries IH]; cbn [fetch_attempts]; [within_solve|]. unfold start_offset, download_rest. within_solve.
Qed.
#[local] Hint Resolve here_fetchVerified here_fetch_attempts : within.
Lemma here_fetchOneSegment token seg : within here (fetchOneSegment serve token seg p).
Proof. unfold fetchOneSegment, fetchSegment. within_solve. Qed.
End file.
End fetching.
End peer.

(** ** Default destinations are single names *)

Lemma has_byte_substring a n m s : has_byte a s = false -> has_byte a (String.substring n m s) = false.
Proof.
  revert n m. induction s as [|x s IH]; intros n m; [by destruct n, m|]. intros Hs. pose proof Hs as [Hx Hs']%orb_false_iff.
  destruct n, m; cbn; [done|by rewrite Hx, IH|by apply IH|by apply IH].
Qed.
Lemma has_byte_sforall a f s : f a = false -> sforall f s = true -> has_byte a s = false.
Proof.
  intros Hf. induction s as [|x s IH]; [done|]. cbn. intros [Hx Hs]%andb_true_iff. rewrite IH by done.
  destruct (Ascii.eqb_spec x a) as [->|]; [congruence|done].
Qed.
Lemma FormatCode_no_slash c : has_byte "/" c = false -> has_byte "/" (FormatCode c) = false.
Proof.
  intros Hc. unfold FormatCode. destruct (negb _); [done|]. by rewrite !has_byte_app, !has_byte_substring.
Qed.
Lemma upper_alphabet a : in_alphabet a = true -> (upper_byte a =? "/")%char = false.
Proof. destruct a as [[] [] [] [] [] [] [] []]; by vm_compute. Qed.
Lemma upper_no_slash c : sforall in_alphabet c = true -> has_byte "/" (smap upper_byte c) = false.
Proof.
  induction c as [|a c IH]; [done|]. cbn. intros [Ha Hc]%andb_true_iff. by rewrite (upper_alphabet a Ha), IH.
Qed.
Lemma decimal_no_slash fuel n acc : has_byte "/" acc = false -> has_byte "/" (decimal fuel n acc) = false.
Proof.
  revert n acc. induction fuel as [|fuel IH]; intros n acc Ha; [done|]. cbn [decimal].
  assert (H : has_byte "/" (String (byte_of (48 + n mod 10)) acc) = false).
  { cbn. rewrite Ha. assert (Hd : (n mod 10)%Z ∈ seqZ 0 10) by (apply elem_of_seqZ; pose proof (Z.mod_pos_bound n 10); lia).
    repeat (apply elem_of_cons in Hd as [->|Hd]; [by vm_compute|]). by apply elem_of_nil in Hd. }
  destruct (n <? 10)%Z; [done|by apply IH].
Qed.
Lemma candidate_no_slash d i : has_byte "/" d = false -> has_byte "/" (candidate d i) = false.
Proof.
  intros Hd. unfold candidate, FormatInt. rewrite !has_byte_app, Hd.
  destruct (i <? 0)%Z; cbn [has_byte orb]; by apply decimal_no_slash.
Qed.
Lemma default_name_no_slash code :
  has_byte "/" ("sss-" ++ FormatCode (smap upper_byte (default "" (NormalizeCode code)))) = false.
Proof.
  rewrite has_byte_app. cbn. apply FormatCode_no_slash. destruct (NormalizeCode code) as [c|] eqn:E; [|done].
  apply NormalizeCode_canonical in E. apply andb_true_iff in E as [_ E]. by apply upper_no_slash.
Qed.

Section resolve.
Context (cwd : path) (Hcwd : Forall (fun c => plain c = true) cwd).

Lemma Dir_of_name d : has_byte "/" d = false -> host_path cwd (Dir d) = cwd.
Proof.
  intros Hd. rewrite (host_path_Dir cwd Hcwd d [] d) by by rewrite split_no_sep. rewrite app_nil_r.
  unfold start_of. destruct (has_prefix "/" d) eqn:E; [|by apply clean_comps_plain].
  apply has_prefix_app in E as [r ->]. done.
Qed.

Lemma unique_loop_wp (I : tree -> Prop) dst n i (Q : oserr + string -> tree -> Prop) t : I t ->
  has_byte "/" dst = false -> (forall r, (forall d, r = inr d -> has_byte "/" d = false) -> Q r t) ->
  wp I (unique_loop cwd dst n i) Q t.
Proof.
  intros HI Hd HQ. revert i. induction n as [|n IH]; intros i; cbn [unique_loop]; [by apply HQ|].
  apply wp_bind, wp_Stat; [done|]. intros [[]|] _; try apply IH. apply HQ. intros d [= <-]. by apply candidate_no_slash.
Qed.
Lemma UniqueDestination_wp (I : tree -> Prop) dst (Q : oserr + string -> tree -> Prop) t : I t ->
  has_byte "/" dst = false -> (forall r, (forall d, r = inr d -> has_byte "/" d = false) -> Q r t) ->
  wp I (UniqueDestination cwd dst) Q t.
Proof.
  intros HI Hd HQ. apply wp_bind, wp_Stat; [done|]. intros [[]|] _; try (by apply HQ); [|by apply unique_loop_wp].
  apply HQ. by intros d [= <-].
Qed.

Context {V : Type} (J : V -> Prop).
Lemma resolveDestination_wp (F : tree -> Prop) explicit code (Q : string + string -> host V -> Prop) h : inv J F h ->
  look (files h) cwd = Some CDir ->
  (forall r, (forall d, r = inr d -> look (files h) (host_path cwd (Dir d)) = Some CDir) -> Q r h) ->
  wp (inv J F) (resolveDestination cwd explicit (default "" (NormalizeCode code))) Q h.
Proof.
  intros [HJ HF] Hc HQ. assert (He : set_files (files h) h = h) by by destruct h. unfold resolveDestination. destruct (negb _).
  - apply wp_bind, wp_fs; [done|]. apply wp_Stat; [done|]. intros [e|n] _; rewrite He; [|by apply HQ].
    apply wp_bind, wp_fs; [done|]. apply wp_Stat; [done|]. intros [e'|[m mt|]] Hn; rewrite He; [by apply HQ| |by apply HQ].
    apply HQ. intros d [= <-]. unfold look. by rewrite Hn.
  - apply wp_orE, wp_fs; [done|]. apply UniqueDestination_wp; [done|apply default_name_no_slash|].
    intros [e|d] Hd; rewrite He; apply HQ; [done|]. intros d' [= <-]. by rewrite Dir_of_name by by apply Hd.
Qed.
End resolve.

(** ** Receiving as a whole *)

(** Everything that exists lies in directories that exist. *)
Definition well_formed (t : tree) : Prop := forall p q, q <> [] -> look t (p ++ q)%list <> None -> look t p = Some CDir.

Definition well_formedb (t : tree) : bool :=
  forallb (fun pn => forallb (fun k => is_dir_at t (take k (fst pn))) (seq 0 (length (fst pn)))) (map_to_list t).
Lemma well_formedb_sound t : well_formedb t = true -> well_formed t.
Proof.
  intros Hb p q Hq Hl. unfold look in Hl. apply not_eq_None_Some, fmap_is_Some in Hl as [n Hn].
  unfold well_formedb in Hb. rewrite forallb_forall in Hb. apply elem_of_map_to_list, list_elem_of_In in Hn. apply Hb in Hn. cbn [fst] in Hn.
  rewrite forallb_forall in Hn. specialize (Hn (length p)). rewrite take_app_length in Hn. apply is_dir_look, Hn, in_seq.
  rewrite length_app. destruct q; [done|cbn; lia].
Qed.

(** A claim a receiver can use: portable entry paths, segment names that are names. *)
Definition claim_ok `{Unicode} (c : ClaimResponse) : Prop :=
  Forall (fun e => ValidatePortablePath (e_Path e) = None) (Entries (cl_Manifest c)) /\
  Forall (fun s => plain (cs_ID s) = true) (cl_Segments c).

(** The directory [D] holds every entry of a manifest, with its declared size and digest. *)
Definition delivered `{Externals} (D : path) (m : Manifest) (t : tree) : Prop :=
  Forall (fun e =>
    (is_dir e = true -> look t (D ++ split "/" (e_Path e))%list = Some CDir) /\
    (is_file e = true -> exists d, look t (D ++ split "/" (e_Path e))%list = Some (CFile d) /\
       slen d = e_Size e /\ HashBytes d = e_Digest e)) (Entries m).

Definition hidden (P : path) : Prop := exists h x, P = (h ++ [x])%list /\ hidden_name x.

Section receive.
Context {UC : Unicode} {EX : Externals} {V : Type} (serve : message -> prog V response).
Context (J : V -> Prop) (Good : message -> ClaimResponse -> Prop).
Context (Hserve : answers_well serve J (fun _ _ => True)) (Hgood : forall m c, Good m c -> claim_ok c).
Context (cwd : path) (Hcwd : Forall (fun c => plain c = true) cwd).
Context (t0 : tree) (Hwf : well_formed t0) (Hdir : look t0 cwd = Some CDir).

(** Before the destination appears, and after. *)
Definition untouched (t : tree) : Prop := exists P, hidden P /\ outside P t0 t.
Definition handed_over (msg : message) (D : path) (c : ClaimResponse) (t : tree) : Prop :=
  Good msg c /\ look t0 D = None /\ delivered D (cl_Manifest c) t /\
  exists P, hidden P /\ forall q, strip P q = None -> strip D q = None -> look t q = look t0 q.
Definition intact (msg : message) (t : tree) : Prop := untouched t \/ exists D c, handed_over msg D c t.

Lemma untouched_refl : untouched t0.
Proof.
  exists [".sss-partial"%string]. split; [exists [], ".sss-partial"%string; split; [done|by exists ""]|done].
Qed.
Lemma outside_untouched P msg t : hidden P -> outside P t0 t -> intact msg t.
Proof. intros HP Ho. left. by exists P. Qed.

(** The parents of an existing directory exist. *)
Lemma parents_exist h q r : look t0 h = Some CDir -> h = (q ++ r)%list -> look t0 q = Some CDir.
Proof.
  intros Hh ->. destruct r as [|x r]; [by rewrite app_nil_r in Hh|]. apply (Hwf q (x :: r)); [done|]. by rewrite Hh.
Qed.

Section working.
Context (msg : message) (H : path) (x : string) (Hx : hidden_name x) (HH : look t0 H = Some CDir).
Notation P := (H ++ [x])%list.

Lemma hidden_P : hidden P.
Proof. by exists H, x. Qed.

(** A program that stays below the working directory. *)
Lemma wp_here {A : Type} (p : prog (host V) A) (Q : A -> host V -> Prop) h :
  within (moving J (outside P)) p -> J (peer h) -> outside P t0 (files h) ->
  (forall a h', J (peer h') -> outside P t0 (files h') -> Q a h') -> wp (inv J (intact msg)) p Q h.
Proof.
  intros Hp HJ Ho HQ. apply (wp_within (moving J (outside P))); [done| |].
  - intros h' Hm. destruct (Hm HJ) as [HJ' Ho']. split; [done|]. apply (outside_untouched P); [apply hidden_P|by etrans].
  - intros a h' Hm. destruct (Hm HJ) as [HJ' Ho']. apply HQ; [done|by etrans].
Qed.

Lemma here_remove_all : within (moving J (outside P)) (fs (RemoveAllForce P)).
Proof. apply moving_fs; auto with within. Qed.

Lemma here_not_cancelled : within (moving J (outside P)) (not_cancelled (V := V)).
Proof. apply within_act; [by intros h|]. by intros f n h [= <-]. Qed.

Lemma here_fetchSegments claim dir : dir <> "" -> host_path cwd dir = (P ++ [SegmentsDir])%list ->
  Forall (fun s => plain (cs_ID s) = true) (cl_Segments claim) ->
  within (moving J (outside P)) (fetchSegments serve cwd claim dir).
Proof.
  intros Hd Hpath Hids. rewrite Forall_forall in Hids. unfold fetchSegments. apply within_loop; [apply _|]. intros [] seg Hseg.
  apply within_bind; [apply _|apply here_not_cancelled|]. intros [|]; [|apply within_ret; apply _].
  apply (here_fetchOneSegment serve J _ Hserve P _ [SegmentsDir; cs_ID seg]).
  rewrite host_path_Join by auto. rewrite Hpath, <- app_assoc. by apply strip_Some.
Qed.

(** From the claim to the finished payload. *)
Lemma receive_into_wp claim partial (Q : string + Result -> host V -> Prop) h :
  J (peer h) -> outside P t0 (files h) -> claim_ok claim -> partial <> "" -> host_path cwd partial = P ->
  (forall e h', J (peer h') -> outside P t0 (files h') -> Q (inl e) h') ->
  (forall res h', J (peer h') -> outside P t0 (files h') -> MaterializedBytes res = Manifest.TotalBytes (cl_Manifest claim) ->
    delivered (P ++ [PayloadDir]) (cl_Manifest claim) (files h') -> Q (inr res) h') ->
  wp (inv J (intact msg)) (receive_into serve cwd claim partial) Q h.
Proof.
  intros HJ Ho [Hports Hids] Hp Hpath He HQ. unfold receive_into.
  assert (Hseg : host_path cwd (Join [partial; SegmentsDir]) = (P ++ [SegmentsDir])%list) by by rewrite host_path_Join, Hpath.
  rewrite Hseg, Hpath. apply wp_orE, wp_fs; [done|]. apply wp_MkdirAll_below.
  { intros q r Hq Hr. destruct (exists_last Hr) as (r' & y & ->). rewrite app_assoc in Hq. apply app_inj_tail in Hq as [Hq <-].
    rewrite Ho; [by eapply parents_exist|]. apply (strip_longer _ _ (r' ++ [x])%list); [by rewrite Hq, app_assoc|done]. }
  intros r t1 H1. assert (Ho1 : outside P t0 t1) by by etrans. split; [apply (outside_untouched P); [apply hidden_P|done]|].
  destruct r as [e|[]]; [by apply He|].
  apply wp_bindE, wp_here; [|done|done|].
  { apply here_fetchSegments; [by apply Join_ne|done|done]. }
  intros [e|[]] h2 HJ2 Ho2; [by apply He|].
  assert (Hpl : Forall (fun c => plain c = true) P) by (rewrite <- Hpath; by apply host_path_plain).
  apply wp_bind, wp_fs; [done|]. eapply wp_in_dir; [by apply (Run_entries P Hpl (cl_Manifest claim) Hports)| |].
  { intros t3 H3. apply (outside_untouched P); [apply hidden_P|by etrans]. }
  intros [e|res] t3 H3 Hrun; assert (Ho3 : outside P t0 t3) by by etrans.
  - apply wp_bind. apply wp_here; [apply here_remove_all|done|done|]. intros a h4 HJ4 Ho4. by apply He.
  - destruct Hrun as [Hbytes Hheld]. apply HQ; [done|done|done|]. unfold delivered.
    eapply Forall_impl; [exact Hheld|]. intros e [Hd Hf]. unfold payload_path, file_held in *. split.
    + intros Hdir'. specialize (Hd Hdir'). rewrite look_sub in Hd. by rewrite <- app_assoc.
    + intros Hfile. destruct (Hf Hfile) as (d & Hl & Hd'). exists d. rewrite look_sub in Hl. by rewrite <- app_assoc.
Qed.

(** The destination is one name below the same parent. *)
Lemma publish_payload_wp b claim dest partial (Q : string + unit -> host V -> Prop) h :
  b <> x -> host_path cwd dest = (H ++ [b])%list -> partial <> "" -> host_path cwd partial = P -> Good msg claim ->
  J (peer h) -> outside P t0 (files h) -> delivered (P ++ [PayloadDir]) (cl_Manifest claim) (files h) ->
  (forall e h', J (peer h') -> untouched (files h') -> Q (inl e) h') ->
  (forall h', J (peer h') -> handed_over msg (H ++ [b]) claim (files h') -> Q (inr tt) h') ->
  wp (inv J (intact msg)) (publish_payload cwd dest partial) Q h.
Proof.
  intros Hb Hdest Hp Hpath Hg HJ Ho Hdel He HQ. unfold publish_payload. rewrite Hdest, Hpath, (host_path_Join cwd Hcwd), Hpath by done.
  assert (Hh : set_files (files h) h = h) by by destruct h.
  assert (Hfail : forall h', J (peer h') -> outside P t0 (files h') ->
    wp (inv J (intact msg)) (fs (RemoveAllForce P) ;;; Ret (inl (err DestinationExists))) Q h').
  { intros h' HJ' Ho'. apply wp_bind, wp_here; [apply here_remove_all|done|done|]. intros a h2 HJ2 Ho2. apply He; [done|].
    exists P. split; [apply hidden_P|done]. }
  apply wp_bind, wp_fs; [done|]. apply wp_Stat; [by apply (outside_untouched P); [apply hidden_P|]|].
  intros [e|n] _; rewrite Hh; [|by apply Hfail].
  apply wp_bind, wp_fs; [done|]. apply wp_RenameDir; [by apply (outside_untouched P); [apply hidden_P|]| |].
  { intros e'. rewrite Hh. by apply Hfail. }
  intros t1 Hnone Hsrc Hlook. assert (Hsib : forall r, strip (H ++ [b]) (P ++ r)%list = None) by (intros r; by apply strip_sibling).
  assert (Hsib' : forall r, strip P ((H ++ [b]) ++ r)%list = None) by (intros r; by apply strip_sibling).
  assert (Hover : forall t2, outside P t1 t2 -> handed_over msg (H ++ [b]) claim t2).
  { intros t2 Ho2. split; [done|]. split; [|split].
    - rewrite <- Ho; [done|]. rewrite <- (app_nil_r (H ++ [b])%list). apply Hsib'.
    - unfold delivered in *. eapply Forall_impl; [exact Hdel|]. cbn. intros e' [Hd Hf].
      assert (E : forall s, look t2 ((H ++ [b]) ++ s)%list = look (files h) ((P ++ [PayloadDir]) ++ s)%list).
      { intros s. rewrite Ho2 by apply Hsib'. by rewrite Hlook, strip_app. }
      setoid_rewrite E. done.
    - exists P. split; [apply hidden_P|]. intros q Hq Hq'. rewrite Ho2 by done. rewrite Hlook, Hq'.
      destruct (strip (P ++ [PayloadDir]) q) eqn:Es; [|by apply Ho].
      apply strip_Some in Es as ->. rewrite <- app_assoc, strip_app in Hq. done. }
  split; [right; exists (H ++ [b])%list, claim; by apply Hover|].
  apply wp_bind. apply (wp_within (moving J (outside P))); [apply here_remove_all| |].
  - intros h2 Hm. destruct (Hm HJ) as [HJ2 Ho2]. split; [done|]. right. exists (H ++ [b])%list, claim. by apply Hover.
  - intros a h2 Hm. destruct (Hm HJ) as [HJ2 Ho2]. apply HQ; [done|by apply Hover].
Qed.

(** A destination that exists is never replaced. *)
Lemma publish_existing_wp dest partial (Q : string + unit -> host V -> Prop) h r :
  H = (host_path cwd dest ++ r)%list -> partial <> "" -> host_path cwd partial = P ->
  J (peer h) -> outside P t0 (files h) -> (forall e h', J (peer h') -> untouched (files h') -> Q (inl e) h') ->
  wp (inv J (intact msg)) (publish_payload cwd dest partial) Q h.
Proof.
  intros HH' Hp Hpath HJ Ho He. assert (Hex : look (files h) (host_path cwd dest) = Some CDir).
  { rewrite Ho; [by eapply parents_exist|]. apply (strip_longer _ _ (r ++ [x])%list); [by rewrite HH', app_assoc|by destruct r]. }
  unfold publish_payload. rewrite Hpath, (host_path_Join cwd Hcwd), Hpath by done.
  assert (Hh : set_files (files h) h = h) by by destruct h.
  assert (Hfail : wp (inv J (intact msg)) (fs (RemoveAllForce P) ;;; Ret (inl (err DestinationExists))) Q h).
  { apply wp_bind, wp_here; [apply here_remove_all|done|done|]. intros a h2 HJ2 Ho2. apply He; [done|].
    exists P. split; [apply hidden_P|done]. }
  apply wp_bind, wp_fs; [done|]. apply wp_Stat; [by apply (outside_untouched P); [apply hidden_P|]|].
  intros [e|n] _; rewrite Hh; [|done].
  apply wp_bind, wp_fs; [done|]. apply wp_RenameDir; [by apply (outside_untouched P); [apply hidden_P|]| |].
  { intros e'. by rewrite Hh. }
  intros t1 Hnone. congruence.
Qed.
End working.

(** What the peer says of a code now. *)
Definition claims_well (code : string) (v : V) : Prop :=
  wp J (serve (claim_message code)) (fun r v' => J v' /\ forall c, r_Body r = BClaim c -> Good (claim_message code) c) v.

Lemma client_Claim_wp F code (Q : string + ClaimResponse -> host V -> Prop) h : inv J F h -> claims_well code (peer h) ->
  (forall e v, J v -> Q (inl e) (set_peer v h)) ->
  (forall c v, J v -> Good (claim_message code) c -> Q (inr c) (set_peer v h)) ->
  wp (inv J F) (client_Claim serve code) Q h.
Proof.
  intros Hh Hc He HQ. unfold client_Claim, postJSON, do_. apply wp_bindE, wp_bindE.
  apply (wp_Do_at serve J F _ _ _ _ Hh Hc). intros [e|a] v Hv Ha; [by apply He|].
  destruct (existsb _ _); [|by apply He]. cbn [wp bindE bind]. unfold decode.
  destruct (a_cut a); [by apply He|]. destruct (r_Body (a_response a)) as [| | | | | |c| | | | | | |] eqn:Eb; try (by apply He).
  apply HQ; [done|]. exact (Ha a eq_refl c Eb).
Qed.

Lemma Abs_host_path d : Abs (rooted cwd) d = rooted (host_path cwd d).
Proof.
  assert (G : exists cs, Abs (rooted cwd) d = rooted cs /\ Forall (fun c => plain c = true) cs).
  { unfold Abs. destruct (has_prefix "/" d) eqn:Ed; [by apply Clean_is_rooted|]. unfold Join. cbn [List.filter].
    replace (negb (rooted cwd =? "")%string) with true by done. destruct (d =? "")%string; cbn [negb]; apply Clean_is_rooted.
    - done.
    - done. }
  destruct G as (cs & E & Hcs). unfold host_path. by rewrite E, host_path_rooted.
Qed.

(** What a receive answers. *)
Definition recv_answer (code : string) (r : string + RecvResult) (h : host V) : Prop :=
  match r with
  | inl _ => untouched (files h)
  | inr res => exists D c, rr_Path res = rooted D /\ handed_over (claim_message code) D c (files h) /\
      rr_Bytes res = Manifest.TotalBytes (cl_Manifest c) /\ rr_Files res = FileCount (cl_Manifest c)
  end.

Lemma Recv_wp opts h : J (peer h) -> claims_well (ro_Code opts) (peer h) -> files h = t0 ->
  wp (inv J (intact (claim_message (ro_Code opts)))) (Recv serve cwd opts) (recv_answer (ro_Code opts)) h.
Proof.
  intros HJ Hclaim Ht. set (msg := claim_message (ro_Code opts)).
  pose proof untouched_refl as Hu.
  assert (Hi : inv J (intact msg) h) by (split; [done|left; by rewrite Ht]).
  unfold Recv. apply wp_bindE, client_Claim_wp; [done|done|intros e v Hv; cbn; by rewrite Ht|].
  intros claim v Hv Hg. assert (Hi1 : inv J (intact msg) (set_peer v h)) by (split; [done|apply Hi]).
  apply wp_bindE, (resolveDestination_wp cwd Hcwd); [done|cbn; by rewrite Ht|].
  intros [e|dest] Hd; [cbn; by rewrite Ht|]. specialize (Hd dest eq_refl). cbn in Hd. rewrite Ht in Hd.
  destruct (destination_cases cwd Hcwd dest) as (x & Hx & Hpath & Hcase). set (H := host_path cwd (Dir dest)) in *.
  assert (Hne : partial_of dest <> "") by (apply Join_ne; [apply Dir_ne|done]).
  apply wp_bindE, (receive_into_wp msg H x Hx Hd); [done|cbn; by rewrite Ht|by eapply Hgood|done|done| |].
  { intros e h' HJ' Ho'. exists (H ++ [x])%list. split; [by apply hidden_P|done]. }
  intros res h2 HJ2 Ho2 Hbytes Hdel. apply wp_bindE.
  destruct Hcase as [[r Hr]|(b & Hb & Hdest)].
  { apply (publish_existing_wp msg H x Hx Hd dest (partial_of dest) _ h2 r Hr Hne Hpath); [done|done|]. by intros e h3 HJ3 Hu3. }
  apply (publish_payload_wp msg H x Hx b claim dest (partial_of dest)); [done..| |]; [by intros e h3 HJ3 Hu3|].
  intros h3 HJ3 Hover. apply wp_bind, (wp_within (moving J eq)).
  - apply (moving_CompleteClaim serve J _ Hserve). apply _.
  - intros h4 Hm. destruct (Hm HJ3) as [HJ4 E4]. split; [done|]. rewrite <- E4. right. by exists (H ++ [b])%list, claim.
  - intros a h4 Hm. destruct (Hm HJ3) as [HJ4 E4]. exists (H ++ [b])%list, claim. cbn. rewrite <- E4.
    rewrite Abs_host_path, Hdest. by split_and!.
Qed.
End receive.
