(* ===== verification/FetchProofs.v ===== *)
(** * Fetching one segment: internal/client/recv.go

    What is on the receiver's disk while a segment is fetched group by group, and after. *)
From S2P Require Import Prelude GoStrings Errors Code Paths Manifest Wire Prog Tree Integrity Materialize Service.
From S2P Require Import Safety UploadProofs CommitProofs SimpleProofs Resume Host Api Net Client Recv RecvProofs.
Local Open Scope prog_scope.

(** ** Pieces of strings *)

Lemma slen_nonneg s : (0 <= slen s)%Z.
Proof. unfold slen. lia. Qed.
Lemma slen_sdrop n s : (0 <= n <= slen s)%Z -> slen (sdrop n s) = (slen s - n)%Z.
Proof.
  unfold sdrop, slen. intros Hn. assert (Hk : (Z.to_nat n <= String.length s)%nat) by lia.
  replace n with (Z.of_nat (Z.to_nat n)) at 3 by lia. revert Hk. generalize (Z.to_nat n) as k. clear n Hn.
  induction s as [|a s IH]; intros [|k] Hk; cbn in *; [done|lia| |].
  - rewrite substring_all; lia.
  - rewrite IH; lia.
Qed.
Lemma stake_app_l n a b : (n <= slen a)%Z -> stake n (a ++ b) = stake n a.
Proof.
  unfold stake, slen. intros Hn. assert (Hk : (Z.to_nat n <= String.length a)%nat) by lia. revert Hk.
  generalize (Z.to_nat n) as k. clear n Hn. induction a as [|x a IH]; intros [|k] Hk; cbn in *; [by destruct b|lia|done|].
  rewrite IH; [done|lia].
Qed.
Lemma sdrop_app_l n a b : (0 <= n <= slen a)%Z -> sdrop n (a ++ b) = (sdrop n a ++ b)%string.
Proof.
  unfold sdrop, slen. intros Hn. assert (Hk : (Z.to_nat n <= String.length a)%nat) by lia. revert Hk.
  generalize (Z.to_nat n) as k. clear n Hn. induction a as [|x a IH]; intros [|k] Hk; cbn in *.
  - by rewrite Nat.sub_0_r, substring_all.
  - lia.
  - rewrite !substring_all by (rewrite ?string_length_app; lia). done.
  - rewrite IH; [done|lia].
Qed.
Lemma sdrop_all s : sdrop (slen s) s = ""%string.
Proof. pose proof (slen_sdrop (slen s) s). pose proof (slen_nonneg s). unfold slen in *. destruct (sdrop _ s); [done|]. cbn in *. lia. Qed.
Lemma stake_all n s : (slen s <= n)%Z -> stake n s = s.
Proof. intros Hn. unfold stake. apply substring_all. unfold slen in Hn. lia. Qed.
Lemma stake_sdrop n s : (0 <= n <= slen s)%Z -> s = (stake n s ++ sdrop n s)%string /\ slen (stake n s) = n.
Proof.
  intros Hn. pose proof (slen_stake n s Hn) as Hl. split; [|done]. destruct (stake_app n s) as [r Hr].
  assert (G : forall a, slen a = n -> s = (a ++ r)%string -> s = (a ++ sdrop n s)%string); [|by apply G].
  intros a <- ->. rewrite sdrop_app_l by (pose proof (slen_nonneg a); lia). by rewrite sdrop_all.
Qed.

Lemma take_plus a b s : String.substring 0 (a + b) s =
  (String.substring 0 a s ++ String.substring 0 b (String.substring a (String.length s - a) s))%string.
Proof.
  revert s. induction a as [|a IH]; intros [|x s]; cbn.
  - by destruct b.
  - by rewrite substring_all by lia.
  - by destruct b.
  - by rewrite IH.
Qed.
Lemma stake_plus a b s : (0 <= a)%Z -> (0 <= b)%Z -> stake (a + b) s = (stake a s ++ stake b (sdrop a s))%string.
Proof. intros Ha Hb. unfold stake, sdrop. rewrite Z2Nat.inj_add by done. apply take_plus. Qed.

(** ** Proved groups *)
Ltac group_lia := change GroupSize with 65536%Z in *; lia.

Section groups.
Context {EX : Externals} (outboard digest : string).

Definition group_at (k : Z) (d : string) : string := stake GroupSize (sdrop (k * GroupSize) d).
Definition group_ok (k : Z) (d : string) : Prop := VerifyGroup (group_at k d) outboard (k * GroupSize) digest = true.

(** Every complete group is proved; the text has a length and all its groups are. *)
Definition groups_proved (d : string) : Prop := forall k, (0 <= k)%Z -> ((k + 1) * GroupSize <= slen d)%Z -> group_ok k d.
Definition all_proved (n : Z) (d : string) : Prop := slen d = n /\ forall k, (0 <= k)%Z -> (k * GroupSize < n)%Z -> group_ok k d.

Lemma group_at_app k a b : (0 <= k)%Z -> ((k + 1) * GroupSize <= slen a)%Z -> group_at k (a ++ b) = group_at k a.
Proof.
  intros Hk Ha. unfold group_at. rewrite sdrop_app_l by group_lia. apply stake_app_l. rewrite slen_sdrop; group_lia.
Qed.
Lemma all_groups n d : all_proved n d -> groups_proved d.
Proof. intros [Hn Hd] k Hk Hl. apply Hd; [done|]. group_lia. Qed.
Lemma groups_prefix a b : groups_proved (a ++ b) -> groups_proved a.
Proof.
  intros H k Hk Hl. unfold group_ok. rewrite <- (group_at_app k a b) by done. apply H; [done|]. rewrite slen_app.
  pose proof (slen_nonneg b). lia.
Qed.
Lemma groups_all d : (GroupSize | slen d)%Z -> groups_proved d -> all_proved (slen d) d.
Proof.
  intros [q Hq] H. split; [done|]. intros k Hk Hl. apply H; [done|]. group_lia.
Qed.

(** Writing the next group. *)
Section next.
Context (o want : Z) (d good : string) (Hd : all_proved o d) (Ho : (GroupSize | o)%Z).
Context (Hgood : slen good = want) (Hwant : (0 < want <= GroupSize)%Z).
Context (Hok : VerifyGroup good outboard o digest = true).

Lemma next_proved : all_proved (o + want) (d ++ good).
Proof.
  destruct Hd as [Hn Hg]. destruct Ho as [q Hq]. split; [rewrite slen_app; lia|]. intros k Hk Hl.
  destruct (Z.lt_ge_cases (k * GroupSize) o) as [Hlt|Hge].
  - unfold group_ok. rewrite group_at_app by (group_lia). by apply Hg.
  - assert (k = q) as -> by group_lia. unfold group_ok, group_at. rewrite <- Hq, <- Hn, sdrop_app_l by (pose proof (slen_nonneg d); group_lia).
    rewrite sdrop_all. cbn [append]. rewrite stake_all by group_lia. by rewrite Hn.
Qed.
Lemma next_partial n : groups_proved (d ++ stake n good).
Proof.
  intros k Hk Hl. destruct (Z.lt_ge_cases (slen (stake n good)) want) as [Hlt|Hge].
  - destruct Hd as [Hn Hg]. destruct Ho as [q Hq]. rewrite slen_app in Hl. assert (Hko : (k * GroupSize < o)%Z) by group_lia.
    unfold group_ok. rewrite group_at_app by (group_lia). by apply Hg.
  - destruct (stake_app n good) as [r Hr]. assert (r = ""%string) as ->.
    { pose proof (f_equal slen Hr) as E. rewrite slen_app in E. destruct r; [done|]. unfold slen in *. cbn in E. lia. }
    rewrite string_app_nil_r in Hr. rewrite <- Hr in Hl |- *. by eapply all_groups; [apply next_proved|..].
Qed.
End next.
End groups.

(** ** The client's calls *)
Section fetch.
Context {EX : Externals} {V : Type} (serve : message -> prog V response).
Context (J : V -> Prop) (Good : message -> ClaimResponse -> Prop) (Hserve : answers_well serve J Good).

(** Exchanges: what is known of the answer alone. *)
Lemma wp_talk {A : Type} (F : tree -> Prop) (p : prog (host V) A) (P : A -> Prop) (Q : A -> host V -> Prop) h :
  within (moving J eq) p -> (forall h, wp (fun _ => True) p (fun a _ => P a) h) -> inv J F h ->
  (forall a v, J v -> P a -> Q a (set_peer v h)) -> wp (inv J F) p Q h.
Proof.
  intros Hp HP [HJ HF] HQ. assert (Hset : forall h', moving J eq h h' -> J (peer h') /\ h' = set_peer (peer h') h).
  { intros [v t] Hm. destruct (Hm HJ) as [HJ' E]. cbn in *. by subst t. }
  eapply wp_mono; [| |exact (wp_and _ _ _ _ _ _ (Hp (moving J eq h) h (fun h' Hm => Hm)) (HP h))].
  - intros h' [Hm _]. destruct (Hset h' Hm) as [HJ' ->]. by split.
  - intros a h' [Hm Ha]. destruct (Hset h' Hm) as [HJ' ->]. by apply HQ.
Qed.

Lemma wp_any {A : Type} (p : prog (host V) A) h : wp (fun _ => True) p (fun _ _ => True) h.
Proof. apply wp_trivial. Qed.

Section segment.
Context (token : string) (seg : ClaimSegment) (p : path).

Definition at_disk (d : string) (h : host V) : Prop := look (files h) p = Some (CFile d).
Notation G := GroupSize.

(** *** Group by group *)
Section verified.
Context (outboard : string).
Notation proved := (all_proved outboard (cs_Digest seg)).

(** Only proved groups are on disk, at every moment. *)
Definition safe (t : tree) : Prop := forall d, look t p = Some (CFile d) -> groups_proved outboard (cs_Digest seg) d.

Lemma repairGroup_answer o want h : (0 <= want)%Z ->
  wp (fun _ => True) (repairGroup serve token seg o want outboard)
    (fun r _ => forall g, r = inr g -> slen g = want /\ VerifyGroup g outboard o (cs_Digest seg) = true) h.
Proof.
  intros Hw. unfold repairGroup. apply wp_bindE. eapply wp_wand; [apply wp_any|]. intros [e|[s broken]] h' _; [done|]. cbn [fst].
  destruct (Z.ltb_spec (slen s) want); [done|]. cbn [negb]. destruct (VerifyGroup _ _ _ _) eqn:Ev; [|done].
  intros g [= <-]. split; [by apply slen_stake|done].
Qed.

Lemma edit_here (f : string -> string) d t : look t p = Some (CFile d) -> look (edit p f t) p = Some (CFile (f d)).
Proof. intros Ht. by rewrite look_edit, Ht, decide_True. Qed.
Lemma safe_at d t : look t p = Some (CFile d) -> groups_proved outboard (cs_Digest seg) d -> safe t.
Proof. intros Ht Hd d' Hd'. rewrite Ht in Hd'. by injection Hd' as <-. Qed.

(** Writing a proved group at the end of the proved ones. *)
Lemma write_group_wp o want d good (Q : oserr + unit -> tree -> Prop) t : look t p = Some (CFile d) -> proved o d ->
  (G | o)%Z -> slen good = want -> (0 < want <= G)%Z -> VerifyGroup good outboard o (cs_Digest seg) = true ->
  (forall e t', safe t' -> Q (inl e) t') ->
  (forall t', look t' p = Some (CFile (d ++ good)%string) -> proved (o + want) (d ++ good)%string -> safe t' -> Q (inr tt) t') ->
  wp safe (WriteAt p o good) Q t.
Proof.
  intros Ht Hd Ho Hg Hw Hv He HQ. pose proof (next_proved _ _ o want d good Hd Ho Hg Hw Hv) as Hn.
  assert (Hlook : forall x, look (edit p (write_at o x) t) p = Some (CFile (d ++ x)%string)).
  { intros x. erewrite edit_here by exact Ht. destruct Hd as [<- _]. by rewrite write_at_end. }
  apply wp_act. intros r t' [[= <- <-]|(f & n & [= <-] & [= <- <-])].
  - assert (Hs : safe (edit p (write_at o good) t)) by (eapply safe_at; [apply Hlook|by eapply all_groups]). split; [done|]. by apply HQ.
  - assert (Hs : safe (edit p (write_at o (stake (Z.of_nat n) good)) t)).
    { eapply safe_at; [apply Hlook|]. by apply (next_partial _ _ o want). }
    split; [done|]. by apply He.
Qed.

Lemma fetch_group_wp tries body o want d h (Q : string + option string -> host V -> Prop) :
  inv J safe h -> at_disk d h -> proved o d -> (G | o)%Z -> (0 < want <= G)%Z ->
  (forall e h', inv J safe h' -> Q (inl e) h') ->
  (forall b d' h', inv J safe h' -> at_disk d' h' -> proved (o + want) d' -> Q (inr b) h') ->
  wp (inv J safe) (fetch_group serve tries token seg p outboard o want body) Q h.
Proof.
  intros Hh Hd Hp Ho Hw He HQ. revert body h Hh Hd. induction tries as [|tries IH]; intros body h Hh Hd; cbn [fetch_group]; [by apply He|].
  assert (Hpeer : forall v, J v -> inv J safe (set_peer v h)) by (intros v Hv; split; [done|apply Hh]).
  apply wp_bind. apply (wp_talk safe _ (fun _ => True)); [|intros h'; apply wp_any|done|].
  { destruct body; [apply within_ret; apply _|]. apply within_bindE; [apply _|eapply moving_SegmentReader; [exact Hserve|apply _]|].
    intros a. apply within_ret; apply _. }
  intros [e|s] v Hv _. { destruct (e =? err Network)%string; [apply IH; [by apply Hpeer|exact Hd]|by apply He, Hpeer]. }
  destruct (Z.ltb_spec (slen s) want) as [|Hs]; [apply IH; [by apply Hpeer|exact Hd]|]. cbv zeta.
  apply wp_bind. apply (wp_talk safe _ (fun r => forall g, r = inr g -> slen g = want /\ VerifyGroup g outboard o (cs_Digest seg) = true)); [| |by apply Hpeer|].
  { destruct (VerifyGroup _ _ _ _); [apply within_ret; apply _|eapply moving_repairGroup; [exact Hserve|apply _]]. }
  { intros h'. destruct (VerifyGroup (stake want s) _ _ _) eqn:Ev; [|apply repairGroup_answer; lia].
    intros g [= <-]. split; [apply slen_stake; lia|done]. }
  intros [e|good] v2 Hv2 Hg; [apply IH; [split; [done|apply Hh]|exact Hd]|]. destruct (Hg good eq_refl) as [Hg1 Hg2].
  unfold orE. apply wp_bind, wp_fs; [done|]. apply (write_group_wp o want d good); [exact Hd|done..| |].
  - intros e t' Ht'. by apply He.
  - intros t' Hl Hpr Hs'. cbn [wp]. eapply HQ; [split; [exact Hv2|exact Hs']|exact Hl|exact Hpr].
Qed.

Lemma fetch_groups_wp n body o d h (Q : string + unit -> host V -> Prop) :
  inv J safe h -> at_disk d h -> proved o d -> ((o < cs_Length seg)%Z -> (G | o)%Z) -> (o <= cs_Length seg <= o + Z.of_nat n * G)%Z ->
  (forall e h', inv J safe h' -> Q (inl e) h') ->
  (forall d' h', inv J safe h' -> at_disk d' h' -> proved (cs_Length seg) d' -> Q (inr tt) h') ->
  wp (inv J safe) (fetch_groups serve n token seg p outboard o body) Q h.
Proof.
  intros Hh Hd Hp Ho Hn He HQ. revert body o d h Hh Hd Hp Ho Hn. induction n as [|n IH]; intros body o d h Hh Hd Hp Ho Hn; cbn [fetch_groups].
  { assert (o = cs_Length seg) as -> by lia. by eapply HQ. }
  destruct (Z.leb_spec (cs_Length seg) o) as [Hle|Hlt]. { assert (o = cs_Length seg) as -> by lia. by eapply HQ. }
  cbv zeta. apply wp_bindE. eapply (fetch_group_wp 3 body o _ d); [done|done|done|by apply Ho|group_lia|done|].
  intros b d' h' Hh' Hd' Hp'. apply (IH b _ d' h' Hh' Hd' Hp'); [|group_lia]. intros Hmore.
  destruct (Ho Hlt) as [q ->]. exists (q + 1)%Z. group_lia.
Qed.

Lemma resume_offset_spec (info : oserr + node) d : (0 <= cs_Length seg)%Z ->
  match info with inl _ => True | inr n => content_of n = CFile d end ->
  (0 <= resume_offset (cs_Length seg) info <= Z.min (slen d) (cs_Length seg))%Z /\ (G | resume_offset (cs_Length seg) info)%Z.
Proof.
  intros Hl Hi. pose proof (slen_nonneg d) as Hd. assert (HG : (0 < G)%Z) by done. unfold resume_offset.
  destruct info as [e|[]]; cbn in Hi; [split; [lia|apply Z.divide_0_r]|done|]. injection Hi as ->. cbn [node_size].
  rewrite !Z.rem_mod_nonneg by done. pose proof (Z.mod_pos_bound (slen d) G HG). pose proof (Z.mod_pos_bound (cs_Length seg) G HG).
  assert (Hdiv : forall n, (G | n - n mod G)%Z).
  { intros n. exists (n / G)%Z. pose proof (Z.div_mod n G). group_lia. }
  pose proof (Z.mod_le (slen d) G Hd HG). pose proof (Z.mod_le (cs_Length seg) G Hl HG).
  destruct (Z.ltb_spec (cs_Length seg) (slen d - slen d mod G)); (split; [lia|apply Hdiv]).
Qed.

Lemma truncate_stake n d : (0 <= n <= slen d)%Z -> truncate n d = stake n d.
Proof. intros Hn. unfold truncate. replace (Z.to_nat (n - slen d)) with O by lia. apply string_app_nil_r. Qed.

Lemma open_wp (Q : oserr + unit -> tree -> Prop) t : safe t -> (forall e t', safe t' -> Q (inl e) t') ->
  (forall d t', look t' p = Some (CFile d) -> safe t' -> Q (inr tt) t') -> wp safe (OpenFile false p 384) Q t.
Proof.
  intros Ht He HQ. apply wp_act. intros r t' [Hs|(f & n & [= <-] & [= <- <-])]; [|split; [done|by apply He]]. unfold create in Hs.
  destruct (t !! p) as [[m mt|d m mt]|] eqn:E.
  - injection Hs as <- <-. split; [done|by apply He].
  - injection Hs as <- <-. split; [done|]. apply (HQ d); [by unfold look; rewrite E|done].
  - destruct (is_dir_at t (parent p)); injection Hs as <- <-; [|by split; [done|apply He]].
    assert (Hl : look (add_node p (NFile "" 384 None) t) p = Some (CFile "")) by (by rewrite look_add, decide_True).
    assert (Hs : safe (add_node p (NFile "" 384 None) t)).
    { eapply safe_at; [exact Hl|]. intros k Hk Hk2. unfold slen in Hk2. cbn in Hk2. group_lia. }
    by split; [|eapply HQ].
Qed.

Lemma cut_wp o d (Q : oserr + unit -> tree -> Prop) t : look t p = Some (CFile d) -> safe t -> (0 <= o <= slen d)%Z -> (G | o)%Z ->
  (forall e t', safe t' -> Q (inl e) t') ->
  (forall t', look t' p = Some (CFile (stake o d)) -> proved o (stake o d) -> safe t' -> Q (inr tt) t') ->
  wp safe (Truncate p o) Q t.
Proof.
  intros Hd Ht Ho Hg He HQ. apply wp_act. intros r t' [[= <- <-]|(f & n & [= <-] & [= <- <-])]; [|split; [done|by apply He]].
  destruct (stake_sdrop o d Ho) as [Hsplit Hlen].
  assert (Hp : groups_proved outboard (cs_Digest seg) (stake o d)).
  { apply (groups_prefix _ _ _ (sdrop o d)). rewrite <- Hsplit. by apply Ht. }
  assert (Hl : look (edit p (truncate o) t) p = Some (CFile (stake o d))).
  { erewrite edit_here by exact Hd. by rewrite truncate_stake. }
  assert (Hs : safe (edit p (truncate o) t)) by (by eapply safe_at). split; [done|]. apply HQ; [done| |done].
  rewrite <- Hlen at 1. apply groups_all; [by rewrite Hlen|done].
Qed.

Lemma fetchVerified_wp h (Q : string + unit -> host V -> Prop) : (0 <= cs_Length seg)%Z -> inv J safe h ->
  (forall e h', inv J safe h' -> Q (inl e) h') ->
  (forall d h', inv J safe h' -> at_disk d h' -> proved (cs_Length seg) d -> Q (inr tt) h') ->
  wp (inv J safe) (fetchVerified serve token seg p outboard) Q h.
Proof.
  intros Hlen Hh He HQ. unfold fetchVerified, orE at 1. apply wp_bind, wp_fs; [apply Hh|]. apply open_wp; [apply Hh| |].
  { intros e t' Ht'. apply He. by split; [apply Hh|]. }
  intros d t1 Hd Ht1. apply wp_bind, wp_fs; [apply Hh|]. apply wp_Stat; [done|]. intros info Hi. cbv zeta.
  destruct (resume_offset_spec info d Hlen) as [Ho Hg].
  { destruct info as [e|n]; [done|]. cbn in Hi, Hd. unfold look in Hd. rewrite Hi in Hd. by injection Hd. }
  revert Ho Hg. generalize (resume_offset (cs_Length seg) info). intros o Ho Hg.
  destruct (Z.leb_spec 0 o); [|lia]. unfold orE at 1. apply wp_bind, wp_fs; [apply Hh|].
  apply (cut_wp o d); [done|done|lia|done| |].
  { intros e t' Ht'. apply He. by split; [apply Hh|]. }
  intros t2 Hd2 Hp2 Ht2. apply wp_bindE. eapply (fetch_groups_wp _ None o (stake o d)); [by split; [apply Hh|]|exact Hd2|done|done| | |].
  { unfold groups_left. pose proof (Z.div_mod (cs_Length seg - o + G - 1) G). pose proof (Z.mod_pos_bound (cs_Length seg - o + G - 1) G).
    pose proof (Z.div_pos (cs_Length seg - o + G - 1) G). group_lia. }
  { done. }
  intros d3 h3 Hh3 Hd3 Hp3. unfold orE. apply wp_bind, wp_fs; [apply Hh3|]. apply wp_Sync; [apply Hh3|].
  intros [e|[]]; [by apply He; destruct h3|by eapply (HQ d3); destruct h3].
Qed.
End verified.
End segment.
End fetch.

(** ** Any peer *)
Section any_peer.
Context {EX : Externals} {V : Type} (serve : message -> prog V response).
Context (token : string) (seg : ClaimSegment) (p : path).

Lemma anyone_answers : answers_well serve (fun _ => True) (fun _ _ => True).
Proof. intros m v _ _. eapply wp_wand; [apply wp_trivial|]. done. Qed.

(** *** Whole segments, compared at the end *)
Definition whole (d : string) : Prop := slen d = cs_Length seg /\ HashBytes d = cs_Digest seg.

Lemma hash_wp (h : host V) : wp (fun _ => True) (fs (HashFile p))
  (fun (r : oserr + string * Z) h' => forall x n, r = inr (x, n) -> exists d, at_disk p d h' /\ x = HashBytes d /\ n = slen d) h.
Proof.
  eapply wp_mono; [| |apply (wp_fs (fun _ => True) (fun _ => True) (HashFile p) (fun r h' => forall x n, r = inr (x, n) ->
    exists d, at_disk p d h' /\ x = HashBytes d /\ n = slen d) h I)]; [done|done|].
  unfold HashFile. apply wp_bindE, wp_ReadFile; [done|]. intros [e|d] Hd; cbn [wp]; [done|]. intros x n [= <- <-]. by exists d.
Qed.

Lemma fetch_attempts_wp tries h : wp (fun _ => True) (fetch_attempts serve tries token seg p)
  (fun r h' => r = inr tt -> exists d, at_disk p d h' /\ whole d) h.
Proof.
  revert h. induction tries as [|tries IH]; intros h; cbn [fetch_attempts]; [done|].
  apply wp_bind. eapply wp_wand; [apply wp_trivial|]. intros offset h1 _. cbv beta.
  apply wp_bind. eapply wp_wand; [apply wp_trivial|]. intros [| e|] h2 _; [by apply IH|done|].
  unfold orE. apply wp_bind. eapply wp_wand; [apply hash_wp|]. intros [e|[x n]] h3 Hh; [done|]. cbn [fst snd].
  destruct (Hh x n eq_refl) as (d & Hd & -> & ->).
  destruct (Z.eqb_spec (slen d) (cs_Length seg)); [destruct (String.eqb_spec (HashBytes d) (cs_Digest seg))|]; cbn [andb].
  { intros _. by exists d. }
  all: apply wp_bind; eapply wp_wand; [apply wp_trivial|]; intros r h4 _; apply IH.
Qed.

(** *** One segment *)

(** What a fetched segment is: of the declared length, and with the declared digest or
    proved group by group. *)
Definition fetched (d : string) : Prop := whole d \/ exists outboard, all_proved outboard (cs_Digest seg) (cs_Length seg) d.

Lemma fetchVerified_any outboard h : (0 <= cs_Length seg)%Z -> safe seg p outboard (files h) ->
  wp (fun h' => safe seg p outboard (files h')) (fetchVerified serve token seg p outboard)
    (fun r h' => r = inr tt -> exists d, at_disk p d h' /\ all_proved outboard (cs_Digest seg) (cs_Length seg) d) h.
Proof.
  intros Hlen Hs. eapply wp_mono; [| |apply (fetchVerified_wp serve (fun _ => True) (fun _ _ => True) anyone_answers token seg p outboard h
    (fun r h' => r = inr tt -> exists d, at_disk p d h' /\ all_proved outboard (cs_Digest seg) (cs_Length seg) d))].
  - by intros h' [_ H].
  - done.
  - done.
  - done.
  - done.
  - intros d h' _ Hd Hp _. by exists d.
Qed.

Lemma fetchOneSegment_wp h : (0 <= cs_Length seg)%Z -> look (files h) p = None ->
  wp (fun _ => True) (fetchOneSegment serve token seg p) (fun r h' => r = inr tt -> exists d, at_disk p d h' /\ fetched d) h.
Proof.
  intros Hlen Hn. assert (Hw : forall h', wp (fun _ => True) (fetchSegment serve token seg p)
    (fun r h' => r = inr tt -> exists d, at_disk p d h' /\ fetched d) h').
  { intros h'. eapply wp_wand; [apply fetch_attempts_wp|]. intros r h2 Hr ->. destruct (Hr eq_refl) as (d & ? & ?). exists d. split; [done|by left]. }
  unfold fetchOneSegment. destruct (_ || _); [apply Hw|].
  assert (Hq : wp (fun _ => True) (OutboardBytes serve (cs_OutboardPath seg) token (cs_OutboardLength seg)) (fun _ h' => files h' = files h) h).
  { assert (Hm : within (moving (fun _ : V => True) eq) (OutboardBytes serve (cs_OutboardPath seg) token (cs_OutboardLength seg))).
    { eapply moving_OutboardBytes; [apply anyone_answers|apply _]. }
    apply (wp_within _ _ _ _ _ Hm); [done|]. intros a h' Hm'. by destruct (Hm' I). }
  apply wp_bind. eapply wp_wand; [exact Hq|]. intros [e|ob] h1 E; [apply Hw|].
  eapply wp_mono; [| |apply (fetchVerified_any ob h1 Hlen)]; [done| |].
  - intros r h2 Hr ->. destruct (Hr eq_refl) as (d & ? & ?). exists d. split; [done|right]. by exists ob.
  - intros d Hd. by rewrite E, Hn in Hd.
Qed.

(** C14: a verified download can be interrupted anywhere and resumed.  Whatever the peer
    answers, whatever fails and wherever fetchVerified is killed: when every complete
    verification group of the file was proved against the digest before (so it is for no
    file at all, and for what an earlier run left), every complete group is proved after,
    and an answer without error means that the file has the declared length and all of it
    is proved. *)
Theorem verified_fetch_resumable outboard es (h h' : host V) out : (0 <= cs_Length seg)%Z ->
  safe seg p outboard (files h) -> run (fetchVerified serve token seg p outboard) es h = (out, h') ->
  safe seg p outboard (files h') /\
  (out = Some (inr tt) -> exists d, at_disk p d h' /\ all_proved outboard (cs_Digest seg) (cs_Length seg) d).
Proof.
  intros Hlen Hs E. destruct (wp_sound _ _ _ es h Hs (fetchVerified_any outboard h Hlen Hs)) as [H1 H2].
  rewrite E in H1, H2. split; [exact H1|]. intros ->. exact (H2 _ eq_refl eq_refl).
Qed.

(** What the digest means for the text [S]: no other text of its length has it, and a group
    is proved at an offset of [S] only when it is the group of [S] there. *)
Definition digest_stands_for (S : string) : Prop :=
  (forall d, slen d = slen S -> HashBytes d = HashBytes S -> d = S) /\
  (forall chunk ob o, (0 <= o < slen S)%Z -> (GroupSize | o)%Z -> VerifyGroup chunk ob o (HashBytes S) = true ->
     chunk = stake GroupSize (sdrop o S)).

Lemma groups_are S d ob : digest_stands_for S -> all_proved ob (HashBytes S) (slen S) d -> d = S.
Proof.
  intros [_ Hg] [Hlen Hd].
  assert (G : forall n, stake (Z.of_nat n * GroupSize) d = stake (Z.of_nat n * GroupSize) S).
  { induction n as [|n IH]; [by destruct d, S|].
    replace (Z.of_nat (Datatypes.S n) * GroupSize)%Z with (Z.of_nat n * GroupSize + GroupSize)%Z by lia.
    destruct (Z.le_gt_cases (slen S) (Z.of_nat n * GroupSize)) as [Hn|Hn].
    - rewrite (stake_all _ d), (stake_all _ S) in IH by group_lia. by rewrite !(stake_all (_ + _)) by group_lia.
    - rewrite !stake_plus, IH by group_lia. f_equal. transitivity (group_at (Z.of_nat n) d); [done|].
      eapply Hg; [group_lia|apply Z.divide_factor_r|apply Hd; lia]. }
  specialize (G (Z.to_nat (slen S))). pose proof (slen_nonneg S). rewrite (stake_all _ d), (stake_all _ S) in G by group_lia. done.
Qed.

(** C13: the bytes of a segment are exactly the sender's, whatever the peer is and does.  When
    the file was absent, fetchOneSegment answers without error, over a verification tree or
    by the digest of the whole, only with the text at the path whose digest and length the
    claim names. *)
Theorem fetched_exactly S es (h h' : host V) : cs_Length seg = slen S -> cs_Digest seg = HashBytes S ->
  digest_stands_for S -> look (files h) p = None ->
  run (fetchOneSegment serve token seg p) es h = (Some (inr tt), h') -> look (files h') p = Some (CFile S).
Proof.
  intros Hlen Hdig HS Hn E. pose proof (slen_nonneg S) as H0. rewrite <- Hlen in H0.
  destruct (wp_sound _ _ _ es h I (fetchOneSegment_wp h H0 Hn)) as [_ H]. rewrite E in H.
  destruct (H _ eq_refl eq_refl) as (d & Hd & Hf). replace S with d; [done|]. destruct Hf as [[Hl Hw]|[ob Ha]].
  - apply HS; congruence.
  - rewrite Hlen, Hdig in Ha. by eapply groups_are.
Qed.
End any_peer.

(** ** A peer that spoils the first group it sends *)

(** hex.DecodeString reads back what hex.EncodeToString writes. *)
Lemma DecodeString_EncodeToString l : Forall (fun b => 0 <= b < 256)%Z l -> DecodeString (EncodeToString l) = Some l.
Proof.
  unfold EncodeToString. induction 1 as [|b l Hb _ IH]; [done|]. cbn [map]. rewrite join_nil_cons. cbn [hex_byte append DecodeString].
  rewrite IH. assert (Hd : forall z, (0 <= z < 16)%Z -> hex_val (hex_digit z) = Some z).
  { intros z Hz. assert (z ∈ seqZ 0 16) as Hin by (apply elem_of_seqZ; lia). clear Hz. revert z Hin.
    apply Forall_forall. by repeat constructor. }
  rewrite !Hd by (apply Z.mod_pos_bound || (split; [apply Z.div_pos|apply Z.div_lt_upper_bound]); lia).
  f_equal. f_equal. pose proof (Z.div_mod b 16). lia.
Qed.

(** A digest that is the text itself when it has 32 bytes, and one group per text. *)
Definition plain32 (s : string) : list Z :=
  if (String.length s =? 32)%nat then map byte_val (list_ascii_of_string s) else repeat 0%Z 32.
Definition plain_externals : Externals := {|
  blake3 := plain32; bao_encode := fun d => (""%string, plain32 d); EncodedSize := fun n => 8%Z;
  VerifyChunk := fun d _ o root => (o =? 0)%Z && bool_decide (plain32 d = root); sha256 := plain32;
  unpack := fun _ => []; dir_size := 4096 |}.
Definition sent_text : string := "thirty-two bytes from the sender".

Lemma plain32_inj d : plain32 d = plain32 sent_text -> d = sent_text.
Proof.
  unfold plain32 at 1. destruct (_ =? _)%nat; [|by intros E; vm_compute in E].
  change (plain32 sent_text) with (map byte_val (list_ascii_of_string sent_text)). intros E.
  assert (G : forall a b, map byte_val a = map byte_val b -> a = b).
  { induction a as [|x a IH]; intros [|y b]; cbn; try done. intros [= Hx Hr]. by rewrite (byte_val_inj x y), (IH b). }
  apply G in E. rewrite <- (string_of_list_ascii_of_string d), E. done.
Qed.
Lemma plain32_bytes d : Forall (fun b => 0 <= b < 256)%Z (plain32 d).
Proof.
  unfold plain32. destruct (_ =? _)%nat; [|by repeat constructor]. apply Forall_map, Forall_forall. intros a _. apply byte_val_range.
Qed.
Lemma sent_digest : digest_stands_for (EX := plain_externals) sent_text.
Proof.
  pose proof (DecodeString_EncodeToString _ (plain32_bytes sent_text)) as Hd. split.
  - intros d _ Hh. apply plain32_inj. pose proof (DecodeString_EncodeToString _ (plain32_bytes d)) as Hd2.
    unfold HashBytes, blake3, plain_externals in Hh. rewrite Hh in Hd2. congruence.
  - intros c ob o Ho [q ->] Hv. assert (q = 0%Z) as -> by (change GroupSize with 65536%Z in *; change (slen sent_text) with 32%Z in *; lia).
    unfold VerifyGroup, HashBytes, blake3, VerifyChunk, plain_externals in Hv. rewrite Hd in Hv.
    change (length (plain32 sent_text)) with 32%nat in Hv. cbn [Nat.eqb negb] in Hv. apply andb_true_iff in Hv as [_ Hv%bool_decide_eq_true].
    by rewrite (plain32_inj c Hv).
Qed.

(** The peer counts its answers: the tree first, then a spoiled group, then the text. *)
Definition spoiling (m : message) : prog nat response :=
  act_ (fun n => (Api.mkResponse 200 [] (BText (match n with O => "tree" | 1%nat => "not what the sender has committed" | _ => sent_text end)), S n)).
Definition sent_segment : ClaimSegment :=
  mkClaimSegment "s" "pack" 32 (@HashBytes plain_externals sent_text) "/v1/segment" "/v1/outboard" 4.

Definition disk (t : tree) : host nat := mkHost O t.
Definition blank : tree := {[ [] := NDir 493 None ]}.
Definition fetch_segment (es : list event) : option (string + unit) * host nat :=
  run (fetchOneSegment (EX := plain_externals) spoiling "token" sent_segment ["s"%string]) es (disk blank).

(** The spoiled group is fetched again, and the file holds what was sent. *)
Lemma fetched_exactly_witness : exists h, fetch_segment [] = (Some (inr tt), h) /\ look (files h) ["s"%string] = Some (CFile sent_text) /\
  peer h = 3%nat.
Proof.
  destruct (fetch_segment []) as [out h] eqn:E. exists h.
  assert (out = Some (inr tt)) as -> by (change out with (fst (out, h)); rewrite <- E; vm_compute; reflexivity). split; [reflexivity|]. split.
  - exact (fetched_exactly (EX := plain_externals) spoiling "token" sent_segment ["s"%string] sent_text [] (disk blank) h
      eq_refl eq_refl sent_digest eq_refl E).
  - change h with (snd (Some (inr tt : string + unit), h)). rewrite <- E. by vm_compute.
Defined.

(** A short write leaves five bytes of an unproved group; the next run starts that group over. *)
Definition resume_fetch (es : list event) (t : tree) : option (string + unit) * host nat :=
  run (fetchVerified (EX := plain_externals) spoiling "token" sent_segment ["s"%string] "tree") es (mkHost 2%nat t).

Lemma verified_fetch_resumable_witness :
  let first := resume_fetch (repeat Fine 6 ++ [Alt 5]) blank in
  let second := resume_fetch [] (files (snd first)) in
  look (files (snd first)) ["s"%string] = Some (CFile "thirt") /\ fst first = Some (inl "DESTINATION_EXISTS"%string) /\
  exists d, at_disk ["s"%string] d (snd second) /\ all_proved (EX := plain_externals) "tree" (cs_Digest sent_segment) 32 d.
Proof.
  cbv zeta. split; [by vm_compute|]. split; [by vm_compute|].
  destruct (resume_fetch (repeat Fine 6 ++ [Alt 5]) blank) as [out h] eqn:E. cbn [snd].
  destruct (verified_fetch_resumable (EX := plain_externals) spoiling "token" sent_segment ["s"%string] "tree" _ (mkHost 2%nat blank) h out ltac:(done)
    ltac:(by intros d Hd) E) as [Hs _].
  destruct (resume_fetch [] (files h)) as [out2 h2] eqn:E2. cbn [snd].
  apply (verified_fetch_resumable (EX := plain_externals) spoiling "token" sent_segment ["s"%string] "tree" _ (mkHost 2%nat (files h)) h2 out2 ltac:(done) Hs E2).
  change out2 with (fst (out2, h2)). rewrite <- E2. change h with (snd (out, h)). rewrite <- E. vm_compute. reflexivity.
Defined.
