(* ===== verification/Handoff.v ===== *)
(** * The client and the server together

    The receiving client of Recv.v run against the handlers of Api.v: what a receiver finds
    at its destination is what was committed under the code. *)
From S2P Require Import Prelude GoStrings GoTime GoHttp Errors Code Paths Manifest Wire Admission Prog Tree Integrity.
From S2P Require Import Materialize Archive Store Config World Service Upload Commit Simple Janitor Api Safety.
From S2P Require Import ServiceProofs UploadProofs CommitProofs SimpleProofs JanitorProofs ReconcileProofs.
From S2P Require Import ApiProofs System Durability Resume Demo Guarantees HttpGuarantees.
From S2P Require Import Host Net Client Recv RecvProofs.
Local Open Scope prog_scope.

Section handoff.
Context {UC : Unicode} {EX : Externals} {EL : ExternalsLaws} {MC : ManifestCodec} {ML : ManifestCodecLaws}.
Context (cfg : Server) (ready : bool).
#[local] Existing Instance leniently.
Notation server := (serve cfg (public_routes ready)).

(** A claim stands for the transfer its code resolved to when the request was handled, and
    carries that transfer's live manifest. *)
Definition stands_for (code : string) (w : world) (c : ClaimResponse) : Prop :=
  exists t, resolves w code t /\ exists w2, Inv w2 /\ live_stays w w2 /\ live_manifest w2 (t_ID t) (cl_Manifest c) /\
    exists id outboards, cl_Segments c = map (claim_segment_of id outboards) (Segments (cl_Manifest c)).

Lemma CreateClaim_wp code w : Inv w ->
  wp Inv (service_CreateClaim code) (fun r w1 => Inv w1 /\ forall c, r = inr c -> stands_for code w c) w.
Proof.
  intros Hw. unfold service_CreateClaim. apply wp_bindE, lookupCommitted_wp; [done|].
  intros [e|t] w1 Hw1 Hs1 Ht; [done|]. destruct (Ht t eq_refl) as (Hres & _ & _).
  apply wp_bindE, service_Manifest_wp; [done|]. intros [e|m] w2 Hw2 Hs2 Hm; [done|].
  assert (Hend : forall a w3, Inv w3 -> (forall c, a = inr c -> cl_Manifest c = m /\
      exists id ob, cl_Segments c = map (claim_segment_of id ob) (Segments m)) ->
    Inv w3 /\ forall c : ClaimResponse, (a : ecode + ClaimResponse) = inr c -> stands_for code w c).
  { intros a w3 Hw3 Ha. split; [done|]. intros c ->. destruct (Ha c eq_refl) as [<- Hsegs]. exists t. split; [done|].
    exists w2. split; [done|]. split; [by etrans|]. split; [by apply Hm|done]. }
  apply wp_calm; [done|auto with within|]. intros now w3 Hw3 _.
  apply wp_calm; [done|auto with within|]. intros token w4 Hw4 _.
  apply wp_calm; [done|auto with within|]. intros id w5 Hw5 _. cbv zeta. unfold orE.
  apply wp_calm; [done|auto with within|]. intros [e|[]] w6 Hw6 _; [by apply Hend|].
  apply wp_calm; [done|apply calm_outboards|]. intros ob w7 Hw7 _. apply Hend; [done|]. intros c [= <-]. cbn.
  split; [done|]. by exists id, ob.
Qed.

(** ** What a receiver's messages reach *)

Lemma dispatch_inv m (routes : list route) r : dispatch m routes = Some r ->
  exists method pattern f vs, (method, pattern, f) ∈ routes /\ match_pattern pattern (q_Path (m_http m)) = Some vs /\
    method_ok method (q_Method (m_http m)) = true /\ r = f vs.
Proof.
  induction routes as [|[[method pattern] f] routes IH]; [done|]. cbn [dispatch].
  destruct (match_pattern pattern _) as [vs|] eqn:Em; [destruct (method_ok method _) eqn:Eo|].
  1: intros [= <-]; exists method, pattern, f, vs; by split_and!; [left|..].
  all: intros H; destruct (IH H) as (a & b & g & vs' & Hin & ? & ? & ?); exists a, b, g, vs'; by split_and!; [right|..].
Qed.

Lemma claims_path x : exists s ss, split "/" (before "?" ("/v1/claims" ++ x)) = ""%string :: "v1"%string :: ("claims" ++ s)%string :: ss.
Proof.
  cbn [before append Ascii.eqb Bool.eqb]. set (y := before "?" x). cbn [split Ascii.eqb Bool.eqb].
  destruct (split "/" y) as [|w ws] eqn:E; [by apply split_cons_ne in E|]. by exists w, ws.
Qed.

Lemma asked_admissible m r w : asking m -> dispatch m (public_routes ready m) = Some r -> admissible r w.
Proof.
  intros [Hp Hm] (method & pattern & f & vs & Hin & Hpat & Hok & ->)%dispatch_inv.
  assert (Hno : method = "POST"%string -> pattern = "/s"%string \/ pattern = "/s/raw"%string \/ pattern = "/v1/transfers"%string -> False).
  { intros -> Hpats. destruct Hm as [Hm|[Hm [x Hx]]]; [by rewrite Hm in Hok|]. unfold match_pattern in Hpat. rewrite Hx in Hpat.
    destruct (claims_path x) as (s & ss & E). rewrite E in Hpat. by destruct Hpats as [->|[->| ->]]. }
  unfold public_routes in Hin. rewrite !elem_of_cons in Hin.
  repeat destruct Hin as [[= -> -> ->]|Hin]; try done; try (exfalso; apply Hno; [done|tauto]).
  - cbn. by destruct Hp as [->|[c ->]].
  - by apply elem_of_nil in Hin.
Qed.

(** *** The server is a peer a receiver can trust *)
Definition served_claim (w : world) (m : message) (c : ClaimResponse) : Prop :=
  exists code, m = claim_message code /\ stands_for code w c.

Lemma finish_claim q r c : r_Body (finish q r) = BClaim c -> r_Body r = BClaim c.
Proof.
  unfold finish, serve_range. destruct (_ =? _)%string; [done|]. intros H.
  destruct (r_Body r) as [| | | | | | | | | | | |name d|] eqn:E; try congruence. cbv zeta in H.
  destruct (_ || _); [congruence|].
  by destruct (if has_prefix "bytes=" (header q "Range") then parse_range (sdrop 6 (header q "Range")) (slen d) else None) as [[a b]|].
Qed.

Lemma claim_answer code w : Inv w -> claims_well server Inv (served_claim w) code w.
Proof.
  intros Hw. unfold claims_well, serve. replace (dispatch (claim_message code) (public_routes ready (claim_message code)))
    with (Some (PostClaims (m_http (claim_message code)) (Some code))) by (by vm_compute).
  apply wp_bind. cbn [handle]. unfold handleCreateClaim. apply wp_bind. eapply wp_wand; [by apply CreateClaim_wp|].
  intros [e|c0] w1 [Hw1 Hc]; cbn [wp]; (split; [done|]); intros c Hb%finish_claim; [done|]. injection Hb as <-.
  exists code. split; [done|by apply Hc].
Qed.

Lemma server_answers_well : answers_well server Inv (fun _ _ => True).
Proof.
  intros m w Hm Hw. unfold serve. destruct (dispatch m _) as [r|] eqn:Er; [|done]. apply wp_bind.
  eapply wp_wand; [exact (handle_wp cfg r w Hw (asked_admissible m r w Hm Er))|]. by intros a w' Ha.
Qed.

(** The server's claims name entries by portable paths and segments by plain names. *)
Lemma served_claim_ok w m c : served_claim w m c -> claim_ok c.
Proof.
  intros (code & _ & t & _ & w2 & _ & _ & Hlm & id & ob & Hsegs).
  pose proof (live_manifest_ok _ _ _ Hlm) as (_ & _ & _ & _ & _ & _ & _ & _ & _ & _ & _ & _ & _ & Hent & _).
  split; [eapply Forall_impl; [exact Hent|]; by intros e []|]. rewrite Hsegs. apply Forall_map.
  destruct Hlm as (tr & _ & _ & _ & Hheld). eapply Forall_impl; [exact Hheld|]. by intros s [? _].
Qed.

(** ** The main theorem of the receiving side *)

(** [t'] is the machine [t] with the payload of [code] at [D], where nothing was before, and
    nothing else changed but one hidden working directory. *)
Definition delivery (w : world) (code : string) (D : path) (t t' : tree) : Prop :=
  exists c, stands_for code w c /\ look t D = None /\ delivered D (cl_Manifest c) t' /\
    exists P, hidden P /\ forall q, strip P q = None -> strip D q = None -> look t' q = look t q.

Lemma handed_over_delivery w code D c t t' : handed_over (served_claim w) t (claim_message code) D c t' -> delivery w code D t t'.
Proof. intros ((code' & [= <-] & Hs) & Hn & Hd & Hrest). by exists c. Qed.

(** What a receive from the world [w] leaves on the receiver's machine. *)
Lemma receive_outcome w cwd t opts es out h : Inv w -> Forall (fun c => plain c = true) cwd -> well_formed t ->
  look t cwd = Some CDir -> run (Recv server cwd opts) es (mkHost w t) = (out, h) ->
  (untouched t (files h) \/ exists D, delivery w (ro_Code opts) D t (files h)) /\
  (forall e, out = Some (inl e) -> untouched t (files h)) /\
  (forall res, out = Some (inr res) -> exists D, rr_Path res = rooted D /\ delivery w (ro_Code opts) D t (files h)).
Proof.
  intros Hw Hcwd Hwf Hdir E.
  pose proof (Recv_wp server Inv (served_claim w) server_answers_well (served_claim_ok w) cwd Hcwd t Hwf Hdir opts (mkHost w t) Hw
    (claim_answer _ w Hw) eq_refl) as Hwp.
  assert (H0 : inv Inv (intact (served_claim w) t (claim_message (ro_Code opts))) (mkHost w t)) by (split; [done|left; apply untouched_refl]).
  destruct (wp_sound _ _ _ es _ H0 Hwp) as [[_ HI] HQ]. rewrite E in HI, HQ. cbn in HI, HQ.
  split; [|split].
  - destruct HI as [?|(D & c & Ho)]; [by left|right]. exists D. by eapply handed_over_delivery.
  - intros e ->. exact (HQ _ eq_refl).
  - intros res ->. destruct (HQ _ eq_refl) as (D & c & Hp & Ho & _). exists D. split; [done|]. by eapply handed_over_delivery.
Qed.

(** C7: receiving is atomic and complete.  Run against the server in any reachable state,
    whatever fails on the network, on the receiver's disk or in the server, and wherever
    the receiver is killed: the receiver's machine is as before up to one hidden working
    directory, or a destination that did not exist holds every entry of the manifest
    published under the code when the receive began, each file with its declared size and
    digest.  When Recv answers a path, that is the destination; when it answers an error,
    there is none. *)
Theorem receive_delivers restarts w b cwd t opts es out h :
  reachable cfg restarts (mkRunning w b) -> Forall (fun c => plain c = true) cwd -> well_formed t ->
  look t cwd = Some CDir -> run (Recv server cwd opts) es (mkHost w t) = (out, h) ->
  (untouched t (files h) \/ exists D, delivery w (ro_Code opts) D t (files h)) /\
  (forall e, out = Some (inl e) -> untouched t (files h)) /\
  (forall res, out = Some (inr res) -> exists D, rr_Path res = rooted D /\ delivery w (ro_Code opts) D t (files h)).
Proof. intros Hr. apply receive_outcome. exact (reachable_world cfg _ _ _ Hr). Qed.
End handoff.

(** *** A receiver in [/home/u] *)
Definition home : tree :=
  {[ [] := NDir 493 None; ["home"%string] := NDir 493 None; ["home"; "u"]%string := NDir 493 None ]}.
Definition cwd : path := ["home"; "u"]%string.
Definition plan_code : string :=
  match Demo.answer post_commit uploaded with
  | Some r => match r_Body r with BCommit c => co_Code c | _ => "" end
  | None => ""
  end.
Definition receive (w : world) (code dest : string) (es : list event) : option (string + RecvResult) * host world :=
  run (Recv (serve Demo.cfg (public_routes true)) cwd (mkRecvOptions code dest)) es (mkHost w home).

Lemma home_well_formed : well_formed home.
Proof. apply well_formedb_sound. by vm_compute. Qed.

(** The transfer of the plan arrives as [/home/u/box]. *)
Lemma receive_delivers_witness : exists res h, receive committed plan_code "box" [] = (Some (inr res), h) /\
  (exists D, rr_Path res = rooted D /\ delivery committed plan_code D home (files h)) /\
  rr_Path res = "/home/u/box"%string /\
  look (files h) ["home"; "u"; "box"; "docs"; "b.txt"]%string = Some (CFile "hi").
Proof.
  destruct (fst (receive committed plan_code "box" [])) as [[e|res]|] eqn:E; [by vm_compute in E| |by vm_compute in E].
  exists res, (snd (receive committed plan_code "box" [])). pose proof (answer_pair _ _ _ _ E) as E'. split; [exact E'|].
  assert (Hc : Forall (fun c => plain c = true) cwd) by by repeat constructor.
  split.
  - exact (proj2 (proj2 (receive_delivers Demo.cfg true any_schedule committed true cwd home (mkRecvOptions plan_code "box") [] _ _
      (committed_reachable any_schedule I) Hc home_well_formed eq_refl E')) res eq_refl).
  - vm_compute in E. injection E as <-. split; [done|]. by vm_compute.
Defined.
