(* ===== verification/Pack.v ===== *)
(** * The sender's planner: internal/pack

    How a sender's files become a manifest and its segments: a raw segment for a large file,
    packs for the small ones.  A machine has directories and regular files only, so the
    branches that reject symbolic links, devices, sockets and FIFOs have no counterpart. *)
From Stdlib Require Import SpecFloat.
From S2P Require Import Prelude GoStrings GoTime Errors Paths Manifest Prog Tree Integrity Host.
Local Open Scope prog_scope.

Definition RawThreshold : Z := 2^20.
Definition PackTarget : Z := 64 * 2^20.

(** A file that will be sent; AbsPath is given by its components. *)
Record Source := mkSource {
  src_AbsPath : path; src_RelPath : string; src_Size : Z; src_MTimeNS : Z; src_Mode : Z; src_Digest : string }.
Record PackSpec := mkPackSpec { ps_SegmentID : string; ps_Files : list Source; ps_RawBytes : Z }.

(** RawFiles lists the map in the order of insertion; where the code ranges over it, the
    order is chosen by [any_order]. *)
Record Plan := mkPlan {
  p_Roots : list string; p_Entries : list Entry; p_RawFiles : list (string * Source); p_Packs : list PackSpec;
  p_TotalBytes : Z; p_FileCount : Z; p_DirCount : Z }.

(** A Go map is ranged over in any order. *)
Definition any_order {W A : Type} (l : list A) : prog W (list A) :=
  act (fun w => (l, w)) (Some (fun n w => (default l (permutations l !! n), w))).

(** ** Reading the sources *)

Definition mtime_of (n : node) : option Z := match n with NDir _ mt | NFile _ _ mt => mt end.
Definition mode_of (n : node) : Z := match n with NDir m _ | NFile _ m _ => m end.
Definition size_of (n : node) : Z := match n with NDir _ _ => 0 | NFile d _ _ => slen d end.

(** os.Lstat and DirEntry.Info: the node and its modification time, which is any time where
    no Chtimes set it. *)
Definition Lstat (p : path) : prog tree (oserr + node * Z) :=
  act (fun t => (match t !! p with Some n => inr (n, default 0%Z (mtime_of n)) | None => inl ErrNotExist end, t))
      (Some (fun k t => (match k, t !! p with
                         | S k, Some n => inr (n, default (int64 (default 0%Z (decode_nat k))) (mtime_of n))
                         | _, _ => inl ErrOther
                         end, t))).

(** fmt.Sprintf of a name with %04d *)
Definition pad4 (i : Z) : string :=
  let s := FormatInt i in
  if (i <? 10)%Z then ("000" ++ s)%string else if (i <? 100)%Z then ("00" ++ s)%string
  else if (i <? 1000)%Z then ("0" ++ s)%string else s.

Section scan.
Context {UC : Unicode} {EX : Externals}.

Definition exec_mode (m : Z) : Z := if negb (Z.land m 73 =? 0)%Z then 493%Z else 420%Z.

Definition readSource (p : path) (relPath : string) (info : node * Z) : prog tree (ecode + Source) :=
  h <-? HashFile p orelse InvalidPath ;;
  ensure (snd h =? size_of (fst info))%Z orelse SourceChanged ;;
  Ret (inr (mkSource p relPath (snd h) (snd info) (exec_mode (mode_of (fst info))) (fst h))).

(** *** walkDir

    filepath.WalkDir visits the nodes below the root in the byte order of their components;
    reading a directory may fail, and what was collected is then dropped. *)
Fixpoint path_before (p q : path) : bool :=
  match p, q with
  | [], [] => false
  | [], _ :: _ => true
  | _ :: _, [] => false
  | x :: p, y :: q => slt x y || ((x =? y)%string && path_before p q)
  end.
Fixpoint insert_path (p : path) (l : list path) : list path :=
  match l with
  | [] => [p]
  | q :: l' => if path_before p q then p :: l else q :: insert_path p l'
  end.
Definition sort_paths (l : list path) : list path := foldr insert_path [] l.
Definition below (root : path) (t : tree) : list path := sort_paths (omap (strip root) (map fst (map_to_list t))).
Definition WalkDir (root : path) : prog tree (oserr + list path) :=
  act (fun t => (match t !! root with Some _ => inr (below root t) | None => inl ErrNotExist end, t)) (failing (fun t => t)).

Definition virtual (name : string) (rel : path) : string := join "/" (name :: rel).
Definition dir_entry (p : string) (mtime : Z) : Entry := mkEntry p EntryDirectory 0 mtime 493 "" "" 0.

Definition visit (root : path) (name : string) (found : list Source * list Entry) (rel : path)
    : prog tree (ecode + list Source * list Entry) :=
  let '(sources, dirs) := found in
  match ValidatePortablePath (virtual name rel) with
  | Some e => Ret (inl e)
  | None =>
    info <-? Lstat (root ++ rel)%list orelse InvalidPath ;;
    match fst info with
    | NDir _ _ => Ret (inr (sources, (dirs ++ [dir_entry (virtual name rel) (snd info)])%list))
    | NFile _ _ _ =>
      src <-? readSource (root ++ rel)%list (virtual name rel) info ;;
      Ret (inr ((sources ++ [src])%list, dirs))
    end
  end.
Definition walkDir (root : path) (name : string) : prog tree (ecode + list Source * list Entry) :=
  rels <-? WalkDir root orelse InvalidPath ;;
  loop (visit root name) ([], []) rels.

(** *** The roots *)
Record scanned := mkScanned {
  sc_seen : gset string; sc_roots : list string; sc_sources : list Source; sc_dirs : list Entry }.

Definition scan_root (cwd : path) (s : scanned) (root : string) : prog tree (ecode + scanned) :=
  let abs := host_path cwd root in
  let name := Base (Abs (rooted cwd) root) in
  info <-? Lstat abs orelse InvalidPath ;;
  match ValidateComponent name with
  | Some e => Ret (inl e)
  | None =>
    ensure (negb (bool_decide (ToLower name ∈ sc_seen s))) orelse DuplicatePath ;;
    let seen := {[ToLower name]} ∪ sc_seen s in
    let roots := (sc_roots s ++ [name])%list in
    match fst info with
    | NFile _ _ _ =>
      src <-? readSource abs name info ;;
      Ret (inr (mkScanned seen roots (sc_sources s ++ [src]) (sc_dirs s)))
    | NDir _ _ =>
      found <-? walkDir abs name ;;
      Ret (inr (mkScanned seen roots (sc_sources s ++ fst found) (sc_dirs s ++ snd found)))
    end
  end.

(** *** Packs and raw segments *)
Record planning := mkPlanning {
  pl_Entries : list Entry; pl_RawFiles : list (string * Source); pl_Packs : list PackSpec;
  pl_TotalBytes : Z; pl_FileCount : Z; pl_current : list Source; pl_RawBytes : Z;
  pl_packIndex : Z; pl_rawIndex : Z; pl_seenPaths : gset string }.

Definition file_entry (segID : string) (s : Source) : Entry :=
  mkEntry (src_RelPath s) EntryFile (src_Size s) (src_MTimeNS s) (src_Mode s) (src_Digest s) segID 0.

Definition flushPack (pl : planning) : planning :=
  match pl_current pl with
  | [] => pl
  | files =>
    let id := ("p-" ++ pad4 (pl_packIndex pl))%string in
    mkPlanning (pl_Entries pl ++ map (file_entry id) files) (pl_RawFiles pl) (pl_Packs pl ++ [mkPackSpec id files (pl_RawBytes pl)])
      (pl_TotalBytes pl) (pl_FileCount pl) [] 0 (pl_packIndex pl + 1) (pl_rawIndex pl) (pl_seenPaths pl)
  end.

Definition plan_source (pl : planning) (s : Source) : ecode + planning :=
  let key := ToLower (src_RelPath s) in
  if bool_decide (key ∈ pl_seenPaths pl) then inl DuplicatePath else
  let seen := {[key]} ∪ pl_seenPaths pl in
  let total := int64 (pl_TotalBytes pl + src_Size s) in
  let count := (pl_FileCount pl + 1)%Z in
  if (RawThreshold <=? src_Size s)%Z then
    let id := ("r-" ++ pad4 (pl_rawIndex pl))%string in
    inr (mkPlanning (pl_Entries pl ++ [file_entry id s]) (pl_RawFiles pl ++ [(id, s)]) (pl_Packs pl) total count
      (pl_current pl) (pl_RawBytes pl) (pl_packIndex pl) (pl_rawIndex pl + 1) seen)
  else
    let raw := int64 (pl_RawBytes pl + src_Size s) in
    let pl := mkPlanning (pl_Entries pl) (pl_RawFiles pl) (pl_Packs pl) total count
      (pl_current pl ++ [s]) raw (pl_packIndex pl) (pl_rawIndex pl) seen in
    inr (if (PackTarget <=? raw)%Z then flushPack pl else pl).

Fixpoint plan_sources (pl : planning) (l : list Source) : ecode + planning :=
  match l with
  | [] => inr pl
  | s :: l => match plan_source pl s with inl e => inl e | inr pl => plan_sources pl l end
  end.

Fixpoint insert_source (s : Source) (l : list Source) : list Source :=
  match l with
  | [] => [s]
  | x :: l' => if slt (src_RelPath s) (src_RelPath x) then s :: l else x :: insert_source s l'
  end.
Definition sort_sources (l : list Source) : list Source := foldr insert_source [] l.

Definition arrange (s : scanned) : ecode + Plan :=
  if (length (sc_sources s) =? 0)%nat && (length (sc_dirs s) =? 0)%nat then inl NoFiles else
  let start := mkPlanning (sc_dirs s) [] [] 0 0 [] 0 0 0 (list_to_set (map (fun e => ToLower (e_Path e)) (sc_dirs s))) in
  match plan_sources start (sort_sources (sc_sources s)) with
  | inl e => inl e
  | inr pl =>
    let pl := flushPack pl in
    inr (mkPlan (sc_roots s) (pl_Entries pl) (pl_RawFiles pl) (pl_Packs pl) (pl_TotalBytes pl) (pl_FileCount pl)
      (Z.of_nat (length (List.filter is_dir (pl_Entries pl)))))
  end.

Definition Scan (cwd : path) (roots : list string) : prog tree (ecode + Plan) :=
  ensure (negb (length roots =? 0)%nat) orelse NoFiles ;;
  s <-? loop (scan_root cwd) (mkScanned ∅ [] [] []) roots ;;
  Ret (arrange s).

(** *** Resuming *)
Definition tab : string := String (ascii_of_nat 9) EmptyString.
Fixpoint octal (fuel : nat) (n : Z) (acc : string) : string :=
  match fuel with
  | O => acc
  | S fuel => let acc := String (byte_of (48 + n mod 8)) acc in if (n <? 8)%Z then acc else octal fuel (n / 8) acc
  end.
Definition FormatOct (z : Z) : string := octal 22 z "".

Definition fingerprint_line (e : Entry) : string :=
  (join tab [e_Type e; e_Path e; FormatInt (e_Size e); FormatInt (e_MTimeUnixNS e); FormatOct (e_Mode e); e_Digest e] ++ nl)%string.
Definition Fingerprint (p : Plan) (note : string) (ttlMinutes : Z) : string :=
  HashBytes (join "" (("v1" ++ nl ++ note ++ nl ++ FormatInt ttlMinutes ++ nl)%string :: map fingerprint_line (sort_entries (p_Entries p)))).

Definition check_source (s : Source) : prog tree (ecode + unit) :=
  info <-? Lstat (src_AbsPath s) orelse SourceChanged ;;
  match fst info with
  | NFile d _ _ => ensure ((slen d =? src_Size s) && (snd info =? src_MTimeNS s))%Z orelse SourceChanged ;; Ret (inr tt)
  | NDir _ _ => Ret (inl SourceChanged)
  end.
Definition VerifyUnchanged (p : Plan) : prog tree (ecode + unit) :=
  raws <- any_order (p_RawFiles p) ;;
  _ <-? loop (fun _ s => check_source s) tt (map snd raws) ;;
  loop (fun _ s => check_source s) tt (concat (map ps_Files (p_Packs p))).
End scan.

(** ** Building a pack: build.go

    archive/tar and zstd are the parameter: the archive of a list of headers and contents at
    one of two levels, unless a header cannot be written, and how many bytes a sample
    compresses to. *)
Record tar_header := mkTarHeader { th_Name : string; th_Size : Z; th_Mode : Z; th_ModTime : Z }.
Class Packer := {
  tar_zst : bool -> list (tar_header * string) -> option string;
  compressed_size : string -> Z }.

Section build.
Context {EX : Externals} {PK : Packer}.

Definition sampleBytes : Z := 64 * 2^10.
Definition compressibleRatio : float64 := fdiv (float64_of 95) (float64_of 100).

(** The sample, or none when a file cannot be read. *)
Fixpoint take_sample (sample : string) (l : list Source) : prog tree (option string) :=
  match l with
  | [] => Ret (Some sample)
  | s :: l =>
    if (sampleBytes <=? slen sample)%Z then Ret (Some sample) else
    d <- ReadFile (src_AbsPath s) ;;
    match d with
    | inl _ => Ret None
    | inr d => take_sample (sample ++ stake (sampleBytes - slen sample) d) l
    end
  end.
Definition compressible (spec : PackSpec) : prog tree bool :=
  sample <- take_sample "" (ps_Files spec) ;;
  Ret (match sample with
       | None => true
       | Some s => if (slen s <? 4096)%Z then true
                   else SFltb (fdiv (float64_of (compressed_size s)) (float64_of (slen s))) compressibleRatio
       end).

Definition header_of (s : Source) : tar_header :=
  mkTarHeader (src_RelPath s) (src_Size s) (exec_mode (src_Mode s)) (src_MTimeNS s).

(** One file enters the pack; what the compressor writes meanwhile may fail. *)
Definition add_source (p : path) (files : list (tar_header * string)) (s : Source)
    : prog tree (ecode + list (tar_header * string)) :=
  d <-? ReadFile (src_AbsPath s) orelse SourceChanged ;;
  _ <-? WriteAt p 0 "" orelse SourceChanged ;;
  ensure (slen d =? src_Size s)%Z orelse SourceChanged ;;
  Ret (inr (files ++ [(header_of s, d)])%list).

Definition write_pack (p : path) (spec : PackSpec) : prog tree (ecode + Z * string) :=
  level <- compressible spec ;;
  files <-? loop (add_source p) [] (ps_Files spec) ;;
  match tar_zst level files with
  | None => Ret (inl Internal)
  | Some out =>
    _ <-? WriteAt p 0 out orelse Internal ;;
    _ <-? Sync orelse Internal ;;
    _ <-? Sync orelse Internal ;;
    Ret (inr (slen out, HashBytes out))
  end.

Definition Build (cwd : path) (spec : PackSpec) (dir : string) : prog tree (ecode + string * Z * string) :=
  _ <-? MkdirAll (host_path cwd dir) 448 orelse DestinationExists ;;
  let file := Join [dir; (ps_SegmentID spec ++ ".tar.zst")%string] in
  let p := host_path cwd file in
  _ <-? (_ <-? OpenFile false p 420 ;; Truncate p 0) orelse DestinationExists ;;
  r <- write_pack p spec ;;
  match r with
  | inl e => Remove p ;;; Ret (inl e)
  | inr (size, digest) => Ret (inr (file, size, digest))
  end.
End build.
