(* ===== verification/Copy.v ===== *)
(** * Copying a payload: CopyFile and CopyTree of internal/platform/fs.go

    The source belongs to the daemon: it is read-only and another tree than the one that is
    written.  Reading it may fail at any step. *)
From S2P Require Import Prelude GoStrings Prog Tree Host Pack.
Local Open Scope prog_scope.

Section copy.
Context (src : tree).

(** os.Open of the source and the bytes read from it *)
Definition read_source (q : path) : prog tree (oserr + node) :=
  act (fun t => (match src !! q with Some n => inr n | None => inl ErrNotExist end, t)) (failing (fun t => t)).
Definition CopyFile (data : string) (dst : path) (perm : Z) : prog tree (oserr + unit) :=
  _ <-? OpenFile true dst perm ;;
  _ <-? WriteAt dst 0 data ;;
  _ <-? Sync ;;
  Sync.
Definition copy_entry (dst : path) (_ : unit) (rel : path) : prog tree (oserr + unit) :=
  info <-? read_source rel ;;
  match info with
  | NDir _ _ => MkdirAll (dst ++ rel)%list 493
  | NFile d m _ => CopyFile d (dst ++ rel)%list (exec_mode m)
  end.
End copy.

Definition CopyTree (payload : option tree) (dst : path) : prog tree (oserr + unit) :=
  match payload with
  | None => Ret (inl ErrNotExist)
  | Some src => loop (copy_entry src dst) tt (below [] src)
  end.
