(* ===== verification/Send.v ===== *)
(** * Sending: internal/client/send.go

    The state of a send in progress is a JSON document in the state directory; the maps in
    it are finite maps, and ranging over one is in any order. *)
From S2P Require Import Prelude GoStrings GoTime Errors Paths Manifest Wire Prog Tree Integrity Service.
From S2P Require Import Host Api Net Client Pack.
Local Open Scope prog_scope.

Record SendOptions := mkSendOptions {
  so_Roots : list string; so_Note : string; so_TTLMinutes : Z; so_StateDir : string }.
Record SendResult := mkSendResult {
  sr_Code : string; sr_CommitedAt : Z; sr_ExpiresAt : Z; sr_Files : Z; sr_Bytes : Z; sr_Resumed : bool }.

Record packRef := mkPackRef { pr_Path : string; pr_Size : Z; pr_Digest : string }.
(** Uploads is [None] for a nil map. *)
Record session := mkSession {
  ss_Fingerprint : string; ss_TransferID : string; ss_Uploads : option (gmap string string);
  ss_Packs : gmap string packRef; ss_CreatedAt : Z; ss_ServerURL : string }.

(** encoding/json on sessions *)
Class SessionCodec := {
  session_Marshal : session -> option string;
  session_Unmarshal : string -> option session }.

(** os.WriteFile *)
Definition WriteFile (p : path) (data : string) (mode : Z) : prog tree (oserr + unit) :=
  _ <-? OpenFile false p mode ;;
  _ <-? Truncate p 0 ;;
  _ <-? WriteAt p 0 data ;;
  Sync.

(** The first element a range over a map gives. *)
Definition some_of {W A : Type} (l : list A) : prog W (option A) := l' <- any_order l ;; Ret (head l').

Definition raw_plan (r : string * Source) : SegmentPlan :=
  mkSegmentPlan (fst r) SegmentRaw (src_Size (snd r)) DigestAlgorithm (Some (src_Digest (snd r))).
Definition raw_file_segment (r : string * Source) : Segment :=
  mkSegment (fst r) SegmentRaw (src_Size (snd r)) (src_Digest (snd r)) "".
Definition no_ref : packRef := mkPackRef "" 0 "".
Definition ref_of (packs : gmap string packRef) (spec : PackSpec) : packRef := default no_ref (packs !! ps_SegmentID spec).
Definition pack_plan (packs : gmap string packRef) (spec : PackSpec) : SegmentPlan :=
  mkSegmentPlan (ps_SegmentID spec) SegmentTarZstd (pr_Size (ref_of packs spec)) DigestAlgorithm (Some (pr_Digest (ref_of packs spec))).
Definition pack_segment (packs : gmap string packRef) (spec : PackSpec) : Segment :=
  mkSegment (ps_SegmentID spec) SegmentTarZstd (pr_Size (ref_of packs spec)) (pr_Digest (ref_of packs spec)) "".

(** The manifest a send commits; [raws] is the order the map of raw files was ranged over. *)
Definition send_manifest (p : Plan) (raws : list (string * Source)) (packs : gmap string packRef)
    (transferID note : string) (now : Z) : Manifest :=
  mkManifest 1 transferID now note (p_Roots p) DigestAlgorithm
    (map raw_file_segment raws ++ map (pack_segment packs) (p_Packs p)) (p_Entries p).

Section send.
Context {UC : Unicode} {EX : Externals} {PK : Packer} {SC : SessionCodec}.
Context {V : Type} (serve : message -> prog V response) (base_url : string) (cwd : path).
Notation client := (prog (host V)).
Notation at_path p := (host_path cwd p).

(** time.Now() on the client *)
Definition client_Now : client Z :=
  act (fun h => (0%Z, h)) (Some (fun n h => (default 0%Z (decode_nat n), h))).

(** An error of another package, by its code. *)
Definition coded {A : Type} (p : client (ecode + A)) : client (string + A) :=
  r <- p ;; Ret (match r with inl e => inl (err e) | inr a => inr a end).

(** *** Sessions *)

Definition loadSession (file fingerprint : string) : client (option session) :=
  data <- fs (ReadFile (at_path file)) ;;
  match data with
  | inl _ => Ret None
  | inr data =>
    match session_Unmarshal data with
    | None => Ret None
    | Some s =>
      if negb (ss_Fingerprint s =? fingerprint)%string || (ss_TransferID s =? "")%string || negb (ss_ServerURL s =? base_url)%string
      then Ret None
      else match ss_Uploads s with None => Ret None | Some _ => Ret (Some s) end
    end
  end.

Definition saveSession (file : string) (s : session) : client (oserr + unit) :=
  _ <-? fs (MkdirAll (at_path (Dir file)) 448) ;;
  match session_Marshal s with
  | None => Ret (inl ErrOther)
  | Some data => fs (WriteFile (at_path file) data 384)
  end.

Definition removeSession (file : string) (s : session) : client unit :=
  fs (Remove (at_path file)) ;;;
  refs <- any_order (map_to_list (ss_Packs s)) ;;
  each (fun _ r => fs (Remove (at_path (pr_Path (snd r)))) ;;; Ret tt) tt refs ;;;
  first <- some_of (map_to_list (ss_Packs s)) ;;
  match first with
  | Some r => fs (Remove (at_path (Dir (pr_Path (snd r))))) ;;; Ret tt
  | None => Ret tt
  end.

Definition packUsable (ref : packRef) : client bool :=
  info <- fs (Stat (at_path (pr_Path ref))) ;;
  Ret (match info with inr n => (match n with NDir _ _ => dir_size | NFile d _ _ => slen d end =? pr_Size ref)%Z | inl _ => false end).

Definition sessionAlive (s : session) : client bool :=
  first <- some_of (map_to_list (default ∅ (ss_Uploads s))) ;;
  match first with
  | None => Ret false
  | Some (_, uploadPath) =>
    r <- UploadOffset serve uploadPath ;;
    Ret (match r with inl _ => false | inr _ => true end)
  end.

(** *** Uploads *)

Fixpoint upload_attempts (tries : nat) (uploadPath : string) (source : path) (length : Z) : client (string + unit) :=
  match tries with
  | O => Ret (inl (err Network))
  | S tries =>
    o <-? UploadOffset serve uploadPath ;;
    let offset := fst o in
    if (offset =? length)%Z then Ret (inr tt) else
    if (length <? offset)%Z then Ret (inl (err StateConflict)) else
    d <-? fs (ReadFile source) orelse (err SourceChanged) ;;
    ensure (0 <=? offset)%Z orelse (err SourceChanged) ;;
    r <- client_UploadPatch serve uploadPath offset (sdrop offset d) (length - offset) ;;
    match r with
    | inr accepted => if (accepted =? length)%Z then Ret (inr tt) else upload_attempts tries uploadPath source length
    | inl e =>
      if (e =? err OffsetMismatch)%string || (e =? err Network)%string
      then upload_attempts tries uploadPath source length else Ret (inl e)
    end
  end.
Definition uploadOne (uploadPath : string) (source : path) (length : Z) : client (string + unit) :=
  upload_attempts 3 uploadPath source length.

(** The jobs are taken one after the other; a cancelled context makes the dispatcher drop
    the ones not handed out. *)
Record job := mkJob { j_segmentID : string; j_path : path; j_length : Z }.
Definition keep_going : client bool := act (fun h => (true, h)) (Some (fun _ h => (false, h))).
Definition uploadSegments (sess : session) (p : Plan) (packs : gmap string packRef) : client (string + unit) :=
  raws <- any_order (p_RawFiles p) ;;
  refs <- any_order (map_to_list packs) ;;
  let jobs := (map (fun r => mkJob (fst r) (src_AbsPath (snd r)) (src_Size (snd r))) raws ++
               map (fun r => mkJob (fst r) (at_path (pr_Path (snd r))) (pr_Size (snd r))) refs)%list in
  loop (fun _ j =>
    go <- keep_going ;;
    if go : bool then
      let uploadPath := default ""%string (default ∅ (ss_Uploads sess) !! j_segmentID j) in
      ensure (negb (uploadPath =? "")%string) orelse (err StateConflict) ;;
      uploadOne uploadPath (j_path j) (j_length j)
    else Ret (inr tt)) tt jobs.

(** *** Send *)

(** Building the packs, or reusing those of the session. *)
Definition prepare_pack (resumed : option session) (packDir : string) (packs : gmap string packRef) (spec : PackSpec)
    : client (string + gmap string packRef) :=
  let build :=
    b <-? coded (fs (Build cwd spec packDir)) ;;
    Ret (inr (<[ps_SegmentID spec := mkPackRef (fst (fst b)) (snd (fst b)) (snd b)]> packs)) in
  match resumed with
  | None => build
  | Some s =>
    match ss_Packs s !! ps_SegmentID spec with
    | None => build
    | Some ref => ok <- packUsable ref ;; if ok : bool then Ret (inr (<[ps_SegmentID spec := ref]> packs)) else build
    end
  end.

Fixpoint prepare_packs (resumed : option session) (packDir : string) (packs : gmap string packRef) (specs : list PackSpec)
    : client (string + gmap string packRef) :=
  match specs with
  | [] => Ret (inr packs)
  | spec :: specs => packs <-? prepare_pack resumed packDir packs spec ;; prepare_packs resumed packDir packs specs
  end.

(** A transfer of its own on the server, and the state to resume it with. *)
Definition open_transfer (opts : SendOptions) (file fingerprint : string) (p : Plan) (packs : gmap string packRef)
    (segments : list SegmentPlan) : client (string + session) :=
  created <-? client_CreateTransfer serve
    (mkCreateTransferRequest (so_TTLMinutes opts) (so_Note opts) (p_TotalBytes p) (p_FileCount p) segments) "" ;;
  now <- client_Now ;;
  let uploads := foldl (fun m u => <[ur_SegmentID u := ur_UploadPath u]> m) ∅ (cx_Uploads created) in
  let sess := mkSession fingerprint (cx_TransferID created) (Some uploads) packs now base_url in
  _ <-? saveSession file sess orelse (err DestinationExists) ;;
  Ret (inr sess).

Definition set_packs (packs : gmap string packRef) (s : session) : session :=
  mkSession (ss_Fingerprint s) (ss_TransferID s) (ss_Uploads s) packs (ss_CreatedAt s) (ss_ServerURL s).

(** The session to upload to, and whether it is a resumed one. *)
Definition continue_or_open (opts : SendOptions) (file fingerprint : string) (p : Plan) (packs : gmap string packRef)
    (segments : list SegmentPlan) (loaded : option session) : client (string + session * bool) :=
  alive <- (match loaded with
            | None => Ret None
            | Some s => ok <- sessionAlive s ;; if ok : bool then Ret (Some s) else removeSession file s ;;; Ret None
            end) ;;
  match alive with
  | None => s <-? open_transfer opts file fingerprint p packs segments ;; Ret (inr (s, false))
  | Some s => saveSession file (set_packs packs s) ;;; Ret (inr (set_packs packs s, true))
  end.

(** From the packs to the answer. *)
Definition send_plan (opts : SendOptions) (file fingerprint : string) (plan : Plan) (loaded : option session)
    : client (string + SendResult) :=
  packs <-? prepare_packs loaded (Join [so_StateDir opts; "packs"; fingerprint]%string) ∅ (p_Packs plan) ;;
  raws <- any_order (p_RawFiles plan) ;;
  let segments := (map raw_plan raws ++ map (pack_plan packs) (p_Packs plan))%list in
  sr <-? continue_or_open opts file fingerprint plan packs segments loaded ;;
  let '(sess, resumed) := sr in
  _ <-? uploadSegments sess plan packs ;;
  now <- client_Now ;;
  commit <-? client_Commit serve (ss_TransferID sess)
    (send_manifest plan raws packs (ss_TransferID sess) (so_Note opts) now) ;;
  removeSession file sess ;;;
  Ret (inr (mkSendResult (co_Code commit) (co_CommittedAt commit) (co_ExpiresAt commit)
    (p_FileCount plan) (p_TotalBytes plan) resumed)).

Definition Send (opts : SendOptions) : client (string + SendResult) :=
  plan <-? coded (fs (Scan cwd (so_Roots opts))) ;;
  let fingerprint := Fingerprint plan (so_Note opts) (so_TTLMinutes opts) in
  let file := Join [so_StateDir opts; "sessions"; fingerprint ++ ".json"]%string in
  loaded <- loadSession file fingerprint ;;
  unchanged <- (match loaded with
                | None => Ret (inr tt)
                | Some s =>
                  r <- coded (fs (VerifyUnchanged plan)) ;;
                  match r with inl e => removeSession file s ;;; Ret (inl e) | inr _ => Ret (inr tt) end
                end) ;;
  match unchanged with
  | inl e => Ret (inl e)
  | inr _ => send_plan opts file fingerprint plan loaded
  end.
End send.
