(* ===== verification/Cli.v ===== *)
(** * The command line: internal/cli and internal/config/client.go

    A command is a program over a machine ([host]) with two output streams; its result is
    the exit status.  The targets a command can talk to, the server behind a URL and the
    daemon behind a socket, are programs that answer messages.  Texts are kept as lines of
    cells, which Printf renders; a JSON object as the value that is encoded. *)
From S2P Require Import Prelude GoStrings GoTime Errors Code Paths Manifest Wire Prog Tree Integrity GoUrl Service Upload Janitor.
From S2P Require Import Host Api Net Client Recv Pack Copy Send GoBase64 Auth Flags.
Local Open Scope prog_scope.

(** ** Output *)

(** What Printf fills in; [Time] is a local time in RFC 3339, [Until] the time left, [Size]
    goes through HumanBytes; the last three are facts of the build and the daemon that are
    left out of the model. *)
Inductive cell := Str (s : string) | Int (n : Z) | Time (t : Z) | Until (t : Z) | Size (n : Z) | Flag (b : bool)
| Version | Readiness | Uptime.
Inductive object :=
| OError (code : string)
| OSend (code : string) (expires files bytes : Z)
| ORecv (code path : string) (files bytes : Z) (note : string)
| OLocal (code path : string) (zeroCopy : bool) (lease : Z)
| OMetadata (m : TransferMetadata)
| OConfigure (path url : string)
| ODoctor (ok : bool) (checks : list (string * bool * list cell))
| OStatus (s : AdminStatus)
| OCleanup (c : CleanupResult).
(** The line of an error names its code, its message and the request ID. *)
Inductive output := Line (cells : list cell) | Object (o : object) | Complaint (code : string) | BadFlags (set : string) (e : flag_error) | Usage.

Record console (V : Type) := mkConsole { c_host : host V; c_out : list output; c_err : list output }.
Arguments mkConsole {V} _ _ _.
Arguments c_host {V} _.
Arguments c_out {V} _.
Arguments c_err {V} _.
Definition set_host {V} (h : host V) (c : console V) : console V := mkConsole h (c_out c) (c_err c).

(** What the process is started with: environment variables, the directories package os
    derives from them, standard input, what a terminal there answers, the random source. *)
Record environment := mkEnvironment {
  Getenv : string -> string; UserConfigDir : option string; UserCacheDir : option string; TempDir : string;
  Stdin : reader; terminal : option (option string); random16 : option (list Z); Getwd : path }.

(** ** internal/config/client.go *)

Definition DefaultUnixSocket : string := "/run/sss/sssd.sock".
Record ClientConfig := mkClientConfig { URL : string; UnixSocket : string }.
Definition no_config : ClientConfig := mkClientConfig "" "".
(** encoding/json on it *)
Class ConfigCodec := { config_Marshal : ClientConfig -> option string; config_Unmarshal : string -> option ClientConfig }.

(** strings.TrimRight *)
Definition TrimRight (cutset s : string) : string :=
  string_of_list_ascii (rev (drop_while (fun a => has_byte a cutset) (rev (list_ascii_of_string s)))).
Definition crlf : string := String (byte_of 13) nl.

Inductive target := Remote (base password : string) | Socket (path : string).

Section config.
Context {CC : ConfigCodec} (env : environment).

Definition ClientConfigPath : option string :=
  let p := Getenv env "SSS_CONFIG" in
  if negb (p =? "")%string then Some p else dir ← UserConfigDir env; Some (Join [dir; "sss"; "config.json"]%string).
Definition StateDir : option string :=
  let p := Getenv env "SSS_STATE_DIR" in
  if negb (p =? "")%string then Some p else dir ← UserCacheDir env; Some (Join [dir; "sss"; "state"]%string).

Definition ResolveURL (explicit : string) (saved : ClientConfig) : option string :=
  let c := explicit in
  let c := if (c =? "")%string then Getenv env "SSS_URL" else c in
  let c := if (c =? "")%string then URL saved else c in
  if (c =? "")%string then None else
  let c := trim_right_slash c in
  u ← url_Parse c;
  if (u_Scheme u =? "")%string || (u_Host u =? "")%string then None else
  if negb (u_Scheme u =? "https")%string && negb (Hostname u =? "localhost")%string && negb (Hostname u =? "127.0.0.1")%string
     && negb (Hostname u =? "::1")%string then None else Some c.
Definition ResolveSocket (explicit : string) (saved : ClientConfig) : string :=
  if negb (explicit =? "")%string then explicit else
  let p := Getenv env "SSS_SOCKET" in
  if negb (p =? "")%string then p else
  if negb (UnixSocket saved =? "")%string then UnixSocket saved else DefaultUnixSocket.
(** stateDir of cli.go *)
Definition stateDir : string := default (Join [TempDir env; "sss-state"]%string) StateDir.

Context {V : Type}.
Notation client := (prog (host V)).
Notation at_path p := (host_path (Getwd env) p).

Definition LoadClient : client (unit + ClientConfig) :=
  match ClientConfigPath with
  | None => Ret (inl tt)
  | Some p =>
    data <- fs (ReadFile (at_path p)) ;;
    Ret (match data with
         | inl ErrNotExist => inr no_config
         | inl _ => inl tt
         | inr d => match config_Unmarshal d with Some c => inr c | None => inl tt end
         end)
  end.
Definition SaveClient (c : ClientConfig) : client (unit + string) :=
  match ClientConfigPath with
  | None => Ret (inl tt)
  | Some p =>
    _ <-? fs (MkdirAll (at_path (Dir p)) 448) orelse tt ;;
    match config_Marshal c with
    | None => Ret (inl tt)
    | Some data =>
      let tmp := (p ++ ".tmp")%string in
      _ <-? fs (WriteFile (at_path tmp) (data ++ nl)%string 384) orelse tt ;;
      _ <-? fs (Rename (at_path tmp) (at_path p)) orelse tt ;;
      Ret (inr p)
    end
  end.
End config.

(** ** The client calls of the command line *)
Section calls.
Context {V : Type} (serve : message -> prog V response).

Definition client_Info : prog (host V) (string + string * Info) :=
  i <-? getJSON serve "/v1/info" (fun b => match b with BInfo p i => Some (p, i) | _ => None end) ;;
  Ret (match CheckCompatible (fst i) with Some e => inl (err e) | None => inr i end).
Definition LocalReachable : prog (host V) bool :=
  a <- Do serve (get "/local/healthz" []) ;;
  Ret (match a with
       | inl _ => false
       | inr a =>
         if negb (r_Status (a_response a) =? 200)%Z then false else
         match decode (fun b => match b with BHealth _ p => Some p | _ => None end) a with
         | inl _ => false
         | inr p => match CheckCompatible p with None => true | Some _ => false end
         end
       end).
End calls.

(** ** Commands *)
Section cli.
Context {UC : Unicode} {EX : Externals} {PK : Packer} {SC : SessionCodec} {CC : ConfigCodec} {A2 : Argon2}.
(** [mounted]: the directory at a path of the machine's that belongs to the daemon. *)
Context {V : Type} (net : target -> message -> prog V response) (mounted : V -> string -> option tree) (env : environment).
Notation command := (prog (console V)).
Notation at_path p := (host_path (Getwd env) p).

Definition on_host {A : Type} : prog (host V) A -> command A := lift c_host set_host.
Definition print (o : output) : command unit := act_ (fun c => (tt, mkConsole (c_host c) (c_out c ++ [o]) (c_err c))).
Definition warn (o : output) : command unit := act_ (fun c => (tt, mkConsole (c_host c) (c_out c) (c_err c ++ [o]))).
Definition say (json : bool) (code : string) : command unit := if json then print (Object (OError code)) else warn (Complaint code).
Definition fail (json : bool) (code : string) : command Z := say json code ;;; Ret (ExitCode code).
Definition usageError (json : bool) : command Z := fail json (err InvalidRequest).

(** A flag set with its name; parsing complains on the error stream and exits with 2. *)
Definition with_flags (set : string) (r : flag_error + settings * list string) (f : settings -> list string -> command Z) : command Z :=
  match r with
  | inl e => warn (BadFlags set e) ;;; Ret 2%Z
  | inr (st, rest) => f st rest
  end.
(** [if perr != nil { return fail(env, *jsonMode, perr) }] *)
Definition or_fail {A : Type} (json : bool) (p : command (string + A)) (f : A -> command Z) : command Z :=
  r <- p ;; match r with inl e => fail json e | inr a => f a end.

Definition resolvePassword (fromStdin : bool) : command (string + string) :=
  if fromStdin then
    let all := join "" (chunks (Stdin env)) in
    if (fails (Stdin env) && (slen all <? 4096)%Z) then Ret (inl (err AuthRequired)) else
    let password := TrimRight crlf (stake 4096 all) in
    Ret (if (password =? "")%string then inl (err AuthRequired) else inr password)
  else
    let p := Getenv env "SSS_PASSWORD" in
    if negb (p =? "")%string then Ret (inr p) else
    match terminal env with
    | Some answer =>
      warn (Line [Str "Password: "]) ;;;
      Ret (match answer with Some s => if (s =? "")%string then inl (err AuthRequired) else inr s | None => inl (err AuthRequired) end)
    | None => Ret (inl (err AuthRequired))
    end.

Definition remoteClient (urlFlag : string) (passwordStdin : bool) : command (string + target) :=
  saved <-? on_host (LoadClient env) orelse err InvalidRequest ;;
  match ResolveURL env urlFlag saved with
  | None => Ret (inl (err InvalidRequest))
  | Some base =>
    password <-? resolvePassword passwordStdin ;;
    Ret (inr (Remote base password))
  end.

Definition plural (n : Z) (one many : string) : list cell := [Int n; Str (if (n =? 1)%Z then one else many)].

Definition send_flags : flag_set :=
  [("note", KString); ("note-file", KString); ("ttl", KString); ("json", KBool); ("quiet", KBool); ("password-stdin", KBool); ("url", KString)]%string.
(** The options of a send that was given [roots]. *)
Definition send_note (note noteFile : string) : prog (host V) (string + string) :=
  if (noteFile =? "")%string then Ret (inr note) else
  data <-? fs (ReadFile (at_path noteFile)) orelse err InvalidRequest ;;
  Ret (inr (TrimRight crlf data)).
Definition send_ttl (ttl : string) : string + Z :=
  if (ttl =? "")%string then inr DefaultTTLMinutes else match ParseTTL ttl with inl e => inl (err e) | inr n => inr n end.
Definition runSend (args : list string) : command Z :=
  with_flags "send" (parseArgs send_flags args) (fun st roots =>
  let json := flag_bool st "json" in
  let note := flag_string st "note" in
  let noteFile := flag_string st "note-file" in
  if (length roots =? 0)%nat then usageError json else
  if negb (note =? "")%string && negb (noteFile =? "")%string then usageError json else
  or_fail json (on_host (send_note note noteFile)) (fun noteText =>
  or_fail json (Ret (send_ttl (flag_string st "ttl"))) (fun minutes =>
  or_fail json (remoteClient (flag_string st "url") (flag_bool st "password-stdin")) (fun t =>
  let base := match t with Remote base _ => base | Socket _ => ""%string end in
  or_fail json (on_host (Send (net t) base (Getwd env) (mkSendOptions roots noteText minutes (stateDir env)))) (fun result =>
  if json then
    print (Object (OSend (sr_Code result) (sr_ExpiresAt result) (sr_Files result) (sr_Bytes result))) ;;; Ret 0%Z
  else
    (if flag_bool st "quiet" then Ret tt else
       warn (Line ([Str "Sent "; Size (sr_Bytes result); Str " in "] ++ plural (sr_Files result) " file" " files" ++ [Str "; expires "; Time (sr_ExpiresAt result)]))) ;;;
    print (Line [Str (sr_Code result)]) ;;; Ret 0%Z))))).

(** *** recv *)

Definition copyLocalPayload (payload : option tree) (dest : string) : prog (host V) (string + string) :=
  let clean := Clean dest in
  let refuse := err DestinationExists in
  e <- fs (Stat (at_path clean)) ;;
  match e with
  | inr _ => Ret (inl refuse)
  | inl _ =>
    info <- fs (Stat (at_path (Dir clean))) ;;
    match info with
    | inr (NDir _ _) =>
      let partial := at_path (partial_of clean) in
      _ <-? fs (RemoveAllForce partial) orelse refuse ;;
      _ <-? fs (MkdirAll partial 493) orelse refuse ;;
      r <- fs (CopyTree payload partial) ;;
      match r with
      | inl _ => fs (RemoveAllForce partial) ;;; Ret (inl refuse)
      | inr _ =>
        r <- fs (RenameDir partial (at_path clean)) ;;
        match r with
        | inl _ => fs (RemoveAllForce partial) ;;; Ret (inl refuse)
        | inr _ => Ret (inr (Abs (rooted (Getwd env)) clean))
        end
      end
    | _ => Ret (inl refuse)
    end
  end.

Definition recvLocal (socket code to : string) (json quiet : bool) : command Z :=
  or_fail json (on_host (client_LocalPath (net (Socket socket)) code)) (fun claim =>
  let zeroCopy := (to =? "")%string in
  or_fail json
    (if zeroCopy then Ret (inr (lc_Path claim)) else
     (if quiet || json then Ret tt else warn (Line [Str "Finalizing: copying payload to "; Str to])) ;;;
     payload <- on_host (act_ (fun h => (mounted (peer h) (lc_Path claim), h))) ;;
     on_host (copyLocalPayload payload to)) (fun path =>
  if json then print (Object (OLocal (lc_Code claim) path zeroCopy (lc_LeaseUntil claim))) ;;; Ret 0%Z else
  (if negb quiet && zeroCopy then warn (Line [Str "VPS-local receipt: existing read-only payload, no copy made"]) else Ret tt) ;;;
  print (Line [Str path]) ;;; Ret 0%Z)).

Definition recv_flags : flag_set :=
  [("to", KString); ("json", KBool); ("quiet", KBool); ("password-stdin", KBool); ("url", KString); ("socket", KString); ("no-local", KBool)]%string.
Definition mustNormalize (code : string) : string := default "" (NormalizeCode code).
Definition recvRemote (code to urlFlag : string) (passwordStdin json quiet : bool) : command Z :=
  or_fail json (remoteClient urlFlag passwordStdin) (fun t =>
  or_fail json (on_host (Recv (net t) (Getwd env) (mkRecvOptions code to))) (fun result =>
  if json then
    print (Object (ORecv (FormatCode (mustNormalize code)) (rr_Path result) (rr_Files result) (rr_Bytes result) (rr_Note result))) ;;; Ret 0%Z
  else
    (if quiet then Ret tt else
       (if (rr_Note result =? "")%string then Ret tt else warn (Line [Str "Note: "; Str (rr_Note result)])) ;;;
       warn (Line ([Str "Received "; Size (rr_Bytes result); Str " in "] ++ plural (rr_Files result) " file" " files"))) ;;;
    print (Line [Str (rr_Path result)]) ;;; Ret 0%Z)).
Definition runRecv (args : list string) : command Z :=
  with_flags "recv" (parseArgs recv_flags args) (fun st positional =>
  let json := flag_bool st "json" in
  match positional with
  | [code] =>
    match NormalizeCode code with
    | None => fail json (err InvalidCode)
    | Some _ =>
      saved <- on_host (LoadClient env) ;;
      let socket := ResolveSocket env (flag_string st "socket") (match saved with inr c => c | inl _ => no_config end) in
      nearby <- (if flag_bool st "no-local" then Ret false else on_host (LocalReachable (net (Socket socket)))) ;;
      if nearby : bool then recvLocal socket code (flag_string st "to") json (flag_bool st "quiet")
      else recvRemote code (flag_string st "to") (flag_string st "url") (flag_bool st "password-stdin") json (flag_bool st "quiet")
    end
  | _ => usageError json
  end).

(** *** inspect *)

(** The files shown: at most twenty, then how many more there are. *)
Fixpoint listing (shown fileCount : Z) (entries : list EntrySummary) : list output :=
  match entries with
  | [] => []
  | e :: entries =>
    if negb (es_Type e =? EntryFile)%string then listing shown fileCount entries else
    if (shown =? 20)%Z then [Line [Str "           ... and "; Int (fileCount - shown); Str " more"]] else
    Line [Str "           "; Str (es_Path e); Str " ("; Size (es_Size e); Str ")"] :: listing (shown + 1) fileCount entries
  end.
Definition metadata_lines (m : TransferMetadata) : list output :=
  [Line [Str "Code:      "; Str (md_Code m)]] ++
  (if (md_Note m =? "")%string then [] else [Line [Str "Note:      "; Str (md_Note m)]]) ++
  [Line [Str "Committed: "; Time (md_CommittedAt m)]; Line [Str "Expires:   "; Time (md_ExpiresAt m); Str " (in "; Until (md_ExpiresAt m); Str ")"];
   Line [Str "Files:     "; Int (md_FileCount m)]; Line [Str "Size:      "; Size (md_TotalBytes m)]] ++
  listing 0 (md_FileCount m) (md_Entries m).
Definition print_all (l : list output) : command unit := act_ (fun c => (tt, mkConsole (c_host c) (c_out c ++ l) (c_err c))).

Definition inspect_flags : flag_set := [("json", KBool); ("password-stdin", KBool); ("url", KString)]%string.
Definition runInspect (args : list string) : command Z :=
  with_flags "inspect" (parseArgs inspect_flags args) (fun st positional =>
  let json := flag_bool st "json" in
  match positional with
  | [code] =>
    or_fail json (remoteClient (flag_string st "url") (flag_bool st "password-stdin")) (fun t =>
    or_fail json (on_host (client_Metadata (net t) code)) (fun meta =>
    print_all (if json then [Object (OMetadata meta)] else metadata_lines meta) ;;; Ret 0%Z))
  | _ => usageError json
  end).

(** *** configure *)
Definition configure_flags : flag_set := [("url", KString); ("socket", KString); ("json", KBool)]%string.
Definition runConfigure (args : list string) : command Z :=
  with_flags "configure" (Parse configure_flags (initial configure_flags) args) (fun st _ =>
  let json := flag_bool st "json" in
  let url := flag_string st "url" in
  let socket := flag_string st "socket" in
  saved <- on_host (LoadClient env) ;;
  match saved with
  | inl _ => fail json (err InvalidRequest)
  | inr saved =>
    if (url =? "")%string && (socket =? "")%string then usageError json else
    match (if (url =? "")%string then Some saved else u ← ResolveURL env url no_config; Some (mkClientConfig u (UnixSocket saved))) with
    | None => fail json (err InvalidRequest)
    | Some saved =>
      let saved := if (socket =? "")%string then saved else mkClientConfig (URL saved) socket in
      p <- on_host (SaveClient env saved) ;;
      match p with
      | inl _ => fail json (err InvalidRequest)
      | inr p =>
        if json then print (Object (OConfigure p (URL saved))) ;;; Ret 0%Z else
        warn (Line [Str "Saved configuration to "; Str p]) ;;; print (Line [Str (URL saved)]) ;;; Ret 0%Z
      end
    end
  end).

(** *** doctor: a check is its name, its result and what it tells; the texts of
    configuration errors are left out. *)
Definition doctor_flags : flag_set := [("json", KBool); ("password-stdin", KBool); ("url", KString); ("socket", KString)]%string.
Definition check_line (c : string * bool * list cell) : output :=
  Line (Str (if snd (fst c) then "[ok  ] " else "[FAIL] ") :: Str (fst (fst c)) :: Str " " :: snd c).
Definition tls_check (base : string) : string * bool * list cell :=
  if has_prefix "https://" base then ("tls", true, [Str "https"])%string else
  if isLoopbackURL base then ("tls", true, [Str "plaintext http to loopback (no TLS required)"])%string
  else ("tls", false, [Str "plaintext http to a remote host"])%string.
Definition server_checks (base : string) (password : string + string) : command (bool * list (string * bool * list cell)) :=
  match password with
  | inl e => Ret (false, [("authentication", false, [Str e])]%string)
  | inr password =>
    i <- on_host (client_Info (net (Remote base password))) ;;
    Ret (match i with
         | inr (protocol, info) =>
           (in_Accepting info, [("authentication", true, [Str "accepted"]); ("protocol", true, [Str protocol; Str " (server "; Version; Str ")"]);
             ("server admission", in_Accepting info, [Str (if in_Accepting info then "accepting new transfers" else "not accepting new transfers (disk pressure)")])]%string)
         | inl e =>
           (false, [((if (e =? err ProtocolMismatch)%string then "protocol" else
                      if (e =? err AuthInvalid)%string || (e =? err AuthRequired)%string then "authentication" else "reachability")%string, false, [Str e])])
         end)
  end.
Definition runDoctor (args : list string) : command Z :=
  with_flags "doctor" (Parse doctor_flags (initial doctor_flags) args) (fun st _ =>
  let json := flag_bool st "json" in
  saved <- on_host (LoadClient env) ;;
  let config := match saved with inl _ => no_config | inr c => c end in
  let c1 := ("configuration", match saved with inr _ => true | inl _ => false end, match saved with inr _ => [Str (default "" (ClientConfigPath env))] | inl _ => [] end)%string in
  let base := ResolveURL env (flag_string st "url") config in
  let c2 := match base with None => [("server url", false, [])]%string | Some b => [("server url"%string, true, [Str b]); tls_check b] end in
  let socket := ResolveSocket env (flag_string st "socket") config in
  nearby <- on_host (LocalReachable (net (Socket socket))) ;;
  let c3 := ("local socket", nearby, [Str socket])%string in
  r <- (match base with
        | None => Ret (false, [])
        | Some b => password <- resolvePassword (flag_bool st "password-stdin") ;; server_checks b password
        end) ;;
  let checks := (c1 :: c2 ++ c3 :: snd r)%list in
  print_all (if json then [Object (ODoctor (fst r) checks)] else map check_line checks) ;;;
  Ret (if fst r then 0 else ExitCode (err Network))%Z).

(** *** admin and hash-password: server.go *)
Definition admin_flags : flag_set := [("socket", KString); ("json", KBool)]%string.
Definition status_lines (s : AdminStatus) : list output :=
  [Line [Str "version:        "; Version]; Line [Str "ready:          "; Readiness]; Line [Str "uptime:         "; Uptime; Str "s"];
   Line [Str "committed:      "; Int (as_Committed s)]; Line [Str "staging:        "; Int (as_Staging s)];
   Line [Str "active claims:  "; Int (as_ActiveClaims s)];
   Line [Str "storage:        "; Str (as_StorageDir s); Str " ("; Int (as_DiskUsedPercent s); Str "% used, watermark "; Int (as_HighWatermark s); Str "%)"];
   Line [Str "disk free:      "; Size (int64 (as_DiskFree s))]; Line [Str "reserved:       "; Size (as_Reserved s)];
   Line [Str "admitting:      "; Flag (as_AdmissionOK s)]].
Definition cleanup_lines (c : CleanupResult) : list output :=
  [Line [Str "expired: "; Int (cu_Expired c)]; Line [Str "deleted: "; Int (cu_Deleted c)];
   Line [Str "staging cleaned: "; Int (cu_StagingCleaned c)]; Line [Str "trash emptied: "; Int (cu_TrashEmptied c)]].
Definition runAdmin (args : list string) : command Z :=
  match args with
  | [] => warn (Line [Str "usage: sss admin <status|cleanup> [--socket PATH] [--json]"]) ;;; Ret 2%Z
  | sub :: args =>
    with_flags ("admin " ++ sub) (Parse admin_flags (initial admin_flags) args) (fun st _ =>
    let json := flag_bool st "json" in
    saved <- on_host (LoadClient env) ;;
    let t := Socket (ResolveSocket env (flag_string st "socket") (match saved with inr c => c | inl _ => no_config end)) in
    if (sub =? "status")%string then
      or_fail json (on_host (client_LocalStatus (net t))) (fun s =>
      print_all (if json then [Object (OStatus s)] else status_lines s) ;;; Ret 0%Z)
    else if (sub =? "cleanup")%string then
      or_fail json (on_host (client_LocalCleanup (net t))) (fun c =>
      print_all (if json then [Object (OCleanup c)] else cleanup_lines c) ;;; Ret 0%Z)
    else warn (Line [Str "unknown admin command "; Str sub]) ;;; Ret 2%Z)
  end.

Definition hash_flags : flag_set := [("password-stdin", KBool)]%string.
Definition runHashPassword (args : list string) : command Z :=
  with_flags "hash-password" (Parse hash_flags (initial hash_flags) args) (fun st _ =>
  or_fail false (resolvePassword (flag_bool st "password-stdin")) (fun password =>
  (if (slen password <? 12)%Z then warn (Line [Str "sss: warning: a base password shorter than 12 characters is weak for a public service"]) else Ret tt) ;;;
  match HashPassword (random16 env) password with
  | None => fail false (err InvalidRequest)
  | Some hash => print (Line [Str hash]) ;;; Ret 0%Z
  end)).

(** *** Main; [serve] is the daemon's command line, which is not modelled. *)
Definition program_of (argv0 : string) : string :=
  let p := ToLower (Base argv0) in
  let n := (slen p - 4)%Z in
  if (0 <=? n)%Z && (sdrop n p =? ".exe")%string then stake n p else p.
Definition arguments (argv0 : string) (args : list string) : list string :=
  let p := program_of argv0 in
  if (p =? "sssend")%string then "send"%string :: args else
  if (p =? "ssrecv")%string then "recv"%string :: args else
  if (p =? "sssd")%string then "serve"%string :: args else args.
Definition Main (runServe : list string -> command Z) (argv : list string) : command Z :=
  match argv with
  | [] => warn Usage ;;; Ret 2%Z
  | argv0 :: args =>
    match arguments argv0 args with
    | [] => warn Usage ;;; Ret 2%Z
    | cmd :: args =>
      let named names := existsb (String.eqb cmd) names in
      if named ["send"]%string then runSend args else
      if named ["recv"; "receive"]%string then runRecv args else
      if named ["inspect"]%string then runInspect args else
      if named ["configure"]%string then runConfigure args else
      if named ["doctor"]%string then runDoctor args else
      if named ["admin"]%string then runAdmin args else
      if named ["serve"]%string then runServe args else
      if named ["hash-password"]%string then runHashPassword args else
      if named ["version"; "--version"; "-v"]%string then print (Line [Str "sss "; Version; Str "protocol "; Str Protocol]) ;;; Ret 0%Z else
      if named ["help"; "--help"; "-h"]%string then print Usage ;;; Ret 0%Z else
      warn (Line [Str "unknown command "; Str cmd]) ;;; warn Usage ;;; Ret 2%Z
    end
  end.
End cli.
