(* ===== verification/CliProofs.v ===== *)
(** * What a command prints and how it exits *)
From S2P Require Import Prelude GoStrings GoTime Errors Code Paths Manifest Wire Prog Tree Integrity GoUrl Config World Service.
From S2P Require Import Upload Commit Janitor Api Safety Host Net Auth Client Recv Pack Copy Send Flags Cli.
Local Open Scope prog_scope.

Section commands.
Context {UC : Unicode} {EX : Externals} {PK : Packer} {SC : SessionCodec} {CC : ConfigCodec} {A2 : Argon2}.
Context {V : Type} (net : target -> message -> prog V response) (mounted : V -> string -> option tree) (env : environment).
Notation command := (prog (console V)).
Notation any := (fun _ : console V => True).
Notation anyh := (fun _ : host V => True).

(** *** One call after the other *)

Lemma wp_on_host {A : Type} (p : prog (host V) A) (Q' : A -> host V -> Prop) (Q : A -> console V -> Prop) c :
  wp anyh p Q' (c_host c) -> (forall a h, Q' a h -> Q a (set_host h c)) -> wp any (on_host p) Q c.
Proof.
  intros Hp HQ. pose (F := fun c' : console V => c_out c' = c_out c /\ c_err c' = c_err c).
  eapply wp_wand; [apply (wp_lift c_host set_host any anyh F p Q' c); [done|done|done|exact Hp]|].
  intros a [h o e] [[Ho He] Hq]. cbn in *. subst. exact (HQ a h Hq).
Qed.
Lemma wp_act_ {A : Type} (f : console V -> A * console V) (Q : A -> console V -> Prop) c :
  (let '(a, c') := f c in Q a c') -> wp any (act_ f) Q c.
Proof. intros H. cbn. destruct (f c). by split. Qed.

(** A program that leaves the machine alone. *)
Definition looking {A : Type} (p : prog (host V) A) : Prop := forall h, wp anyh p (fun _ h' => h' = h) h.
Lemma looking_ret {A : Type} (a : A) : looking (Ret a).
Proof. by intros h. Qed.
Lemma looking_bind {A B : Type} (p : prog (host V) A) (f : A -> prog (host V) B) :
  looking p -> (forall a, looking (f a)) -> looking (bind p f).
Proof. intros Hp Hf h. apply wp_bind. eapply wp_wand; [apply Hp|]. intros a h' ->. apply Hf. Qed.
Lemma looking_read p : looking (fs (ReadFile p)).
Proof. intros [v t]. cbn. by destruct (t !! p) as [[]|]. Qed.
Lemma looking_send_note note file : looking (send_note (V := V) env note file).
Proof.
  unfold send_note. case_match; [apply looking_ret|]. apply looking_bind; [apply looking_read|]. intros []; apply looking_ret.
Qed.
Lemma looking_LoadClient : looking (LoadClient (V := V) env).
Proof.
  unfold LoadClient. case_match; [|apply looking_ret]. apply looking_bind; [apply looking_read|]. intros []; apply looking_ret.
Qed.

(** *** Standard output and the exit status *)

Definition is_error (o : output) : Prop := exists e, o = Object (OError e).
(** A command whose result is one line or one object: it is printed exactly when the exit
    status is zero; otherwise nothing is printed, or with --json the error of that status. *)
Definition one_result (c : console V) (z : Z) (c' : console V) : Prop :=
  (z = 0%Z /\ exists o, c_out c' = (c_out c ++ [o])%list /\ ~ is_error o) \/
  (z <> 0%Z /\ (c_out c' = c_out c \/ exists e, c_out c' = (c_out c ++ [Object (OError e)])%list /\ z = ExitCode e)).

Definition quiet (c c' : console V) : Prop := c_out c' = c_out c.

Lemma ExitCode_not_0 e : ExitCode e <> 0%Z.
Proof. unfold ExitCode. destruct (code_of_string e) as [c|]; [|done]. by destruct c. Qed.

Section result.
Context (c : console V).
Notation ends := (fun z c' => one_result c z c').

Lemma ends_code z c' : quiet c c' -> z <> 0%Z -> one_result c z c'.
Proof. intros Hq Hz. right. split; [done|]. by left. Qed.
Lemma fail_ends json e c' : quiet c c' -> wp any (fail json e) ends c'.
Proof.
  unfold quiet. intros Hq. unfold fail, say. apply wp_bind. destruct json; apply wp_act_; cbn [wp]; right; (split; [apply ExitCode_not_0|]); [|by left].
  right. exists e. cbn. by rewrite Hq.
Qed.
Lemma print_ends o c' : quiet c c' -> ~ is_error o -> wp any (print o ;;; Ret 0%Z) ends c'.
Proof. unfold quiet. intros Hq Ho. apply wp_bind, wp_act_. cbn [wp]. left. split; [done|]. exists o. cbn. by rewrite Hq. Qed.
Lemma warn_then {B : Type} o (p : command B) Q c' : quiet c c' -> (forall c2, quiet c c2 -> wp any p Q c2) -> wp any (warn o ;;; p) Q c'.
Proof. intros Hq Hp. apply wp_bind, wp_act_. by apply Hp. Qed.
Lemma maybe_warn_then {B : Type} (b : bool) o (p : command B) Q c' : quiet c c' -> (forall c2, quiet c c2 -> wp any p Q c2) ->
  wp any ((if b then Ret tt else warn o) ;;; p) Q c'.
Proof. intros Hq Hp. destruct b; [by apply wp_bind, Hp|by apply warn_then]. Qed.

Lemma on_host_then {A B : Type} (p : prog (host V) A) (f : A -> command B) Q c' : quiet c c' ->
  (forall a c2, quiet c c2 -> wp any (f a) Q c2) -> wp any (a <- on_host p ;; f a) Q c'.
Proof.
  intros Hq Hf. apply wp_bind, (wp_on_host p (fun _ _ => True)); [apply wp_trivial|]. intros a h _. by apply Hf.
Qed.
Definition hushed {A : Type} (p : command A) : Prop := forall c', quiet c c' -> wp any p (fun _ c2 => quiet c c2) c'.
Lemma hushed_then {A B : Type} (p : command A) (f : A -> command B) Q c' : hushed p -> quiet c c' ->
  (forall a c2, quiet c c2 -> wp any (f a) Q c2) -> wp any (bind p f) Q c'.
Proof. intros Hp Hq Hf. apply wp_bind. eapply wp_wand; [by apply Hp|]. cbn. auto. Qed.
Lemma hushed_or_fail {A : Type} json (p : command (string + A)) f c' : hushed p -> quiet c c' ->
  (forall a c2, quiet c c2 -> wp any (f a) ends c2) -> wp any (or_fail json p f) ends c'.
Proof. intros Hp Hq Hf. unfold or_fail. apply hushed_then; [done|done|]. intros [e|a] c2 H2; [by apply fail_ends|by apply Hf]. Qed.
Lemma hushed_ret {A : Type} (a : A) : hushed (Ret a).
Proof. by intros c' Hq. Qed.
Lemma hushed_on_host {A : Type} (p : prog (host V) A) : hushed (on_host p).
Proof. intros c' Hq. apply (wp_on_host p (fun _ _ => True)); [apply wp_trivial|]. by intros a h _. Qed.
Lemma hushed_warn o : hushed (warn o).
Proof. intros c' Hq. by apply wp_act_. Qed.
Lemma hushed_bind {A B : Type} (p : command A) (f : A -> command B) : hushed p -> (forall a, hushed (f a)) -> hushed (bind p f).
Proof. intros Hp Hf c' Hq. apply hushed_then; [done|done|]. intros a c2 H2. by apply Hf. Qed.
Lemma hushed_resolvePassword b : hushed (resolvePassword env b).
Proof.
  unfold resolvePassword. destruct b; [case_match; apply hushed_ret|]. cbv zeta. case_match; [apply hushed_ret|]. case_match; [|apply hushed_ret].
  apply hushed_bind; [apply hushed_warn|]. intros []. case_match; apply hushed_ret.
Qed.
Lemma hushed_remoteClient url b : hushed (remoteClient env url b).
Proof.
  unfold remoteClient, orE. apply hushed_bind; [apply hushed_on_host|]. intros [e|saved]; [apply hushed_ret|].
  case_match; [|apply hushed_ret]. unfold bindE. apply hushed_bind; [apply hushed_resolvePassword|]. intros []; apply hushed_ret.
Qed.
Lemma with_flags_ends set r f c' : quiet c c' -> (forall st l, wp any (f st l) ends c') -> wp any (with_flags set r f) ends c'.
Proof.
  intros Hq Hf. destruct r as [e|[st l]]; [|apply Hf]. apply warn_then; [done|]. intros c2 H2. by apply ends_code.
Qed.
End result.

Create HintDb ends discriminated.
Ltac step_ends c :=
  repeat first
    [ solve [auto with ends]
    | apply fail_ends; [done]
    | apply print_ends; [done|by intros [? ?]]
    | apply maybe_warn_then with (c := c); [done|intros ? ?]
    | apply warn_then with (c := c); [done|intros ? ?]
    | apply hushed_or_fail; [first [apply hushed_on_host | apply hushed_remoteClient | apply hushed_resolvePassword | apply hushed_ret]|done|intros ? ? ?]
    | apply on_host_then with (c := c); [done|intros ? ? ?]
    | apply hushed_then with (c := c); [apply hushed_ret|done|intros ? ? ?]
    | case_match ].

Lemma runSend_ends args c : wp any (runSend net env args) (one_result c) c.
Proof.
  apply with_flags_ends; [done|]. intros st roots. cbv zeta. unfold usageError. step_ends c.
Qed.
Lemma recvLocal_ends c socket code to json b c' : quiet c c' -> wp any (recvLocal net mounted env socket code to json b) (one_result c) c'.
Proof.
  intros Hq. unfold recvLocal. apply hushed_or_fail; [apply hushed_on_host|done|]. intros claim c2 H2. cbv zeta.
  apply hushed_or_fail; [|done|].
  { case_match; [apply hushed_ret|]. apply hushed_bind; [case_match; [apply hushed_ret|apply hushed_warn]|]. intros _.
    apply hushed_bind; [apply hushed_on_host|]. intros a. apply hushed_on_host. }
  intros path c3 H3. case_match; [step_ends c|]. apply hushed_then with (c := c); [case_match; [apply hushed_warn|apply hushed_ret]|done|].
  intros _ c4 H4. step_ends c.
Qed.
Lemma recvRemote_ends c code to url b json q c' : quiet c c' -> wp any (recvRemote net env code to url b json q) (one_result c) c'.
Proof.
  intros Hq. unfold recvRemote. step_ends c.
Qed.
#[local] Hint Resolve recvLocal_ends recvRemote_ends : ends.
Lemma runRecv_ends args c : wp any (runRecv net mounted env args) (one_result c) c.
Proof.
  apply with_flags_ends; [done|]. intros st l. cbv zeta. unfold usageError. step_ends c.
Qed.
Lemma runConfigure_ends args c : wp any (runConfigure env args) (one_result c) c.
Proof. apply with_flags_ends; [done|]. intros st l. cbv zeta. unfold usageError. step_ends c. Qed.
Lemma runHashPassword_ends args (c : console V) : wp any (runHashPassword env args) (one_result c) c.
Proof.
  apply with_flags_ends; [done|]. intros st l. step_ends c.
Qed.

(** The commands that print one result. *)
Definition single_result : list string := ["send"; "recv"; "receive"; "configure"; "hash-password"]%string.

(** C9: standard output is clean and agrees with the exit status.  Whatever is typed after
    send, recv, configure or hash-password (or under the names sssend and ssrecv), whatever
    fails and whatever the server answers: a command that exits with 0 printed exactly one
    line or object, its result; one that exits otherwise printed nothing there, or with
    --json one error object, whose code is the one the exit status stands for. *)
Theorem one_result_on_stdout runServe argv0 args cmd rest c es z c' : arguments argv0 args = cmd :: rest -> cmd ∈ single_result ->
  run (Main net mounted env runServe (argv0 :: args)) es c = (Some z, c') -> one_result c z c'.
Proof.
  intros Ha Hc E. cbn [Main] in E. rewrite Ha in E.
  assert (H : wp any (Main net mounted env runServe (argv0 :: args)) (one_result c) c).
  { cbn [Main]. rewrite Ha. unfold single_result in Hc. repeat (apply elem_of_cons in Hc as [->|Hc]; [cbn [existsb String.eqb Ascii.eqb Bool.eqb orb]|]).
    - apply runSend_ends. - apply runRecv_ends. - apply runRecv_ends. - apply runConfigure_ends. - apply runHashPassword_ends.
    - by apply not_elem_of_nil in Hc. }
  destruct (wp_sound _ _ _ es c I H) as [_ H0]. cbn [Main] in H0. rewrite Ha, E in H0. by apply H0.
Qed.
End commands.
