(* ===== verification/PackProofs.v ===== *)
(** * What the sender's plan says

    A plan describes the sender's files entry by entry and is a manifest the server
    accepts. *)
From S2P Require Import Prelude GoStrings GoTime Errors Paths Manifest Prog Tree Integrity Materialize Safety.
From S2P Require Import CommitProofs SimpleProofs Guarantees Demo Host RecvProofs Handoff Pack.
Local Open Scope prog_scope.

(** ** Numbers in names *)

Lemma Atoi_zero_digit s : (exists a r, s = String a r /\ digit_val a <> None) -> Atoi (String "0" s) = Atoi s.
Proof.
  intros (a & r & -> & Ha). unfold Atoi. cbn [digits digit_val]. change (digit_val "0"%char) with (Some 0%Z). cbn [Z.mul Z.add].
  assert (a <> "-"%char /\ a <> "+"%char) as [H1 H2] by (split; intros ->; by apply Ha).
  destruct a as [[] [] [] [] [] [] [] []]; try reflexivity; by (exfalso; (apply H1 || apply H2)).
Qed.

Lemma pad4_Atoi i : (0 <= i < 2^63)%Z -> Atoi (pad4 i) = Some i.
Proof.
  intros Hi. assert (Hr : in_int64 i) by (unfold in_int64, min_int64, max_int64; lia).
  assert (Hd : exists a r, FormatInt i = String a r /\ digit_val a <> None).
  { unfold FormatInt. destruct (Z.ltb_spec i 0); [lia|].
    destruct (decimal_head 20 i "" ltac:(lia) ltac:(lia)) as (a & s & E & Ha). exists a, s. split; [done|].
    unfold digit_val. assert ((48 <=? byte_val a)%Z && (byte_val a <=? 57)%Z = true) as -> by (boolprop; lia). done. }
  assert (H0 : forall s, exists a r, String "0" s = String a r /\ digit_val a <> None) by (intros s; by exists "0"%char, s).
  unfold pad4. rewrite <- (Atoi_FormatInt i Hr).
  destruct (i <? 10)%Z; [|destruct (i <? 100)%Z; [|destruct (i <? 1000)%Z; [|done]]]; cbn [append];
    rewrite ?Atoi_zero_digit; auto.
Qed.
Lemma pad4_inj i j : (0 <= i < 2^63)%Z -> (0 <= j < 2^63)%Z -> pad4 i = pad4 j -> i = j.
Proof. intros Hi Hj E. pose proof (pad4_Atoi i Hi) as H. rewrite E, pad4_Atoi in H by done. congruence. Qed.

(** ** Packs and raw segments *)
Section planning.
Context {UC : Unicode} {EX : Externals}.

Definition raw_id (i : Z) : string := ("r-" ++ pad4 i)%string.
Definition pack_id (i : Z) : string := ("p-" ++ pad4 i)%string.
Definition ids (f : Z -> string) (n : nat) : list string := map f (seqZ 0 (Z.of_nat n)).
Definition path_key (s : Source) : string := ToLower (src_RelPath s).

Lemma ids_snoc f n : ids f (S n) = (ids f n ++ [f (Z.of_nat n)])%list.
Proof. unfold ids. rewrite seqZ_S, map_app. done. Qed.
Lemma ids_NoDup f n : (forall i j, (0 <= i < 2^63)%Z -> (0 <= j < 2^63)%Z -> f i = f j -> i = j) -> (Z.of_nat n <= 2^63)%Z -> NoDup (ids f n).
Proof.
  intros Hf Hn. apply NoDup_fmap_2_strong; [|apply NoDup_seqZ]. intros i j Hi%elem_of_seqZ Hj%elem_of_seqZ. apply Hf; lia.
Qed.

(** Entries of the files that have a segment, and the files themselves. *)
Definition segment_files (raws : list (string * Source)) (packs : list PackSpec) : list (string * Source) :=
  (raws ++ concat (map (fun ps => map (pair (ps_SegmentID ps)) (ps_Files ps)) packs))%list.

Record planned (dirs : list Entry) (l : list Source) (pl : planning) : Prop := {
  pd_entries : pl_Entries pl ≡ₚ dirs ++ map (uncurry file_entry) (segment_files (pl_RawFiles pl) (pl_Packs pl));
  pd_sources : map snd (segment_files (pl_RawFiles pl) (pl_Packs pl)) ++ pl_current pl ≡ₚ l;
  pd_raws : map fst (pl_RawFiles pl) = ids raw_id (length (pl_RawFiles pl));
  pd_packs : map ps_SegmentID (pl_Packs pl) = ids pack_id (length (pl_Packs pl));
  pd_full : Forall (fun ps => ps_Files ps <> []) (pl_Packs pl);
  pd_rawIndex : pl_rawIndex pl = Z.of_nat (length (pl_RawFiles pl));
  pd_packIndex : pl_packIndex pl = Z.of_nat (length (pl_Packs pl));
  pd_seen : pl_seenPaths pl = list_to_set (map (fun e => ToLower (e_Path e)) dirs) ∪ list_to_set (map path_key l);
  pd_distinct : NoDup (map path_key l) /\ Forall (fun s => path_key s ∉ map (fun e => ToLower (e_Path e)) dirs) l;
  pd_count : pl_FileCount pl = Z.of_nat (length l);
  pd_total : pl_TotalBytes pl = foldl (fun n s => int64 (n + src_Size s)) 0%Z l }.

Lemma segment_files_pack raws packs ps :
  segment_files raws (packs ++ [ps]) = (segment_files raws packs ++ map (pair (ps_SegmentID ps)) (ps_Files ps))%list.
Proof. unfold segment_files. rewrite map_app, concat_app. cbn. by rewrite app_nil_r, app_assoc. Qed.
Lemma segment_files_raw raws packs x : segment_files (raws ++ [x]) packs ≡ₚ segment_files raws packs ++ [x].
Proof. unfold segment_files. rewrite <- !app_assoc. f_equiv. apply Permutation_app_comm. Qed.

Lemma flushPack_planned dirs l pl : planned dirs l pl -> planned dirs l (flushPack pl).
Proof.
  intros [H1 H2 H3 H4 H5 H6 H7 H8 H9 H10 H11]. unfold flushPack. destruct (pl_current pl) as [|s0 files] eqn:E; [by split; rewrite ?E|].
  split; cbn [pl_Entries pl_RawFiles pl_Packs pl_current pl_rawIndex pl_packIndex pl_seenPaths pl_FileCount pl_TotalBytes]; try done.
  - rewrite H1, segment_files_pack, map_app, <- app_assoc. cbn [ps_SegmentID ps_Files]. by rewrite map_map.
  - rewrite segment_files_pack, map_app, app_nil_r. cbn [ps_SegmentID ps_Files]. rewrite map_map. cbn [snd]. rewrite map_id. by rewrite <- H2.
  - rewrite map_app, length_app, H4. cbn. by rewrite Nat.add_1_r, ids_snoc, H7.
  - apply Forall_app; split; [done|]. by repeat constructor.
  - rewrite length_app, H7. cbn. lia.
Qed.

Lemma plan_source_planned dirs l s pl pl' : planned dirs l pl -> plan_source pl s = inr pl' -> planned dirs (l ++ [s]) pl'.
Proof.
  intros [H1 H2 H3 H4 H5 H6 H7 H8 H9 H10 H11]. unfold plan_source. destruct (bool_decide_reflect (ToLower (src_RelPath s) ∈ pl_seenPaths pl)) as [|Hn]; [done|].
  rewrite H8 in Hn.
  assert (Hseen : {[ToLower (src_RelPath s)]} ∪ pl_seenPaths pl = list_to_set (map (fun e => ToLower (e_Path e)) dirs) ∪ list_to_set (map path_key (l ++ [s]))).
  { rewrite H8, map_app, list_to_set_app_L. cbn. unfold path_key at 2. set_solver. }
  assert (Hdis : NoDup (map path_key (l ++ [s])) /\ Forall (fun s => path_key s ∉ map (fun e => ToLower (e_Path e)) dirs) (l ++ [s])).
  { destruct H9 as [Ha Hb]. split.
    - rewrite map_app. apply NoDup_app. split_and!; [done| |by apply NoDup_singleton]. intros x Hx ->%list_elem_of_singleton. set_solver.
    - apply Forall_app; split; [done|]. apply Forall_singleton. set_solver. }
  assert (Hcount : (pl_FileCount pl + 1)%Z = Z.of_nat (length (l ++ [s]))) by (rewrite H10, length_app; cbn; lia).
  assert (Htotal : int64 (pl_TotalBytes pl + src_Size s) = foldl (fun n s => int64 (n + src_Size s)) 0%Z (l ++ [s])) by (by rewrite foldl_app, <- H11).
  destruct (RawThreshold <=? src_Size s)%Z; intros [= <-].
  - split; cbn [pl_Entries pl_RawFiles pl_Packs pl_current pl_rawIndex pl_packIndex pl_seenPaths pl_FileCount pl_TotalBytes]; try done.
    + by rewrite H1, segment_files_raw, map_app, <- app_assoc, H6.
    + rewrite segment_files_raw, map_app, <- H2, <- !app_assoc. f_equiv. apply Permutation_app_comm.
    + rewrite map_app, length_app, H3. cbn. by rewrite Nat.add_1_r, ids_snoc, H6.
    + rewrite length_app, H6. cbn. lia.
  - case_match; [apply flushPack_planned|]; (split; cbn [pl_Entries pl_RawFiles pl_Packs pl_current pl_rawIndex pl_packIndex pl_seenPaths pl_FileCount pl_TotalBytes]; try done).
    all: by rewrite app_assoc, H2.
Qed.

Lemma plan_sources_planned dirs l done pl pl' : planned dirs done pl -> plan_sources pl l = inr pl' -> planned dirs (done ++ l) pl'.
Proof.
  revert done pl. induction l as [|s l IH]; intros done pl Hp; cbn [plan_sources]; [intros [= <-]; by rewrite app_nil_r|].
  destruct (plan_source pl s) as [e|pl1] eqn:E; [done|]. intros H. rewrite (cons_middle s done l), app_assoc.
  eapply IH; [by eapply plan_source_planned|done].
Qed.
Lemma flushPack_done pl : pl_current (flushPack pl) = [].
Proof. unfold flushPack. by destruct (pl_current pl) eqn:E. Qed.

Lemma insert_source_perm s l : insert_source s l ≡ₚ s :: l.
Proof. induction l as [|x l IH]; cbn; [done|]. destruct (slt _ _); [done|]. rewrite IH. constructor. Qed.
Lemma sort_sources_perm l : sort_sources l ≡ₚ l.
Proof. induction l as [|s l IH]; cbn; [done|]. rewrite insert_source_perm. by constructor. Qed.

(** What [arrange] makes of the files and directories it was given. *)
Record arranged (roots : list string) (sources : list Source) (dirs : list Entry) (p : Plan) : Prop := {
  ar_roots : p_Roots p = roots;
  ar_entries : p_Entries p ≡ₚ dirs ++ map (uncurry file_entry) (segment_files (p_RawFiles p) (p_Packs p));
  ar_sources : map snd (segment_files (p_RawFiles p) (p_Packs p)) ≡ₚ sources;
  ar_raws : map fst (p_RawFiles p) = ids raw_id (length (p_RawFiles p));
  ar_packs : map ps_SegmentID (p_Packs p) = ids pack_id (length (p_Packs p));
  ar_full : Forall (fun ps => ps_Files ps <> []) (p_Packs p);
  ar_distinct : NoDup (map path_key sources) /\ Forall (fun s => path_key s ∉ map (fun e => ToLower (e_Path e)) dirs) sources;
  ar_count : p_FileCount p = Z.of_nat (length sources) }.

Lemma arrange_spec sc p : arrange sc = inr p -> arranged (sc_roots sc) (sc_sources sc) (sc_dirs sc) p.
Proof.
  unfold arrange. destruct (_ && _); [done|]. destruct (plan_sources _ _) as [e|pl] eqn:E; [done|]. intros [= <-].
  eapply (plan_sources_planned (sc_dirs sc) _ []) in E.
  2:{ split; cbn; rewrite ?app_nil_r; try done; [set_solver|]. split; [apply NoDup_nil_2|done]. }
  cbn [app] in E. apply flushPack_planned in E. pose proof (flushPack_done pl) as Hc. pose proof (sort_sources_perm (sc_sources sc)) as Hs.
  destruct E as [H1 H2 H3 H4 H5 _ _ _ [H9 H9'] H10 _]. rewrite Hc, app_nil_r in H2.
  split; cbn [p_Roots p_Entries p_RawFiles p_Packs p_FileCount]; try done.
  - by rewrite H2.
  - split; by rewrite <- Hs.
  - by rewrite H10, Hs.
Qed.
End planning.

(** ** Reading the sender's files *)
Section scanning.
Context {UC : Unicode} {EX : Externals} (t : tree).

Lemma look_at (p : path) n : t !! p = Some n -> look t p = Some (content_of n).
Proof. intros Hn. unfold look. by rewrite Hn. Qed.

(** A modification time that is known is the one reported; any other is an int64. *)
Definition reported (mt : option Z) (z : Z) : Prop := match mt with Some z' => z = z' | None => in_int64 z end.
Definition source_of (root : path) (name : string) (rel : path) (s : Source) : Prop :=
  src_AbsPath s = (root ++ rel)%list /\ src_RelPath s = virtual name rel /\
  exists d m mt, t !! (root ++ rel)%list = Some (NFile d m mt) /\ src_Size s = slen d /\ src_Digest s = HashBytes d /\
    src_Mode s = exec_mode m /\ reported mt (src_MTimeNS s).
Definition dir_of (root : path) (name : string) (rel : path) (e : Entry) : Prop :=
  exists m mt z, t !! (root ++ rel)%list = Some (NDir m mt) /\ reported mt z /\ e = dir_entry (virtual name rel) z.

Lemma wp_Lstat (I : tree -> Prop) (p : path) (Q : oserr + node * Z -> tree -> Prop) : I t ->
  (forall e, Q (inl e) t) -> (forall n z, t !! p = Some n -> reported (mtime_of n) z -> Q (inr (n, z)) t) -> wp I (Lstat p) Q t.
Proof.
  intros HI He HQ. apply wp_act. intros r t' [[= <- <-]|(f & k & [= <-] & [= <- <-])]; (split; [done|]).
  - destruct (t !! p) as [n|] eqn:E; [|by apply He]. apply HQ; [done|]. by destruct (mtime_of n).
  - destruct k as [|k]; [by apply He|]. destruct (t !! p) as [n|] eqn:E; [|by apply He]. apply HQ; [done|].
    destruct (mtime_of n); [done|]. apply int64_range.
Qed.

Lemma readSource_wp (I : tree -> Prop) root name rel n z (Q : ecode + Source -> tree -> Prop) : I t ->
  t !! (root ++ rel)%list = Some n -> is_ndir n = false -> reported (mtime_of n) z -> (forall e, Q (inl e) t) ->
  (forall s, source_of root name rel s -> Q (inr s) t) -> wp I (readSource (root ++ rel)%list (virtual name rel) (n, z)) Q t.
Proof.
  intros HI Hn Hf Hz He HQ. unfold readSource, HashFile, orE. apply wp_bind, wp_bindE, wp_ReadFile; [done|]. intros [e|d] Hd; cbn [wp fst snd]; [by apply He|].
  destruct n as [|d' m mt]; [done|]. rewrite (look_at _ _ Hn) in Hd. injection Hd as ->. cbn [size_of].
  rewrite Z.eqb_refl. cbn [wp]. apply HQ. split; [done|]. split; [done|]. by exists d, m, mt.
Qed.

(** *** Below a root *)
Section root.
Context (root : path) (name : string).

Definition item (rel : path) (found : list Source * list Entry) : Prop :=
  (exists s, s ∈ fst found /\ source_of root name rel s) \/ (exists e, e ∈ snd found /\ dir_of root name rel e).
(** What was found of [rels]: nothing else, and everything. *)
Definition found_of (rels : list path) (found : list Source * list Entry) : Prop :=
  (forall s, s ∈ fst found -> exists rel, rel ∈ rels /\ source_of root name rel s) /\
  (forall e, e ∈ snd found -> exists rel, rel ∈ rels /\ dir_of root name rel e) /\
  (forall rel, rel ∈ rels -> item rel found /\ ValidatePortablePath (virtual name rel) = None).

Lemma found_source rels found rel s : found_of rels found -> source_of root name rel s -> ValidatePortablePath (virtual name rel) = None ->
  found_of (rels ++ [rel]) (fst found ++ [s], snd found)%list.
Proof.
  intros (H1 & H2 & H3) Hs Hv. split_and!; cbn [fst snd].
  - intros s' [Hin| ->%list_elem_of_singleton]%elem_of_app; [destruct (H1 _ Hin) as (r & ? & ?); exists r|exists rel]; set_solver.
  - intros e Hin. destruct (H2 _ Hin) as (r & ? & ?). exists r. set_solver.
  - intros r [Hin| ->%list_elem_of_singleton]%elem_of_app.
    + destruct (H3 _ Hin) as [[(s' & ? & ?)|(e & ? & ?)] ?]; (split; [|done]); [left; exists s'|right; exists e]; set_solver.
    + split; [|done]. left. exists s. set_solver.
Qed.
Lemma found_dir rels found rel e : found_of rels found -> dir_of root name rel e -> ValidatePortablePath (virtual name rel) = None ->
  found_of (rels ++ [rel]) (fst found, snd found ++ [e])%list.
Proof.
  intros (H1 & H2 & H3) Hs Hv. split_and!; cbn [fst snd].
  - intros s Hin. destruct (H1 _ Hin) as (r & ? & ?). exists r. set_solver.
  - intros s' [Hin| ->%list_elem_of_singleton]%elem_of_app; [destruct (H2 _ Hin) as (r & ? & ?); exists r|exists rel]; set_solver.
  - intros r [Hin| ->%list_elem_of_singleton]%elem_of_app.
    + destruct (H3 _ Hin) as [[(s' & ? & ?)|(e' & ? & ?)] ?]; (split; [|done]); [left; exists s'|right; exists e']; set_solver.
    + split; [|done]. right. exists e. set_solver.
Qed.

Lemma visit_wp (I : tree -> Prop) rels found rel (Q : ecode + list Source * list Entry -> tree -> Prop) : I t -> found_of rels found ->
  (forall e, Q (inl e) t) -> (forall found', found_of (rels ++ [rel]) found' -> Q (inr found') t) -> wp I (visit root name found rel) Q t.
Proof.
  intros HI Hf He HQ. unfold visit. destruct found as [S D]. destruct (ValidatePortablePath _) as [e|] eqn:Hv; [by apply He|].
  unfold orE. apply wp_bind, wp_Lstat; [done|by intros e; apply He|]. intros n z Hn Hz. cbn [fst snd]. destruct n as [m mt|d m mt] eqn:En; rewrite <- En in Hn.
  - cbn [wp]. apply HQ. apply (found_dir rels (S, D) rel); [done| |done]. subst n. by exists m, mt, z.
  - apply wp_bindE. apply (readSource_wp I root name rel); [done|by subst|done|done|by intros e; apply He|].
    intros s Hs. cbn [wp]. apply HQ. by apply (found_source rels (S, D) rel).
Qed.

Lemma insert_path_perm p l : insert_path p l ≡ₚ p :: l.
Proof. induction l as [|x l IH]; cbn; [done|]. destruct (path_before _ _); [done|]. rewrite IH. constructor. Qed.
Lemma elem_of_below rel : rel ∈ below root t <-> is_Some (t !! (root ++ rel)%list).
Proof.
  unfold below. assert (Hp : forall l, sort_paths l ≡ₚ l).
  { induction l as [|p l IH]; cbn; [done|]. rewrite insert_path_perm. by constructor. }
  rewrite Hp, list_elem_of_omap. split.
  - intros (q & Hq & Hs). apply list_elem_of_In, in_map_iff in Hq as ([q' n] & <- & Hin%list_elem_of_In%elem_of_map_to_list).
    cbn [fst] in Hs. apply strip_Some in Hs. subst q'. by exists n.
  - intros [n Hn]. exists (root ++ rel)%list. split; [|by apply strip_Some].
    apply list_elem_of_In, in_map_iff. exists (root ++ rel, n)%list. split; [done|]. by apply list_elem_of_In, elem_of_map_to_list.
Qed.

Lemma walkDir_wp (I : tree -> Prop) (Q : ecode + list Source * list Entry -> tree -> Prop) : I t -> (forall e, Q (inl e) t) ->
  (forall found, found_of (below root t) found -> Q (inr found) t) -> wp I (walkDir root name) Q t.
Proof.
  intros HI He HQ. unfold walkDir, orE. apply wp_bind, wp_act. intros r t' [[= <- <-]|(f & k & [= <-] & [= <- <-])]; (split; [done|]); [|by apply He].
  destruct (t !! root); [|by apply He].
  apply (wp_loop I _ (fun l found t' => t' = t /\ exists done, below root t = (done ++ l)%list /\ found_of done found)).
  - split; [done|]. exists []. split; [done|]. split_and!; intros x Hx; set_solver.
  - intros found t' [-> (done & E & Hf)]. rewrite app_nil_r in E. apply HQ. by rewrite E.
  - intros rel l found t' [-> (done & E & Hf)]. apply (visit_wp I done); [done|done|done|]. intros found' Hf'. split; [done|].
    exists (done ++ [rel])%list. by rewrite <- app_assoc.
Qed.
End root.

(** *** The roots *)
Context (cwd : path) (Hwf : well_formed t).
Definition root_name (r : string) : string := Base (Abs (rooted cwd) r).
Notation abs r := (host_path cwd r).

Definition held (sources : list Source) (dirs : list Entry) (r : string) (rel : path) : Prop :=
  (exists s, s ∈ sources /\ source_of (abs r) (root_name r) rel s) \/ (exists e, e ∈ dirs /\ dir_of (abs r) (root_name r) rel e).

Record scan_state (done : list string) (sc : scanned) : Prop := {
  st_roots : sc_roots sc = map root_name done;
  st_seen : sc_seen sc = list_to_set (map ToLower (sc_roots sc));
  st_distinct : NoDup (map ToLower (sc_roots sc));
  st_names : Forall (fun r => ValidateComponent r = None) (sc_roots sc);
  st_sources : forall s, s ∈ sc_sources sc -> exists r rel, r ∈ done /\ source_of (abs r) (root_name r) rel s /\
    (rel = [] \/ ValidatePortablePath (virtual (root_name r) rel) = None);
  st_dirs : forall e, e ∈ sc_dirs sc -> exists r rel, r ∈ done /\ dir_of (abs r) (root_name r) rel e /\
    ValidatePortablePath (virtual (root_name r) rel) = None;
  st_all : forall r rel, r ∈ done -> is_Some (t !! (abs r ++ rel)%list) -> held (sc_sources sc) (sc_dirs sc) r rel }.

(** One more root, with what was found below it. *)
Lemma scan_more done sc r sources dirs : scan_state done sc -> ToLower (root_name r) ∉ sc_seen sc -> ValidateComponent (root_name r) = None ->
  (forall s, s ∈ sources -> exists rel, source_of (abs r) (root_name r) rel s /\
    (rel = [] \/ ValidatePortablePath (virtual (root_name r) rel) = None)) ->
  (forall e, e ∈ dirs -> exists rel, dir_of (abs r) (root_name r) rel e /\ ValidatePortablePath (virtual (root_name r) rel) = None) ->
  (forall rel, is_Some (t !! (abs r ++ rel)%list) -> held sources dirs r rel) ->
  scan_state (done ++ [r]) (mkScanned ({[ToLower (root_name r)]} ∪ sc_seen sc) (sc_roots sc ++ [root_name r])
    (sc_sources sc ++ sources) (sc_dirs sc ++ dirs)).
Proof.
  intros [H1 H2 H3 H4 H5 H6 H7] Hn Hv Hs Hd Ha.
  assert (Hmono : forall S D S' D' x rel, held S D x rel -> held (S ++ S') (D ++ D') x rel).
  { intros S D S' D' x rel [(s & ? & ?)|(e & ? & ?)]; [left; exists s|right; exists e]; set_solver. }
  assert (Hmono2 : forall S D S' D' x rel, held S' D' x rel -> held (S ++ S') (D ++ D') x rel).
  { intros S D S' D' x rel [(s & ? & ?)|(e & ? & ?)]; [left; exists s|right; exists e]; set_solver. }
  split; cbn [sc_seen sc_roots sc_sources sc_dirs].
  - by rewrite H1, map_app.
  - rewrite H2, map_app, list_to_set_app_L. cbn. set_solver.
  - rewrite map_app. apply NoDup_app. split_and!; [done| |by apply NoDup_singleton]. intros x Hx ->%list_elem_of_singleton. rewrite H2 in Hn. set_solver.
  - apply Forall_app. split; [done|]. by apply Forall_singleton.
  - intros s [Hin|Hin]%elem_of_app; [destruct (H5 _ Hin) as (x & rel & ? & ?)|destruct (Hs _ Hin) as (rel & ?)].
    + exists x, rel. set_solver.
    + exists r, rel. set_solver.
  - intros e [Hin|Hin]%elem_of_app; [destruct (H6 _ Hin) as (x & rel & ? & ?)|destruct (Hd _ Hin) as (rel & ?)].
    + exists x, rel. set_solver.
    + exists r, rel. set_solver.
  - intros x rel [Hin| ->%list_elem_of_singleton]%elem_of_app Hx; [by apply Hmono, H7|by apply Hmono2, Ha].
Qed.

Lemma scan_root_wp (I : tree -> Prop) done sc r (Q : ecode + scanned -> tree -> Prop) : I t -> scan_state done sc -> (forall e, Q (inl e) t) ->
  (forall sc', scan_state (done ++ [r]) sc' -> Q (inr sc') t) -> wp I (scan_root cwd sc r) Q t.
Proof.
  intros HI Hsc He HQ. unfold scan_root, orE. apply wp_bind, wp_Lstat; [done|by intros e; apply He|]. intros n z Hn Hz. cbn [fst snd].
  fold (root_name r). destruct (ValidateComponent (root_name r)) as [e|] eqn:Hv; [by apply He|].
  destruct (bool_decide_reflect (ToLower (root_name r) ∈ sc_seen sc)) as [|Hseen]; [by apply He|]. cbn [negb].
  rewrite <- (app_nil_r (abs r)) in Hn. assert (Hl := look_at _ _ Hn). destruct n as [m mt|d m mt] eqn:En; rewrite <- En in Hn.
  - apply wp_bindE, walkDir_wp; [done|by intros e; apply He|]. intros found (F1 & F2 & F3). cbn [wp]. apply HQ, scan_more; try done.
    + intros s Hs. destruct (F1 s Hs) as (rel & Hr & ?). exists rel. split; [done|]. right. by apply F3.
    + intros e Hs. destruct (F2 e Hs) as (rel & Hr & ?). exists rel. split; [done|]. by apply F3.
    + intros rel Hr. apply elem_of_below in Hr. by apply F3.
  - apply wp_bindE. replace (abs r) with (abs r ++ [])%list at 1 by apply app_nil_r. change (root_name r) with (virtual (root_name r) []) at 1.
    apply (readSource_wp I _ (root_name r)); [done|by subst|done|done|by intros e; apply He|].
    intros s Hs. cbn [wp]. apply HQ. rewrite <- (app_nil_r (sc_dirs sc)). apply scan_more; try done.
    + intros s' ->%list_elem_of_singleton. exists []. auto.
    + intros e Hin. set_solver.
    + intros rel [n' Hr]. destruct rel as [|x rel]; [left; exists s; set_solver|]. exfalso.
      assert (Hd : look t (abs r) = Some CDir). { apply (Hwf (abs r) (x :: rel)); [done|]. by rewrite (look_at _ _ Hr). }
      rewrite app_nil_r in Hl. by rewrite Hd in Hl.
Qed.

Lemma Scan_wp (I : tree -> Prop) roots (Q : ecode + Plan -> tree -> Prop) : I t -> (forall e, Q (inl e) t) ->
  (forall sc p, scan_state roots sc -> arranged (sc_roots sc) (sc_sources sc) (sc_dirs sc) p -> roots <> [] -> Q (inr p) t) ->
  wp I (Scan cwd roots) Q t.
Proof.
  intros HI He HQ. unfold Scan. destruct (Nat.eqb_spec (length roots) 0) as [|Hne]; [by apply He|]. cbn [negb].
  apply wp_bindE. apply (wp_loop I _ (fun l sc t' => t' = t /\ exists done, roots = (done ++ l)%list /\ scan_state done sc)).
  - split; [done|]. exists []. split; [done|]. split; cbn; try done; [apply NoDup_nil_2|set_solver..].
  - intros sc t' [-> (done & E & Hs)]. rewrite app_nil_r in E. subst done. cbn [wp].
    destruct (arrange sc) as [e|p] eqn:Ea; [by apply He|]. apply (HQ sc); [done|by apply arrange_spec|by intros ->].
  - intros r l sc t' [-> (done & E & Hs)]. apply (scan_root_wp I done); [done|done|done|]. intros sc' Hs'. split; [done|].
    exists (done ++ [r])%list. by rewrite <- app_assoc.
Qed.
End scanning.

(** ** What a scan finds *)
Section described.
Context {UC : Unicode} {EX : Externals}.

(** The entry of the node at [rel] below a root. *)
Definition entry_for (t : tree) (root : path) (name : string) (rel : path) (e : Entry) : Prop :=
  e_Path e = virtual name rel /\
  (dir_of t root name rel e \/
   exists d m mt, t !! (root ++ rel)%list = Some (NFile d m mt) /\ e_Type e = EntryFile /\ e_Size e = slen d /\
     e_Digest e = HashBytes d /\ e_Mode e = exec_mode m /\ reported mt (e_MTimeUnixNS e)).

Lemma source_entry t root name rel s id : source_of t root name rel s -> entry_for t root name rel (file_entry id s).
Proof. intros (_ & Hp & d & m & mt & Hn & H1 & H2 & H3 & H4). split; [done|]. right. by exists d, m, mt. Qed.
Lemma dir_entry_for t root name rel e : dir_of t root name rel e -> entry_for t root name rel e.
Proof. intros Hd. split; [|by left]. by destruct Hd as (m & mt & z & _ & _ & ->). Qed.

Lemma arranged_file roots sources dirs p s : arranged roots sources dirs p -> s ∈ sources ->
  exists id, (id, s) ∈ segment_files (p_RawFiles p) (p_Packs p).
Proof.
  intros Ha Hs. rewrite <- (ar_sources _ _ _ _ Ha) in Hs. apply list_elem_of_In, in_map_iff in Hs as ([id s'] & <- & Hin).
  exists id. by apply list_elem_of_In.
Qed.
Lemma arranged_entry roots sources dirs p e : arranged roots sources dirs p -> e ∈ p_Entries p ->
  e ∈ dirs \/ exists id s, (id, s) ∈ segment_files (p_RawFiles p) (p_Packs p) /\ s ∈ sources /\ e = file_entry id s.
Proof.
  intros Ha He. rewrite (ar_entries _ _ _ _ Ha) in He. apply elem_of_app in He as [He|He]; [by left|right].
  apply list_elem_of_In, in_map_iff in He as ([id s] & <- & Hin). exists id, s. apply list_elem_of_In in Hin. split; [done|]. split; [|done].
  rewrite <- (ar_sources _ _ _ _ Ha). apply list_elem_of_In, in_map_iff. exists (id, s). split; [done|by apply list_elem_of_In].
Qed.

(** What a plan with those roots and entries says of a machine's files: every entry is for a
    node below a root, and every node below a root has one. *)
Definition describes (cwd : path) (roots : list string) (t : tree) (names : list string) (entries : list Entry) : Prop :=
  names = map (root_name cwd) roots /\
  (forall e, e ∈ entries -> exists r rel, r ∈ roots /\ entry_for t (host_path cwd r) (root_name cwd r) rel e) /\
  (forall r rel, r ∈ roots -> is_Some (t !! (host_path cwd r ++ rel)%list) ->
     exists e, e ∈ entries /\ entry_for t (host_path cwd r) (root_name cwd r) rel e).

Lemma scanned_describes cwd roots t sc p : scan_state t cwd roots sc -> arranged (sc_roots sc) (sc_sources sc) (sc_dirs sc) p ->
  describes cwd roots t (p_Roots p) (p_Entries p).
Proof.
  intros Hs Ha. split; [by rewrite (ar_roots _ _ _ _ Ha), (st_roots _ _ _ _ Hs)|]. split.
  - intros e He. destruct (arranged_entry _ _ _ _ _ Ha He) as [Hd|(id & s & _ & Hin & ->)].
    + destruct (st_dirs _ _ _ _ Hs e Hd) as (r & rel & Hr & Hdir & _). exists r, rel. split; [done|by apply dir_entry_for].
    + destruct (st_sources _ _ _ _ Hs s Hin) as (r & rel & Hr & Hsrc & _). exists r, rel. split; [done|by apply source_entry].
  - intros r rel Hr Hx. destruct (st_all _ _ _ _ Hs r rel Hr Hx) as [(s & Hin & Hsrc)|(e & Hin & Hdir)].
    + destruct (arranged_file _ _ _ _ s Ha Hin) as [id Hid]. exists (file_entry id s). split; [|by apply source_entry].
      rewrite (ar_entries _ _ _ _ Ha). apply elem_of_app. right. apply list_elem_of_In, in_map_iff. exists (id, s).
      split; [done|by apply list_elem_of_In].
    + exists e. split; [|by apply dir_entry_for]. rewrite (ar_entries _ _ _ _ Ha). apply elem_of_app. by left.
Qed.

(** C11: a plan describes exactly the sender's files.  When Scan of a machine's files answers a
    plan, whatever the order and timing of its calls, the files are as before; every entry
    names a node below one of the roots and carries its kind, and for a file its size, digest,
    mode and modification time; and every node below a root has an entry. *)
Theorem scan_describes cwd roots es t p t' : well_formed t -> run (Scan cwd roots) es t = (Some (inr p), t') ->
  t' = t /\ describes cwd roots t (p_Roots p) (p_Entries p).
Proof.
  intros Hwf E.
  assert (Hwp : wp (eq t) (Scan cwd roots) (fun r _ => forall p, r = inr p -> describes cwd roots t (p_Roots p) (p_Entries p)) t).
  { apply (Scan_wp t cwd Hwf); [done|done|]. intros sc p' Hs Ha _ p2 [= <-]. by eapply scanned_describes. }
  destruct (wp_sound _ _ _ es t eq_refl Hwp) as [Ht H]. rewrite E in Ht, H. by split; [|exact (H _ eq_refl p eq_refl)].
Qed.
End described.

(** *** A sender with one directory *)
Definition desk : tree := <[ ["home"; "u"; "docs"]%string := NDir 493 (Some 7%Z) ]>
  (<[ ["home"; "u"; "docs"; "b.txt"]%string := NFile "hi" 420 (Some 7%Z) ]> home).
Lemma desk_well_formed : well_formed desk.
Proof. apply well_formedb_sound. by vm_compute. Qed.
Definition desk_scan : option (ecode + Plan) * tree := run (Scan Handoff.cwd ["docs"%string]) [] desk.

Lemma scan_describes_witness : exists p, desk_scan = (Some (inr p), desk) /\
  describes Handoff.cwd ["docs"%string] desk (p_Roots p) (p_Entries p) /\ map e_Path (p_Entries p) = ["docs"; "docs/b.txt"]%string.
Proof.
  destruct (fst desk_scan) as [[e|p]|] eqn:E; [by vm_compute in E| |by vm_compute in E]. apply answer_pair in E. exists p.
  pose proof (scan_describes Handoff.cwd ["docs"%string] [] desk p _ desk_well_formed E) as [Ht Hd].
  split; [etransitivity; [exact E|by rewrite Ht]|]. split; [exact Hd|]. apply (f_equal fst) in E. vm_compute in E. by injection E as <-.
Defined.
