(* ===== verification/CopyProofs.v ===== *)
(** * A copy is exact

    CopyTree leaves the payload, entry by entry, in an empty directory; [copyLocalPayload]
    moves it to a destination where nothing was, or leaves nothing but a hidden directory. *)
From S2P Require Import Prelude GoStrings Errors Paths Prog Tree Integrity Service Upload CommitProofs Host Api Net Client Recv RecvProofs.
From S2P Require Import Pack Copy Send Flags Auth Cli PackProofs.
Local Open Scope prog_scope.

(** What MkdirAll can leave: new directories on the way. *)
Lemma wp_MkdirAll_look (I : tree -> Prop) p mode (Q : oserr + unit -> tree -> Prop) t :
  (forall r t', (forall q c, look t q = Some c -> look t' q = Some c) ->
    (forall q c, look t' q = Some c -> look t q = Some c \/ (c = CDir /\ q ∈ prefixes p)) ->
    (r = inr tt -> look t' p = Some CDir) -> I t' /\ Q r t') ->
  wp I (MkdirAll p mode) Q t.
Proof.
  intros HQ. apply wp_act. intros r t' [E|(f & n & [= <-] & [= <- <-])].
  - destruct (mkdirs_look _ _ _ _ _ E) as (H1 & H2 & H3). apply HQ; [done|done|]. intros Hr. apply H3; [done|apply prefixes_self].
  - destruct (mkdirs mode (take n (prefixes p)) t) as [r' t'] eqn:E. destruct (mkdirs_look _ _ _ _ _ E) as (H1 & H2 & _).
    apply HQ; [done| |done]. intros q c Hq. destruct (H2 q c Hq) as [?|[-> (i & Hi & _)%elem_of_take]]; [by left|right].
    split; [done|]. by eapply list_elem_of_lookup_2.
Qed.

Section copy.
Context (src : tree) (Hsrc : well_formed src) (Hroot : look src [] = Some CDir) (P : path).

Definition partial_copy (t : tree) : Prop := forall r c, look t (P ++ r)%list = Some c -> look src r = Some c.
(** The directory the copy is made in, on a machine where it and its parents exist. *)
Definition standing (t : tree) : Prop := forall q r, P = (q ++ r)%list -> look t q = Some CDir.

Lemma look_is_Some r c : look src r = Some c -> is_Some (src !! r).
Proof. intros H. apply (proj1 (fmap_is_Some content_of (src !! r))). by exists c. Qed.
Lemma look_None_absurd r n : look src r = None -> src !! r = Some n -> False.
Proof. intros H E. assert (H' : content_of <$> src !! r = None) by exact H. by rewrite E in H'. Qed.
Lemma strip_cases q : (exists r, q = (P ++ r)%list) \/ strip P q = None.
Proof. destruct (strip P q) as [r|] eqn:E; [left; exists r; by apply strip_Some|by right]. Qed.

Lemma copy_dir_wp rel t (Q : oserr + unit -> tree -> Prop) : standing t -> partial_copy t -> look src rel = Some CDir ->
  (forall r t', outside P t t' -> (r = inr tt -> standing t' /\ partial_copy t' /\
     (forall q c, look t q = Some c -> look t' q = Some c) /\ look t' (P ++ rel)%list = look src rel) -> Q r t') ->
  wp (outside P t) (MkdirAll (P ++ rel)%list 493) Q t.
Proof.
  intros Hst Hpc Hrel HQ. apply wp_MkdirAll_look. intros r t' H1 H2 H3. assert (Ho : outside P t t').
  { intros q Hq. destruct (look t q) as [c|] eqn:Et; [by apply H1|]. destruct (look t' q) as [c|] eqn:Et'; [|done].
    destruct (H2 q c Et') as [?|[-> (s & Hs)%elem_of_prefixes]]; [congruence|]. exfalso.
    apply app_eq_inv in Hs as [(k & HP & _)|(k & Hq' & _)].
    - rewrite (Hst q k HP) in Et. done.
    - rewrite Hq', strip_app in Hq. done. }
  split; [done|]. apply HQ; [done|]. intros Hr. split; [|split; [|split]].
  - intros q s Hq. apply H1. by apply (Hst q s).
  - intros s c Hs. destruct (H2 _ _ Hs) as [Ht|[-> (k & Hk)%elem_of_prefixes]]; [by apply Hpc|].
    rewrite <- app_assoc in Hk. apply app_inv_head in Hk. subst rel. destruct k as [|x k]; [by rewrite app_nil_r in Hrel|].
    apply (Hsrc s (x :: k)); [done|]. by rewrite Hrel.
  - exact H1.
  - rewrite Hrel. by apply H3.
Qed.

Lemma copy_file_wp rel data t (Q : oserr + unit -> tree -> Prop) : standing t -> partial_copy t -> look src rel = Some (CFile data) ->
  (forall r t', outside P t t' -> (r = inr tt -> standing t' /\ partial_copy t' /\
     (forall q c, look t q = Some c -> look t' q = Some c) /\ look t' (P ++ rel)%list = look src rel) -> Q r t') ->
  forall perm, wp (outside P t) (CopyFile data (P ++ rel)%list perm) Q t.
Proof.
  intros Hst Hpc Hrel HQ perm. unfold CopyFile. assert (Hp : strip P (P ++ rel)%list = Some rel) by apply strip_app.
  assert (Hedit : forall f t1, outside P t t1 -> outside P t (edit (P ++ rel)%list f t1)) by (intros f t1 H1; etrans; [exact H1|by eapply outside_edit]).
  apply wp_bindE, wp_act. intros r t1 [E|(f & n & [= <-] & [= <- <-])]; [|by split; [|apply HQ]].
  destruct (create_look _ _ _ _ _ _ E) as (H1 & H2 & H3 & _).
  assert (Ho1 : outside P t t1) by (apply (outside_one P (P ++ rel)%list rel Hp); exact H1). split; [done|].
  destruct r as [e|[]]; [by apply HQ|]. specialize (H3 eq_refl eq_refl). destruct (H2 H3 eq_refl) as [H4 _].
  apply wp_bindE, wp_act. intros r t2 [[= <- <-]|(f & n & [= <-] & [= <- <-])]; (split; [by apply Hedit|]); [|apply HQ; [by apply Hedit|done]].
  set (t2 := edit (P ++ rel)%list (write_at 0 data) t1).
  assert (Hdone : outside P t t2 /\ (forall q, look t2 q = if decide (q = (P ++ rel)%list) then Some (CFile data) else look t q)).
  { split; [by apply Hedit|]. intros q. unfold t2. rewrite look_edit. destruct (decide (q = (P ++ rel)%list)) as [->|Hq].
    - by rewrite H4, decide_True, write_at_empty.
    - rewrite H1 by done. destruct (look t q) as [[]|]; try done. by rewrite decide_False. }
  destruct Hdone as [Ho2 Hl]. apply wp_bindE, wp_Sync; [done|]. intros [e|[]]; [by apply HQ|].
  apply wp_Sync; [done|]. intros r. apply HQ; [done|]. intros _.
  assert (Hkeep : forall q c, look t q = Some c -> look t2 q = Some c).
  { intros q c Hq. rewrite Hl. case_decide as Hx; [|done]. subst q. congruence. }
  split; [|split; [|split]].
  - intros q s Hq. by apply Hkeep, (Hst q s).
  - intros s c. rewrite Hl. case_decide as Hx; [|apply Hpc]. apply app_inv_head in Hx. subst s. intros [= <-]. exact Hrel.
  - exact Hkeep.
  - rewrite Hl, decide_True by done. by rewrite Hrel.
Qed.

Lemma CopyTree_wp t (Q : oserr + unit -> tree -> Prop) : standing t -> partial_copy t ->
  (forall r t', outside P t t' -> (r = inr tt -> forall s, look t' (P ++ s)%list = look src s) -> Q r t') ->
  wp (outside P t) (CopyTree (Some src) P) Q t.
Proof.
  intros Hst Hpc HQ. cbn [CopyTree].
  apply (wp_loop _ _ (fun l _ t' => exists seen, below [] src = (seen ++ l)%list /\ outside P t t' /\ standing t' /\ partial_copy t' /\
    forall s, s ∈ seen -> look t' (P ++ s)%list = look src s)).
  - exists []. split_and!; [done|done|done|done|]. by intros s ?%elem_of_nil.
  - intros s t' (seen & Hb & Ho & _ & Hp & Hc). apply HQ; [done|]. intros _ r. rewrite app_nil_r in Hb.
    destruct (look src r) as [c|] eqn:Er.
    + rewrite Hc; [by rewrite Er|]. rewrite <- Hb. apply elem_of_below. rewrite app_nil_l. by eapply look_is_Some.
    + destruct (look t' (P ++ r)%list) as [c|] eqn:Et; [|done]. apply Hp in Et. congruence.
  - intros rel l s t' (seen & Hb & Ho & Hst' & Hp & Hc).
    assert (Hnext : forall r t2, outside P t' t2 -> (r = inr tt -> standing t2 /\ partial_copy t2 /\
      (forall q c, look t' q = Some c -> look t2 q = Some c) /\ look t2 (P ++ rel)%list = look src rel) ->
      match r with inl e => Q (inl e) t2 | inr _ => exists seen, below [] src = (seen ++ l)%list /\ outside P t t2 /\ standing t2 /\ partial_copy t2 /\
        forall s, s ∈ seen -> look t2 (P ++ s)%list = look src s end).
    { intros [e|[]] t2 H2 Hr; [apply HQ; [by etrans|done]|]. destruct (Hr eq_refl) as (R1 & R2 & R3 & R4).
      exists (seen ++ [rel])%list. split_and!; [by rewrite <- app_assoc|by etrans|done|done|].
      intros s' [Hin|Hin%list_elem_of_singleton]%elem_of_app; [|by subst s'].
      destruct (look src s') as [c|] eqn:Es; [by apply R3; rewrite Hc|].
      exfalso. assert (Hin' : s' ∈ below [] src) by (rewrite Hb; set_solver). apply elem_of_below in Hin' as [n Hn]. rewrite app_nil_l in Hn. by apply (look_None_absurd s' n). }
    unfold copy_entry. apply wp_bindE, wp_act. intros r t2 [[= <- <-]|(f & n & [= <-] & [= <- <-])]; (split; [done|]); [|by apply HQ].
    destruct (src !! rel) as [n|] eqn:En; [|by apply HQ]. assert (Hlr : look src rel = Some (content_of n)) by (unfold look; by rewrite En).
    apply (wp_mono (outside P t') _ _ (fun r t2 => match r with inl e => Q (inl e) t2 | inr _ => exists seen, below [] src = (seen ++ l)%list /\
      outside P t t2 /\ standing t2 /\ partial_copy t2 /\ forall s, s ∈ seen -> look t2 (P ++ s)%list = look src s end)); [intros t3 H3; by etrans|done|].
    destruct n as [m mt|d m mt]; [by apply copy_dir_wp|by apply copy_file_wp].
Qed.
End copy.

(** ** The copy of a local receive *)
Section local.
Context {V : Type} (env : environment) (Hcwd : Forall (fun c => plain c = true) (Getwd env)).
Context (t0 : tree) (Hwf : well_formed t0) (src : tree) (Hsrc : well_formed src) (Hroot : look src [] = Some CDir) (v : V).

(** The payload is at [D], where nothing was; nothing else changed but a hidden directory. *)
Definition copied_to (D : path) (t : tree) : Prop :=
  look t0 D = None /\ (forall r, look t (D ++ r)%list = look src r) /\
  exists P, hidden P /\ forall q, strip P q = None -> strip D q = None -> look t q = look t0 q.
Definition whole (t : tree) : Prop := untouched t0 t \/ exists D, copied_to D t.
Notation here := (fun v' : V => v' = v).

Section working.
Context (H : path) (x : string) (Hx : hidden_name x) (HH : look t0 H = Some CDir).
Notation P := (H ++ [x])%list.

Lemma hidden_here : hidden P.
Proof. by exists H, x. Qed.
Lemma outside_whole t : outside P t0 t -> whole t.
Proof. intros Ho. left. exists P. split; [apply hidden_here|done]. Qed.
Lemma standing_H t : outside P t0 t -> standing H t.
Proof.
  intros Ho q r Hq. rewrite Ho; [|apply (strip_longer _ _ (r ++ [x])%list); [by rewrite Hq, app_assoc|by destruct r]].
  destruct r as [|y r]; [by rewrite app_nil_r in Hq; subst|]. apply (Hwf q (y :: r)); [done|]. by rewrite <- Hq, HH.
Qed.

Lemma wp_clear (Q : oserr + unit -> tree -> Prop) : (forall e t, outside P t0 t -> Q (inl e) t) ->
  (forall t, outside P t0 t -> (forall r, look t (P ++ r)%list = None) -> Q (inr tt) t) -> wp whole (RemoveAllForce P) Q t0.
Proof.
  intros He HQ. apply wp_act. intros r t' [[= <- <-]|(f & n & [= <-] & [= <- <-])].
  - pose proof (outside_remove P t0) as Ho. split; [by apply outside_whole|]. apply HQ; [done|]. intros r. unfold remove_below. case_decide as Hn.
    + destruct r as [|y r]; [unfold look; by rewrite app_nil_r, Hn|]. destruct (look t0 (P ++ y :: r)%list) eqn:E; [|done].
      assert (Hd : look t0 P = Some CDir) by (apply (Hwf P (y :: r)); [done|congruence]). unfold look in Hd. by rewrite Hn in Hd.
    + by rewrite look_touch, look_graft, strip_app.
  - pose proof (outside_graft P (list_to_map (take n (map_to_list (sub P t0)))) t0) as Ho. split; [by apply outside_whole|by apply He].
Qed.

Lemma wp_workdir (Q : oserr + unit -> tree -> Prop) t : outside P t0 t -> (forall r, look t (P ++ r)%list = None) ->
  (forall r t', outside P t0 t' -> (r = inr tt -> standing P t' /\ partial_copy src P t') -> Q r t') -> wp whole (MkdirAll P 493) Q t.
Proof.
  intros Ho Hn HQ. pose proof (standing_H t Ho) as Hst. apply wp_MkdirAll_look. intros r t' H1 H2 H3. assert (Ho' : outside P t0 t').
  { intros q Hq. rewrite <- (Ho q Hq). destruct (look t q) as [c|] eqn:Et; [by apply H1|]. destruct (look t' q) as [c|] eqn:Et'; [|done].
    destruct (H2 q c Et') as [?|[-> (s & Hs)%elem_of_prefixes]]; [congruence|]. exfalso. destruct (decide (s = [])) as [->|Hne].
    - rewrite app_nil_r in Hs. subst q. by rewrite (proj2 (strip_Some P P [])) in Hq by by rewrite app_nil_r.
    - destruct (exists_last Hne) as (s2 & y & ->). rewrite app_assoc in Hs. apply app_inj_tail in Hs as [Hs _]. by rewrite (Hst q s2 Hs) in Et. }
  split; [by apply outside_whole|]. apply HQ; [done|]. intros Hr. split.
  - intros q s Hq. destruct (decide (s = [])) as [->|Hne]; [rewrite app_nil_r in Hq; subst q; by apply H3|].
    destruct (exists_last Hne) as (s2 & y & ->). rewrite app_assoc in Hq. apply app_inj_tail in Hq as [Hq _]. apply H1. by apply (Hst q s2).
  - intros s c Hs. destruct (H2 _ _ Hs) as [Ht|[-> (k & Hk)%elem_of_prefixes]]; [by rewrite Hn in Ht|].
    assert (s = []) as ->; [|done]. apply (f_equal length) in Hk. rewrite !length_app in Hk. destruct s; [done|cbn in Hk; lia].
Qed.
End working.

Definition ends_well (a : string + string) (h : host V) : Prop :=
  match a with inl _ => untouched t0 (files h) | inr p => exists D, p = rooted D /\ copied_to D (files h) end.

Lemma cleanup_ends H x (Hx : hidden_name x) e h : peer h = v -> outside (H ++ [x])%list t0 (files h) ->
  wp (inv here whole) (fs (RemoveAllForce (H ++ [x])%list) ;;; Ret (inl e)) ends_well h.
Proof.
  intros Hv Ho. apply wp_bind, wp_fs; [done|]. apply (wp_within (outside (H ++ [x])%list)); [apply outside_RemoveAllForce| |].
  - intros t H2. apply (outside_whole H x Hx). by etrans.
  - intros a t H2. cbn [wp]. exists (H ++ [x])%list. split; [by apply hidden_here|]. by etrans.
Qed.

(** The copy stands at [D] once the directory it was made in got that name. *)
Lemma renamed_copy H x (Hx : hidden_name x) b t t' : b <> x -> outside (H ++ [x])%list t0 t ->
  (forall s, look t ((H ++ [x]) ++ s)%list = look src s) -> look t (H ++ [b])%list = None ->
  (forall q, look t' q = match strip (H ++ [b]) q with
     | Some r => look t ((H ++ [x]) ++ r)%list
     | None => match strip (H ++ [x]) q with Some _ => None | None => look t q end end) ->
  copied_to (H ++ [b]) t'.
Proof.
  intros Hb Ho Hs Hn Hl. assert (Hsib : strip (H ++ [x]) (H ++ [b]) = None) by (rewrite <- (app_nil_r (H ++ [b])%list); by apply strip_sibling).
  split; [by rewrite <- (Ho _ Hsib)|]. split; [intros r; by rewrite Hl, strip_app|]. exists (H ++ [x])%list. split; [by exists H, x|].
  intros q H1 H2. by rewrite Hl, H2, H1, (Ho q H1).
Qed.

Lemma copyLocalPayload_wp dest h : peer h = v -> files h = t0 ->
  wp (inv here whole) (copyLocalPayload env (Some src) dest) ends_well h.
Proof.
  intros Hv Ht. assert (Hun : untouched t0 t0) by apply untouched_refl. assert (Hh : set_files (files h) h = h) by by destruct h.
  unfold copyLocalPayload. cbv zeta. apply wp_bind, wp_fs; [done|]. rewrite Ht. apply wp_Stat; [by left|].
  intros [e|n] Hnone; [|by cbn [wp ends_well files]]. rewrite <- Ht, Hh. apply wp_bind, wp_fs; [done|]. rewrite Ht. apply wp_Stat; [by left|].
  intros [e'|[m mt|]] Hd; [by cbn [wp ends_well files]| |by cbn [wp ends_well files]]. rewrite <- Ht, Hh.
  destruct (destination_cases (Getwd env) Hcwd (Clean dest)) as (x & Hx & Hp & Hcase). rewrite Hp. set (H := host_path (Getwd env) (Dir (Clean dest))) in *.
  assert (HH : look t0 H = Some CDir) by (unfold look; rewrite <- Ht; rewrite <- Ht in Hd; by rewrite Hd).
  assert (Hfail : forall t, outside (H ++ [x])%list t0 t -> untouched t0 t) by (intros t Ho; exists (H ++ [x])%list; split; [by apply hidden_here|done]).
  apply wp_orE, wp_fs; [done|]. rewrite Ht. apply (wp_clear H x Hx); [by intros e2 t1 H1; apply Hfail|]. intros t1 Ho1 Hn1.
  apply wp_orE, wp_fs; [done|]. apply (wp_workdir H x Hx HH _ t1 Ho1 Hn1). intros [e2|[]] t2 Ho2 H2; [by apply Hfail|]. destruct (H2 eq_refl) as [Hst Hpc].
  apply wp_bind, wp_fs; [done|]. apply (wp_mono (outside (H ++ [x])%list t2) whole _ (fun r t3 => outside (H ++ [x])%list t2 t3 /\
    (r = inr tt -> forall s, look t3 ((H ++ [x]) ++ s)%list = look src s))); [intros t3 H3; apply (outside_whole H x Hx); by etrans| |].
  2:{ cbn [set_files files]. apply CopyTree_wp; [done|done|done|done|]. by intros r t3 H3 Hr. }
  intros [e3|[]] t3 [Ho3 Hc]; [apply cleanup_ends; [done|done|by etrans]|]. specialize (Hc eq_refl).
  assert (Ho : outside (H ++ [x])%list t0 t3) by (by etrans; [|exact Ho3]).
  apply wp_bind, wp_fs; [done|]. cbn [set_files files]. apply wp_RenameDir; [by apply (outside_whole H x Hx)|intros e4; by apply cleanup_ends|].
  intros t4 HnD _ Hl4. destruct Hcase as [[r Hr]|(b & Hb & HD)].
  - exfalso. assert (Hex : look t3 (host_path (Getwd env) (Clean dest)) = Some CDir); [|congruence].
    apply (standing_H H x HH t3 Ho _ r). exact Hr.
  - rewrite HD in Hl4, HnD. pose proof (renamed_copy H x Hx b t3 t4 Hb Ho Hc HnD Hl4) as Hcopy. split; [right; by exists (H ++ [b])%list|].
    cbn [wp ends_well files]. exists (H ++ [b])%list. split; [|done]. rewrite <- HD. by apply Abs_host_path.
Qed.

(** C10: a local copy is exact or absent.  When a receive on the daemon's own machine is asked
    for a copy (recv with --to), whatever fails and wherever it is stopped: the machine is as
    before up to one hidden directory, or at a destination where nothing was stands every
    directory and every file of the payload with its content, and nothing else; when a path
    is answered, it is that destination, and with an error there is none. *)
Theorem local_copy_exact dest es out h : run (copyLocalPayload env (Some src) dest) es (mkHost v t0) = (out, h) ->
  peer h = v /\ whole (files h) /\ (forall e, out = Some (inl e) -> untouched t0 (files h)) /\
  (forall p, out = Some (inr p) -> exists D, p = rooted D /\ copied_to D (files h)).
Proof.
  intros E. assert (H0 : inv here whole (mkHost v t0)) by (split; [done|left; apply untouched_refl]).
  destruct (wp_sound _ _ _ es _ H0 (copyLocalPayload_wp dest (mkHost v t0) eq_refl eq_refl)) as [[Hv HI] HQ]. rewrite E in Hv, HI, HQ. cbn in Hv, HI, HQ.
  split; [done|]. split; [done|]. split; [intros e ->; exact (HQ _ eq_refl)|]. intros p ->. exact (HQ _ eq_refl).
Qed.
End local.
