(* ===== verification/SendProofs.v ===== *)
(** * The manifests a sender commits *)
From S2P Require Import Prelude GoStrings GoTime Errors Paths Manifest Wire Prog Tree Integrity Materialize Safety.
From S2P Require Import UploadProofs CommitProofs SimpleProofs Guarantees Demo Host Client RecvProofs Handoff Pack Send PackProofs.
Local Open Scope prog_scope.

Section manifest.
Context {UC : Unicode} {EX : Externals} {EL : ExternalsLaws}.

Lemma HashBytes_pattern d : digestPattern (HashBytes d) = true.
Proof.
  unfold digestPattern, HashBytes. destruct (blake3_bytes d) as [Hl Hb]. rewrite EncodeToString_lower, andb_true_r by done.
  apply Z.eqb_eq. by rewrite slen_hex, Hl.
Qed.

(** A component that is UTF-8 is a portable path. *)
Lemma component_portable c : ValidateComponent c = None -> valid_utf8 c = true -> ValidatePortablePath c = None.
Proof.
  intros Hc Hu. pose proof (ValidateComponent_plain c Hc) as Hp. apply plain_spec in Hp as (Hne & _ & _ & Hs).
  pose proof (ValidateComponent_len c Hc) as Hl. apply orb_false_iff in Hl as [_ Hl].
  unfold ValidatePortablePath. destruct (String.eqb_spec c ""); [done|]. destruct (Z.ltb_spec 4096 (slen c)); [apply Z.ltb_ge in Hl; lia|].
  rewrite Hu. cbn [negb]. assert (has_prefix "/" c = false) as ->.
  { destruct (has_prefix "/" c) eqn:E; [|done]. apply has_prefix_app in E as [r ->]. done. }
  rewrite (ValidateComponent_no_byte "\" c Hc) by done.
  assert (Hcol : has_byte ":" c = false) by (by apply (ValidateComponent_no_byte ":" c Hc)).
  assert (match String.get 1 c with Some x => (x =? ":")%char | None => false end = false) as ->.
  { destruct c as [|a [|b c]]; try done. cbn in Hcol |- *. apply orb_false_iff in Hcol as [_ Hcol]. by apply orb_false_iff in Hcol as [Hb _]. }
  rewrite split_no_sep by done. cbn [first_some]. by rewrite Hc.
Qed.

Lemma virtual_root name rel : has_byte "/" name = false -> before "/" (virtual name rel) = name.
Proof.
  intros Hn. unfold virtual. destruct rel as [|x rel]; [|rewrite join_cons].
  - exact (before_no "/" name Hn).
  - exact (before_app_no "/" name _ Hn).
Qed.

(** *** The segments of a plan *)
Section plan.
Context (roots : list string) (sources : list Source) (dirs : list Entry) (p : Plan) (Har : arranged roots sources dirs p).
Context (raws : list (string * Source)) (packs : gmap string packRef) (Hraws : raws ≡ₚ p_RawFiles p).
Context (Hmany : (Z.of_nat (length sources) < 2^63)%Z).
Notation files := (segment_files (p_RawFiles p) (p_Packs p)).
Definition plan_segments : list Segment := (map raw_file_segment raws ++ map (pack_segment packs) (p_Packs p))%list.

Lemma files_length : (length (p_RawFiles p) + length (p_Packs p) <= length sources)%nat.
Proof.
  rewrite <- (ar_sources _ _ _ _ Har), length_map. unfold segment_files. rewrite length_app. apply Nat.add_le_mono_l.
  pose proof (ar_full _ _ _ _ Har) as Hf. induction Hf as [|ps l Hps _ IH]; [done|]. cbn [map concat length]. rewrite length_app, length_map.
  destruct (ps_Files ps); [done|]. cbn [length]. lia.
Qed.
Lemma raw_pack_disjoint i j : raw_id i <> pack_id j.
Proof. done. Qed.

Lemma segment_ids : NoDup (map fst (p_RawFiles p) ++ map ps_SegmentID (p_Packs p)).
Proof.
  pose proof files_length as Hl. rewrite (ar_raws _ _ _ _ Har), (ar_packs _ _ _ _ Har). apply NoDup_app. split_and!.
  - apply ids_NoDup; [|lia]. intros i j Hi Hj [= E]. by apply pad4_inj.
  - intros x Hx Hy. unfold ids in *. apply list_elem_of_In, in_map_iff in Hx as (i & <- & _). apply list_elem_of_In, in_map_iff in Hy as (j & E & _).
    by apply (raw_pack_disjoint i j).
  - apply ids_NoDup; [|lia]. intros i j Hi Hj [= E]. by apply pad4_inj.
Qed.
Lemma plan_segment_ids : map seg_ID plan_segments = (map fst raws ++ map ps_SegmentID (p_Packs p))%list.
Proof. unfold plan_segments. rewrite map_app, !map_map. done. Qed.
Lemma plan_segments_NoDup : NoDup (map seg_ID plan_segments).
Proof. rewrite plan_segment_ids, Hraws. apply segment_ids. Qed.

Lemma find_segment (l : list Segment) s : NoDup (map seg_ID l) -> s ∈ l -> List.find (fun x => seg_ID x =? seg_ID s)%string l = Some s.
Proof.
  intros Hn Hs. induction l as [|x l IH]; [by apply elem_of_nil in Hs|]. cbn in Hn |- *. apply NoDup_cons in Hn as [Hx Hn].
  destruct (String.eqb_spec (seg_ID x) (seg_ID s)) as [E|E].
  - apply elem_of_cons in Hs as [->|Hs]; [done|]. exfalso. apply Hx. rewrite E. by apply list_elem_of_fmap_2.
  - apply elem_of_cons in Hs as [->|Hs]; [done|]. by apply IH.
Qed.

(** The segment of a file is its own raw segment or its pack. *)
Lemma file_segment id s : (id, s) ∈ files ->
  (id, s) ∈ p_RawFiles p /\ raw_file_segment (id, s) ∈ plan_segments \/
  exists ps, ps ∈ p_Packs p /\ s ∈ ps_Files ps /\ ps_SegmentID ps = id /\ pack_segment packs ps ∈ plan_segments.
Proof.
  unfold segment_files, plan_segments. intros [Hin|Hin]%elem_of_app; [left|right].
  - split; [done|]. apply elem_of_app. left. apply list_elem_of_fmap_2. by rewrite Hraws.
  - apply list_elem_of_In, in_concat in Hin as (l & Hl & Hin). apply in_map_iff in Hl as (ps & <- & Hps).
    apply in_map_iff in Hin as (s' & [= <- <-] & Hs). exists ps. apply list_elem_of_In in Hps, Hs. split_and!; [done..|].
    apply elem_of_app. right. by apply list_elem_of_fmap_2.
Qed.

(** *** The entries of a plan *)
Context (m : Manifest) (Hsegs : Segments m = plan_segments) (Hents : Entries m = p_Entries p).

Lemma SegmentByID_plan s : s ∈ plan_segments -> SegmentByID m (seg_ID s) = Some s.
Proof. intros Hs. unfold SegmentByID. rewrite Hsegs. apply find_segment; [apply plan_segments_NoDup|done]. Qed.

Lemma all_filter {A : Type} (f : A -> bool) l : Forall (fun x => f x = true) l -> List.filter f l = l.
Proof. induction 1 as [|x l Hx _ IH]; [done|]. cbn. by rewrite Hx, IH. Qed.
Lemma dirs_not_raw l : Forall (fun e => is_dir e = true) l -> List.filter (raw_backed m) l = [].
Proof. induction 1 as [|e l He _ IH]; [done|]. cbn. unfold raw_backed. by rewrite (dir_not_file e He). Qed.
Lemma filter_perm {A : Type} (f : A -> bool) l l' : l ≡ₚ l' -> List.filter f l ≡ₚ List.filter f l'.
Proof.
  induction 1 as [|x l l' _ IH|x y l|l l2 l3 _ IH1 _ IH2]; cbn; [done| | |by etrans].
  - by destruct (f x); [constructor|].
  - destruct (f x), (f y); done || constructor.
Qed.
Lemma raw_backed_ids : Forall (fun e => is_dir e = true) dirs -> NoDup (map e_SegmentID (List.filter (raw_backed m) (Entries m))).
Proof.
  intros Hd. rewrite Hents, (filter_perm _ _ _ (ar_entries _ _ _ _ Har)), List.filter_app, (dirs_not_raw _ Hd). cbn [app].
  unfold segment_files. rewrite map_app, List.filter_app, map_app.
  assert (List.filter (raw_backed m) (map (uncurry file_entry) (concat (map (fun ps => map (pair (ps_SegmentID ps)) (ps_Files ps)) (p_Packs p)))) = []) as ->.
  { assert (H : forall l, (forall ps, ps ∈ l -> ps ∈ p_Packs p) ->
      List.filter (raw_backed m) (map (uncurry file_entry) (concat (map (fun ps => map (pair (ps_SegmentID ps)) (ps_Files ps)) l))) = []).
    { induction l as [|ps l IH]; intros Hl; [done|]. cbn [map concat]. rewrite map_app, List.filter_app, IH, app_nil_r by set_solver.
      assert (Hps : pack_segment packs ps ∈ plan_segments). { unfold plan_segments. apply elem_of_app. right. apply list_elem_of_fmap_2. apply Hl. by left. }
      apply SegmentByID_plan in Hps. induction (ps_Files ps) as [|s fs IHf]; [done|]. cbn [map List.filter uncurry].
      unfold raw_backed at 1. cbn [file_entry e_SegmentID]. cbn [pack_segment seg_ID] in Hps. rewrite Hps. cbn [seg_Kind pack_segment]. rewrite andb_false_r. done. }
    by apply H. }
  cbn [map app]. rewrite app_nil_r.
  assert (H : forall l, (forall r, r ∈ l -> r ∈ p_RawFiles p) -> map e_SegmentID (List.filter (raw_backed m) (map (uncurry file_entry) l)) = map fst l).
  { induction l as [|[id s] l IH]; intros Hl; [done|]. cbn [map List.filter uncurry].
    assert (Hr : raw_file_segment (id, s) ∈ plan_segments). { unfold plan_segments. apply elem_of_app. left. apply list_elem_of_fmap_2. rewrite Hraws. apply Hl. by left. }
    apply SegmentByID_plan in Hr. unfold raw_backed at 1. cbn [file_entry e_SegmentID]. cbn [raw_file_segment seg_ID fst] in Hr. rewrite Hr.
    cbn. rewrite IH; [done|]. intros r Hin. apply Hl. by right. }
  rewrite H by done. pose proof segment_ids as Hi. by apply NoDup_app in Hi as [Hi _].
Qed.

Lemma all_referenced : Forall (fun s => seg_ID s ∈ map e_SegmentID (Entries m)) (Segments m).
Proof.
  assert (Hin : forall id s, (id, s) ∈ files -> id ∈ map e_SegmentID (Entries m)).
  { intros id s Hf. rewrite Hents, (ar_entries _ _ _ _ Har), map_app. apply elem_of_app. right. rewrite map_map.
    change id with ((fun x => e_SegmentID (uncurry file_entry x)) (id, s)). by apply list_elem_of_fmap_2. }
  rewrite Hsegs. apply Forall_app. split; apply Forall_map, Forall_forall.
  - intros [id s] Hr. apply (Hin id s). unfold segment_files. apply elem_of_app. left. by rewrite <- Hraws.
  - intros ps Hps. pose proof (proj1 (Forall_forall _ _) (ar_full _ _ _ _ Har) ps Hps) as Hne. destruct (ps_Files ps) as [|s fs] eqn:E; [done|].
    apply (Hin _ s). unfold segment_files. apply elem_of_app. right. apply list_elem_of_In, in_concat.
    exists (map (pair (ps_SegmentID ps)) (ps_Files ps)). split.
    + apply in_map_iff. exists ps. split; [done|]. by apply list_elem_of_In.
    + rewrite E. by left.
Qed.
End plan.

(** *** The manifest of a scan *)
Section valid.
Context (t : tree) (cwd : path) (roots : list string) (sc : scanned) (p : Plan).
Context (Hsc : scan_state t cwd roots sc) (Har : arranged (sc_roots sc) (sc_sources sc) (sc_dirs sc) p).
Context (raws : list (string * Source)) (packs : gmap string packRef) (Hraws : raws ≡ₚ p_RawFiles p).
Context (Hmany : (p_FileCount p < 2^63)%Z) (id note : string) (now : Z).
Notation m := (send_manifest p raws packs id note now).

Lemma many_sources : (Z.of_nat (length (sc_sources sc)) < 2^63)%Z.
Proof. by rewrite <- (ar_count _ _ _ _ Har). Qed.

Lemma sc_dirs_dir : Forall (fun e => is_dir e = true) (sc_dirs sc).
Proof. apply Forall_forall. intros e He. destruct (st_dirs _ _ _ _ Hsc e He) as (r & rel & _ & (mo & mt & z & _ & _ & ->) & _). done. Qed.
Lemma dir_entries : List.filter is_dir (p_Entries p) ≡ₚ sc_dirs sc.
Proof.
  rewrite (filter_perm _ _ _ (ar_entries _ _ _ _ Har)), List.filter_app.
  assert (H : forall l, List.filter is_dir (map (uncurry file_entry) l) = []) by (induction l as [|[i s] l IH]; [done|exact IH]).
  rewrite H, app_nil_r. by rewrite (all_filter _ _ sc_dirs_dir).
Qed.

(** Paths start with the name of a root. *)
Lemma below_a_root r rel : r ∈ roots -> ToLower (before "/" (virtual (root_name cwd r) rel)) ∈ map ToLower (Roots m).
Proof.
  intros Hr. cbn [Roots send_manifest]. rewrite (ar_roots _ _ _ _ Har), (st_roots _ _ _ _ Hsc).
  assert (Hin : root_name cwd r ∈ map (root_name cwd) roots) by (by apply list_elem_of_fmap_2).
  rewrite virtual_root; [by apply list_elem_of_fmap_2|]. pose proof (st_names _ _ _ _ Hsc) as Hn. rewrite (st_roots _ _ _ _ Hsc) in Hn.
  apply (ValidateComponent_no_byte "/"); [|done|done]. by apply (proj1 (Forall_forall _ _) Hn).
Qed.

Definition packs_fine : Prop := Forall (fun ps => (0 <= pr_Size (ref_of packs ps))%Z /\ digestPattern (pr_Digest (ref_of packs ps)) = true) (p_Packs p).

Lemma source_facts s : s ∈ sc_sources sc -> Forall (fun r => valid_utf8 r = true) (p_Roots p) ->
  ValidatePortablePath (src_RelPath s) = None /\ ToLower (before "/" (src_RelPath s)) ∈ map ToLower (Roots m) /\
  (src_Mode s <= 511)%Z /\ (0 <= src_Size s)%Z /\ digestPattern (src_Digest s) = true.
Proof.
  intros Hs Hu. destruct (st_sources _ _ _ _ Hsc s Hs) as (r & rel & Hr & (_ & Hp & d & mo & mt & _ & Hsz & Hdg & Hm & _) & Hv).
  rewrite Hp, Hsz, Hdg, Hm. split_and!.
  - destruct Hv as [->|Hv]; [|done]. rewrite (ar_roots _ _ _ _ Har) in Hu. pose proof (st_names _ _ _ _ Hsc) as Hn.
    assert (Hin : root_name cwd r ∈ sc_roots sc) by (rewrite (st_roots _ _ _ _ Hsc); by apply list_elem_of_fmap_2).
    unfold virtual. cbn [join]. apply component_portable; [by apply (proj1 (Forall_forall _ _) Hn)|by apply (proj1 (Forall_forall _ _) Hu)].
  - by apply below_a_root.
  - unfold exec_mode. by destruct (negb _).
  - unfold slen. lia.
  - apply HashBytes_pattern.
Qed.

Lemma numbered_ok pre i : slen pre = 2%Z -> (0 <= i)%Z -> (pre ++ pad4 i)%string <> "" /\ (slen (pre ++ pad4 i) <= 128)%Z.
Proof.
  intros Hp Hi. split; [by destruct pre|]. rewrite slen_app, Hp.
  assert (H : forall fuel n acc, (slen (decimal fuel n acc) <= Z.of_nat fuel + slen acc)%Z).
  { induction fuel as [|fuel IH]; intros n acc; cbn [decimal]; [lia|]. destruct (n <? 10)%Z; [|etrans; [apply IH|]]; unfold slen; cbn [String.length]; lia. }
  assert (Hf : (slen (FormatInt i) <= 20)%Z).
  { unfold FormatInt. destruct (Z.ltb_spec i 0); [lia|]. apply (H 20%nat i ""%string). }
  unfold pad4. repeat case_match; rewrite ?slen_app; unfold slen in *; cbn [String.length] in *; lia.
Qed.

Lemma segments_ok : packs_fine -> Forall (fun r => valid_utf8 r = true) (p_Roots p) -> Forall segment_ok (Segments m).
Proof.
  intros Hpk Hu. cbn [Segments send_manifest]. pose proof (ar_raws _ _ _ _ Har) as Hi1. pose proof (ar_packs _ _ _ _ Har) as Hi2.
  apply Forall_app. split; apply Forall_map, Forall_forall.
  - intros [i s] Hr. rewrite Hraws in Hr. assert (Hs : s ∈ sc_sources sc).
    { rewrite <- (ar_sources _ _ _ _ Har). change s with (snd (i, s)). apply list_elem_of_fmap_2. unfold segment_files. apply elem_of_app. by left. }
    assert (Hid : i ∈ map fst (p_RawFiles p)) by (change i with (fst (i, s)); by apply list_elem_of_fmap_2).
    rewrite Hi1 in Hid. apply list_elem_of_In, in_map_iff in Hid as (k & <- & Hk%list_elem_of_In%elem_of_seqZ).
    destruct (source_facts s Hs Hu) as (_ & _ & _ & Hsz & Hdg). destruct (numbered_ok "r-" k eq_refl ltac:(lia)) as [N1 N2].
    split_and!; [exact N1|exact N2|by left|exact Hsz|exact Hdg].
  - intros ps Hps. assert (Hid : ps_SegmentID ps ∈ map ps_SegmentID (p_Packs p)) by (by apply list_elem_of_fmap_2).
    rewrite Hi2 in Hid. apply list_elem_of_In, in_map_iff in Hid as (k & Hk0 & Hk%list_elem_of_In%elem_of_seqZ).
    destruct (proj1 (Forall_forall _ _) Hpk ps Hps) as [Hsz Hdg]. destruct (numbered_ok "p-" k eq_refl ltac:(lia)) as [N1 N2].
    unfold segment_ok. cbn [pack_segment seg_ID seg_Kind seg_WireSize seg_Digest]. rewrite <- Hk0. split_and!; [exact N1|exact N2|by right|exact Hsz|exact Hdg].
Qed.

(** The rules of an entry, but for its modification time. *)
Lemma entries_ok : packs_fine -> Forall (fun r => valid_utf8 r = true) (p_Roots p) ->
  Forall (fun e => (0 <= e_MTimeUnixNS e)%Z) (p_Entries p) -> Forall (entry_ok m) (p_Entries p).
Proof.
  intros Hpk Hu Ht. apply Forall_forall. intros e He. pose proof (proj1 (Forall_forall _ _) Ht e He) as Hte.
  destruct (arranged_entry _ _ _ _ _ Har He) as [Hd|(i & s & Hf & Hin & ->)].
  - destruct (st_dirs _ _ _ _ Hsc e Hd) as (r & rel & Hr & (mo & mt & z & _ & _ & ->) & Hv).
    split_and!; [exact Hv|by apply below_a_root|done|exact Hte|]. by left.
  - destruct (source_facts s Hin Hu) as (F1 & F2 & F3 & F4 & F5). split_and!; [exact F1|exact F2|exact F3|exact Hte|]. right.
    split_and!; [done|exact F4|done|exact F5|]. cbn [file_entry e_SegmentID e_Size e_Digest].
    assert (Hseg : Segments m = plan_segments p raws packs) by done.
    destruct (file_segment p raws packs Hraws i s Hf) as [[_ Hs]|(ps & _ & _ & <- & Hs)].
    + exists (raw_file_segment (i, s)). split; [|done]. exact (SegmentByID_plan _ _ _ _ Har raws packs Hraws many_sources m Hseg _ Hs).
    + exists (pack_segment packs ps). split; [|done]. exact (SegmentByID_plan _ _ _ _ Har raws packs Hraws many_sources m Hseg _ Hs).
Qed.

Lemma paths_distinct : NoDup (map (fun e => ToLower (e_Path e)) (List.filter is_dir (p_Entries p))) ->
  NoDup (map (fun e => normalizedPathKey (e_Path e)) (p_Entries p)).
Proof.
  unfold normalizedPathKey. rewrite dir_entries, (ar_entries _ _ _ _ Har), map_app, map_map. intros Hd.
  destruct (ar_distinct _ _ _ _ Har) as [Hs1 Hs2].
  assert (Hk : map (fun x => ToLower (e_Path (uncurry file_entry x))) (segment_files (p_RawFiles p) (p_Packs p)) =
    map path_key (map snd (segment_files (p_RawFiles p) (p_Packs p)))) by (rewrite map_map; apply map_ext; by intros [i s]).
  rewrite Hk, (ar_sources _ _ _ _ Har). apply NoDup_app. split_and!; [done| |done].
  intros x Hx Hy. apply list_elem_of_In, in_map_iff in Hy as (s & <- & Hin%list_elem_of_In).
  by apply (proj1 (Forall_forall _ _) Hs2 s Hin).
Qed.

Lemma some_segment : (0 < p_FileCount p)%Z <-> Segments m <> [].
Proof.
  rewrite (ar_count _ _ _ _ Har). cbn [Segments send_manifest]. rewrite <- (ar_sources _ _ _ _ Har), length_map. unfold segment_files.
  pose proof (files_length _ _ _ _ Har) as Hl. pose proof (Permutation_length Hraws) as Hr. split.
  - intros Hn E. apply app_eq_nil in E as [E1%map_eq_nil E2%map_eq_nil]. rewrite E1 in Hr. rewrite E2 in Hn. destruct (p_RawFiles p); [|done]. done.
  - intros Hs. destruct (p_RawFiles p) as [|r l] eqn:Er; [|cbn [app length]; lia]. rewrite <- (ar_sources _ _ _ _ Har) in Hl.
    rewrite length_map in Hl. unfold segment_files in Hl. rewrite Er in Hl. cbn [app length] in Hl |- *.
    destruct raws; [|done]. destruct (p_Packs p); [done|]. cbn [length] in Hl. lia.
Qed.

Lemma sent_manifest_ok : packs_fine -> Forall (fun r => valid_utf8 r = true) (p_Roots p) -> roots <> [] ->
  (16 <= slen id <= 128)%Z -> now <> zero_time -> (slen note <= MaxNoteBytesHard)%Z -> valid_utf8 note = true ->
  (Validate m = None <-> (0 < p_FileCount p)%Z /\
    NoDup (map (fun e => ToLower (e_Path e)) (List.filter is_dir (p_Entries p))) /\ Forall (fun e => (0 <= e_MTimeUnixNS e)%Z) (p_Entries p)).
Proof.
  intros Hpk Hu Hroots Hid Hnow Hnote Hutf. rewrite Validate_spec. split.
  - intros (_ & _ & _ & _ & _ & _ & _ & _ & _ & Hs & _ & _ & _ & He & Hd & _). split; [by apply some_segment|]. split.
    + assert (H : forall l, NoDup (map (fun e => normalizedPathKey (e_Path e)) l) -> NoDup (map (fun e => ToLower (e_Path e)) (List.filter is_dir l))).
      { induction l as [|e l IH]; [done|]. cbn [map List.filter]. intros [Hn Hl]%NoDup_cons. destruct (is_dir e); [|by apply IH].
        cbn [map]. apply NoDup_cons. split; [|by apply IH]. intros Hin. apply Hn. apply list_elem_of_In, in_map_iff in Hin as (x & Ex & [Hx _]%filter_In).
        apply list_elem_of_In, in_map_iff. exists x. by split. }
      by apply H.
    + eapply Forall_impl; [exact He|]. by intros e (_ & _ & _ & ? & _).
  - intros (Hn & Hd & Ht). pose proof (proj1 some_segment Hn) as Hs.
    assert (Hseg : Segments m = plan_segments p raws packs) by done.
    assert (Hne : p_Entries p <> []).
    { intros E. pose proof (ar_entries _ _ _ _ Har) as He. rewrite E in He. apply Permutation_nil_l in He. symmetry in He.
      apply app_eq_nil in He as [_ He%map_eq_nil]. rewrite (ar_count _ _ _ _ Har), <- (ar_sources _ _ _ _ Har), He in Hn. by cbn in Hn. }
    unfold manifest_ok. conjs; try done; [apply Hid|apply Hid|..].
    + by right.
    + cbn [Roots send_manifest]. rewrite (ar_roots _ _ _ _ Har), (st_roots _ _ _ _ Hsc). by destruct roots.
    + cbn [Roots send_manifest]. rewrite (ar_roots _ _ _ _ Har). apply (st_names _ _ _ _ Hsc).
    + cbn [Roots send_manifest]. rewrite (ar_roots _ _ _ _ Har). apply (st_distinct _ _ _ _ Hsc).
    + by apply segments_ok.
    + rewrite Hseg. by apply (plan_segments_NoDup _ _ _ _ Har raws packs Hraws many_sources).
    + by apply entries_ok.
    + by apply paths_distinct.
    + apply (raw_backed_ids _ _ _ _ Har raws packs Hraws many_sources m Hseg eq_refl). apply sc_dirs_dir.
    + apply (all_referenced _ _ _ _ Har raws packs Hraws m Hseg eq_refl).
Qed.

(** *** The manifest survives JSON *)

(** The sizes and times of a machine's files are machine integers, and names have no slash. *)
Definition machine_tree (t : tree) : Prop := forall q n, t !! q = Some n ->
  (forall z, mtime_of n = Some z -> in_int64 z) /\ (size_of n < 2^63)%Z /\ Forall (fun c => has_byte "/" c = false) q.
Lemma reported_range n z : (forall z, mtime_of n = Some z -> in_int64 z) -> reported (mtime_of n) z -> in_int64 z.
Proof. unfold reported. destruct (mtime_of n); [by intros H ->; apply H|done]. Qed.

Definition packs_small : Prop := Forall (fun ps => (0 <= pr_Size (ref_of packs ps) < 2^63)%Z /\ exists d, pr_Digest (ref_of packs ps) = HashBytes d) (p_Packs p).
Lemma small_fine : packs_small -> packs_fine.
Proof. intros H. eapply Forall_impl; [exact H|]. intros ps [Hs [d ->]]. split; [lia|apply HashBytes_pattern]. Qed.

Lemma pad4_ascii i : (0 <= i)%Z -> valid_utf8 (pad4 i) = true.
Proof.
  intros Hi. assert (Hf : valid_utf8 (FormatInt i) = true).
  { unfold FormatInt. destruct (Z.ltb_spec i 0); [lia|].
    assert (G : forall fuel n acc, valid_utf8 acc = true -> valid_utf8 (decimal fuel n acc) = true).
    { induction fuel as [|fuel IH]; intros n acc Ha; cbn [decimal]; [done|].
      assert (Hc : valid_utf8 (String (byte_of (48 + n mod 10)) acc) = true).
      { rewrite valid_utf8_ascii; [done|]. pose proof (digit_val_byte (n mod 10) (Z.mod_pos_bound n 10 ltac:(lia))) as E.
        unfold digit_val in E. destruct (_ && _) eqn:Eb; [|done]. apply andb_true_iff in Eb as [?%Z.leb_le ?%Z.leb_le]. lia. }
      destruct (n <? 10)%Z; [done|by apply IH]. }
    by apply G. }
  unfold pad4. destruct (i <? 10)%Z; [by rewrite valid_utf8_prefix|]. destruct (i <? 100)%Z; [by rewrite valid_utf8_prefix|].
  destruct (i <? 1000)%Z; [by rewrite valid_utf8_prefix|done].
Qed.

Lemma ids_utf8 f n x : (forall i, (0 <= i)%Z -> valid_utf8 (f i) = true) -> x ∈ ids f n -> valid_utf8 x = true.
Proof. intros Hf Hx. unfold ids in Hx. apply list_elem_of_In, in_map_iff in Hx as (i & <- & Hi%list_elem_of_In%elem_of_seqZ). apply Hf. lia. Qed.
Lemma segment_utf8 i s : (i, s) ∈ segment_files (p_RawFiles p) (p_Packs p) -> valid_utf8 i = true.
Proof.
  unfold segment_files. intros [Hin|Hin]%elem_of_app.
  - apply (ids_utf8 raw_id (length (p_RawFiles p))).
    + intros k Hk. unfold raw_id. rewrite valid_utf8_prefix by done. by apply pad4_ascii.
    + rewrite <- (ar_raws _ _ _ _ Har). change i with (fst (i, s)). by apply list_elem_of_fmap_2.
  - apply list_elem_of_In, in_concat in Hin as (l & Hl & Hin). apply in_map_iff in Hl as (ps & <- & Hps%list_elem_of_In).
    apply in_map_iff in Hin as (s' & [= <- <-] & _). apply (ids_utf8 pack_id (length (p_Packs p))).
    + intros k Hk. unfold pack_id. rewrite valid_utf8_prefix by done. by apply pad4_ascii.
    + rewrite <- (ar_packs _ _ _ _ Har). by apply list_elem_of_fmap_2.
Qed.

Lemma portable_utf8 q : ValidatePortablePath q = None -> valid_utf8 q = true.
Proof. unfold ValidatePortablePath. do 2 (case_match; [done|]). destruct (valid_utf8 q); done. Qed.

Lemma source_json s : machine_tree t -> s ∈ sc_sources sc -> in_int64 (src_Size s) /\ in_int64 (src_MTimeNS s) /\
  (0 <= src_Mode s < 2^32)%Z /\ valid_utf8 (src_Digest s) = true.
Proof.
  intros Ht Hs. destruct (st_sources _ _ _ _ Hsc s Hs) as (r & rel & _ & (_ & _ & d & mo & mt & Hn & Hsz & Hdg & Hm & Hmt) & _).
  destruct (Ht _ _ Hn) as (H1 & H2 & _). cbn [size_of] in H2. rewrite Hsz, Hdg, Hm. split_and!.
  - unfold in_int64, min_int64, max_int64, slen in *. lia.
  - by apply (reported_range (NFile d mo mt)).
  - unfold exec_mode. by destruct (negb _).
  - unfold exec_mode. by destruct (negb _).
  - apply digest_valid.
Qed.

Lemma sent_json_ok : machine_tree t -> packs_small -> Forall (fun r => valid_utf8 r = true) (p_Roots p) ->
  valid_utf8 id = true -> valid_utf8 note = true -> json_ok m.
Proof.
  intros Ht Hpk Hu Hid Hnote. unfold json_ok, send_manifest. cbn [SchemaVersion TransferID Note Roots m_DigestAlgorithm Segments Entries].
  split; [by unfold in_int64, min_int64, max_int64; lia|]. split; [done|]. split; [done|]. split; [done|]. split; [done|]. split.
  - apply Forall_app. split; apply Forall_map, Forall_forall.
    + intros [i s] Hr. rewrite Hraws in Hr. assert (Hf : (i, s) ∈ segment_files (p_RawFiles p) (p_Packs p)) by (unfold segment_files; apply elem_of_app; by left).
      assert (Hs : s ∈ sc_sources sc) by (rewrite <- (ar_sources _ _ _ _ Har); change s with (snd (i, s)); by apply list_elem_of_fmap_2).
      destruct (source_json s Ht Hs) as (J1 & _ & _ & J4). by split; [apply (segment_utf8 i s Hf)|].
    + intros ps Hps. destruct (proj1 (Forall_forall _ _) Hpk ps Hps) as [[J1 J2] [d Hd]]. cbn [pack_segment seg_ID seg_Kind seg_WireSize seg_Digest seg_StoragePath].
      split; [|split; [done|]]; [|split; [unfold in_int64, min_int64, max_int64; lia|]]; [|split; [rewrite Hd; apply digest_valid|done]].
      apply (ids_utf8 pack_id (length (p_Packs p))); [intros k Hk; unfold pack_id; rewrite valid_utf8_prefix by done; by apply pad4_ascii|].
      rewrite <- (ar_packs _ _ _ _ Har). by apply list_elem_of_fmap_2.
  - assert (H0 : in_int64 0) by (unfold in_int64, min_int64, max_int64; lia). assert (mode_dir : (0 <= 493 < 2^32)%Z) by lia.
    apply Forall_forall. intros e He. destruct (arranged_entry _ _ _ _ _ Har He) as [Hd|(i & s & Hf & Hin & ->)].
    + destruct (st_dirs _ _ _ _ Hsc e Hd) as (r & rel & _ & (mo & mt & z & Hn & Hz & ->) & Hv). destruct (Ht _ _ Hn) as (H1 & _).
      pose proof (portable_utf8 _ Hv) as Hp.
      exact (conj Hp (conj eq_refl (conj H0 (conj (reported_range _ _ H1 Hz) (conj mode_dir (conj eq_refl (conj eq_refl H0))))))).
    + destruct (source_json s Ht Hin) as (J1 & J2 & J3 & J4). destruct (source_facts s Hin Hu) as (F1 & _).
      exact (conj (portable_utf8 _ F1) (conj eq_refl (conj J1 (conj J2 (conj J3 (conj J4 (conj (segment_utf8 i s Hf) H0))))))).
Qed.
End valid.

(** C12: what a sender plans is a manifest the server accepts, with three exceptions.  For the
    plan of any scan, any order of its raw files and any packs with a size and a digest, the
    manifest a send commits passes Validate exactly when there is at least one file, no two
    directories have the same path up to case, and no modification time is before 1970. *)
Theorem scanned_manifest_valid cwd roots es t p t' raws packs id note now :
  well_formed t -> run (Scan cwd roots) es t = (Some (inr p), t') -> raws ≡ₚ p_RawFiles p -> packs_fine p packs ->
  Forall (fun r => valid_utf8 r = true) (p_Roots p) -> (p_FileCount p < 2^63)%Z ->
  (16 <= slen id <= 128)%Z -> now <> zero_time -> (slen note <= MaxNoteBytesHard)%Z -> valid_utf8 note = true ->
  (Validate (send_manifest p raws packs id note now) = None <-> (0 < p_FileCount p)%Z /\
    NoDup (map (fun e => ToLower (e_Path e)) (List.filter is_dir (p_Entries p))) /\
    Forall (fun e => (0 <= e_MTimeUnixNS e)%Z) (p_Entries p)).
Proof.
  intros Hwf E Hr Hpk Hu Hmany Hid Hnow Hnote Hutf.
  assert (Hwp : wp (eq t) (Scan cwd roots) (fun r _ => forall p, r = inr p -> roots <> [] /\ exists sc, scan_state t cwd roots sc /\
    arranged (sc_roots sc) (sc_sources sc) (sc_dirs sc) p) t).
  { apply (Scan_wp t cwd Hwf); [done|done|]. intros sc p' Hs Ha Hne p2 [= <-]. split; [done|]. by exists sc. }
  destruct (wp_sound _ _ _ es t eq_refl Hwp) as [_ H]. rewrite E in H. destruct (H _ eq_refl p eq_refl) as (Hne & sc & Hs & Ha).
  by apply (sent_manifest_ok t cwd roots sc p Hs Ha raws packs Hr Hmany).
Qed.
End manifest.

(** The pack of the sender's directory. *)
Definition desk_packs : gmap string packRef := {[ "p-0000"%string := mkPackRef "p" 4 (HashBytes "PACK") ]}.

Lemma scanned_manifest_valid_witness : exists p t, desk_scan = (Some (inr p), t) /\
  Validate (send_manifest p (p_RawFiles p) desk_packs plan_id "papers" noon) = None.
Proof.
  destruct (fst desk_scan) as [[e|p]|] eqn:E; [by vm_compute in E| |by vm_compute in E].
  exists p, (snd desk_scan). pose proof (answer_pair _ _ _ _ E) as E2. split; [exact E2|].
  pose proof (scanned_manifest_valid Handoff.cwd ["docs"%string] [] desk p (snd desk_scan) (p_RawFiles p) desk_packs plan_id "papers" noon
    desk_well_formed E2) as H. vm_compute in E. injection E as <-. apply H.
  - reflexivity.
  - unfold packs_fine. cbn [p_Packs]. apply Forall_singleton. split; [by vm_compute|vm_compute; reflexivity].
  - cbn [p_Roots]. apply Forall_singleton. vm_compute; reflexivity.
  - vm_compute. reflexivity.
  - split; vm_compute; discriminate.
  - vm_compute. discriminate.
  - vm_compute. discriminate.
  - vm_compute. reflexivity.
  - split; [by vm_compute|]. cbn [p_Entries]. split; [apply NoDup_singleton|]. repeat apply Forall_cons_2; by vm_compute.
Defined.
