(* ===== verification/Availability.v ===== *)
(** * A healthy server does what it is asked

    Other theorems say what is true when a request is answered.  Here no call fails, and an
    upload is answered with a code that gives the bytes back until it expires. *)
From S2P Require Import Prelude GoStrings GoTime Errors Code Paths Manifest Wire Admission Prog Tree.
From S2P Require Import Integrity Materialize Archive Store Config World Service Upload Commit Simple Janitor Api Safety.
From S2P Require Import ServiceProofs UploadProofs CommitProofs SimpleProofs ApiProofs System Durability SendProofs Demo Guarantees.
Local Open Scope prog_scope.

(** ** Runs in which every call succeeds *)

(** [smooth p Q w]: the run of [p] from [w] without faults ends with [Q]. *)
Definition smooth {W A : Type} (p : prog W A) (Q : A -> W -> Prop) (w : W) : Prop := wp0 (fun _ => True) p Q w.

Section smooth.
Context {W : Type}.

Lemma smooth_exec {A : Type} (p : prog W A) (Q : A -> W -> Prop) w : Q (fst (exec p w)) (snd (exec p w)) -> smooth p Q w.
Proof.
  revert w. induction p as [a|R step alts k IH]; intros w; cbn; [done|]. destruct (step w) as [r w']. split; [done|by apply IH].
Qed.

Lemma smooth_run {A : Type} (p : prog W A) Q w : smooth p Q w -> exists a w', run p [] w = (Some a, w') /\ Q a w'.
Proof.
  intros H. destruct (wp0_sound (fun _ => True) p Q [] w (Forall_nil_2 _) I H) as [_ Hq]. rewrite run_nil in Hq |- *.
  do 2 eexists. split; [done|]. by apply Hq.
Qed.
Lemma smooth_wand {A : Type} (p : prog W A) (Q Q' : A -> W -> Prop) w : smooth p Q w -> (forall a w, Q a w -> Q' a w) -> smooth p Q' w.
Proof. apply wp0_wand. Qed.
Lemma smooth_act {R : Type} (step : W -> R * W) alts (Q : R -> W -> Prop) w :
  Q (fst (step w)) (snd (step w)) -> smooth (act step alts) Q w.
Proof. unfold smooth. cbn. destruct (step w). by split. Qed.
Lemma smooth_bind {A B : Type} (p : prog W A) (f : A -> prog W B) (Q : A -> W -> Prop) R w :
  smooth p Q w -> (forall a w', Q a w' -> smooth (f a) R w') -> smooth (bind p f) R w.
Proof. intros Hp Hf. apply wp0_bind. by eapply wp0_wand. Qed.

(** A call that may fail, and did not. *)
Definition well {E A : Type} (Q : A -> W -> Prop) (r : E + A) (w : W) : Prop :=
  match r with inl _ => False | inr a => Q a w end.
Lemma smooth_bindE {E A B : Type} (p : prog W (E + A)) (f : A -> prog W (E + B)) (Q : A -> W -> Prop) R w :
  smooth p (well Q) w -> (forall a w', Q a w' -> smooth (f a) R w') -> smooth (bindE p f) R w.
Proof. intros Hp Hf. eapply smooth_bind; [exact Hp|]. intros [e|a] w' Ha; [done|by apply Hf]. Qed.
Lemma smooth_orE {E E' A B : Type} (p : prog W (E + A)) (e : E') (f : A -> prog W (E' + B)) (Q : A -> W -> Prop) R w :
  smooth p (well Q) w -> (forall a w', Q a w' -> smooth (f a) R w') -> smooth (orE p e f) R w.
Proof. intros Hp Hf. eapply smooth_bind; [exact Hp|]. intros [x|a] w' Ha; [done|by apply Hf]. Qed.
Lemma smooth_also {A : Type} (I : W -> Prop) (p : prog W A) (Q Q' : A -> W -> Prop) w :
  smooth p Q w -> wp I p Q' w -> smooth p (fun a w => Q a w /\ Q' a w) w.
Proof. intros H1 H2. eapply (wp0_mono (fun w => True /\ I w) _ p (fun a w => Q a w /\ Q' a w)); [done|done|].
  apply wp0_and; [exact H1|by apply wp_wp0]. Qed.
End smooth.

(** ** Directory calls *)

Lemma look_node t p c : look t p = Some c -> exists n, t !! p = Some n.
Proof. unfold look. destruct (t !! p) as [n|]; [eauto|done]. Qed.

Lemma smooth_OpenFile excl p mode t : look t p = None -> look t (parent p) = Some CDir ->
  smooth (OpenFile excl p mode) (well (fun _ t' => forall q, look t' q = if decide (p = q) then Some (CFile "") else look t q)) t.
Proof.
  intros Hp Hd. apply smooth_act. unfold create. unfold look in Hp. destruct (t !! p); [done|].
  rewrite (proj2 (is_dir_look _ _) Hd). cbn [fst snd well]. intros q. apply look_add.
Qed.
Lemma smooth_WriteAt p d c t : look t p = Some (CFile d) ->
  smooth (WriteAt p (slen d) c) (well (fun _ t' => forall q, look t' q = if decide (p = q) then Some (CFile (d ++ c)) else look t q)) t.
Proof.
  intros Hp. apply smooth_act. cbn [fst snd well]. intros q. rewrite look_edit. destruct (decide (p = q)) as [<-|Hq].
  - by rewrite Hp, write_at_end.
  - by destruct (look t q) as [[]|].
Qed.
Lemma smooth_Sync t : smooth Sync (well (fun _ t' => t' = t)) t.
Proof. by apply smooth_act. Qed.
Lemma smooth_Chmod p m t c : look t p = Some c -> smooth (Chmod p m) (well (fun _ t' => same t t')) t.
Proof.
  intros Hp. destruct (look_node _ _ _ Hp) as [n En]. apply smooth_act. rewrite En. intros q. symmetry.
  by eapply look_insert_same, content_set_mode.
Qed.
Lemma smooth_Rename src dst d t : src <> dst -> look t src = Some (CFile d) -> look t (parent dst) = Some CDir -> look t dst <> Some CDir ->
  smooth (Rename src dst) (well (fun _ t' => look t' dst = Some (CFile d) /\ forall q, q <> src -> q <> dst -> look t' q = look t q)) t.
Proof.
  intros Hne Hs Hp Hd. apply smooth_act. destruct (rename src dst t) as [r t'] eqn:E. pose proof (rename_look _ _ _ _ _ E Hne) as [_ Hl].
  unfold rename in E. destruct (look_node _ _ _ Hs) as [n En]. unfold look in Hs. rewrite En in E, Hs. destruct n as [|d' m mt]; [done|].
  rewrite (proj2 (is_dir_look _ _) Hp) in E. cbn [negb] in E. destruct (is_dir_at t dst) eqn:Ed; [by apply is_dir_look in Ed|].
  injection E as <- <-. destruct (Hl eq_refl) as (d2 & E1 & E2 & _ & _ & _ & E3). unfold look in E1. rewrite En in E1. cbn in *. split; [congruence|done].
Qed.

Lemma smooth_WriteFileSync name tmp data perm t : look t [] = Some CDir -> look t [tmp] = None -> tmp <> name ->
  look t [name] <> Some CDir ->
  smooth (WriteFileSync [] name tmp data perm) (well (fun _ t' => forall q, q <> [tmp] ->
    look t' q = if decide (q = [name]) then Some (CFile data) else look t q)) t.
Proof.
  intros Hr Ht Hne Hn. unfold WriteFileSync. cbn [app].
  eapply smooth_bindE; [by apply smooth_OpenFile|]. intros [] t1 H1.
  eapply smooth_bind; [|intros r t5 H5; eapply smooth_bind; [apply (smooth_act _ _ (fun _ t' => forall q, q <> [tmp] -> look t' q = look t5 q))|]].
  - eapply smooth_bindE; [apply (smooth_WriteAt [tmp] ""); by rewrite H1, decide_True|]. intros [] t2 H2.
    eapply smooth_bindE; [apply smooth_Sync|]. intros [] ? ->. eapply smooth_bindE; [apply smooth_Sync|]. intros [] ? ->.
    assert (H2' : forall q, q <> [tmp] -> look t2 q = look t q).
    { intros q Hq. by rewrite H2, H1, !decide_False by congruence. }
    eapply smooth_bindE; [apply (smooth_Chmod _ _ _ (CFile data)); by rewrite H2, decide_True|]. intros [] t3 H3.
    eapply smooth_bindE; [apply (smooth_Rename [tmp] [name] data)|].
    + congruence.
    + by rewrite <- H3, H2, decide_True.
    + by rewrite <- H3, H2'.
    + by rewrite <- H3, H2' by congruence.
    + intros [] t4 [H4 H4']. eapply smooth_wand; [apply smooth_Sync|]. intros [e|[]] ? Hs; [done|]. cbn in Hs. subst. cbn [well].
      instantiate (1 := well (fun _ t' => forall q, q <> [tmp] -> look t' q = if decide (q = [name]) then Some (CFile data) else look t q)).
      intros q Hq. destruct (decide (q = [name])) as [->|]; [done|]. by rewrite H4', <- H3, H2'.
  - intros q Hq. by apply (remove_look _ _ _ _ (surjective_pairing _)).
  - intros x t6 H6. destruct r as [e|[]]; [done|]. cbn in *. intros q Hq. by rewrite H6, H5.
Qed.

Lemma smooth_SealPayload t : smooth SealPayload (well (fun _ t' => same t t')) t.
Proof.
  unfold SealPayload. eapply smooth_bindE; [apply (smooth_act _ _ (well (fun _ t' => t' = t))); done|]. intros names ? ->.
  assert (H : forall t1, same t t1 -> smooth (loop (fun (_ : unit) name => act (fun t => (inr (A := oserr) tt, seal_entry name t))
    (maybe_done (fun t => (tt, seal_entry name t)))) tt names) (well (fun _ t' => same t t')) t1); [|by apply H].
  induction names as [|name names IH]; intros t1 H1; cbn [loop]; [done|].
  eapply smooth_bindE; [apply (smooth_act _ _ (well (fun _ t' => t' = seal_entry name t1))); done|]. intros [] ? ->.
  apply IH. intros q. by rewrite look_seal_entry.
Qed.

(** ** Calls of the server *)

Section availability.
Context {UC : Unicode} {EX : Externals} {EL : ExternalsLaws} {MC : ManifestCodec} {ML : ManifestCodecLaws}.
Context (cfg : Server).
#[local] Existing Instance strictly.

(** Everything but the staging directories is as it was. *)
Definition only_staging (w w1 : world) : Prop :=
  db w1 = db w /\ live w1 = live w /\ clock w1 = clock w /\ disk w1 = disk w /\ rnd w1 = rnd w /\ rpos w1 = rpos w.

Lemma smooth_in_staging {E A : Type} id (p : prog tree (E + A)) (Q : A -> tree -> Prop) w :
  smooth p (well Q) (tree_of (staging w) id) ->
  smooth (in_staging id p) (well (fun a w1 => only_staging w w1 /\ Q a (tree_of (staging w1) id))) w.
Proof.
  intros Hp. eapply smooth_wand.
  - apply (wp0_lift (fun w => tree_of (staging w) id) (fun t w => set_staging (put_tree id t (staging w)) w) (fun _ => True) (fun _ => True)
      (only_staging w) p (well Q)); [| |by repeat split|exact Hp]; [done|intros; apply tree_of_put].
  - by intros [e|a] w1 [Ho Hq].
Qed.
Lemma smooth_New pre w : smooth (New pre) (fun s w1 => s = (pre ++ EncodeToString (bytes_at w (rpos w) 16))%string /\
  w1 = set_rpos (rpos w + 16) w) w.
Proof. by repeat split. Qed.
Lemma smooth_temp_name w : smooth temp_name (fun s w1 => s = (".tmp-" ++ EncodeToString (bytes_at w (rpos w) 8))%string /\
  w1 = set_rpos (rpos w + 8) w) w.
Proof. by repeat split. Qed.
Lemma smooth_Now w : smooth Now (fun t w1 => t = clock w /\ w1 = w) w.
Proof. by repeat split. Qed.
Lemma smooth_world_sync w : smooth world_sync (well (fun _ w1 => w1 = w)) w.
Proof. by repeat split. Qed.
Lemma smooth_CheckStreaming w : CheckStreaming (controller cfg) (Some (disk w)) = None ->
  smooth (adm_CheckStreaming cfg) (fun r w1 => r = None /\ w1 = w) w.
Proof.
  intros H. eapply smooth_bind; [apply (smooth_act _ _ (fun u w1 => u = Some (disk w) /\ w1 = w)); done|]. intros u w1 [-> ->]. done.
Qed.
Lemma smooth_tx {A : Type} (f : txn A) (a : A) d w : f (db w) = (inr a, d) -> smooth (tx f) (well (fun b w1 => b = a /\ w1 = set_db d w)) w.
Proof. intros H. apply smooth_act. unfold tx_step. by rewrite H. Qed.

(** ** One upload *)

(** A transfer that is being received: nothing was published since [w0], and the random
    source advanced by [n] bytes. *)
Record receiving (w0 : world) (id : string) (P : tree -> Prop) (n : nat) (w : world) : Prop := {
  rc_env : live w = live w0 /\ clock w = clock w0 /\ disk w = disk w0 /\ rnd w = rnd w0 /\ rpos w = (rpos w0 + n)%nat;
  rc_row : exists r, transfers (db w) !! id = Some r /\ precommit (c_state r) = true /\ c_code r = None;
  rc_codes j r c : transfers (db w) !! j = Some r -> c_code r = Some c ->
    exists r0, transfers (db w0) !! j = Some r0 /\ c_code r0 = Some c;
  rc_files : P (tree_of (staging w) id) }.

Lemma receiving_only_staging w0 id (P P' : tree -> Prop) n w w1 : receiving w0 id P n w -> only_staging w w1 ->
  P' (tree_of (staging w1) id) -> receiving w0 id P' n w1.
Proof.
  intros [(A1 & A2 & A3 & A4 & A5) B C D] (E1 & E2 & E3 & E4 & E5 & E6) HP. split; rewrite ?E1; [|done|done|done].
  split_and!; congruence.
Qed.
Lemma receiving_draws w0 id P n k w : receiving w0 id P n w -> receiving w0 id P (n + k) (set_rpos (rpos w + k) w).
Proof. intros [(A1 & A2 & A3 & A4 & A5) B C D]. split; [cbn; split_and!; [done..|lia]|done|done|done]. Qed.

(** An UPDATE of the row that is not published. *)
Lemma receiving_update w0 id P n w f : (forall r, c_code (f r) = c_code r /\ (precommit (c_state r) = true -> precommit (c_state (f r)) = true)) ->
  receiving w0 id P n w -> receiving w0 id P n (set_db (update_transfer id f (db w)) w).
Proof.
  intros Hf [A (r & B1 & B2 & B3) C D]. destruct (Hf r) as [F1 F2]. split; [done| | |done].
  - exists (f r). cbn. rewrite lookup_alter_eq, B1. split_and!; [done|by apply F2|congruence].
  - intros j rj c. cbn. destruct (decide (id = j)) as [<-|Hj].
    + rewrite lookup_alter_eq, B1. cbn. intros [= <-]. congruence.
    + rewrite lookup_alter_ne by done. apply C.
Qed.

(** The directories of a new transfer. *)
Definition prepared (t : tree) : Prop :=
  look t [] = Some CDir /\ look t [PayloadDir] = Some CDir /\ (forall x, look t [PayloadDir; x] = None) /\
  forall x, look t [x] <> None -> x ∈ [PayloadDir; SegmentsDir; PacksDir].
Definition filled (t : tree) : Prop :=
  look t [] = Some CDir /\ forall x, look t [x] <> None -> x ∈ [PayloadDir; SegmentsDir; PacksDir].

Definition prepared_tree : tree :=
  snd (exec (loop (E := oserr) (fun (_ : unit) d => MkdirAll d 488) tt [[]; [PayloadDir]; [SegmentsDir]; [PacksDir]]) ∅).
Definition top_level (p : path) : bool :=
  match p with [] => true | [x] => bool_decide (x ∈ [PayloadDir; SegmentsDir; PacksDir]) | _ => false end.

Lemma prepared_tree_top p n : prepared_tree !! p = Some n -> top_level p = true.
Proof.
  revert p n. change (map_Forall (fun p _ => top_level p = true) prepared_tree).
  apply (bool_decide_eq_true_1 (map_Forall (fun p _ => top_level p = true) prepared_tree)). by vm_compute.
Qed.
Lemma smooth_prepare : smooth (loop (fun (_ : unit) d => MkdirAll d 488) tt [[]; [PayloadDir]; [SegmentsDir]; [PacksDir]])
  (well (E := oserr) (fun _ t => prepared t)) ∅.
Proof.
  apply smooth_exec. change (snd (exec _ ∅)) with prepared_tree. replace (fst (exec _ ∅)) with (inr (A := oserr) tt) by by vm_compute.
  split_and!; [by vm_compute|by vm_compute| |].
  - intros x. unfold look. destruct (prepared_tree !! ([PayloadDir; x] : path)) eqn:E; [|done]. by apply prepared_tree_top in E.
  - intros x Hx. unfold look in Hx. destruct (prepared_tree !! ([x] : path)) eqn:E; [|done]. apply prepared_tree_top in E.
    by apply bool_decide_eq_true in E.
Qed.

(** A healthy server: the disk admits uploads, and the identifier it draws is new. *)
Definition fresh_staging (w : world) : Prop := fresh_next w /\ staging w !! next_id w = None.
Definition accepting (w : world) : Prop := CheckStreaming (controller cfg) (Some (disk w)) = None.

Lemma smooth_BeginSimple w : fresh_staging w -> accepting w ->
  smooth (BeginSimple cfg) (well (fun s w1 => s = mkSession (next_id w) "" (DefaultTTLMinutes_ (Limits cfg)) [] [] [] ∅ 0 0 /\
    receiving w (next_id w) prepared 16 w1)) w.
Proof.
  intros [[Hf1 Hf2] Hf3] Ha. unfold BeginSimple. eapply smooth_bind; [by apply smooth_CheckStreaming|]. intros ? ? [-> ->].
  eapply smooth_bind; [apply smooth_New|]. intros id w1 [Hid ->]. fold (next_id w) in Hid. subst id.
  eapply smooth_orE; [apply smooth_in_staging|].
  { unfold tree_of. cbn [staging set_rpos]. rewrite Hf3. apply smooth_prepare. }
  intros [] w2 [(E1 & E2 & E3 & E4 & E5 & E6) Hp]. cbn [db live clock disk rnd rpos set_rpos] in *.
  eapply smooth_bind; [apply smooth_Now|]. intros now ? [-> ->].
  eapply smooth_bind; [apply (smooth_tx _ tt); unfold CreateTransfer; cbn [t_ID]; by rewrite E1, Hf1|].
  intros [e|[]] w3; [done|]. intros [_ ->]. cbn. split; [done|]. split; [by split_and!| | |done].
  - eexists. cbn. by rewrite lookup_insert_eq.
  - intros j r c. cbn. destruct (decide (next_id w = j)) as [<-|Hj].
    + rewrite lookup_insert_eq. by intros [= <-].
    + rewrite lookup_insert_ne by done. intros Hr Hc. by exists r.
Qed.

(** ** Receiving the file *)

Lemma smooth_add_loop w0 id n target bytes cs d since w :
  receiving w0 id (fun t => filled t /\ look t target = Some (CFile d)) n w -> (1 < length target)%nat -> accepting w0 ->
  (0 <= slen d)%Z -> (slen d + slen (join "" cs) < 2^63)%Z ->
  (0 < MaxTransferBytes (Limits cfg) -> bytes + (slen d + slen (join "" cs)) <= MaxTransferBytes (Limits cfg))%Z ->
  smooth (add_loop cfg id target bytes false cs (slen d) since) (well (fun ws w1 => fst ws = slen (d ++ join "" cs)%string /\
    receiving w0 id filled n w1)) w.
Proof.
  intros Hr Ht Ha. revert d since w Hr. induction cs as [|c cs IH]; intros d since w Hr Hd Hlen Hmax; cbn [add_loop].
  { cbn. rewrite string_app_nil_r. split; [done|]. destruct Hr as [A B C [D _]]. by split. }
  rewrite join_nil_cons, slen_app in Hlen, Hmax. rewrite join_nil_cons, <- string_app_assoc.
  assert (Hc : (0 <= slen c)%Z /\ (0 <= slen (join "" cs))%Z) by (unfold slen; lia).
  eapply smooth_orE; [apply smooth_in_staging, smooth_WriteAt, Hr|]. intros [] w1 [Ho Hl].
  assert (Hr1 : receiving w0 id (fun t => filled t /\ look t target = Some (CFile (d ++ c)%string)) n w1).
  { eapply receiving_only_staging; [exact Hr|done|]. split; [|by rewrite Hl, decide_True]. destruct (rc_files _ _ _ _ _ Hr) as [[F1 F2] _].
    split; [by rewrite Hl, decide_False by (by destruct target; cbn in Ht; try lia)|]. intros x. rewrite Hl, decide_False; [apply F2|].
    intros ->. cbn in Ht. lia. }
  replace (int64 (slen d + slen c)) with (slen (d ++ c)%string).
  2:{ rewrite slen_app, int64_small; [done|]. unfold in_int64, min_int64, max_int64. lia. }
  rewrite slen_app. destruct (_ && _) eqn:E.
  { apply andb_true_iff in E as [E1%Z.ltb_lt E2%Z.ltb_lt]. lia. }
  rewrite <- slen_app. destruct (_ <=? _)%Z.
  - eapply smooth_bind; [apply smooth_CheckStreaming|].
    { destruct (rc_env _ _ _ _ _ Hr1) as (_ & _ & -> & _). done. }
    intros ? ? [-> ->]. apply IH; rewrite ?slen_app; [done|lia..].
  - apply IH; rewrite ?slen_app; [done|lia..].
Qed.

(** A file that a session accepts. *)
Record acceptable (name : string) (r : reader) (clean data : string) : Prop := {
  ac_clean : sanitizeUploadName name = clean; ac_component : ValidateComponent clean = None; ac_utf8 : valid_utf8 clean = true;
  ac_data : join "" (chunks r) = data; ac_whole : fails r = false;
  ac_files : (0 < MaxFiles (Limits cfg))%Z; ac_size : (slen data < 2^63)%Z;
  ac_limit : (0 < MaxTransferBytes (Limits cfg) -> slen data <= MaxTransferBytes (Limits cfg))%Z }.

Definition blank_session (id note : string) (ttl : Z) : SimpleSession := mkSession id note ttl [] [] [] ∅ 0 0.
(** A session that received one file. *)
Record holding (s s' : SimpleSession) (clean data : string) (now : Z) (segID : string) : Prop := {
  ho_id : ss_id s' = ss_id s; ho_note : ss_note s' = ss_note s; ho_ttl : ss_ttlMinutes s' = ss_ttlMinutes s;
  ho_entries : ss_entries s' = [mkEntry clean EntryFile (slen data) (int64 now) 420 (HashBytes data) segID 0];
  ho_segments : ss_segments s' = [mkSegment segID SegmentRaw (slen data) (HashBytes data) (PayloadDir ++ "/" ++ clean)%string];
  ho_roots : ss_roots s' = [clean]; ho_segID : segID <> "" /\ (slen segID <= 128)%Z }.

Lemma smooth_AddFile w0 id name r clean data note ttl w : acceptable name r clean data -> plain id = true -> accepting w0 ->
  receiving w0 id prepared 16 w ->
  smooth (AddFile cfg name r (blank_session id note ttl)) (well (fun s' w1 => receiving w0 id filled 32 w1 /\
    exists segID, holding (blank_session id note ttl) s' clean data (clock w0) segID)) w.
Proof.
  intros [<- Hv Hu <- Hfails Hmf Hlen Hmax] Hid Ha Hw. unfold AddFile. set (clean := sanitizeUploadName name) in *.
  destruct (clean =? "")%string eqn:E; [apply String.eqb_eq in E; by rewrite E in Hv|]. rewrite Hv.
  cbn [blank_session ss_seenNames ss_entries ss_id length ss_bytes ss_sinceCheck].
  rewrite bool_decide_eq_false_2 by set_solver. cbn [negb]. rewrite (proj2 (Z.leb_gt _ _)) by (cbn; lia). cbn [negb].
  pose proof (ValidateComponent_plain _ Hv) as Hp. rewrite payload_join by done.
  pose proof (rc_files _ _ _ _ _ Hw) as (P1 & P2 & P3 & P4).
  eapply smooth_orE; [apply smooth_in_staging, smooth_OpenFile; [apply P3|done]|]. intros [] w1 [Ho Hl].
  assert (Hw1 : receiving w0 id (fun t => filled t /\ look t [PayloadDir; clean] = Some (CFile "")) 16 w1).
  { eapply receiving_only_staging; [exact Hw|done|]. split; [split|by rewrite Hl, decide_True].
    - by rewrite Hl, decide_False.
    - intros x. rewrite Hl, decide_False by done. apply P4. }
  eapply smooth_bindE; [rewrite Hfails; apply (smooth_add_loop w0 id 16 _ _ _ ""); [done|cbn; lia|done|..]; cbn [append]; change (slen "") with 0%Z; lia|].
  intros [written since] w2 [Hwr Hw2]. cbn [fst append] in Hwr. subst written.
  eapply smooth_orE; [apply smooth_world_sync|]. intros [] ? ->. eapply smooth_orE; [apply smooth_world_sync|]. intros [] ? ->.
  eapply smooth_bind; [apply smooth_New|]. intros segID w3 [Hseg ->]. pose proof (receiving_draws _ _ _ _ 16 _ Hw2) as Hw3.
  eapply smooth_bind; [apply smooth_Now|]. intros now w4 [-> ->].
  cbn [smooth wp0 well]. split; [exact Hw3|]. exists segID.
  destruct (rc_env _ _ _ _ _ Hw3) as (_ & Hclk & _). rewrite Hclk.
  split; cbn [ss_id ss_note ss_ttlMinutes ss_entries ss_segments ss_roots app blank_session]; [done..|].
  subst segID. rewrite slen_id by done. split; [done|lia].
Qed.

(** ** Committing it *)

Lemma one_file_valid s s' clean data now segID : holding s s' clean data now segID ->
  (slen (ss_id s) = 34)%Z -> (slen (ss_note s) <= MaxNoteBytesHard)%Z -> valid_utf8 (ss_note s) = true ->
  ValidateComponent clean = None -> valid_utf8 clean = true -> (0 <= now <= max_int64)%Z ->
  Manifest.Validate (session_manifest now s') = None.
Proof.
  intros [H1 H2 H3 H4 H5 H6 [H7 H8]] Hid Hn Hnu Hc Hcu Hnow. apply Validate_spec. unfold manifest_ok, session_manifest.
  cbn [SchemaVersion TransferID CreatedAt m_DigestAlgorithm Note Roots Segments Entries].
  rewrite H1, H2, H4, H5, H6. cbn [map seg_ID e_Path e_SegmentID].
  assert (Hplain : has_byte "/" clean = false) by (by apply ValidateComponent_plain, plain_spec in Hc as (_ & _ & _ & ?)).
  assert (Hs0 : (0 <= slen data)%Z) by (unfold slen; lia).
  split_and!; try done; try lia; try (by apply Forall_singleton); try apply NoDup_singleton.
  - unfold zero_time, second. lia.
  - by right.
  - apply Forall_singleton. split_and!; [done|done|by left|done|apply HashBytes_pattern].
  - apply Forall_singleton. unfold entry_ok. cbn [e_Path e_Type e_Size e_Mode e_MTimeUnixNS e_Digest e_SegmentID e_SegmentOffset Roots].
    rewrite before_no, int64_small by (done || (unfold in_int64, min_int64; lia)).
    split_and!; [by apply component_portable|by left|done|lia|]. right. split_and!; [done|done|done|apply HashBytes_pattern|].
    eexists. unfold SegmentByID. cbn [Segments List.find seg_ID]. rewrite String.eqb_refl. by split.
  - cbn [List.filter]. destruct (raw_backed _ _); [apply NoDup_singleton|constructor].
  - apply Forall_singleton. by left.
Qed.

(** One of the sixteen codes that a transfer received from [w] on will draw is not in use:
    its identifier, its segment's and a temporary name take 40 bytes of the random source
    before. *)
Definition drawn_code (w : world) (k : nat) : string := default "" (NormalizeCode (NewCode (bytes_at w (rpos w + 40 + 8 * k) 8))).
Definition code_left (w : world) : Prop :=
  exists k, (k < 16)%nat /\ forall j r, transfers (db w) !! j = Some r -> c_code r <> Some (drawn_code w k).

Lemma allocate_succeeds bufs id row committed expires dg b (d : DB) : transfers d !! id = Some row -> c_code row = None ->
  (exists buf, buf ∈ bufs /\ row_by_code (default "" (NormalizeCode (NewCode buf))) d = None) ->
  exists code d', allocate bufs id committed expires dg b d = (inr code, d').
Proof.
  intros Hr Hc. induction bufs as [|buf bufs IH]; cbn [allocate]; [by intros (? & ?%elem_of_nil & _)|].
  intros (buf' & Hin & Hfree). unfold update_code. rewrite Hr, Hc.
  destruct (row_by_code (default "" (NormalizeCode (NewCode buf))) d) eqn:E; [|by do 2 eexists].
  apply IH. exists buf'. split; [|done]. apply elem_of_cons in Hin as [->|?]; [congruence|done].
Qed.

Lemma smooth_store_Publish w0 id n ttl dg b P w : receiving w0 id P n (set_live (live w0) w) -> n = 40%nat -> code_left w0 ->
  smooth (store_Publish id (clock w0) ttl dg b) (well (fun t w1 => t_ExpiresAt t = (truncate_second (clock w0) + minutes ttl)%Z /\
    clock w1 = clock w0)) w.
Proof.
  intros [(A1 & A2 & A3 & A4 & A5) (row & B1 & B2 & B3) C _] -> (k & Hk & Hfree). cbn in A2, A4, A5, B1, C.
  apply smooth_act. unfold Publish_step, tx_step.
  cbn [db set_rpos]. unfold Publish. rewrite B1. cbn [scanTransfer t_State].
  replace (bool_decide (c_state row = StateCommitted)) with false by (by destruct (c_state row)). rewrite B2. cbn [andb negb].
  destruct (allocate_succeeds (map (fun k => bytes_at w (rpos w + 8 * k) 8) (seq 0 16)) id row (Unix (truncate_second (clock w0)))
    (Unix (truncate_second (clock w0) + minutes ttl)) dg b (db w) B1 B3) as (code & d' & ->); [|by split].
  exists (bytes_at w (rpos w + 8 * k) 8). split.
  { apply list_elem_of_fmap. exists k. split; [done|]. apply list_elem_of_In, in_seq. lia. }
  destruct (row_by_code _ (db w)) as [[j r]|] eqn:E; [|done]. apply row_by_code_Some in E as [E1 E2].
  destruct (C j r _ E1 E2) as (r0 & F1 & F2). destruct (Hfree j r0 F1). rewrite F2. unfold drawn_code, bytes_at. by rewrite A4, A5.
Qed.

(** The codec writes every manifest of a time it can express. *)
Definition codec_total : Prop := forall m, json_ok m -> in_int64 (CreatedAt m) ->
  is_Some (json_Marshal m) /\ is_Some (json_MarshalIndent m).

Lemma temp_fresh t b : filled t -> look t [(".tmp-" ++ EncodeToString b)%string] = None.
Proof.
  intros [_ Hf]. destruct (look t _) eqn:E; [|done]. specialize (Hf (".tmp-" ++ EncodeToString b)%string). rewrite E in Hf.
  specialize (Hf ltac:(done)). rewrite !elem_of_cons, elem_of_nil in Hf. by destruct Hf as [|[|[|]]].
Qed.

Lemma smooth_WriteManifest m b data t : json_MarshalIndent m = Some data -> filled t ->
  smooth (WriteManifest (".tmp-" ++ EncodeToString b) m) (well (fun _ t' => look t' [] = Some CDir)) t.
Proof.
  intros Hm Hf. pose proof (temp_fresh t b Hf) as Ht. destruct Hf as [H1 H2]. unfold WriteManifest. rewrite Hm.
  eapply smooth_bind; [apply smooth_WriteFileSync; [done|done|done|]|].
  - intros E. specialize (H2 ManifestFile). rewrite E in H2. specialize (H2 ltac:(done)).
    rewrite !elem_of_cons, elem_of_nil in H2. by destruct H2 as [|[|[|]]].
  - intros [e|[]] t1 H; [done|]. cbn [well] in H. eapply smooth_bind; [apply smooth_Sync|]. intros [e|[]] ? Hs; [done|]. cbn in Hs. subst.
    cbn. by rewrite H.
Qed.

Lemma smooth_layout_Publish w0 id n P w : receiving w0 id P n w -> (forall t, P t -> look t [] = Some CDir) -> live w0 !! id = None ->
  smooth (layout_Publish id) (well (fun _ w1 => receiving w0 id (fun _ => True) n (set_live (live w0) w1) /\ db w1 = db w)) w.
Proof.
  intros [(A1 & A2 & A3 & A4 & A5) B C D] HP Hl. unfold layout_Publish. eapply smooth_bindE; [apply smooth_world_sync|]. intros [] ? ->.
  unfold stat_dir. eapply smooth_bind; [apply (smooth_act _ _ (fun r w1 => r = inl ErrNotExist /\ w1 = w))|].
  { unfold exists_dir, tree_of. by rewrite A1, Hl. }
  intros ? ? [-> ->]. eapply smooth_bindE; [apply (smooth_act _ _ (well (fun _ w1 => receiving w0 id (fun _ => True) n (set_live (live w0) w1) /\ db w1 = db w)))|].
  - unfold rename_to_live. destruct (look_node _ _ _ (HP _ D)) as [nd E]. unfold exists_dir. rewrite E. cbn [negb].
    assert (tree_of (live w) id = ∅) as -> by (unfold tree_of; by rewrite A1, Hl).
    unfold can_replace. rewrite bool_decide_eq_true_2 by done. cbn [negb fst snd well]. split; [|done]. by split.
  - intros [] w1 H1. eapply smooth_wand; [apply smooth_world_sync|]. intros [e|[]] ? Hs; [done|]. cbn in Hs. by subst.
Qed.

Definition expiry_of (w : world) (ttl : Z) : Z := (truncate_second (clock w) + minutes ttl)%Z.

Lemma now_before_expiry w ttl : (1 <= ttl <= 3000)%Z -> (clock w < expiry_of w ttl)%Z.
Proof.
  intros Ht. unfold expiry_of, truncate_second, minutes. rewrite int64_small by (unfold in_int64, min_int64, max_int64, minute, second; lia).
  pose proof (Z.mod_pos_bound (clock w - zero_time) second ltac:(done)). unfold minute, second in *. lia.
Qed.

Lemma smooth_publish w0 id m ttl note bytes w : receiving w0 id filled 32 w -> live w0 !! id = None -> code_left w0 ->
  is_Some (json_Marshal m) -> is_Some (json_MarshalIndent m) ->
  smooth (publish id m ttl note bytes) (well (fun resp w1 => co_ExpiresAt resp = expiry_of w0 ttl /\ clock w1 = clock w0)) w.
Proof.
  intros Hw Hl Hcode [d1 E1] [d2 E2]. unfold publish.
  eapply smooth_orE; [by apply smooth_tx|]. intros [] ? [_ ->]. apply (receiving_update _ _ _ _ _ (row_state StateVerifying)) in Hw; [|done].
  revert Hw. generalize (set_db (update_transfer id (row_state StateVerifying) (db w)) w). clear w. intros w Hw.
  eapply smooth_orE; [by apply smooth_tx|]. intros [] ? [_ ->]. apply (receiving_update _ _ _ _ _ (row_note_ttl (nullString note) ttl)) in Hw; [|done].
  revert Hw. generalize (set_db (update_transfer id (row_note_ttl (nullString note) ttl) (db w)) w). clear w. intros w Hw.
  eapply (smooth_bindE _ _ (fun _ w1 => receiving w0 id (fun t => look t [] = Some CDir) 40 w1)).
  { unfold writeAndDigestManifest. rewrite E1. eapply smooth_bind; [apply smooth_temp_name|].
    intros tmp w1 [-> ->]. apply (receiving_draws _ _ _ _ 8) in Hw.
    eapply smooth_orE; [apply smooth_in_staging; apply (smooth_WriteManifest m _ d2); [done|apply (rc_files _ _ _ _ _ Hw)]|].
    intros [] w2 [Ho Hd]. by eapply receiving_only_staging. }
  intros digest w1 Hw1.
  eapply smooth_orE; [apply smooth_in_staging, smooth_SealPayload|]. intros [] w2 [Ho2 Hs].
  assert (Hw2 : receiving w0 id (fun t => look t [] = Some CDir) 40 w2).
  { eapply receiving_only_staging; [done|done|]. rewrite <- Hs. apply (rc_files _ _ _ _ _ Hw1). }
  eapply smooth_orE; [by apply (smooth_layout_Publish w0 id 40 _ w2 Hw2)|]. intros [] w3 [Hw3 _].
  assert (Hclk : clock w3 = clock w0) by apply (rc_env _ _ _ _ _ Hw3).
  eapply smooth_bind; [apply smooth_Now|]. intros now ? [-> ->]. rewrite Hclk.
  eapply smooth_bind; [by eapply smooth_store_Publish|]. intros [e|t] w4 Ht; [done|]. by repeat split; apply Ht.
Qed.

Lemma smooth_session_Commit w0 id note ttl s clean data segID w : receiving w0 id filled 32 w -> live w0 !! id = None -> code_left w0 ->
  codec_total -> session_ok s [(clean, data)] w -> holding (blank_session id note ttl) s clean data (clock w0) segID -> (slen id = 34)%Z ->
  (slen note <= MaxNoteBytesHard)%Z -> valid_utf8 note = true -> ValidateComponent clean = None -> valid_utf8 clean = true ->
  (0 <= clock w0 <= max_int64)%Z ->
  smooth (session_Commit s) (well (fun resp w1 => co_ExpiresAt resp = expiry_of w0 ttl /\ clock w1 = clock w0)) w.
Proof.
  intros Hw Hl Hcode Htot Hs Hh Hid Hn Hnu Hc Hcu Hclk. unfold session_Commit. rewrite (ho_entries _ _ _ _ _ _ Hh). cbn [length Nat.eqb negb].
  eapply smooth_bind; [apply smooth_Now|]. intros now ? [-> ->]. destruct (rc_env _ _ _ _ _ Hw) as (_ & -> & _).
  assert (Hv : Manifest.Validate (session_manifest (clock w0) s) = None) by (by eapply one_file_valid).
  rewrite Hv, (ho_ttl _ _ _ _ _ _ Hh), (ho_id _ _ _ _ _ _ Hh).
  destruct (Htot (session_manifest (clock w0) s)) as [Hj1 Hj2].
  { by eapply session_json. }
  { cbn. unfold in_int64, min_int64. lia. }
  by apply smooth_publish.
Qed.

(** What the headers of a raw upload ask for. *)
Record upload_request (q : http) (r : reader) (clean data : string) (ttl : Z) : Prop := {
  ur_key : TrimSpace (header q "Idempotency-Key") = "";
  ur_file : acceptable (TrimSpace (header q "X-SSS-Filename")) r clean data;
  ur_ttl : exists n, SimpleRawTTL cfg (header q "X-SSS-TTL") = inr n /\ ResolveTTL cfg n = inr ttl;
  ur_ttl_range : (1 <= ttl <= 3000)%Z;
  ur_note : CheckNote cfg (header q "X-SSS-Note") = None /\ (slen (header q "X-SSS-Note") <= MaxNoteBytesHard)%Z /\
    valid_utf8 (header q "X-SSS-Note") = true }.

(** The parts of the request before its file set the session's note and lifetime. *)
Lemma smooth_raw_parts w0 id q r clean data ttl w n : upload_request q r clean data ttl -> 
  SimpleRawTTL cfg (header q "X-SSS-TTL") = inr n -> ResolveTTL cfg n = inr ttl -> plain id = true -> accepting w0 ->
  receiving w0 id prepared 16 w ->
  smooth (loop (do_part cfg) (blank_session id "" (DefaultTTLMinutes_ (Limits cfg))) (raw_parts q n (TrimSpace (header q "X-SSS-Filename")) r))
    (well (fun s w1 => receiving w0 id filled 32 w1 /\
       exists segID, holding (blank_session id (header q "X-SSS-Note") ttl) s clean data (clock w0) segID)) w.
Proof.
  intros [_ Hfile _ _ (Hnote & _ & _)] _ Ht Hid Ha Hw. unfold raw_parts. cbv zeta. cbn [app loop do_part].
  unfold SetTTL. rewrite Ht. cbn [bindE bind]. change (ss_set_ttl ttl _) with (blank_session id "" ttl).
  assert (Hadd : forall note, smooth (loop (do_part cfg) (blank_session id note ttl) [PartFile (TrimSpace (header q "X-SSS-Filename")) r])
    (well (fun s w1 => receiving w0 id filled 32 w1 /\ exists segID, holding (blank_session id note ttl) s clean data (clock w0) segID)) w).
  { intros note. cbn [loop do_part]. eapply smooth_bindE; [by apply smooth_AddFile|]. intros s w1 H. exact H. }
  destruct (header q "X-SSS-Note" =? "")%string eqn:E.
  - apply String.eqb_eq in E. rewrite E. apply Hadd.
  - cbn [app loop do_part]. unfold SetNote. rewrite Hnote. cbn [bindE bind]. apply Hadd.
Qed.

(** What an acknowledged upload left: the row, the live directory, and the instant it
    expires. *)
Definition acknowledged (w0 w : world) (id clean data : string) (ttl : Z) (resp : CommitResponse) : Prop :=
  Inv w /\ clock w = clock w0 /\ co_ExpiresAt resp = expiry_of w0 ttl /\ answered w id ttl resp /\
  exists m e, Entries m = [e] /\ is_dir e = false /\ e_Path e = clean /\ live_sealed (holds_parts [(clean, data)]) w id m.

Lemma smooth_simple_session w0 q r clean data ttl n forget : Inv w0 -> fresh_staging w0 -> accepting w0 -> code_left w0 -> codec_total ->
  (0 <= clock w0 <= max_int64)%Z -> upload_request q r clean data ttl ->
  SimpleRawTTL cfg (header q "X-SSS-TTL") = inr n -> ResolveTTL cfg n = inr ttl ->
  smooth (simple_session cfg forget (raw_parts q n (TrimSpace (header q "X-SSS-Filename")) r))
    (well (fun a w1 => fst a = next_id w0 /\ acknowledged w0 w1 (next_id w0) clean data ttl (snd a))) w0.
Proof.
  intros Hw0 Hf Ha Hcode Htot Hclk Hq Hn Ht. pose proof Hf as [[Hf1 Hf2] _]. set (id := next_id w0) in *.
  pose proof (ur_file _ _ _ _ _ Hq) as Hfile. pose proof (ur_note _ _ _ _ _ Hq) as (_ & Hnl & Hnu).
  assert (Hpl : plain id = true) by apply next_id_plain.
  assert (Hlen : slen id = 34%Z) by (unfold id, next_id; by rewrite slen_id).
  unfold simple_session. eapply smooth_bind; [apply (smooth_also Inv); [by apply smooth_BeginSimple|]|].
  { apply wp_inv; [done|]. by apply BeginSimple_wp. }
  intros [e|s] w1 [Hs [Hw1 Hok1]]; [done|]. destruct Hs as [-> Hr1]. specialize (Hok1 _ eq_refl).
  set (ps := raw_parts q n _ r). assert (Hb : Forall bounded_part ps).
  { apply raw_bounded. cbn. rewrite (ac_data _ _ _ _ Hfile). apply Hfile. }
  assert (Hps : received ps = [(clean, data)]).
  { unfold ps. rewrite <- received_raw. cbn. by rewrite (ac_clean _ _ _ _ Hfile), (ac_data _ _ _ _ Hfile). }
  eapply smooth_bind; [apply (smooth_also Inv); [by eapply smooth_raw_parts|apply wp_inv; [done|by apply parts_wp]]|].
  intros [e|s] w2 [Hs [Hw2 Hok2]]; [done|]. destruct Hs as (Hr2 & segID & Hh). specialize (Hok2 s eq_refl). rewrite Hps in Hok2.
  eapply smooth_bind; [apply (smooth_also Inv); [eapply smooth_session_Commit; eauto; by apply Hfile|apply wp_inv; [done|by apply session_Commit_wp]]|].
  intros [e|resp] w3 [Hs (Hw3 & Hok3)]; [done|]. destruct Hs as [Hx Hc]. destruct (Hok3 resp eq_refl) as (Hans & m & He & Hl).
  rewrite (ho_ttl _ _ _ _ _ _ Hh), (ho_id _ _ _ _ _ _ Hh) in *. cbn [blank_session ss_id ss_ttlMinutes] in *.
  cbn [smooth wp0 well fst snd]. split; [done|]. split_and!; [done|done|done|done|].
  rewrite (ho_entries _ _ _ _ _ _ Hh) in He. exists m. eexists. split_and!; [exact He|done|done|done].
Qed.

Lemma smooth_PostRaw w0 q r clean data ttl : Inv w0 -> fresh_staging w0 -> accepting w0 -> code_left w0 -> codec_total ->
  (0 <= clock w0 <= max_int64)%Z -> upload_request q r clean data ttl ->
  smooth (handle cfg (PostRaw q r)) (fun a w1 => exists resp, r_Status a = 201%Z /\ tells a resp /\
    acknowledged w0 w1 (next_id w0) clean data ttl resp) w0.
Proof.
  intros Hw Hf Ha Hcode Htot Hclk Hq. destruct (ur_ttl _ _ _ _ _ Hq) as (n & Hn & Ht).
  cbn [handle]. unfold handleRawUpload, beginIdempotent. rewrite (ur_key _ _ _ _ _ Hq). cbn [String.eqb bind negb].
  destruct (_ =? "")%string eqn:En.
  { apply String.eqb_eq in En. destruct (ur_file _ _ _ _ _ Hq) as [E1 E2]. rewrite En in E1. by subst clean. }
  rewrite Hn. unfold upload_session.
  eapply smooth_bind; [by eapply smooth_simple_session|]. intros [e|[id resp]] w1 Hs; [done|]. destruct Hs as [_ Hd].
  cbn. exists resp. split_and!; [apply respond_status|apply respond_tells|done].
Qed.

(** ** Receiving it *)

Lemma live_payload_join id clean : plain id = true -> plain (Shard id) = true -> plain clean = true ->
  SafeJoinIn (live_root cfg id) [PayloadDir] clean = Some [PayloadDir; clean].
Proof.
  intros H1 H2 Hc. pose proof (SafeJoinIn_plain (live_root cfg id) [PayloadDir] [clean]) as Hj.
  cbn [join String.concat app] in Hj. apply Hj; [by intros [_ [=]]%app_eq_nil|done| |by apply Forall_singleton].
  apply Forall_app. split; [by apply live_root_plain|by apply Forall_singleton].
Qed.

(** A COMMITTED transfer of one file answers a download with the file. *)
Lemma smooth_GetDownload q code f w id row c m e data : Inv w -> transfers (db w) !! id = Some row -> c_state row = StateCommitted ->
  c_code row = Some c -> due (clock w) row = false -> NormalizeCode code = Some c -> f ∈ [""; "auto"; "raw"]%string ->
  Entries m = [e] -> is_dir e = false -> plain (e_Path e) = true -> live_manifest w id m ->
  look (tree_of (live w) id) [PayloadDir; e_Path e] = Some (CFile data) ->
  smooth (handle cfg (GetDownload q code f)) (fun a _ => r_Status a = 200%Z /\ r_Body a = BContent (e_Path e) data) w.
Proof.
  intros Hw Hrow Hst Hc Hdue Hn Hf He Hdir Hp Hm Hl. cbn [handle]. unfold handleDownload. cbv zeta.
  destruct (inv_ids w Hw _ _ Hrow) as [P1 P2].
  set (f' := if (f =? "")%string then "auto"%string else f).
  assert (Hf' : f' = "auto"%string \/ f' = "raw"%string).
  { unfold f'. rewrite !elem_of_cons, elem_of_nil in Hf. destruct Hf as [->|[->|[->|[]]]]; [by left|by left|by right]. }
  replace (negb (existsb _ _)) with false by (by destruct Hf' as [-> | ->]).
  eapply smooth_bind; [apply (smooth_also Inv _ (fun a w1 => a = inr (mkDownload (scanTransfer id row) m (service_PayloadDir cfg id))))|].
  { apply smooth_exec. destruct (download_available cfg w id row c code Hw Hrow Hst Hc Hdue Hn) as (m' & w' & -> & Hm').
    cbn. by rewrite (live_manifest_unique _ _ _ _ Hm Hm'). }
  { by apply OpenDownload_wp. }
  intros ? w1 (-> & Hw1 & Hstay & _). cbn [dl_Manifest dl_Transfer].
  eapply smooth_bind; [unfold AcquireDownload; eapply (smooth_orE _ _ _ (fun _ w2 => w2 = w1)); [apply smooth_world_sync|]|].
  { intros [] ? ->. instantiate (1 := fun a w2 => a = inr tt /\ w2 = w1). by split. }
  intros ? ? [-> ->].
  assert (SingleRootFile m = (e, true)) as ->.
  { unfold SingleRootFile. rewrite He. cbn [single_root_loop]. rewrite Hdir.
    pose proof Hp as (_ & _ & _ & ->)%plain_spec. done. }
  assert (Hread : smooth (serveRawFile cfg q (mkDownload (scanTransfer id row) m (service_PayloadDir cfg id)) e)
    (fun a _ => r_Status a = 200%Z /\ r_Body a = BContent (e_Path e) data) w1).
  { unfold serveRawFile. cbn [dl_Transfer scanTransfer t_ID]. rewrite live_payload_join by done.
    destruct Hm as (t & Ht & _). destruct (Hstay _ _ Ht) as (t1 & Ht1 & Hsame).
    rewrite (tree_of_Some _ _ _ Ht), (Hsame [PayloadDir; e_Path e]) in Hl.
    destruct (look_node _ _ _ Hl) as [nd En]. unfold look in Hl. rewrite En in Hl. destruct nd as [|d mo mt]; [done|]. injection Hl as ->.
    eapply (smooth_bind _ _ (fun d _ => d = inr data)); [apply smooth_exec|by intros ? w2 ->].
    destruct (exec_in_live id (ReadFile [PayloadDir; e_Path e]) w1) as [w2 ->]. rewrite (tree_of_Some _ _ _ Ht1).
    cbn [ReadFile act exec fst]. by rewrite En. }
  destruct Hf' as [-> | ->]; exact Hread.
Qed.

(** C4: a healthy server does what it is asked.  In a reachable state where the disk admits
    uploads, the identifier the random source yields is unused and one of the sixteen codes
    it yields then is free, a raw upload of an acceptable file whose calls all succeed is
    answered 201 with a code and an expiry [ttl] minutes after the current second; and in
    every later state, whatever requests, faults, crashes, cleanups, error-free restarts
    and waiting came in between, until that instant a download of the file under any
    spelling of the code is answered 200 with exactly the bytes that were sent. *)
Theorem healthy_server_delivers w q r clean data ttl :
  reachable cfg faultless (mkRunning w true) -> fresh_staging w -> accepting w -> code_left w -> codec_total ->
  (0 <= clock w <= max_int64)%Z -> upload_request q r clean data ttl ->
  exists a w1 resp, run (handle cfg (PostRaw q r)) [] w = (Some a, w1) /\ r_Status a = 201%Z /\ tells a resp /\
    co_ExpiresAt resp = (truncate_second (clock w) + minutes ttl)%Z /\ (clock w1 < co_ExpiresAt resp)%Z /\
    forall s' q' code f, rtc (step cfg faultless) (mkRunning w1 true) s' -> (clock (sv_world s') < co_ExpiresAt resp)%Z ->
      NormalizeCode code = NormalizeCode (co_Code resp) -> f ∈ [""; "auto"; "raw"]%string ->
      exists a', fst (run (handle cfg (GetDownload q' code f)) [] (sv_world s')) = Some a' /\
        r_Status a' = 200%Z /\ r_Body a' = BContent clean data.
Proof.
  intros Hs Hf Ha Hcode Htot Hclk Hq. pose proof (reachable_strict cfg _ Hs) as Hw.
  destruct (smooth_run _ _ _ (smooth_PostRaw w q r clean data ttl Hw Hf Ha Hcode Htot Hclk Hq)) as (a & w1 & E & resp & H201 & Htell & Hd).
  exists a, w1, resp. destruct Hd as (Hw1 & Hc1 & Hexp & (t & (row & Hrow & Hst & Hc & Hcan & _ & Hex) & Hid & ->) & m & e & He & Hdir & Hpe & tr & Htr & Hm & Hh & Hx).
  pose proof (ur_ttl_range _ _ _ _ _ Hq) as Hr.
  split_and!; [done|done|done|done|rewrite Hexp, Hc1; by apply now_before_expiry|].
  intros s' q' code f Hss Hnow Hn Hfmt. cbn [response_of co_ExpiresAt co_Code] in *. rewrite Hid in *.
  rewrite (proj1 (NormalizeCode_FormatCode _ Hcan)) in Hn.
  assert (Hs1 : reachable cfg faultless (mkRunning w1 true)).
  { destruct Hs as (l & n & u & rn & Hs). exists l, n, u, rn. eapply rtc_r; [exact Hs|].
    pose proof (step_serve cfg faultless (PostRaw q r) [] w) as Hst1. rewrite E in Hst1. apply Hst1. split; [apply Hf|].
    cbn. rewrite (ac_data _ _ _ _ (ur_file _ _ _ _ _ Hq)). apply (ur_file _ _ _ _ _ Hq). }
  destruct (execution_guarded cfg _ _ Hs1 Hss) as [[_ Hg] Hs']. cbn [sv_world] in Hg.
  assert (Hdue : due (clock (sv_world s')) row = false).
  { unfold due. destruct (rows_ok _ (inv_db w1 Hw1) _ _ Hrow) as (_ & Hok & _). destruct (Hok Hst) as (_ & _ & [x Hx']).
    rewrite Hx' in Hex |- *. rewrite <- (Hex ltac:(split; lia)) in Hnow. cbn in Hnow. unfold from_unix in Hnow.
    rewrite andb_false_iff. right. apply Z.leb_gt. unfold Unix. apply Z.div_lt_upper_bound; [done|lia]. }
  destruct (Hg (next_id w) row Hrow Hst Hdue) as [Hrow' Hk].
  assert (Hm' : live_manifest (sv_world s') (next_id w) m) by (eapply live_manifest_kept; [exact Hk|by exists tr]).
  destruct (smooth_run _ _ _ (smooth_GetDownload q' code f (sv_world s') (next_id w) row (t_Code t) m e data (reachable_strict cfg _ Hs')
    Hrow' Hst Hc Hdue Hn Hfmt He Hdir ltac:(rewrite Hpe; apply ValidateComponent_plain, (ur_file _ _ _ _ _ Hq)) Hm'
    ltac:(rewrite <- Hk, (tree_of_Some _ _ _ Htr), Hpe; by inversion Hx))) as (a' & w2 & E' & Ha').
  exists a'. rewrite E', <- Hpe. by split.
Qed.
End availability.

(** ** On the demonstration server *)

Definition raw_post : http :=
  plain_http "POST" "/s/raw" [("X-SSS-Filename", "notes.txt"); ("X-SSS-TTL", "15"); ("X-SSS-Note", "for you")]%string.
Definition raw_chunks : reader := mkReader ["hel"; "lo"]%string false.
Definition raw_sent : world := snd (run (handle Demo.cfg (PostRaw raw_post raw_chunks)) [] boot).

Lemma demo_codec_total : codec_total.
Proof. intros m _ _. by split; eexists. Qed.
Lemma raw_request : upload_request Demo.cfg raw_post raw_chunks "notes.txt" "hello" 15.
Proof.
  split; [by vm_compute| |by exists 15%Z|done|by vm_compute].
  split; try (vm_compute; reflexivity). by vm_compute.
Qed.
Lemma boot_code_left : code_left boot.
Proof. exists 0%nat. split; [lia|]. intros j r. replace (transfers (db boot)) with (∅ : gmap string trow) by by vm_compute. done. Qed.

Lemma healthy_server_delivers_witness : exists a resp a',
  run (handle Demo.cfg (PostRaw raw_post raw_chunks)) [] boot = (Some a, raw_sent) /\ r_Status a = 201%Z /\ tells a resp /\
  fst (run (handle Demo.cfg (GetDownload (plain_http "GET" "/r" []) (co_Code resp) "auto")) []
    (set_disk idle_disk (set_clock (noon + minutes 14) raw_sent))) = Some a' /\
  r_Status a' = 200%Z /\ r_Body a' = BContent "notes.txt" "hello".
Proof.
  assert (Hf : fresh_staging boot) by (split; [exact boot_fresh|by vm_compute]).
  assert (Ha : accepting Demo.cfg boot) by by vm_compute.
  assert (Hclk : (0 <= clock boot <= max_int64)%Z) by by vm_compute.
  destruct (healthy_server_delivers Demo.cfg boot raw_post raw_chunks "notes.txt" "hello" 15
    (boot_reachable faultless (Forall_nil_2 _)) Hf Ha boot_code_left demo_codec_total Hclk raw_request)
    as (a & w1 & resp & E & H201 & Htell & Hexp & _ & Hlater).
  assert (Hw1 : w1 = raw_sent) by (unfold raw_sent; rewrite E; reflexivity). subst w1.
  assert (Hstep : step Demo.cfg faultless (mkRunning raw_sent true) (mkRunning (set_disk idle_disk (set_clock (noon + minutes 14) raw_sent)) true))
    by (apply step_env; by vm_compute).
  destruct (Hlater _ (plain_http "GET" "/r" []) (co_Code resp) "auto"%string (rtc_once _ _ Hstep)) as (a' & E' & H').
  - rewrite Hexp. vm_compute. reflexivity.
  - exact eq_refl.
  - apply list_elem_of_In. right. left. exact eq_refl.
  - do 3 eexists. exact (conj E (conj H201 (conj Htell (conj E' H')))).
Defined.
