(* ===== verification/Delivery.v ===== *)
(** * The whole way: a sender, the server, a receiver

    The sending client of Send.v run against the handlers of Api.v: what a code stands for
    when Send answers it, and what a receiver of that code finds. *)
From S2P Require Import Prelude GoStrings GoTime GoHttp Errors Code Paths Manifest Wire Admission Prog Tree Integrity.
From S2P Require Import Materialize Archive Store Config World Service Upload Commit Simple Janitor Api Safety.
From S2P Require Import ServiceProofs UploadProofs CommitProofs SimpleProofs JanitorProofs ReconcileProofs.
From S2P Require Import ApiProofs System Durability Resume Demo Guarantees HttpGuarantees.
From S2P Require Import Host Net Client Recv RecvProofs Handoff Pack Send PackProofs SendProofs.
Local Open Scope prog_scope.

(** ** Identifiers in URLs *)
Definition url_byte (a : ascii) : bool := negb (a =? "/")%char && negb (a =? "?")%char && negb (a =? "%")%char && negb (a =? "{")%char.
Definition url_name (s : string) : Prop := s <> "" /\ sforall url_byte s = true.

Lemma url_name_unescape s : sforall url_byte s = true -> unescape s = Some s.
Proof.
  induction s as [|a s IH]; [done|]. cbn [sforall]. intros [Ha Hs]%andb_true_iff. specialize (IH Hs).
  unfold url_byte in Ha. destruct (Ascii.eqb_spec a "%"); [by rewrite !andb_false_r in Ha|].
  destruct a as [[] [] [] [] [] [] [] []]; try (cbn [unescape]; by rewrite IH). done.
Qed.
Lemma url_name_before s r : sforall url_byte s = true -> before "?" (s ++ r) = (s ++ before "?" r)%string.
Proof.
  induction s as [|a s IH]; [done|]. cbn [sforall append before]. intros [Ha Hs]%andb_true_iff.
  unfold url_byte in Ha. destruct (Ascii.eqb_spec a "?"); [by rewrite andb_false_r in Ha|]. by rewrite IH.
Qed.
Lemma url_name_slash s : sforall url_byte s = true -> has_byte "/" s = false.
Proof.
  induction s as [|a s IH]; [done|]. cbn [sforall has_byte]. intros [Ha Hs]%andb_true_iff. rewrite (IH Hs), orb_false_r.
  unfold url_byte in Ha. by destruct (a =? "/")%char.
Qed.
Lemma hex_url s : sforall lower_hex s = true -> sforall url_byte s = true.
Proof.
  induction s as [|a s IH]; [done|]. cbn [sforall]. intros [Ha Hs]%andb_true_iff. rewrite (IH Hs), andb_true_r. revert Ha. clear.
  destruct a as [[] [] [] [] [] [] [] []]; by vm_compute.
Qed.

Lemma url_before s : sforall url_byte s = true -> before "?" s = s.
Proof. intros Hs. pose proof (url_name_before s "" Hs) as H. by rewrite !string_app_nil_r in H. Qed.

Lemma upload_segs uid : url_name uid -> split "/" (before "?" ("/v1/uploads/" ++ uid)) = [""; "v1"; "uploads"; uid]%string.
Proof.
  intros [_ Hu]. cbn [before append Ascii.eqb Bool.eqb]. rewrite (url_before _ Hu).
  cbn [split Ascii.eqb Bool.eqb]. by rewrite (split_no_sep "/" uid (url_name_slash _ Hu)).
Qed.
Lemma commit_segs id : url_name id -> split "/" (before "?" ("/v1/transfers/" ++ id ++ "/commit")) = [""; "v1"; "transfers"; id; "commit"]%string.
Proof.
  intros [_ Hu]. cbn [before append Ascii.eqb Bool.eqb]. rewrite (url_name_before _ _ Hu). cbn [before Ascii.eqb Bool.eqb].
  cbn [split Ascii.eqb Bool.eqb]. rewrite split_app. by rewrite (split_no_sep "/" id (url_name_slash _ Hu)).
Qed.

Section server.
Context {UC : Unicode} {EX : Externals} {EL : ExternalsLaws} {MC : ManifestCodec} {ML : ManifestCodecLaws}.
Context (cfg : Server) (ready : bool).
#[local] Existing Instance strictly.
Notation server := (serve cfg (public_routes ready)).

Lemma match_upload uid : url_name uid ->
  match_segments (split "/" "/v1/uploads/{upload_id}") [""; "v1"; "uploads"; uid]%string = Some [uid].
Proof.
  intros [Hne Hu]. change (split "/" "/v1/uploads/{upload_id}") with [""; "v1"; "uploads"; "{upload_id}"]%string.
  cbn [match_segments is_wildcard has_prefix String.eqb Ascii.eqb Bool.eqb]. destruct (String.eqb_spec uid ""); [done|].
  by rewrite (url_name_unescape _ Hu).
Qed.
Lemma match_commit id : url_name id ->
  match_segments (split "/" "/v1/transfers/{transfer_id}/commit") [""; "v1"; "transfers"; id; "commit"]%string = Some [id].
Proof.
  intros [Hne Hu]. change (split "/" "/v1/transfers/{transfer_id}/commit") with [""; "v1"; "transfers"; "{transfer_id}"; "commit"]%string.
  cbn [match_segments is_wildcard has_prefix String.eqb Ascii.eqb Bool.eqb]. destruct (String.eqb_spec id ""); [done|].
  by rewrite (url_name_unescape _ Hu).
Qed.
Lemma match_metadata id : url_name id ->
  match_segments (split "/" "/v1/transfers/{code}") [""; "v1"; "transfers"; id; "commit"]%string = None.
Proof.
  intros [Hne Hu]. change (split "/" "/v1/transfers/{code}") with [""; "v1"; "transfers"; "{code}"]%string.
  cbn [match_segments is_wildcard has_prefix String.eqb Ascii.eqb Bool.eqb]. destruct (String.eqb_spec id ""); [done|].
  by rewrite (url_name_unescape _ Hu).
Qed.

Section routes.
Context (m : message) (segs : list string) (Hs : split "/" (before "?" (q_Path (m_http m))) = segs).
Lemma dispatch_skip method pattern f (routes : list route) : match_segments (split "/" pattern) segs = None ->
  dispatch m ((method, pattern, f) :: routes) = dispatch m routes.
Proof. intros Hn. cbn [dispatch]. unfold match_pattern. by rewrite Hs, Hn. Qed.
Lemma dispatch_here method pattern f vs (routes : list route) : match_segments (split "/" pattern) segs = Some vs ->
  dispatch m ((method, pattern, f) :: routes) = if method_ok method (q_Method (m_http m)) then Some (f vs) else dispatch m routes.
Proof. intros Hn. cbn [dispatch]. unfold match_pattern. by rewrite Hs, Hn. Qed.
End routes.

(** Passes over the routes with other fixed segments. *)
Ltac skip_routes Hs := repeat (etransitivity; [eapply dispatch_skip; [exact Hs|vm_compute; reflexivity]|]).

Lemma dispatch_patch m uid : url_name uid -> q_Path (m_http m) = ("/v1/uploads/" ++ uid)%string -> q_Method (m_http m) = "PATCH"%string ->
  dispatch m (public_routes ready m) = Some (PatchUpload (m_http m) uid (match m_payload m with PBytes r => r | _ => mkReader [] false end)).
Proof.
  intros Hu Hp Hm. pose proof (upload_segs uid Hu) as Hs. rewrite <- Hp in Hs. unfold public_routes. skip_routes Hs.
  etransitivity; [eapply dispatch_here; [exact Hs|by apply match_upload]|]. rewrite Hm. cbn [method_ok String.eqb Ascii.eqb Bool.eqb orb andb].
  etransitivity; [eapply dispatch_here; [exact Hs|by apply match_upload]|]. by rewrite Hm.
Qed.
Lemma dispatch_head m uid : url_name uid -> q_Path (m_http m) = ("/v1/uploads/" ++ uid)%string -> q_Method (m_http m) = "HEAD"%string ->
  dispatch m (public_routes ready m) = Some (HeadUpload (m_http m) uid).
Proof.
  intros Hu Hp Hm. pose proof (upload_segs uid Hu) as Hs. rewrite <- Hp in Hs. unfold public_routes. skip_routes Hs.
  etransitivity; [eapply dispatch_here; [exact Hs|by apply match_upload]|]. by rewrite Hm.
Qed.
Lemma dispatch_commit m id : url_name id -> q_Path (m_http m) = ("/v1/transfers/" ++ id ++ "/commit")%string -> q_Method (m_http m) = "POST"%string ->
  dispatch m (public_routes ready m) = Some (PostCommit (m_http m) id (match m_payload m with PCommit r => Some r | _ => None end)).
Proof.
  intros Hu Hp Hm. pose proof (commit_segs id Hu) as Hs. rewrite <- Hp in Hs. unfold public_routes. skip_routes Hs.
  etransitivity; [eapply dispatch_skip; [exact Hs|by apply match_metadata]|]. skip_routes Hs.
  etransitivity; [eapply dispatch_here; [exact Hs|by apply match_commit]|]. by rewrite Hm.
Qed.

(** ** What the server does for a sender *)

(** *** Uploads leave every live directory alone *)
Definition same_live (w w' : world) : Prop := live w' = live w.
#[local] Instance same_live_preorder : PreOrder same_live.
Proof. split; [by intros w|]. intros w1 w2 w3 H12 H23. unfold same_live in *. congruence. Qed.

Lemma same_live_idle {A : Type} (p : prog world A) : within idle p -> within same_live p.
Proof. apply within_mono. by intros w w' (_ & _ & E & _). Qed.
Lemma same_live_tx {A : Type} (f : txn A) : within same_live (tx f).
Proof.
  assert (G : forall w, same_live w (snd (tx_step f w))) by (intros w; unfold tx_step; by destruct (f (db w))).
  apply within_act; [apply G|]. intros g n w [= <-]. destruct n; [done|apply G].
Qed.
Lemma same_live_staging {A : Type} id (p : prog tree A) : within same_live (in_staging id p).
Proof. by apply within_lift; [apply _|]. Qed.
#[local] Hint Resolve same_live_idle same_live_tx same_live_staging idle_sync idle_ask idle_CheckStreaming idle_Now : within.

Lemma same_live_finish seg n : within same_live (finishPatch seg n).
Proof. unfold finishPatch. within_solve. Qed.
#[local] Hint Resolve same_live_finish : within.
Lemma same_live_loop seg p offset remaining failing cs written since :
  within same_live (patch_loop cfg seg p offset remaining failing cs written since).
Proof. revert written since. induction cs as [|c cs IH]; intros written since; cbn [patch_loop]; within_solve. Qed.
#[local] Hint Resolve same_live_loop : within.
Lemma same_live_patch uid offset body : within same_live (UploadPatch cfg uid offset body).
Proof. unfold UploadPatch, acquireUpload. within_solve. Qed.
Lemma same_live_state uid : within same_live (UploadState uid).
Proof. unfold UploadState. within_solve. Qed.

(** A transfer that is not published stays so. *)
Lemma unpub_kept {A : Type} id (p : prog world A) : within same_live p -> (forall w, Inv w -> wp Inv p (fun _ => Inv) w) -> stable (unpub id) p.
Proof.
  intros Hp Hi w [Hw Hl]. eapply wp_mono; [| |exact (wp_and _ _ _ _ _ _ (Hi w Hw) (Hp (same_live w) w (fun w' H => H)))].
  - intros w' [H1 H2]. split; [done|]. unfold same_live in H2. by rewrite H2.
  - intros a w' [H1 H2]. split; [done|]. unfold same_live in H2. by rewrite H2.
Qed.

Lemma patch_stable id q uid r : stable (unpub id) (handleUploadPatch cfg q uid r).
Proof.
  unfold handleUploadPatch. cbv zeta. do 2 (destruct (_ && _); [apply stable_ret|]).
  destruct (Atoi _); [|apply stable_ret]. destruct (_ <? _)%Z; [apply stable_ret|].
  apply stable_bind; [|intros [n e]; apply stable_ret]. apply unpub_kept; [apply same_live_patch|]. intros w Hw. by apply UploadPatch_safe.
Qed.
Lemma head_stable id q uid : stable (unpub id) (handleUploadHead q uid).
Proof.
  unfold handleUploadHead. apply stable_bind; [|intros [e|[a b]]; apply stable_ret]. apply unpub_kept; [apply same_live_state|]. apply stable_UploadState.
Qed.

(** Asking for an offset changes nothing but the time. *)
Lemma idle_UploadState uid : within idle (UploadState uid).
Proof. unfold UploadState. within_solve. Qed.
Lemma head_idle m uid : url_name uid -> q_Path (m_http m) = ("/v1/uploads/" ++ uid)%string -> q_Method (m_http m) = "HEAD"%string ->
  within idle (server m).
Proof.
  intros Hu Hp Hm. unfold serve. rewrite (dispatch_head m uid Hu Hp Hm). cbn [handle]. unfold handleUploadHead.
  apply within_bind; [apply _| |intros a; apply within_ret; apply _]. apply within_bind; [apply _|apply idle_UploadState|].
  intros a. apply within_ret; apply _.
Qed.

(** A message about an upload. *)
Definition about_upload (m : message) : Prop :=
  exists uid, url_name uid /\ q_Path (m_http m) = ("/v1/uploads/" ++ uid)%string /\
    (q_Method (m_http m) = "PATCH"%string \/ q_Method (m_http m) = "HEAD"%string).
Lemma upload_stable id m : about_upload m -> stable (unpub id) (server m).
Proof.
  intros (uid & Hu & Hp & Hm). unfold serve. destruct Hm as [Hm|Hm].
  - rewrite (dispatch_patch m uid Hu Hp Hm). apply stable_bind; [apply patch_stable|intros a; apply stable_ret].
  - rewrite (dispatch_head m uid Hu Hp Hm). apply stable_bind; [apply head_stable|intros a; apply stable_ret].
Qed.

(** *** Answers with a document *)
Definition document (b : body) : bool := match b with BCommit _ | BCreated _ | BClaim _ => true | _ => false end.
Lemma finish_body q r b : r_Body (finish q r) = b -> document b = true -> r_Body r = b.
Proof.
  unfold finish, serve_range. destruct (_ =? _)%string; [by intros <-|]. intros <-.
  destruct (r_Body r) as [| | | | | | | | | | | |name d|] eqn:E; rewrite ?E; try done. cbv zeta.
  destruct (_ || _); [by rewrite E|]. by destruct (if has_prefix "bytes=" (header q "Range") then _ else None) as [[a b]|].
Qed.

(** *** The commit *)
Lemma commit_answer id m msg w : url_name id -> unpub id w -> json_ok m ->
  q_Path (m_http msg) = ("/v1/transfers/" ++ id ++ "/commit")%string -> q_Method (m_http msg) = "POST"%string -> m_payload msg = PCommit m ->
  wp Inv (server msg) (fun r w1 => forall resp, r_Body r = BCommit resp -> Inv w1 /\ (exists ttl, answered w1 id ttl resp) /\
    live_manifest w1 id (republished m)) w.
Proof.
  intros Hu [Hw Hl] Hj Hp Hm Hpay. unfold serve. rewrite (dispatch_commit msg id Hu Hp Hm), Hpay. cbn [handle handleCommit].
  apply wp_bind, wp_bind. eapply wp_wand; [apply wp_inv; [exact Hw|exact (service_Commit_wp cfg id m w Hw Hj)]|].
  intros [e|[resp fresh]] w1 [Hw1 Hr]; cbn [wp]; intros resp' Hb; apply finish_body in Hb; try done.
  destruct (Hr resp fresh eq_refl) as (row & _ & Ha & Hf & Hs). cbn in Hb. injection Hb as <-.
  destruct fresh; [split_and!; [done|by exists (effective_ttl cfg (scanTransfer id row))|by apply Hf]|]. exfalso.
  specialize (Hs eq_refl). subst w1. destruct Ha as (t & (row' & Hrow & Hc & _) & <- & _).
  destruct (inv_committed w Hw I _ _ Hrow Hc) as [x Hx]. congruence.
Qed.

(** *** A new transfer *)
Definition upload_path (x : string) : Prop := exists uid, url_name uid /\ x = ("/v1/uploads/" ++ uid)%string.
Definition good_uploads (l : list UploadResource) : Prop := Forall (fun u => upload_path (ur_UploadPath u)) l.
(** An identifier of the server: usable in URLs, JSON and manifests. *)
Definition good_id (id : string) : Prop := url_name id /\ valid_utf8 id = true /\ (16 <= slen id <= 128)%Z.

Lemma hex_url_name pre w n k : pre <> "" -> sforall url_byte pre = true -> url_name (pre ++ EncodeToString (bytes_at w n k)).
Proof.
  intros Hne Hp. split; [by destruct pre|]. rewrite sforall_app, Hp. apply hex_url, EncodeToString_lower, bytes_at_range.
Qed.
Lemma next_id_good w : good_id (next_id w).
Proof.
  unfold next_id. split; [exact (hex_url_name "t-" w (rpos w) 16 ltac:(done) eq_refl)|]. split; [apply transfer_id_valid|]. by rewrite slen_id.
Qed.

Lemma insert_plan_good id ups seg w : good_uploads ups -> wp (fun _ => True) (insert_plan id ups seg)
  (fun r _ => forall ups', r = inr ups' -> good_uploads ups') w.
Proof.
  intros Hg. unfold insert_plan, ids_Upload, New. apply wp_bind, wp_bind, wp_act. intros b w1 [[= <- <-]|(? & ? & [=] & _)]. split; [done|]. cbn [wp].
  apply wp_bind. eapply wp_wand; [apply wp_trivial|]. intros [e|[]] w2 _.
  - do 2 (apply wp_bind; eapply wp_wand; [apply wp_trivial|]; intros ? ? _). done.
  - cbn [wp]. intros ups' [= <-]. apply Forall_app. split; [done|]. apply Forall_singleton. eexists. split; [|reflexivity].
    exact (hex_url_name "u-" w (rpos w) 16 ltac:(done) eq_refl).
Qed.

Lemma plans_wp id segs ups w (Q : ecode + list UploadResource -> world -> Prop) :
  Forall (fun s => plain (sp_ID s) = true) segs -> unpub id w -> good_uploads ups ->
  (forall r w1, unpub id w1 -> (forall ups', r = inr ups' -> good_uploads ups') -> Q r w1) ->
  wp (unpub id) (loop (insert_plan id) ups segs) Q w.
Proof.
  intros Hs Hw Hg HQ. apply (wp_loop _ _ (fun l ups w => unpub id w /\ good_uploads ups /\ Forall (fun s => plain (sp_ID s) = true) l)); [done| |].
  - intros ups' w' (Hw' & Hg' & _). apply HQ; [done|]. by intros x [= <-].
  - intros seg l ups' w' (Hw' & Hg' & Hl). apply Forall_cons in Hl as [Hseg Hl].
    eapply wp_mono; [| |exact (wp_and _ _ _ _ _ _ (stable_insert_plan id ups' seg Hseg w' Hw') (insert_plan_good id ups' seg w' Hg'))].
    + by intros w1 [H _].
    + intros [e|ups2] w1 [H1 H2]; [by apply HQ|]. split_and!; [done|by apply H2|done].
Qed.

Definition created_fine (resp : CreateTransferResponse) (w : world) : Prop :=
  unpub (cx_TransferID resp) w /\ good_id (cx_TransferID resp) /\ good_uploads (cx_Uploads resp).

Lemma stable_bind_wp {A B : Type} (I : world -> Prop) (p : prog world A) (f : A -> prog world B) Q w : I w -> stable I p ->
  (forall a w1, I w1 -> wp I (f a) Q w1) -> wp I (bind p f) Q w.
Proof. intros Hw Hp Hf. apply wp_bind. eapply wp_wand; [by apply Hp|]. intros a w1 Hw1. by apply Hf. Qed.
#[local] Hint Resolve stable_still stable_in_staging : stable.

Lemma CreateTransfer_wp req w : Inv w -> fresh_next w ->
  wp Inv (service_CreateTransfer cfg req) (fun r w1 => forall resp, r = inr resp -> created_fine resp w1) w.
Proof.
  intros Hw Hf. unfold service_CreateTransfer.
  destruct (ResolveTTL cfg _) as [e|ttl]; [done|]. destruct (CheckNote cfg _); [done|].
  destruct (negb _); [|done]. destruct (negb _); [|done]. destruct (check_plans _ _ _) as [e|declared] eqn:Ep; [done|].
  apply check_plans_plain in Ep. apply wp_idle; [done|apply idle_Admit|]. intros [e|] w1 Hw1 Hi; [done|].
  destruct (idle_fresh _ _ Hi) as [_ Hfr]. destruct (Hfr Hf) as [Hf1 Hf2]. unfold ids_Transfer, New. apply wp_bind, wp_bind, wp_act.
  intros b w2 [[= <- <-]|(? & ? & [=] & _)]. assert (Hw2 : Inv (set_rpos (rpos w1 + 16) w1)) by (by apply (Inv_same w1)). split; [done|]. cbn [wp].
  fold (next_id w1). destruct (next_id_plain w1) as [P1 P2]. pose proof (next_id_good w1) as Hg.
  assert (Hu : unpub (next_id w1) (set_rpos (rpos w1 + 16) w1)) by (split; [done|exact Hf2]).
  revert Hu Hg P1 P2. generalize (next_id w1) (set_rpos (rpos w1 + 16) w1). intros id w3 Hu Hg P1 P2.
  eapply (wp_mono (unpub id)); [by intros w' []|intros a w' H; exact H|]. unfold orE, PrepareStaging.
  apply stable_bind_wp; [done|auto with stable|]. intros [e|[]] w4 H4; [done|].
  apply stable_bind_wp; [done|auto with stable within|]. intros now w5 H5.
  apply stable_bind_wp; [done|by apply stable_new_transfer|]. intros [e|[]] w6 H6.
  { apply stable_bind_wp; [done|apply stable_still, still_RemoveStaging|]. done. }
  apply wp_bindE, plans_wp; [done|done|by apply Forall_nil_2|]. intros [e|ups] w7 H7 Hups; [done|]. cbn [wp]. intros resp [= <-].
  split_and!; [done|done|by apply Hups].
Qed.

Lemma create_answer req msg w : Inv w -> fresh_next w ->
  q_Path (m_http msg) = "/v1/transfers"%string -> q_Method (m_http msg) = "POST"%string -> m_payload msg = PCreate req ->
  wp Inv (server msg) (fun r w1 => forall resp, r_Body r = BCreated resp -> created_fine resp w1) w.
Proof.
  intros Hw Hf Hp Hm Hpay. unfold serve.
  assert (dispatch msg (public_routes ready msg) = Some (PostTransfers (m_http msg) (Some req))) as ->.
  { unfold public_routes. rewrite Hpay. assert (Hs : split "/" (before "?" (q_Path (m_http msg))) = [""; "v1"; "transfers"]%string) by (by rewrite Hp).
    skip_routes Hs. etransitivity; [eapply dispatch_here; [exact Hs|vm_compute; reflexivity]|]. by rewrite Hm. }
  cbn [handle]. unfold handleCreateTransfer. apply wp_bind, wp_begin; [done|]. intros [e|[h replay]] w1 Hw1 Hk.
  { cbn [wp]. intros resp Hb%finish_body; done. }
  destruct (negb _). { cbn [wp]. intros resp Hb%finish_body; done. }
  apply wp_bind. eapply wp_wand; [apply wp_inv; [done|apply CreateTransfer_wp; [done|by eapply keyed_fresh]]|].
  assert (Hnone : forall (p : prog world unit) e w, Inv w -> within still p -> wp Inv (p ;;; Ret (WriteError (m_http msg) [] e))
    (fun a w => wp Inv (Ret (finish (m_http msg) a)) (fun r w1 => forall resp, r_Body r = BCreated resp -> created_fine resp w1) w) w).
  { intros p e w2 H2 Hp2. apply wp_bind, (wp_within still); [done|by intros w3 [_ HI]; apply HI|]. intros [] w3 _. cbn [wp]. intros resp Hb%finish_body; done. }
  intros [e|resp] w2 [Hw2 Hr]; [by apply Hnone, still_forget|]. specialize (Hr resp eq_refl).
  apply wp_bind. eapply (wp_mono (unpub (cx_TransferID resp))); [by intros w' []|intros a w' H; exact H|].
  apply (wp_wand _ _ (fun _ => unpub (cx_TransferID resp))); [apply stable_still; [apply still_complete|apply Hr]|].
  intros [] w3 H3. cbn [wp]. intros resp' Hb. apply finish_body in Hb; [|done]. cbn in Hb. injection Hb as <-. split; [done|apply Hr].
Qed.
End server.

(** ** The sender's calls, one after the other *)
Section sender.
Context {EX : Externals} {SC : SessionCodec} {V : Type} (serve : message -> prog V response).
Notation any := (fun _ : host V => True).

(** One exchange: nothing is known when the connection failed, and else what the peer did. *)
Lemma wp_Do_any m (R : response -> V -> Prop) (Q : string + answer -> host V -> Prop) h :
  wp (fun _ => True) (serve m) R (peer h) -> (forall e h', Q (inl e) h') ->
  (forall r v cut, R r v -> Q (inr (mkAnswer r cut)) (set_peer v h)) -> wp any (Do serve m) Q h.
Proof.
  intros Hs He HQ. unfold Do. apply wp_bind, wp_act. intros go h1 Hg.
  assert (h1 = h) as -> by (destruct Hg as [[=]|(? & ? & [= <-] & [=])]; congruence). split; [done|]. destruct go; [|by apply He]. cbn [negb].
  apply wp_bind. apply (wp_wand _ _ (fun r h' => exists v, R r v /\ h' = set_peer v h)).
  - eapply wp_wand; [apply (wp_lift peer set_peer any (fun _ => True) (fun h' => files h' = files h) (serve m) R); done|].
    intros r h' [E Hr]. exists (peer h'). split; [done|]. destruct h'. cbn in *. by subst.
  - intros r h' (v & Hr & ->). apply wp_act. intros a h2 [[= <- <-]|(f & [|n] & [= <-] & [= <- <-])]; (split; [done|]); [by apply HQ|by apply He|by apply HQ].
Qed.

Lemma postJSON_wp {A} path p (f : body -> option A) hs expect (R : response -> V -> Prop) (Q : string + A -> host V -> Prop) h :
  wp (fun _ => True) (serve (request_of "POST" path (json_headers ++ hs) (-1) p)) R (peer h) -> (forall e h', Q (inl e) h') ->
  (forall r v b, R r v -> f (r_Body r) = Some b -> Q (inr b) (set_peer v h)) -> wp any (postJSON serve path p f hs expect) Q h.
Proof.
  intros Hs He HQ. unfold postJSON, do_. apply wp_bindE, wp_bindE. apply (wp_Do_any _ R); [done|by intros e h'; cbn [wp]; apply He|].
  intros r v cut Hr. cbn [a_response]. destruct (existsb _ _); [|by apply He]. cbn [wp]. unfold decode. cbn [a_cut a_response].
  destruct cut; [by apply He|]. destruct (f (r_Body r)) as [b|] eqn:E; [by eapply HQ|by apply He].
Qed.

(** *** What the peer keeps while it is sent to *)
Section keeping.
Context (J : V -> Prop).
Notation M := (moving J (fun _ _ : tree => True)).
#[local] Instance any_preorder : PreOrder (fun _ _ : tree => True).
Proof. by split. Qed.
#[local] Hint Extern 0 (PreOrder _) => apply _ : within.

Lemma keeps_message m : stable J (serve m) -> within M (Do serve m).
Proof.
  intros Hs. apply moving_intro. intros h HJ. unfold Do. apply wp_bind, wp_act. intros go h1 Hg.
  assert (h1 = h) as -> by (destruct Hg as [[=]|(? & ? & [= <-] & [=])]; congruence). split; [by split|]. destruct go; [|by split]. cbn [negb].
  apply wp_bind. eapply (wp_peer J _ _ (fun _ => J)); [by split|by apply Hs|]. intros r v Hv _.
  apply wp_act. intros a h2 [[= <- <-]|(f & [|n] & [= <-] & [= <- <-])]; by split; [|split].
Qed.
Lemma keeps_fs {A : Type} (c : prog tree A) : within M (fs c).
Proof.
  apply moving_fs. intros I w HI. eapply wp_mono; [| |apply wp_trivial]; [intros w' _; by apply HI|done].
Qed.
Lemma keeps_act {A : Type} (f : host V -> A) (g : option (nat -> host V -> A * host V)) :
  (forall k n h, g = Some k -> peer (snd (k n h)) = peer h) -> within M (act (fun h => (f h, h)) g).
Proof.
  intros Hg. apply within_act; [done|]. intros k n h Hk HJ. split; [|done]. by rewrite (Hg k n h Hk).
Qed.
#[local] Hint Resolve keeps_message keeps_fs : within.
Lemma keeps_do m expect : stable J (serve m) -> within M (do_ serve m expect).
Proof. intros Hs. unfold do_. within_solve. Qed.
#[local] Hint Resolve keeps_do : within.

Lemma keeps_offset x : stable J (serve (request_of "HEAD" x [tus] 0 PNone)) -> within M (UploadOffset serve x).
Proof. intros Hx. unfold UploadOffset. apply within_bindE; [apply _|by apply keeps_do|]. intros a. apply within_ret; apply _. Qed.

Context (paths : string -> Prop).
Context (Hpaths : forall m, paths (q_Path (m_http m)) -> q_Method (m_http m) = "PATCH"%string \/ q_Method (m_http m) = "HEAD"%string -> stable J (serve m)).

Lemma keeps_patch x offset data length : paths x -> within M (client_UploadPatch serve x offset data length).
Proof.
  intros Hx. unfold client_UploadPatch, send_body. apply within_bind; [apply _| |].
  - apply within_bind; [apply _|by apply keeps_act; intros k n h [= <-]|]. intros cut. apply within_ret; apply _.
  - intros r. apply within_bindE; [apply _|apply keeps_do, Hpaths; [done|by left]|]. intros a. within_solve.
Qed.
#[local] Hint Resolve keeps_patch : within.
Lemma keeps_uploadOne x source length : paths x -> within M (uploadOne serve x source length).
Proof.
  intros Hx. assert (Ho : within M (UploadOffset serve x)) by (apply keeps_offset, Hpaths; [done|by right]). unfold uploadOne. generalize 3%nat. induction n as [|n IH]; cbn [upload_attempts]; within_solve.
Qed.

Lemma keeps_order {A : Type} (l : list A) : within M (any_order l).
Proof. unfold any_order. apply keeps_act. by intros k n h [= <-]. Qed.
Lemma keeps_uploads cwd sess p packs : map_Forall (fun _ x => paths x) (default ∅ (ss_Uploads sess)) ->
  within M (uploadSegments serve cwd sess p packs).
Proof.
  intros Hu. unfold uploadSegments. apply within_bind; [apply _|apply keeps_order|]. intros raws.
  apply within_bind; [apply _|apply keeps_order|]. intros refs. cbv zeta. apply within_loop; [apply _|]. intros u j _.
  apply within_bind; [apply _|by apply keeps_act; intros k n h [= <-]|]. intros [|]; [|apply within_ret; apply _].
  destruct (default ∅ (ss_Uploads sess) !! j_segmentID j) as [x|] eqn:E; cbn [default]; [|apply within_ret; apply _].
  destruct (negb _); [|apply within_ret; apply _]. apply keeps_uploadOne. exact (Hu _ _ E).
Qed.
Lemma keeps_save cwd file s : within M (saveSession (V := V) cwd file s).
Proof. unfold saveSession. within_solve. Qed.
Lemma keeps_remove cwd file s : within M (removeSession (V := V) cwd file s).
Proof.
  unfold removeSession, some_of. apply within_bind; [apply _|apply keeps_fs|]. intros r.
  apply within_bind; [apply _|apply keeps_order|]. intros refs. apply within_bind; [apply _| |].
  - apply within_each; [apply _|]. intros u x _. apply within_bind; [apply _|apply keeps_fs|]. intros ?. apply within_ret; apply _.
  - intros ?. apply within_bind; [apply _| |].
    + apply within_bind; [apply _|apply keeps_order|]. intros ?. apply within_ret; apply _.
    + intros [x|]; [|apply within_ret; apply _]. apply within_bind; [apply _|apply keeps_fs|]. intros ?. apply within_ret; apply _.
Qed.
End keeping.
End sender.

(** ** Send *)
Section send.
Context {UC : Unicode} {EX : Externals} {EL : ExternalsLaws} {MC : ManifestCodec} {ML : ManifestCodecLaws}.
Context {PK : Packer} {SC : SessionCodec}.
(** An archive has less than 2^63 bytes. *)
Context (Hpacker : forall level l out, tar_zst level l = Some out -> (slen out < 2^63)%Z).
Context (cfg : Server) (ready : bool) (base_url : string) (cwd : path).
#[local] Existing Instance strictly.
Notation server := (serve cfg (public_routes ready)).
Notation H := (host world).
Notation any := (fun _ : H => True).

Lemma wp_fs_any {A : Type} (c : prog tree A) (R : A -> tree -> Prop) (Q : A -> H -> Prop) h :
  wp (fun _ => True) c R (files h) -> (forall a t, R a t -> Q a (set_files t h)) -> wp any (fs c) Q h.
Proof.
  intros Hc HQ. eapply (wp_mono (inv (fun _ : world => True) (fun _ => True)) any); [done| |].
  2:{ apply (wp_fs (fun _ : world => True) (fun _ => True) c); [done|]. eapply wp_wand; [exact Hc|]. intros a t Hr. exact (HQ a t Hr). }
  done.
Qed.

(** *** Packs *)
Definition ref_fine (r : packRef) : Prop := (0 <= pr_Size r < 2^63)%Z /\ exists d, pr_Digest r = HashBytes d.

Lemma skip {W A B : Type} (p : prog W A) (f : A -> prog W B) (Q : B -> W -> Prop) w :
  (forall a w', wp (fun _ => True) (f a) Q w') -> wp (fun _ => True) (bind p f) Q w.
Proof. intros Hf. apply wp_bind. eapply wp_wand; [apply wp_trivial|]. intros a w' _. apply Hf. Qed.

Lemma Build_wp spec dir t : wp (fun _ => True) (Build cwd spec dir)
  (fun r _ => forall file size digest, r = inr (file, size, digest) -> ref_fine (mkPackRef file size digest)) t.
Proof.
  unfold Build, orE. apply skip. intros [e|[]] t1; [done|]. apply skip. intros [e|[]] t2; [done|].
  apply wp_bind. apply (wp_wand _ _ (fun r _ => forall size digest, r = inr (size, digest) -> ref_fine (mkPackRef "" size digest))).
  - unfold write_pack. apply skip. intros level t3. apply skip. intros [e|l] t4; [done|]. destruct (tar_zst level l) as [out|] eqn:E; [|done].
    unfold orE. apply skip. intros [e|[]] t5; [done|]. apply skip. intros [e|[]] t6; [done|]. apply skip. intros [e|[]] t7; [done|].
    cbn [wp]. intros size digest [= <- <-]. split; [|by exists out]. pose proof (Hpacker _ _ _ E). cbn. unfold slen in *. lia.
  - intros [e|[size digest]] t3 Hr; [by apply skip|]. cbn [wp]. intros file size' digest' [= _ <- <-]. exact (Hr size digest eq_refl).
Qed.

(** What a session says of its packs. *)
Definition session_packs (loaded : option session) : Prop := forall s i r, loaded = Some s -> ss_Packs s !! i = Some r -> ref_fine r.

Lemma prepare_pack_wp loaded dir packs0 spec (Q : string + gmap string packRef -> H -> Prop) h : session_packs loaded ->
  (forall e h', Q (inl e) h') -> (forall r h', ref_fine r -> peer h' = peer h -> Q (inr (<[ps_SegmentID spec := r]> packs0)) h') ->
  wp any (prepare_pack cwd loaded dir packs0 spec) Q h.
Proof.
  intros Hs He HQ. unfold prepare_pack. cbv zeta. set (build := bindE _ _).
  assert (Hb : forall h1, peer h1 = peer h -> wp any build Q h1).
  { intros h1 E1. unfold build, coded. apply wp_bindE, wp_bind. eapply wp_fs_any; [apply Build_wp|].
    intros [e|[[file size] digest]] t Hr; cbn [wp fst snd]; [by apply He|]. apply HQ; [exact (Hr _ _ _ eq_refl)|done]. }
  clearbody build. destruct loaded as [s|]; [|by apply Hb]. destruct (ss_Packs s !! ps_SegmentID spec) as [r|] eqn:Er; [|by apply Hb].
  unfold packUsable. apply wp_bind, wp_bind. apply (wp_fs_any _ (fun _ _ => True)); [apply wp_trivial|].
  intros a t _. cbn [wp]. destruct a as [e|n]; [by apply Hb|]. destruct (_ =? _)%Z; [|by apply Hb]. cbn [wp]. apply HQ; [by eapply Hs|done].
Qed.

Lemma prepare_wp loaded specs dir packs0 done p h (Q : string + gmap string packRef -> H -> Prop) : session_packs loaded ->
  p_Packs p = (done ++ specs)%list -> (forall i r, packs0 !! i = Some r -> ref_fine r) -> Forall (fun ps => is_Some (packs0 !! ps_SegmentID ps)) done ->
  (forall e h', Q (inl e) h') -> (forall packs h', packs_small p packs -> peer h' = peer h -> Q (inr packs) h') ->
  wp any (prepare_packs cwd loaded dir packs0 specs) Q h.
Proof.
  intros Hs. revert done packs0 h. induction specs as [|spec specs IH]; intros done packs0 h Hp Hf Hd He HQ; cbn [prepare_packs].
  { apply HQ; [|done]. rewrite app_nil_r in Hp. unfold packs_small. rewrite Hp. eapply Forall_impl; [exact Hd|].
    intros ps [r Hr]. unfold ref_of. rewrite Hr. exact (Hf _ _ Hr). }
  apply wp_bindE, prepare_pack_wp; [done|done|]. intros r0 h1 Hr0 E1. apply (IH (done ++ [spec])%list).
  - by rewrite <- app_assoc.
  - intros i r. rewrite lookup_insert. destruct (decide _) as [<-|]; [by intros [= <-]|by apply Hf].
  - apply Forall_app. split.
    + eapply Forall_impl; [exact Hd|]. intros ps Hps. rewrite lookup_insert. by destruct (decide _).
    + apply Forall_singleton. rewrite lookup_insert, decide_True; [by eexists|done].
  - done.
  - intros packs h' Hpk E. apply HQ; [done|]. by rewrite E.
Qed.

(** *** The phases of a send *)
Lemma any_order_wp {W A : Type} (l : list A) (Q : list A -> W -> Prop) w :
  (forall l', l' ≡ₚ l -> Q l' w) -> wp (fun _ => True) (any_order l) Q w.
Proof.
  intros HQ. apply wp_act. intros r w' [[= <- <-]|(f & k & [= <-] & [= <- <-])]; (split; [done|]); apply HQ; [done|].
  destruct (permutations l !! k) eqn:E; cbn [default]; [by eapply permutations_pick|done].
Qed.
Lemma wp_keeping {A : Type} (J : world -> Prop) (p : prog H A) (Q : A -> H -> Prop) h :
  within (moving J (fun _ _ => True)) p -> J (peer h) -> (forall a h', J (peer h') -> Q a h') -> wp any p Q h.
Proof.
  intros Hp HJ HQ. apply (wp_within (moving J (fun _ _ => True))); [done|done|]. intros a h' Hm. by apply HQ, Hm.
Qed.

Lemma Scan_any roots t (Q : ecode + Plan -> H -> Prop) h : well_formed (files h) -> t = files h -> (forall e, Q (inl e) h) ->
  (forall sc p, scan_state t cwd roots sc -> arranged (sc_roots sc) (sc_sources sc) (sc_dirs sc) p -> Q (inr p) h) ->
  wp any (fs (Scan cwd roots)) Q h.
Proof.
  intros Hwf -> He HQ. eapply wp_fs_any.
  - apply (Scan_wp (files h) cwd Hwf (fun _ => True) roots (fun r t' => t' = files h /\ (forall p, r = inr p -> exists sc,
      scan_state (files h) cwd roots sc /\ arranged (sc_roots sc) (sc_sources sc) (sc_dirs sc) p))); [done|done|].
    intros sc p Hs Ha _. split; [done|]. intros p' [= <-]. by exists sc.
  - intros r t' [-> Hr]. replace (set_files (files h) h) with h by by destruct h. destruct r as [e|p]; [by apply He|].
    destruct (Hr p eq_refl) as (sc & Hs & Ha). by eapply HQ.
Qed.

(** The session a state file holds. *)
Definition recorded (t : tree) (file : string) : option session :=
  match look t (host_path cwd file) with Some (CFile d) => session_Unmarshal d | _ => None end.

Lemma load_wp file fp (Q : option session -> H -> Prop) h : Q None h ->
  (forall s, recorded (files h) file = Some s -> Q (Some s) h) -> wp any (loadSession base_url cwd file fp) Q h.
Proof.
  intros Hn Hs. unfold loadSession. apply wp_bind. eapply wp_fs_any.
  - apply (wp_ReadFile _ _ (fun r t => t = files h /\ forall d, r = inr d -> look t (host_path cwd file) = Some (CFile d))); [done|].
    intros r Hr. split; [done|]. by intros d ->.
  - intros r t [-> Hr]. replace (set_files (files h) h) with h by by destruct h. destruct r as [e|d]; [done|].
    specialize (Hr d eq_refl). unfold recorded in Hs. rewrite Hr in Hs. destruct (session_Unmarshal d) as [s|]; [|done].
    destruct (_ || _); [done|]. destruct (ss_Uploads s); [by apply Hs|done].
Qed.

Lemma uploads_paths l (m : gmap string string) : good_uploads l -> map_Forall (fun _ x => upload_path x) m ->
  map_Forall (fun _ x => upload_path x) (foldl (fun m u => <[ur_SegmentID u := ur_UploadPath u]> m) m l).
Proof.
  intros Hl. revert m. induction Hl as [|u l Hu _ IH]; intros m Hm; cbn [foldl]; [done|]. apply IH. by apply map_Forall_insert_2.
Qed.

(** A session of a transfer that is not published yet, with upload paths of the server. *)
Definition session_open (w : world) (s : session) : Prop :=
  unpub (ss_TransferID s) w /\ good_id (ss_TransferID s) /\ map_Forall (fun _ x => upload_path x) (default ∅ (ss_Uploads s)).

Lemma open_transfer_wp opts file fp p packs segs (Q : string + session -> H -> Prop) h : Inv (peer h) -> fresh_next (peer h) ->
  (forall e h', Q (inl e) h') -> (forall s h', session_open (peer h') s -> Q (inr s) h') ->
  wp any (open_transfer server base_url cwd opts file fp p packs segs) Q h.
Proof.
  intros Hw Hf He HQ. unfold open_transfer, client_CreateTransfer. apply wp_bindE.
  eapply (postJSON_wp server _ _ _ _ _ (fun r w => forall resp, r_Body r = BCreated resp -> created_fine resp w)); [|done|].
  { eapply wp_mono; [| |by eapply create_answer]; done. }
  intros r v b Hr Hb. assert (r_Body r = BCreated b) as Hc by (destruct (r_Body r); try done; by injection Hb as <-).
  destruct (Hr b Hc) as (Hu & Hid & Hups). cbn [wp]. set (id := cx_TransferID b) in *.
  apply wp_bind, (wp_keeping (unpub id)); [apply keeps_act; by intros k n h' [= <-]|done|]. intros now h1 H1. cbv zeta.
  unfold orE. apply wp_bind, (wp_keeping (unpub id)); [apply keeps_save|done|]. intros [e|[]] h2 H2; [by apply He|]. cbn [wp].
  apply HQ. split; [done|]. split; [done|]. cbn [ss_Uploads default]. by apply uploads_paths; [|apply map_Forall_empty].
Qed.

Lemma uploads_wp s p packs (Q : string + unit -> H -> Prop) h : session_open (peer h) s ->
  (forall r h', session_open (peer h') s -> Q r h') -> wp any (uploadSegments server cwd s p packs) Q h.
Proof.
  intros (Hu & Hid & Hups) HQ. apply (wp_keeping (unpub (ss_TransferID s))); [|done|].
  - apply (keeps_uploads server _ upload_path); [|done]. intros m (uid & Hx & Hp) Hm. apply upload_stable. by exists uid.
  - intros r h' H'. by apply HQ.
Qed.

Lemma commit_wp id m (Q : string + CommitResponse -> H -> Prop) h : good_id id -> unpub id (peer h) -> json_ok m ->
  (forall e h', Q (inl e) h') ->
  (forall resp h', Inv (peer h') -> (exists ttl, answered (peer h') id ttl resp) -> live_manifest (peer h') id (republished m) ->
     Q (inr resp) h') -> wp any (client_Commit server id m) Q h.
Proof.
  intros (Hu & _) Hw Hj He HQ. unfold client_Commit.
  eapply (postJSON_wp server _ _ _ _ _ (fun r w => forall resp, r_Body r = BCommit resp -> Inv w /\ (exists ttl, answered w id ttl resp) /\
    live_manifest w id (republished m))); [|done|].
  { eapply wp_mono; [| |by apply (commit_answer cfg ready id m)]; done. }
  intros r v b Hr Hb. assert (r_Body r = BCommit b) as Hc by (destruct (r_Body r); try done; by injection Hb as <-).
  destruct (Hr b Hc) as (H1 & H2 & H3). by apply HQ.
Qed.

Lemma answered_resolves w id ttl resp : answered w id ttl resp -> exists tr, resolves w (co_Code resp) tr /\ t_ID tr = id.
Proof.
  intros (t & (row & Hr & Hc & Hcode & Hcan & _) & <- & ->). exists (scanTransfer (t_ID t) row). split; [|done].
  exists (t_Code t), row. split; [by apply NormalizeCode_FormatCode|done].
Qed.

(** What a sent code stands for. *)
Definition sent_as (opts : SendOptions) (t : tree) (code : string) (w : world) : Prop :=
  exists tr m, resolves w code tr /\ live_manifest w (t_ID tr) m /\ describes cwd (so_Roots opts) t (Roots m) (Entries m) /\
    Note m = so_Note opts.

(** Going on with a session, or opening a transfer. *)
Lemma alive_wp s (Q : bool -> H -> Prop) h : fresh_next (peer h) -> session_open (peer h) s ->
  (forall b h', fresh_next (peer h') -> session_open (peer h') s -> Q b h') -> wp any (sessionAlive server s) Q h.
Proof.
  intros Hf (Hu & Hid & Hups) HQ. unfold sessionAlive, some_of. apply wp_bind, wp_bind, any_order_wp. intros l Hl. cbn [wp].
  destruct l as [|[i x] l]; cbn [head]; [by apply HQ|].
  assert (Hx : upload_path x).
  { apply (Hups i). apply elem_of_map_to_list. rewrite <- Hl. by left. }
  apply wp_bind, (wp_keeping (fun w => unpub (ss_TransferID s) w /\ fresh_next w)); [|done|].
  - destruct Hx as (uid & Hx & ->). apply keeps_offset. intros w [Hw1 Hw2].
    set (m := request_of "HEAD" ("/v1/uploads/" ++ uid) [tus] 0 PNone).
    assert (Hm : about_upload m) by (exists uid; split_and!; [done|done|by right]).
    assert (Hi : within idle (server m)) by (by eapply head_idle).
    eapply wp_mono; [| |exact (wp_and _ _ _ _ _ _ (upload_stable cfg ready _ m Hm w Hw1) (Hi (fun w' => fresh_next w') w (fun w' Hii => proj2 (idle_fresh _ _ Hii) Hw2)))].
    + intros w' [H1 H2]. by split.
    + intros a w' [H1 H2]. split; [done|]. by apply (idle_fresh _ _ H2).
  - intros r h' [H1 H2]. cbn [wp]. by apply HQ.
Qed.

Lemma continue_wp opts file fp p packs segs loaded (Q : string + session * bool -> H -> Prop) h : Inv (peer h) -> fresh_next (peer h) ->
  (forall s, loaded = Some s -> session_open (peer h) s) -> (forall e h', Q (inl e) h') ->
  (forall s b h', session_open (peer h') s -> Q (inr (s, b)) h') ->
  wp any (continue_or_open server base_url cwd opts file fp p packs segs loaded) Q h.
Proof.
  intros Hw Hf Hs He HQ. unfold continue_or_open.
  assert (Hnew : forall h1, Inv (peer h1) -> fresh_next (peer h1) ->
    wp any (s <-? open_transfer server base_url cwd opts file fp p packs segs ;; Ret (inr (s, false))) Q h1).
  { intros h1 H1 H2. apply wp_bindE, open_transfer_wp; [done..|]. intros s h2 H3. cbn [wp]. by apply HQ. }
  destruct loaded as [s|]; [|apply wp_bind; cbn [wp]; by apply Hnew].
  apply wp_bind, wp_bind, alive_wp; [done|by apply Hs|]. intros [|] h1 Hf1 Hs1.
  - cbn [wp]. apply wp_bind, (wp_keeping (fun w => session_open w s)); [apply keeps_save|done|]. intros a h2 H2. cbn [wp].
    apply HQ. exact H2.
  - apply wp_bind, (wp_keeping (fun w => Inv w /\ fresh_next w)); [apply keeps_remove|by split; [apply Hs1|]|].
    intros [] h2 [H2 H3]. cbn [wp]. by apply Hnew.
Qed.

(** A sender whose names are UTF-8 and whose recorded sessions are open on a server whose
    next identifier is unused. *)
Definition ready_to_send (opts : SendOptions) (t : tree) (w : world) : Prop :=
  fresh_next w /\ well_formed t /\ machine_tree t /\
  Forall (fun r => valid_utf8 (root_name cwd r) = true) (so_Roots opts) /\ valid_utf8 (so_Note opts) = true /\
  (forall x s, digestPattern x = true -> recorded t (Join [so_StateDir opts; "sessions"; x ++ ".json"])%string = Some s ->
     session_open w s /\ map_Forall (fun _ r => ref_fine r) (ss_Packs s)).

Lemma send_plan_wp opts t file fp sc p loaded h : scan_state t cwd (so_Roots opts) sc ->
  arranged (sc_roots sc) (sc_sources sc) (sc_dirs sc) p -> Inv (peer h) -> ready_to_send opts t (peer h) ->
  (forall s, loaded = Some s -> session_open (peer h) s /\ map_Forall (fun _ r => ref_fine r) (ss_Packs s)) ->
  wp any (send_plan server base_url cwd opts file fp p loaded)
    (fun r h' => forall res, r = inr res -> Inv (peer h') /\ sent_as opts t (sr_Code res) (peer h')) h.
Proof.
  intros Hs Ha Hw (Hf & _ & Hmach & Hutf & Hnote & _) Hl. unfold send_plan.
  apply wp_bindE, (prepare_wp loaded (p_Packs p) _ ∅ [] p); [|done|by intros i r E|apply Forall_nil_2|done|].
  { intros s i r Es Hr. exact (proj2 (Hl s Es) i r Hr). }
  intros packs h2 Hpk E2. apply wp_bind, any_order_wp. intros raws Hraws. cbv zeta.
  apply wp_bindE, continue_wp; [by rewrite E2|by rewrite E2|intros s Es; rewrite E2; by apply Hl|done|].
  intros s resumed h3 H3. apply wp_bindE, uploads_wp; [done|]. intros [e|[]] h4 (Hu & Hid & _); [done|].
  apply wp_bind, (wp_keeping (unpub (ss_TransferID s))); [apply keeps_act; by intros k n h' [= <-]|done|]. intros now h5 H5.
  apply wp_bindE, commit_wp; [done|done| |done|].
  { eapply sent_json_ok; [exact Hs|exact Ha|exact Hraws|exact Hmach|exact Hpk| |apply Hid|exact Hnote].
    rewrite (ar_roots _ _ _ _ Ha), (st_roots _ _ _ _ Hs). by apply Forall_map. }
  intros resp h6 H6 [ttl Hans] Hlive. destruct (answered_resolves _ _ _ _ Hans) as (tr & Hres & Htr).
  apply wp_bind, (wp_keeping (eq (peer h6))); [apply keeps_remove|done|]. intros [] h7 H7. cbn [wp]. intros res [= <-].
  rewrite <- H7. split; [done|]. exists tr. eexists. split; [exact Hres|]. rewrite Htr. split; [exact Hlive|].
  split; [|done]. cbn. by eapply scanned_describes.
Qed.

Lemma Send_wp opts t h : Inv (peer h) -> files h = t -> ready_to_send opts t (peer h) ->
  wp any (Send server base_url cwd opts) (fun r h' => forall res, r = inr res -> Inv (peer h') /\ sent_as opts t (sr_Code res) (peer h')) h.
Proof.
  intros Hw Ht Hready. pose proof Hready as (_ & Hwf & _ & _ & _ & Hsess). unfold Send, coded.
  apply wp_bindE, wp_bind, (Scan_any _ t); [by rewrite Ht|done|done|]. intros sc p Hs Ha. cbn [wp]. cbv zeta.
  apply wp_bind, load_wp; [apply wp_bind; cbn [wp]; by eapply send_plan_wp|]. intros s Hrec. rewrite Ht in Hrec.
  apply wp_bind, wp_bind, wp_bind, (wp_fs_any _ (fun _ _ => True)); [apply wp_trivial|]. intros r t' _. cbn [wp]. destruct r as [e|[]].
  - apply wp_bind. eapply wp_wand; [apply wp_trivial|]. intros a h' _. by cbn [wp].
  - cbn [wp]. eapply send_plan_wp; [exact Hs|exact Ha|exact Hw|exact Hready|]. intros s' [= <-].
    eapply Hsess; [apply HashBytes_pattern|exact Hrec].
Qed.

Lemma send_outcome opts t w es res h : Inv w -> ready_to_send opts t w ->
  run (Send server base_url cwd opts) es (mkHost w t) = (Some (inr res), h) ->
  Inv (peer h) /\ sent_as opts t (sr_Code res) (peer h).
Proof.
  intros Hw Hr E. destruct (wp_sound _ _ _ es _ I (Send_wp opts t (mkHost w t) Hw eq_refl Hr)) as [_ H0].
  rewrite E in H0. exact (H0 _ eq_refl res eq_refl).
Qed.

(** C8: a code the sender is shown stands for exactly the sender's files.  When Send answers a
    code, against the server in any state an installation with working restarts reaches,
    whatever failed on the network, on the sender's disk or in the server and was retried: the
    code resolves to a committed transfer whose live directory is complete and whose manifest
    has an entry for every file and directory below the roots, with its size, digest, mode and
    modification time, no other entry, and the sender's note. *)
Theorem send_publishes opts t w b es res h : reachable cfg faultless (mkRunning w b) -> ready_to_send opts t w ->
  run (Send server base_url cwd opts) es (mkHost w t) = (Some (inr res), h) -> sent_as opts t (sr_Code res) (peer h).
Proof. intros Hw Hr E. eapply send_outcome; [exact (reachable_strict cfg _ Hw)|exact Hr|exact E]. Qed.

(** *** What arrives *)

(** Everything below the sender's roots is at [D] on the receiver's machine [t']. *)
Definition arrived (roots : list string) (t : tree) (D : path) (t' : tree) : Prop :=
  forall r rel n, r ∈ roots -> t !! (host_path cwd r ++ rel)%list = Some n ->
    match n with
    | NDir _ _ => look t' (D ++ root_name cwd r :: rel)%list = Some CDir
    | NFile d _ _ => exists d', look t' (D ++ root_name cwd r :: rel)%list = Some (CFile d') /\ slen d' = slen d /\ HashBytes d' = HashBytes d
    end.

Lemma described_arrives roots t m D t' : machine_tree t -> Forall (fun n => has_byte "/" n = false) (Roots m) ->
  describes cwd roots t (Roots m) (Entries m) -> delivered D m t' -> arrived roots t D t'.
Proof.
  intros Hm Hn (Hnames & _ & Hall) Hd r rel n Hr Hl. destruct (Hall r rel Hr ltac:(by eexists)) as (e & He & Hp & He').
  assert (Hsplit : split "/" (e_Path e) = root_name cwd r :: rel).
  { rewrite Hp. unfold virtual. apply split_join; [done|]. apply Forall_cons. split.
    - rewrite Hnames in Hn. apply (proj1 (Forall_forall _ _) Hn), list_elem_of_fmap_2, Hr.
    - destruct (Hm _ _ Hl) as (_ & _ & Hs). by apply Forall_app in Hs as [_ Hs]. }
  pose proof (proj1 (Forall_forall _ _) Hd e He) as [Hdir Hfile]. rewrite Hsplit in Hdir, Hfile.
  destruct He' as [(mo & mt & z & Hl' & _ & ->)|(d & mo & mt & Hl' & Hty & Hsz & Hdg & _)]; rewrite Hl in Hl'; injection Hl' as ->.
  - by apply Hdir.
  - destruct Hfile as (d' & H1 & H2 & H3); [unfold is_file; by rewrite Hty|]. exists d'. by rewrite H2, H3.
Qed.

(** A row that expires later is not due. *)
Lemma not_due id row w : Inv w -> transfers (db w) !! id = Some row -> c_state row = StateCommitted -> forall now,
  (now < t_ExpiresAt (scanTransfer id row))%Z -> due now row = false.
Proof.
  intros Hw Hr Hc now. destruct (rows_ok _ (inv_db w Hw) id row Hr) as (_ & Hx & _). destruct (Hx Hc) as (_ & _ & [e He]).
  cbn [scanTransfer t_ExpiresAt]. unfold due. rewrite He. cbn [time_from_null]. unfold from_unix, Unix. intros Hlt.
  rewrite andb_false_iff. right. apply Z.leb_gt. apply Z.div_lt_upper_bound; [done|]. unfold second in *. lia.
Qed.

(** A code resolves to the same transfer, with the same manifest, until it expires. *)
Lemma resolves_same v w code tr m code' w2 tr2 m2 : Inv v -> guarded v w -> Inv (ST := leniently) w ->
  resolves v code tr -> live_manifest v (t_ID tr) m -> (clock w < t_ExpiresAt tr)%Z -> NormalizeCode code' = NormalizeCode code ->
  resolves w code' tr2 -> live_stays w w2 -> live_manifest w2 (t_ID tr2) m2 -> m2 = m.
Proof.
  intros Hv [_ Hg] Hw (c & r & Hc & Hr & Htr & Hcode & Hst) Hm Hlt Hn (c2 & r2 & Hc2 & Hr2 & Htr2 & Hcode2 & Hst2) Hls Hm2.
  rewrite Htr in Hlt. destruct (Hg _ _ Hr Hst (not_due _ _ _ Hv Hr Hst _ Hlt)) as [Hrw Hk].
  assert (c2 = c) as -> by congruence.
  rewrite (codes_unique _ (inv_db (ST := leniently) w Hw) _ _ _ _ _ Hr2 Hrw Hcode2 Hcode) in Hm2.
  pose proof (live_manifest_stays _ _ _ _ Hls (live_manifest_kept _ _ _ _ Hk Hm)) as Hm3. by eapply live_manifest_unique.
Qed.

(** What a code was published for is what a receive under it brings, before it expires. *)
Lemma sent_received opts t v up w up' code rcwd t2 ropts es2 res2 h2 : Inv v -> machine_tree t -> sent_as opts t code v ->
  rtc (step cfg faultless) (mkRunning v up) (mkRunning w up') -> (forall tr, resolves v code tr -> (clock w < t_ExpiresAt tr)%Z) ->
  Forall (fun c => plain c = true) rcwd -> well_formed t2 -> look t2 rcwd = Some CDir -> NormalizeCode (ro_Code ropts) = NormalizeCode code ->
  run (Recv server rcwd ropts) es2 (mkHost w t2) = (Some (inr res2), h2) ->
  exists D, rr_Path res2 = rooted D /\ look t2 D = None /\ arrived (so_Roots opts) t D (files h2).
Proof.
  intros Hv Hmach (tr & m & Hres & Hm & Hdesc & _) Hsteps Hexp Hrc Hwf2 Hdir Hcode Er.
  destruct (execution_from cfg (mkRunning v up) (mkRunning w up') Hv Hsteps) as [Hg Hws]. cbn [sv_world] in *.
  assert (Hw : Inv (ST := leniently) w) by (destruct Hws; by split).
  destruct (receive_outcome cfg ready w rcwd t2 ropts es2 _ h2 Hw Hrc Hwf2 Hdir Er) as (_ & _ & Hok).
  destruct (Hok res2 eq_refl) as (D & HD & c & (tr2 & Hres2 & w2 & _ & Hls & Hm2 & _) & Hfree & Hdel & _).
  exists D. split; [done|]. split; [done|].
  rewrite (resolves_same _ w _ tr m _ w2 tr2 (cl_Manifest c) Hv Hg Hw Hres Hm (Hexp tr Hres) Hcode Hres2 Hls Hm2) in Hdel.
  apply (described_arrives _ _ m); [done| |done|done].
  pose proof (live_manifest_ok _ _ _ Hm) as (_ & _ & _ & _ & _ & _ & _ & Hroots & _).
  eapply Forall_impl; [exact Hroots|]. intros x Hx. by apply (ValidateComponent_no_byte "/").
Qed.

Section receive.
Context (opts : SendOptions) (t : tree) (w0 : world) (b : bool) (Hsender : reachable cfg faultless (mkRunning w0 b) /\ ready_to_send opts t w0).
Context (rcwd : path) (t2 : tree) (ropts : RecvOptions).
Context (Hreceiver : Forall (fun c => plain c = true) rcwd /\ well_formed t2 /\ look t2 rcwd = Some CDir).

(** What the sender sent is what the receiver gets.  A send against the server answered a
    code; then anything happened to the server, requests of others, crashes and restarts,
    janitor passes, any number and in any order; then a receiver, before the code expires,
    asks for the code in any spelling and Recv answers a path.  At that path, where nothing
    was before, is every directory and every file below the sender's roots, under the name of
    its root, each file with the length and the digest of the sender's. *)
Theorem send_then_receive es res h up w up' es2 res2 h2 :
  run (Send server base_url cwd opts) es (mkHost w0 t) = (Some (inr res), h) ->
  rtc (step cfg faultless) (mkRunning (peer h) up) (mkRunning w up') ->
  (forall tr, resolves (peer h) (sr_Code res) tr -> (clock w < t_ExpiresAt tr)%Z) ->
  NormalizeCode (ro_Code ropts) = NormalizeCode (sr_Code res) ->
  run (Recv server rcwd ropts) es2 (mkHost w t2) = (Some (inr res2), h2) ->
  exists D, rr_Path res2 = rooted D /\ look t2 D = None /\ arrived (so_Roots opts) t D (files h2).
Proof.
  intros Es Hsteps Hexp Hcode Er. destruct Hsender as [Hw0 Hready]. apply (reachable_strict cfg) in Hw0. cbn [sv_world] in Hw0. destruct Hreceiver as (Hrc & Hwf2 & Hdir).
  destruct (send_outcome _ _ _ _ _ _ Hw0 Hready Es) as (Hv & Hsent). eapply sent_received; try done. apply Hready.
Qed.
End receive.
End send.

(** ** One directory, from a desk to a box *)
#[export] Instance demo_packer : Packer := {| tar_zst := fun _ _ => Some "PACK"%string; compressed_size := fun d => slen d |}.
(** A session as a string of bits. *)
Definition session_fields (s : session) :=
  ((ss_Fingerprint s, ss_TransferID s, ss_Uploads s), (ss_CreatedAt s, ss_ServerURL s),
   (fun r => (pr_Path r, pr_Size r, pr_Digest r)) <$> ss_Packs s).
Definition session_of (x : (string * string * option (gmap string string)) * (Z * string) * gmap string (string * Z * string)) : session :=
  let '((fp, id, ups), (at_, url), packs) := x in
  mkSession fp id ups ((fun r : string * Z * string => mkPackRef (fst (fst r)) (snd (fst r)) (snd r)) <$> packs) at_ url.
#[export] Instance demo_sessions : SessionCodec := {|
  session_Marshal s := Some (bits (encode (session_fields s)));
  session_Unmarshal d := session_of <$> countable.decode (unbits d) |}.
Definition docs : SendOptions := mkSendOptions ["docs"]%string "papers" 30 ".sss".
Definition demo_server := serve Demo.cfg (public_routes true).
Definition desk_send (es : list event) : option (string + SendResult) * host world :=
  run (Send demo_server "http://sss" Handoff.cwd docs) es (mkHost boot desk).
Definition desk_code : string := match fst (desk_send []) with Some (inr res) => sr_Code res | _ => "" end.
Definition box_recv (v : world) : option (string + RecvResult) * host world :=
  run (Recv demo_server Handoff.cwd (mkRecvOptions desk_code "box")) [] (mkHost v home).

Lemma demo_packed : forall level l out, tar_zst level l = Some out -> (slen out < 2^63)%Z.
Proof. by intros level l out [= <-]. Qed.
Lemma node_small q n : forallb (fun c => negb (has_byte "/" c)) q = true ->
  match mtime_of n with Some z => (z =? 7)%Z | None => true end = true -> (size_of n <? 2^63)%Z = true ->
  (forall z, mtime_of n = Some z -> in_int64 z) /\ (size_of n < 2^63)%Z /\ Forall (fun c => has_byte "/" c = false) q.
Proof.
  intros Hq Hm Hs%Z.ltb_lt. split; [|split; [exact Hs|]].
  - intros z Hz. rewrite Hz in Hm. apply Z.eqb_eq in Hm as ->. by vm_compute.
  - apply Forall_forall. intros c Hc%list_elem_of_In. rewrite forallb_forall in Hq. by apply Hq, negb_true_iff in Hc.
Qed.
Lemma desk_machine : machine_tree desk.
Proof.
  intros q n Hn. unfold desk, home in Hn.
  repeat (apply lookup_insert_Some in Hn as [[<- <-]|[_ Hn]]; [apply node_small; vm_compute; reflexivity|]).
  apply lookup_singleton_Some in Hn as [<- <-]. apply node_small; vm_compute; reflexivity.
Qed.
Lemma desk_fresh x : digestPattern x = true -> recorded Handoff.cwd desk (Join [".sss"; "sessions"; x ++ ".json"])%string = None.
Proof.
  unfold recorded. intros [_ Hx]%andb_true_iff. assert (Hcwd : Forall (fun c => plain c = true) Handoff.cwd) by by repeat constructor.
  assert (Hb : has_byte "/" (x ++ ".json") = false).
  { rewrite has_byte_app. rewrite (has_byte_sforall "/" lower_hex x); done. }
  assert (Hn : forall y, (slen y < 5)%Z -> (x ++ ".json")%string <> y) by (intros y Hy <-; rewrite slen_app in Hy; unfold slen in Hy; cbn in Hy; lia).
  assert (Hp : plain (x ++ ".json") = true) by (apply plain_spec; split_and!; [by apply Hn..|done]).
  assert (Forall (fun c => plain c = true) [".sss"; "sessions"; x ++ ".json"]%string) as Hall by by repeat constructor.
  unfold Join. rewrite filter_plain, host_path_Clean by done. destruct (host_path_comps Handoff.cwd (join "/" [".sss"; "sessions"; (x ++ ".json")%string]) Hcwd) as [-> _].
  rewrite split_join by (done || by repeat constructor). 
  match goal with |- context [look desk ?p] => set (q := p) end.
  assert (q = ["home"; "u"; ".sss"; "sessions"; x ++ ".json"]%string) as ->.
  { subst q. apply clean_comps_plain. by repeat constructor. }
  unfold look, desk, home. rewrite !lookup_insert_ne by done. by rewrite lookup_singleton_ne.
Qed.
Lemma desk_ready : ready_to_send Handoff.cwd docs desk boot.
Proof.
  split; [by split; vm_compute|]. split; [apply desk_well_formed|]. split; [apply desk_machine|].
  split; [apply Forall_singleton; vm_compute; reflexivity|]. split; [done|].
  intros x s Hx Hs. cbn [so_StateDir docs] in Hs. by rewrite desk_fresh in Hs.
Qed.

(** A server installed today, the directory [docs], and no fault. *)
Lemma send_publishes_witness : exists res h, desk_send [] = (Some (inr res), h) /\
  sent_as Handoff.cwd docs desk (sr_Code res) (peer h) /\ sr_Code res = "29GQ-Y5CK"%string.
Proof.
  destruct (fst (desk_send [])) as [[e|res]|] eqn:E; [by vm_compute in E| |by vm_compute in E].
  exists res, (snd (desk_send [])). pose proof (answer_pair _ _ _ _ E) as E'. split; [exact E'|]. split.
  - exact (send_publishes demo_packed Demo.cfg true "http://sss" Handoff.cwd docs desk boot true [] res _
      (boot_reachable faultless (Forall_nil_2 _)) desk_ready E').
  - vm_compute in E. by injection E as <-.
Defined.

(** Nothing else happens to the server, and another machine receives the code. *)
Lemma send_then_receive_witness : exists res2 h2, box_recv (peer (snd (desk_send []))) = (Some (inr res2), h2) /\
  rr_Path res2 = "/home/u/box"%string /\ (exists D, rr_Path res2 = rooted D /\ look home D = None /\
    arrived Handoff.cwd ["docs"%string] desk D (files h2)).
Proof.
  destruct (fst (desk_send [])) as [[e|res]|] eqn:E; [by vm_compute in E| |by vm_compute in E]. pose proof (answer_pair _ _ _ _ E) as E'.
  set (v := peer (snd (desk_send []))).
  destruct (fst (box_recv v)) as [[e|res2]|] eqn:E2; [by vm_compute in E2| |by vm_compute in E2]. pose proof (answer_pair _ _ _ _ E2) as E2'.
  exists res2, (snd (box_recv v)). split; [exact E2'|]. split; [vm_compute in E2; by injection E2 as <-|].
  assert (Hcode : sr_Code res = desk_code) by (unfold desk_code; by rewrite E).
  assert (Hhome : Forall (fun c => plain c = true) Handoff.cwd) by by repeat constructor.
  refine (send_then_receive demo_packed Demo.cfg true "http://sss" Handoff.cwd docs desk boot true
    (conj (boot_reachable faultless (Forall_nil_2 _)) desk_ready) Handoff.cwd home (mkRecvOptions desk_code "box")
    (conj Hhome (conj home_well_formed eq_refl)) [] res _ true v true [] res2 _ E' (rtc_refl _ _) _ _ E2').
  - intros tr (c & r & _ & Hr & -> & _ & Hc). subst v.
    assert (H : map_Forall (fun _ r => (clock (peer (snd (desk_send []))) <? time_from_null (c_expires_at r))%Z = true) (transfers (db (peer (snd (desk_send [])))))).
    { by apply map_Forall_to_list; vm_compute; repeat constructor. }
    apply Z.ltb_lt. exact (H _ _ Hr).
  - by rewrite Hcode.
Defined.
