(* ===== verification/CliDelivery.v ===== *)
(** * From one command line to another

    What sssend is given is what ssrecv brings, over the server and whatever happens to it
    in between. *)
From S2P Require Import Prelude GoStrings GoTime Errors Code Paths Manifest Wire Admission Prog Tree Integrity GoUrl.
From S2P Require Import Materialize Archive Store Config World Service Upload Commit Simple Janitor Api Safety.
From S2P Require Import ServiceProofs UploadProofs CommitProofs SimpleProofs JanitorProofs ReconcileProofs.
From S2P Require Import ApiProofs System Durability Resume Demo Guarantees HttpGuarantees Host Net Auth AuthProofs Client Recv.
From S2P Require Import RecvProofs FetchProofs Handoff Pack Copy Send PackProofs SendProofs Delivery Flags Cli CliProofs CopyProofs.
Local Open Scope prog_scope.

Section exact.
Context {UC : Unicode} {EX : Externals} {PK : Packer} {SC : SessionCodec} {CC : ConfigCodec} {A2 : Argon2}.
Context {V : Type} (net : target -> message -> prog V response) (mounted : V -> string -> option tree) (env : environment).
Notation any := (fun _ : console V => True).
Notation anyh := (fun _ : host V => True).

(** Only what happens when the status is zero. *)
Section success.
Context (Q : console V -> Prop).
Notation ok := (fun z c' => z = 0%Z -> Q c').

Lemma failed_ok json e c : wp any (fail json e) ok c.
Proof.
  unfold fail, say. apply wp_bind. destruct json; apply wp_act_; cbn [wp]; intros E; by apply ExitCode_not_0 in E.
Qed.
Lemma or_fail_ok {A : Type} json (p : prog (console V) (string + A)) f c :
  wp any p (fun r c' => forall a, r = inr a -> wp any (f a) ok c') c -> wp any (or_fail json p f) ok c.
Proof. intros Hp. apply wp_bind. eapply wp_wand; [exact Hp|]. intros [e|a] c' H; [apply failed_ok|by apply H]. Qed.
End success.

(** The machine and standard output are as in [c]. *)
Definition kept (c c' : console V) : Prop := c_host c' = c_host c /\ c_out c' = c_out c.

Lemma wp_looking {A : Type} (p : prog (host V) A) (Q : A -> console V -> Prop) c c1 : looking p -> kept c c1 ->
  (forall a c2, kept c c2 -> Q a c2) -> wp any (on_host p) Q c1.
Proof.
  intros Hp [Hh Ho] HQ. apply (wp_on_host p (fun _ h => h = c_host c1)); [apply Hp|]. intros a h ->. apply HQ. by split.
Qed.
Lemma kept_warn o (Q : unit -> console V -> Prop) c c1 : kept c c1 -> (forall c2, kept c c2 -> Q tt c2) -> wp any (warn o) Q c1.
Proof. intros [Hh Ho] HQ. apply wp_act_, HQ. by split. Qed.

Lemma resolvePassword_kept b (Q : string + string -> console V -> Prop) c c1 : kept c c1 ->
  (forall r c2, kept c c2 -> Q r c2) -> wp any (resolvePassword env b) Q c1.
Proof.
  intros Hk HQ. unfold resolvePassword. destruct b; [case_match; cbn [wp]; by apply HQ|]. cbv zeta. case_match; [cbn [wp]; by apply HQ|].
  case_match; [|cbn [wp]; by apply HQ]. apply wp_bind, (kept_warn _ _ c); [done|]. intros c2 H2. cbn [wp]. by apply HQ.
Qed.
Lemma remoteClient_kept url b (Q : string + target -> console V -> Prop) c c1 : kept c c1 -> (forall e c2, Q (inl e) c2) ->
  (forall base pw c2, kept c c2 -> Q (inr (Remote base pw)) c2) -> wp any (remoteClient env url b) Q c1.
Proof.
  intros Hk He HQ. unfold remoteClient. apply wp_orE, (wp_looking _ _ c); [apply looking_LoadClient|done|].
  intros [e|saved] c2 H2; [apply He|]. case_match; [|apply He]. apply wp_bindE, (resolvePassword_kept _ _ c); [done|].
  intros [e|pw] c3 H3; [apply He|]. by apply HQ.
Qed.

Lemma printed_ok o (Q : console V -> Prop) c : Q (mkConsole (c_host c) (c_out c ++ [o]) (c_err c)) -> wp any (print o ;;; Ret 0%Z) (fun z c' => z = 0%Z -> Q c') c.
Proof. intros HQ. apply wp_bind, wp_act_. cbn [wp]. by intros _. Qed.

(** send: the options a command line stands for. *)
Definition asks_to_send (args : list string) (opts : SendOptions) : Prop :=
  exists st, parseArgs send_flags args = inr (st, so_Roots opts) /\ flag_bool st "json" = false /\
    flag_string st "note-file" = ""%string /\ flag_string st "note" = so_Note opts /\
    send_ttl (flag_string st "ttl") = inr (so_TTLMinutes opts) /\ stateDir env = so_StateDir opts.

Lemma runSend_exact args opts (QS : SendResult -> host V -> Prop) c : asks_to_send args opts ->
  (forall base pw, wp anyh (Send (net (Remote base pw)) base (Getwd env) opts) (fun r h => forall res, r = inr res -> QS res h) (c_host c)) ->
  wp any (runSend net env args) (fun z c' => z = 0%Z ->
    exists res, c_out c' = (c_out c ++ [Line [Str (sr_Code res)]])%list /\ QS res (c_host c')) c.
Proof.
  intros (st & Hp & Hj & Hf & Hn & Ht & Hs) Hsend. unfold runSend, with_flags. rewrite Hp. cbv zeta. rewrite Hj, Hf, Hn.
  unfold usageError. case_match; [apply failed_ok|]. cbn [String.eqb negb]. rewrite andb_false_r.
  assert (Hk : kept c c) by by split.
  apply or_fail_ok. cbn [send_note String.eqb on_host lift wp]. intros note [= <-].
  apply or_fail_ok. cbn [wp]. intros minutes Hm. rewrite Ht in Hm. injection Hm as <-.
  apply or_fail_ok, (remoteClient_kept _ _ _ c); [done|done|]. intros base pw c3 [H3 H4] t [= <-].
  apply or_fail_ok, (wp_on_host _ (fun r h => forall res, r = inr res -> QS res h)).
  { rewrite H3. replace (mkSendOptions (so_Roots opts) (so_Note opts) (so_TTLMinutes opts) (stateDir env)) with opts by (rewrite Hs; by destruct opts).
    apply Hsend. }
  intros r h Hr res ->. specialize (Hr res eq_refl).
  assert (Hend : forall c4, c_out c4 = c_out c -> c_host c4 = h ->
    wp any (print (Line [Str (sr_Code res)]) ;;; Ret 0%Z) (fun z c' => z = 0%Z ->
      exists res, c_out c' = (c_out c ++ [Line [Str (sr_Code res)]])%list /\ QS res (c_host c')) c4).
  { intros c4 Ho Hh. apply (printed_ok _ (fun c' => exists res, c_out c' = (c_out c ++ [Line [Str (sr_Code res)]])%list /\ QS res (c_host c'))).
    exists res. cbn. by rewrite Ho, Hh. }
  case_match; [by apply Hend|]. apply wp_bind, wp_act_, Hend; done.
Qed.

(** recv: the code and the destination a command line stands for. *)
Definition asks_to_receive (args : list string) (opts : RecvOptions) : Prop :=
  exists st, parseArgs recv_flags args = inr (st, [ro_Code opts]) /\ flag_bool st "json" = false /\
    flag_bool st "no-local" = true /\ flag_string st "to" = ro_Destination opts.

Lemma runRecv_exact args opts (QR : RecvResult -> host V -> Prop) c : asks_to_receive args opts ->
  (forall base pw, wp anyh (Recv (net (Remote base pw)) (Getwd env) opts) (fun r h => forall res, r = inr res -> QR res h) (c_host c)) ->
  wp any (runRecv net mounted env args) (fun z c' => z = 0%Z ->
    exists res, c_out c' = (c_out c ++ [Line [Str (rr_Path res)]])%list /\ QR res (c_host c')) c.
Proof.
  intros (st & Hp & Hj & Hl & Hto) Hrecv. unfold runRecv, with_flags. rewrite Hp. cbv zeta. rewrite Hj, Hl, Hto.
  destruct (NormalizeCode (ro_Code opts)); [|apply failed_ok]. assert (Hk : kept c c) by by split.
  apply wp_bind, (wp_looking _ _ c); [apply looking_LoadClient|done|]. intros saved c2 H2. apply wp_bind. cbn [wp]. unfold recvRemote.
  apply or_fail_ok, (remoteClient_kept _ _ _ c); [done|done|]. intros base pw c3 [H3 H4] t [= <-].
  apply or_fail_ok, (wp_on_host _ (fun r h => forall res, r = inr res -> QR res h)).
  { rewrite H3. replace (mkRecvOptions (ro_Code opts) (ro_Destination opts)) with opts by (by destruct opts). apply Hrecv. }
  intros r h Hr res ->. specialize (Hr res eq_refl).
  assert (Hend : forall c4, c_out c4 = c_out c -> c_host c4 = h ->
    wp any (print (Line [Str (rr_Path res)]) ;;; Ret 0%Z) (fun z c' => z = 0%Z ->
      exists res, c_out c' = (c_out c ++ [Line [Str (rr_Path res)]])%list /\ QR res (c_host c')) c4).
  { intros c4 Ho Hh. apply (printed_ok _ (fun c' => exists res, c_out c' = (c_out c ++ [Line [Str (rr_Path res)]])%list /\ QR res (c_host c'))).
    exists res. cbn. by rewrite Ho, Hh. }
  case_match; [by apply Hend|]. apply wp_bind. apply wp_bind. case_match.
  - apply wp_act_, Hend; done.
  - apply wp_act_, wp_act_, Hend; done.
Qed.
End exact.

(** ** Both ends *)
Section both.
Context {UC : Unicode} {EX : Externals} {EL : ExternalsLaws} {MC : ManifestCodec} {ML : ManifestCodecLaws}.
Context {PK : Packer} {SC : SessionCodec} {CC : ConfigCodec} {A2 : Argon2}.
Context (Hpacker : forall level l out, tar_zst level l = Some out -> (slen out < 2^63)%Z).
Context (cfg : Server) (ready : bool).
Context (mounted : world -> string -> option tree) (runServe : list string -> prog (console world) Z).
#[local] Existing Instance strictly.

(** The server is behind every URL, and nothing answers on a socket. *)
Definition public_net (t : target) : message -> prog world response :=
  match t with Remote _ _ => serve cfg (public_routes ready) | Socket _ => fun _ => Ret not_found end.
Notation sss env := (Main public_net mounted env runServe).

(** A command line, under the name of the program or an alias, runs [cmd] with [args]. *)
Definition command_line (argv : list string) (cmd : string) (args : list string) : Prop :=
  exists argv0 l, argv = argv0 :: l /\ arguments argv0 l = cmd :: args.

Lemma main_send env argv args : command_line argv "send" args -> sss env argv = runSend public_net env args.
Proof. intros (argv0 & l & -> & Ha). cbn [Main]. by rewrite Ha. Qed.
Lemma main_recv env argv args : command_line argv "recv" args -> sss env argv = runRecv public_net mounted env args.
Proof. intros (argv0 & l & -> & Ha). cbn [Main]. by rewrite Ha. Qed.

End both.

(** ** sssend docs --note papers at a desk, ssrecv CODE --to box elsewhere *)
#[export] Instance demo_config_codec : ConfigCodec := {| config_Marshal := fun _ => None; config_Unmarshal := fun _ => None |}.
Definition demo_env : environment := {|
  Getenv name := if (name =? "SSS_URL")%string then "https://drop.example.com" else if (name =? "SSS_PASSWORD")%string then "hunter2"
                 else if (name =? "SSS_STATE_DIR")%string then ".sss" else "";
  UserConfigDir := Some "/home/u/.config"%string; UserCacheDir := None; TempDir := "/tmp"; Stdin := mkReader [] false;
  terminal := None; random16 := None; Getwd := Handoff.cwd |}.
Definition demo_main (argv : list string) (w : world) (t : tree) : option Z * console world :=
  run (Main (public_net Demo.cfg true) (fun _ _ => None) demo_env (fun _ => Ret 8%Z) argv) [] (mkConsole (mkHost w t) [] []).
Definition send_line : list string := ["/usr/bin/sssend"; "docs"; "--note"; "papers"]%string.
Definition sent_console : console world := snd (demo_main send_line boot desk).
Definition recv_line (code : string) : list string := ["sss"; "recv"; "--no-local"; code; "--to=box"]%string.

Definition recv_console : console world := snd (demo_main (recv_line "29GQ-Y5CK") (peer (c_host sent_console)) home).

Lemma demo_asks_send : asks_to_send demo_env ["docs"; "--note"; "papers"]%string docs.
Proof. eexists. split; [vm_compute; reflexivity|]. repeat split. Qed.
Lemma demo_asks_receive : asks_to_receive ["--no-local"; "29GQ-Y5CK"; "--to=box"]%string (mkRecvOptions "29GQ-Y5CK" "box").
Proof. eexists. split; [vm_compute; reflexivity|]. repeat split. Qed.
Lemma sent_out : fst (demo_main send_line boot desk) = Some 0%Z /\ c_out sent_console = [Line [Str "29GQ-Y5CK"]].
Proof. split; vm_compute; reflexivity. Qed.
Lemma sent_run : demo_main send_line boot desk = (Some 0%Z, sent_console).
Proof. pose proof (proj1 sent_out) as E. unfold sent_console. destruct (demo_main send_line boot desk) as [o c]. cbn in *. by subst. Qed.
Lemma recv_run : demo_main (recv_line "29GQ-Y5CK") (peer (c_host sent_console)) home = (Some 0%Z, recv_console).
Proof.
  assert (E : fst (demo_main (recv_line "29GQ-Y5CK") (peer (c_host sent_console)) home) = Some 0%Z) by (vm_compute; reflexivity).
  unfold recv_console. destruct (demo_main (recv_line "29GQ-Y5CK") _ _) as [o c]. cbn in *. by subst.
Qed.
Lemma sent_unexpired tr : resolves (peer (c_host sent_console)) "29GQ-Y5CK" tr -> (clock (peer (c_host sent_console)) < t_ExpiresAt tr)%Z.
Proof.
  intros (c & r & _ & Hr & -> & _ & Hc).
  assert (H : map_Forall (fun _ r => (clock (peer (c_host sent_console)) <? time_from_null (c_expires_at r))%Z = true) (transfers (db (peer (c_host sent_console))))).
  { by apply map_Forall_to_list; vm_compute; repeat constructor. }
  apply Z.ltb_lt. exact (H _ _ Hr).
Qed.


Lemma one_result_on_stdout_witness : one_result (mkConsole (mkHost boot desk) [] []) 0 sent_console.
Proof.
  apply (one_result_on_stdout (public_net Demo.cfg true) (fun _ _ => None) demo_env (fun _ => Ret 8%Z) "/usr/bin/sssend" ["docs"; "--note"; "papers"]%string
    "send" ["docs"; "--note"; "papers"]%string (mkConsole (mkHost boot desk) [] []) [] 0%Z sent_console).
  - vm_compute. reflexivity.
  - by left.
  - pose proof sent_run as E. unfold demo_main in E. exact E.
Defined.

(** A payload of the daemon, copied to [copy]. *)
Definition demo_payload : tree := <[["a.txt"%string] := NFile "hi" 292 None]> {[ [] := NDir 365 None ]}.
Definition local_copy : option (string + string) * host unit :=
  run (copyLocalPayload demo_env (Some demo_payload) "copy") [] (mkHost tt home).
Lemma local_copy_run : local_copy = (Some (inr "/home/u/copy"%string), snd local_copy).
Proof.
  assert (E : fst local_copy = Some (inr "/home/u/copy"%string)) by (vm_compute; reflexivity).
  destruct local_copy as [o h]. cbn in *. by subst.
Qed.
Lemma local_copy_exact_witness : exists D, "/home/u/copy"%string = rooted D /\ copied_to home demo_payload D (files (snd local_copy)).
Proof.
  assert (Hcwd : Forall (fun c => plain c = true) (Getwd demo_env)) by by repeat constructor.
  assert (Hp : well_formed demo_payload) by (apply well_formedb_sound; vm_compute; reflexivity).
  pose proof local_copy_run as E. unfold local_copy in E at 1.
  destruct (local_copy_exact demo_env Hcwd home home_well_formed demo_payload Hp eq_refl tt "copy" [] _ _ E) as (_ & _ & _ & H).
  exact (H "/home/u/copy"%string eq_refl).
Defined.
