(* ===== verification/Hazards.v ===== *)
(** * What the guarantees do not cover

    The theorems of [Guarantees] serve one request at a time and restart without I/O
    errors.  These runs show that both conditions are needed: handlers take no lock on a
    transfer, SetState and Fail write any row, and reconciliation takes an I/O error for
    missing data. *)
From S2P Require Import Prelude GoStrings GoTime Errors Code Wire Prog Tree Store Config World Service Commit.
From S2P Require Import Janitor Api.
From S2P Require Import System Demo.

Definition state_of (id : string) (w : world) : option tstate := c_state <$> transfers (db w) !! id.
Definition is_live (id : string) (w : world) : bool := bool_decide (is_Some (live w !! id)).
Definition answered_ok {A} (r : ecode + A) : bool := match r with inr _ => true | inl _ => false end.

(** Two commits of the demonstration upload; the second one has checked its segments when
    the first one runs to its end. *)
Definition two_commits : (ecode + CommitResponse * bool) * (ecode + CommitResponse * bool) * world :=
  run2 (repeat false 12) (service_Commit cfg plan_id plan_manifest) (service_Commit cfg plan_id plan_manifest) uploaded.


(** A transfer older than the staging TTL is committed while a cleanup pass runs. *)
Definition overdue : world := set_clock (noon + minutes 400) uploaded.
Definition commit_during_sweep : (ecode + CommitResponse * bool) * (serr + CleanupResult) * world :=
  run2 (repeat false 3) (service_Commit cfg plan_id plan_manifest) (Sweep cfg) overdue.


(** One failed system call at startup deletes an acknowledged transfer.  The live
    directory is complete, a single Stat of its manifest reports an I/O error, and
    reconciliation moves it to the trash and forgets the row. *)
Theorem restart_error_loses_transfer :
  let w := snd (run (reconcile_Run cfg) [Fine; Fine; Alt 0] (reboot sent)) in
  is_live sent_id sent = true /\ state_of sent_id sent = Some StateCommitted /\
  state_of sent_id w = None /\ is_live sent_id w = false /\
  fst (run (OpenDownload cfg sent_code) [] w) = Some (inl TransferNotFound).
Proof. by vm_compute. Qed.

(** A client goes away in the middle of its upload; the request's context is cancelled, so
    releasing the key fails too. *)
Definition gone_post : request := PostSimple keyed_post (Some (take 1 two_chunks, true)).
Definition gone : world := snd (run (handle cfg gone_post) (repeat Fine 10 ++ [Alt 0] ++ repeat Fine 3 ++ [Alt 0]) boot).

(** A cancelled upload keeps its key.  forget is called with the request's own context,
    which is cancelled when the client went away; the key stays in flight, and every retry
    under it is refused with STATE_CONFLICT, 23 hours later still. *)
Theorem cancelled_upload_blocks_retry :
  let later := set_clock (noon + minutes (23 * 60)) gone in
  state_of sent_id gone = Some StateCreated /\
  answer post_chunks gone = Some (WriteError keyed_post [] StateConflict) /\
  answer post_chunks later = Some (WriteError keyed_post [] StateConflict).
Proof. by vm_compute. Qed.

(** Reconciliation can leave a COMMITTED row without a payload.  If the same error is
    followed by a database error, whose result the code ignores, the code still resolves
    after the restart, and its download ends in INTERNAL. *)
Theorem restart_errors_break_invariant :
  let w := snd (run (reconcile_Run cfg) [Fine; Fine; Alt 0; Fine; Fine; Fine; Fine; Fine; Alt 0] (reboot sent)) in
  state_of sent_id w = Some StateCommitted /\ is_live sent_id w = false /\
  fst (run (OpenDownload cfg sent_code) [] w) = Some (inl Internal).
Proof. by vm_compute. Qed.
