(* ===== verification/ClientHazards.v ===== *)
(** * What a receiver and a sender cannot rely on

    Behaviours of internal/client outside the guarantees of [Handoff], [FetchProofs] and
    [Delivery].  Receiving: an interrupted receive leaves files that a later one delivers, the
    names of segments come from the peer unchecked, and bytes on disk are trusted when a
    download resumes.  Sending: a session whose transfer is gone takes its packs with it, and
    one whose transfer failed is never given up. *)
From S2P Require Import Prelude GoStrings Errors Code Paths Manifest Wire Prog Tree Integrity Materialize Store Service World Upload Commit Api.
From S2P Require Import Janitor System Demo Host Net Client Recv RecvProofs FetchProofs Handoff Pack Send PackProofs Delivery.
Local Open Scope prog_scope.

(** ** Leftovers *)

(** A server that holds the plan's transfer and a later one with a single file. *)
Definition both : world := after post_chunks committed.
Definition chunks_code : string := shown (Demo.answer post_chunks committed).
Definition killed : option (string + RecvResult) * host world := receive both plan_code "box" (repeat Fine 75 ++ [Crash]).
Definition later : option (string + RecvResult) * host world :=
  run (Recv (serve Demo.cfg (public_routes true)) Handoff.cwd (mkRecvOptions chunks_code "box")) [] (snd killed).


(** ** Names of segments *)

(** A peer whose claim names its only segment [../../loot]. *)
Definition loot_claim : ClaimResponse :=
  mkClaimResponse "c" "t" 0 (mkManifest 1 "t" 0 "" [] "blake3" [] [])
    [mkClaimSegment "../../loot" "pack" 2 (HashBytes "hi") "/v1/segment" "" 0].
Definition hostile (m : message) : prog unit response :=
  Ret (match m_payload m with
       | PClaim _ => Api.mkResponse 201 [] (BClaim loot_claim)
       | _ => Api.mkResponse 200 [] (BText "hi")
       end).

Definition looted : option (string + RecvResult) * host unit :=
  run (Recv hostile Handoff.cwd (mkRecvOptions plan_code "box")) [] (mkHost tt home).


(** ** Bytes on disk *)

Lemma exec_fs {V A : Type} (c : prog tree A) (h : host V) :
  exec (fs c) h = let '(a, t) := exec c (files h) in (a, set_files t h).
Proof. apply exec_lift; [done|done|by intros []]. Qed.
Lemma exec_act {W R : Type} (step : W -> R * W) alts w : exec (act step alts) w = step w.
Proof. unfold act. cbn. by destruct (step w). Qed.

(** Resuming trusts what is on disk.  A file of the declared length, a multiple of the
    group size, is accepted without a request and without a look at its bytes, whatever they
    are: fetchVerified does not say where the file comes from, and the fallback of
    fetchOneSegment writes unproved bytes to the same path. *)
Theorem resumed_bytes_trusted `{Externals} {V : Type} (serve : message -> prog V response) token seg p outboard (t : tree) v d m mt :
  t !! p = Some (NFile d m mt) -> slen d = cs_Length seg -> (GroupSize | slen d)%Z ->
  exists t', run (fetchVerified serve token seg p outboard) [] (mkHost v t) = (Some (inr tt), mkHost v t') /\ look t' p = Some (CFile d).
Proof.
  intros Ht Hlen [q Hq]. pose proof (slen_nonneg d) as H0. exists (edit p (truncate (slen d)) t). split.
  2:{ erewrite edit_here by (unfold look; by rewrite Ht). by rewrite truncate_stake, stake_all by lia. }
  assert (Hr : resume_offset (cs_Length seg) (inr (NFile d m mt)) = slen d).
  { unfold resume_offset, node_size. rewrite Z.rem_mod_nonneg, Hq, Z.mod_mul by group_lia. rewrite <- Hlen.
    destruct (Z.ltb_spec (slen d) (q * GroupSize - 0)); lia. }
  rewrite run_nil. unfold fetchVerified, orE. unfold OpenFile, Stat, Truncate, Sync.
  rewrite exec_bind, exec_fs, exec_act. unfold create. cbn [files]. rewrite Ht.
  rewrite exec_bind, exec_fs, exec_act. cbn [files set_files peer]. rewrite Ht, Hr. destruct (Z.leb_spec 0 (slen d)); [|lia].
  rewrite exec_bind, exec_fs, exec_act. cbn [files set_files peer].
  assert (groups_left (cs_Length seg) (slen d) = O) as ->.
  { unfold groups_left. rewrite <- Hlen, Z.sub_diag. by vm_compute. }
  unfold bindE. rewrite exec_bind. cbn [fetch_groups exec]. rewrite exec_bind, exec_fs, exec_act. done.
Qed.

(** The file of a killed download that no tree covered. *)
Lemma resumed_bytes_trusted_witness :
  let spoilt := string_of_list_ascii (repeat "x"%char (Z.to_nat 65536)) in
  let t : tree := {[ ["s"%string] := NFile spoilt 384 None ]} in
  exists t', run (fetchVerified hostile "t" (mkClaimSegment "s" "pack" 65536 (HashBytes "other") "/p" "/o" 8192) ["s"%string] "tree") []
    (mkHost tt t) = (Some (inr tt), mkHost tt t') /\ look t' ["s"%string] = Some (CFile spoilt).
Proof.
  cbv zeta. assert (Hl : slen (string_of_list_ascii (repeat "x"%char (Z.to_nat 65536))) = 65536%Z) by by vm_compute.
  revert Hl. generalize (string_of_list_ascii (repeat "x"%char (Z.to_nat 65536))). intros d Hl.
  eapply resumed_bytes_trusted; [by apply lookup_singleton_eq|exact Hl|rewrite Hl; by exists 1%Z].
Defined.

(** ** Sessions *)

Definition send_to (v : world) (t : tree) : option (string + SendResult) * host world :=
  run (Send demo_server "http://sss" Handoff.cwd docs) [] (mkHost v t).

(** A send that is killed once its pack is uploaded, and the server that forgot the transfer. *)
Definition cut_short : tree := files (snd (desk_send (repeat Fine 60 ++ [Crash]))).
Definition pack_file : path :=
  match List.find (fun p => existsb (String.eqb "p-0000.tar.zst") p) (map fst (map_to_list cut_short)) with Some p => p | None => [] end.

(** A session whose transfer is gone takes the packs with it.  Send reuses the pack of the
    session, finds that the server does not know the transfer, removes the session and with it
    the pack it is about to upload, and answers SOURCE_CHANGED; the sources are unchanged. *)
Theorem dead_session_loses_packs :
  look cut_short pack_file = Some (CFile "PACK") /\ fst (send_to boot cut_short) = Some (inl (err SourceChanged)) /\
  look (files (snd (send_to boot cut_short))) pack_file = None /\
  look (files (snd (send_to boot cut_short))) ["home"; "u"; "docs"; "b.txt"]%string = Some (CFile "hi").
Proof. repeat apply conj; vm_compute; reflexivity. Qed.

(** A server that is killed during the commit, restarts and marks the transfer FAILED; the
    sender is killed with it. *)
Definition broken_off : host world := snd (desk_send (repeat Fine 80 ++ [Crash])).
Definition recovered : world := snd (run (reconcile_Run Demo.cfg) [] (reboot (peer broken_off))).
Definition second_try : option (string + SendResult) * host world := send_to recovered (files broken_off).

(** A failed transfer is never given up.  The upload of a FAILED transfer still answers
    its offset, so the session counts as alive; the commit is refused, the session stays, and
    the next try ends the same way. *)
Theorem failed_transfer_blocks_sender :
  map (fun r => c_state (snd r)) (map_to_list (transfers (db recovered))) = [StateFailed] /\
  fst second_try = Some (inl (err StateConflict)) /\
  fst (send_to (peer (snd second_try)) (files (snd second_try))) = Some (inl (err StateConflict)).
Proof. repeat apply conj; vm_compute; reflexivity. Qed.
